(** * A boundary-tag allocator with an explicit free list (myalloc.c)

    Shallow embedding of the CS24 allocator of this repository and the
    properties of its specification.

    Data model.  The allocator works on raw memory.  Memory is a map from
    addresses to bytes; the pool is the window [mem, mem + MEMORY_SIZE) of it.
    An [int] is four bytes, little endian, two's complement; a pointer is
    eight bytes; [struct node] is laid out as on an LP64 machine, which is what
    the source assumes (myrealloc copies "the padding after the int tag in the
    header struct"):

      offset 0   int space
      offset 4   4 bytes of padding
      offset 8   struct node *next
      offset 16  struct node *prev          sizeof(node) = 24

    Reads are total: a read outside the pool yields whatever the host memory
    holds there.  Loops that walk memory take fuel; running out of fuel stands
    for a loop that does not terminate, [abort()] and a failed [assert] are
    [None] as well. *)

From Stdlib Require Import ZArith List Lia Bool Permutation.
Import ListNotations.
Local Open Scope Z_scope.

(* ------------------------------------------------------------------ *)
(** ** Bytes, ints and pointers in memory *)

Definition memory := Z -> Z.

Definition load_byte (m : memory) (a : Z) : Z := m a mod 256.

Definition store_byte (m : memory) (a v : Z) : memory :=
  fun x => if x =? a then v mod 256 else m x.

(** Little-endian unsigned value of the [n] bytes at [a]. *)
Fixpoint load_le (m : memory) (a : Z) (n : nat) : Z :=
  match n with
  | O => 0
  | S k => load_byte m a + 256 * load_le m (a + 1) k
  end.

(** Little-endian store of the low [n] bytes of [v] at [a]; flooring division
    makes this two's complement for negative [v]. *)
Fixpoint store_le (m : memory) (a : Z) (n : nat) (v : Z) : memory :=
  match n with
  | O => m
  | S k => store_le (store_byte m a v) (a + 1) k (v / 256)
  end.

Definition signed32 (u : Z) : Z := if u <? 2 ^ 31 then u else u - 2 ^ 32.

(** Conversion of an integer value to [int] and to [size_t]. *)
Definition to_int (z : Z) : Z := signed32 (z mod 2 ^ 32).
Definition to_size_t (z : Z) : Z := z mod 2 ^ 64.

Definition load_int (m : memory) (a : Z) : Z := signed32 (load_le m a 4).
Definition store_int (m : memory) (a v : Z) : memory := store_le m a 4 v.
Definition load_ptr (m : memory) (a : Z) : Z := load_le m a 8.
Definition store_ptr (m : memory) (a v : Z) : memory := store_le m a 8 v.

Definition sizeof_int : Z := 4.
Definition sizeof_ptr : Z := 8.
Definition sizeof_node : Z := 24.
Definition off_space : Z := 0.
Definition off_next : Z := 8.
Definition off_prev : Z := 16.
Definition NULL : Z := 0.

(* ------------------------------------------------------------------ *)
(** ** The allocator state: the three globals and the memory *)

Record state := mkState {
  MEMORY_SIZE : Z;
  mem : Z;
  freeList : Z;
  bytes : memory
}.

Definition set_bytes (st : state) (m : memory) : state :=
  mkState (MEMORY_SIZE st) (mem st) (freeList st) m.

Definition set_freeList (st : state) (p : Z) : state :=
  mkState (MEMORY_SIZE st) (mem st) p (bytes st).

Definition node_space (st : state) (h : Z) : Z := load_int (bytes st) (h + off_space).
Definition node_next (st : state) (h : Z) : Z := load_ptr (bytes st) (h + off_next).
Definition node_prev (st : state) (h : Z) : Z := load_ptr (bytes st) (h + off_prev).

Definition write_int (st : state) (a v : Z) : state := set_bytes st (store_int (bytes st) a v).
Definition write_ptr (st : state) (a v : Z) : state := set_bytes st (store_ptr (bytes st) a v).
Definition write_byte (st : state) (a v : Z) : state := set_bytes st (store_byte (bytes st) a v).

Definition set_space (st : state) (h v : Z) : state := write_int st (h + off_space) v.
Definition set_next (st : state) (h v : Z) : state := write_ptr st (h + off_next) v.
Definition set_prev (st : state) (h v : Z) : state := write_ptr st (h + off_prev) v.

(** Fuel for the two loops that walk memory: there are fewer blocks than
    bytes in the pool. *)
Definition fuel (st : state) : nat := S (Z.to_nat (MEMORY_SIZE st)).

(* ------------------------------------------------------------------ *)
(** ** Node functions *)

(** [addNode]: push at the head of the free list. *)
Definition addNode (st : state) (newNode : Z) : state :=
  let oldFirstNode := freeList st in
  let st := set_next st newNode oldFirstNode in
  let st := set_prev st newNode NULL in
  let st := set_freeList st newNode in
  if oldFirstNode =? NULL then st else set_prev st oldFirstNode newNode.

(** [removeNode]: unlink a node and repair the links around it. *)
Definition removeNode (st : state) (badNode : Z) : state :=
  let prevNode := node_prev st badNode in
  let nextNode := node_next st badNode in
  let st := if prevNode =? NULL then set_freeList st nextNode
            else set_next st prevNode nextNode in
  if nextNode =? NULL then st else set_prev st nextNode prevNode.

(** [coalesce]: merge the free block at [headptrB] into the one at
    [headptrA] just before it. *)
Definition coalesce (st : state) (headptrA headptrB : Z) : state :=
  let newSpace := to_int (node_space st headptrA + node_space st headptrB + 2 * sizeof_int) in
  let st := set_space st headptrA newSpace in
  let footptr := headptrA + newSpace + sizeof_int in
  let st := write_int st footptr newSpace in
  removeNode st headptrB.

(* ------------------------------------------------------------------ *)
(** ** Helper functions *)

(** [splitBlock]: cut a free block in two, the first of payload [size];
    returns the header of the second. *)
Definition splitBlock (st : state) (headptr size : Z) : state * Z :=
  let dataptr := headptr in
  let space := node_space st headptr in
  let footptr := dataptr + sizeof_int + space in
  let newFootptr := dataptr + sizeof_int + size in
  let newHeadptr := newFootptr + sizeof_int in
  let newSpace := to_int (space - size - 2 * sizeof_int) in
  let st := set_space st headptr size in
  let st := write_int st newFootptr size in
  let st := set_space st newHeadptr newSpace in
  let st := write_int st footptr newSpace in
  (st, newHeadptr).

(** The loop of [findHead].  [lowest] is uninitialised in the source until
    the first fitting block is seen; it is only read when [resultptr] is not
    null. *)
Fixpoint findHead_loop (n : nat) (st : state) (size headptr resultptr lowest : Z)
  : option Z :=
  match n with
  | O => None
  | S k =>
    if headptr =? NULL then Some resultptr
    else
      let space := node_space st headptr in
      if space =? size then Some headptr
      else if space >? size then
        if (resultptr =? NULL) || (space <? lowest)
        then findHead_loop k st size (node_next st headptr) headptr space
        else findHead_loop k st size (node_next st headptr) resultptr lowest
      else findHead_loop k st size (node_next st headptr) resultptr lowest
  end.

Definition findHead (st : state) (size : Z) : option Z :=
  findHead_loop (fuel st) st size (freeList st) NULL 0.

(** The loop of [checkMem]. *)
Fixpoint checkMem_loop (n : nat) (st : state) (dataptr freeMem allocMem : Z)
  : option Z :=
  match n with
  | O => None
  | S k =>
    if dataptr =? mem st + MEMORY_SIZE st then Some (allocMem + freeMem)
    else
      let space := node_space st dataptr in
      let blockSize := to_int (Z.abs space + 2 * sizeof_int) in
      if space <? 0
      then checkMem_loop k st (dataptr + blockSize) freeMem (allocMem + blockSize)
      else checkMem_loop k st (dataptr + blockSize) (freeMem + blockSize) allocMem
  end.

Definition checkMem (st : state) : option Z :=
  checkMem_loop (fuel st) st (mem st) 0 0.

(** [assert(checkMem() == MEMORY_SIZE)]. *)
Definition assert_checkMem (st : state) : bool :=
  match checkMem st with
  | Some n => n =? MEMORY_SIZE st
  | None => false
  end.

(** [isValid]: 0 when the address cannot be freed, 1 when it may. *)
Definition isValid (st : state) (oldptr : Z) : Z :=
  if (mem st + sizeof_int >? oldptr) || (mem st + MEMORY_SIZE st - sizeof_int <? oldptr)
  then 0
  else
    let space := - load_int (bytes st) (oldptr - sizeof_int) in
    if (space <? 0) || (oldptr + space >? mem st + MEMORY_SIZE st - sizeof_int)
    then 0
    else if negb (load_int (bytes st) (oldptr + space) =? - space)
    then 0
    else 1.

(* ------------------------------------------------------------------ *)
(** ** Allocator functions *)

(** [init_myalloc] on a pool of [size] bytes that the host placed at [base],
    with contents [m0]. *)
Definition init_myalloc (size base : Z) (m0 : memory) : state :=
  let st := mkState size base NULL m0 in
  let headptr := mem st in
  let space := to_int (MEMORY_SIZE st - 2 * sizeof_int) in
  let st := set_space st headptr space in
  let st := addNode st headptr in
  let footptr := headptr + sizeof_int + space in
  write_int st footptr space.

(** The macro [MAX(X, Y)] at its one use, [MAX(size, sizeof(node) - sizeof(int))]:
    the comparison and the result are in [size_t]. *)
Definition MAX (x y : Z) : Z :=
  if to_size_t x >? to_size_t y then to_size_t x else to_size_t y.

(** [myalloc]: the state after the call and the pointer returned. *)
Definition myalloc (st : state) (size : Z) : option (state * Z) :=
  match findHead st size with
  | None => None
  | Some headptr =>
    if headptr =? NULL then Some (st, NULL)
    else
      let space := node_space st headptr in
      let size := to_int (MAX size (sizeof_node - sizeof_int)) in
      let st :=
        if to_size_t space >? to_size_t (to_size_t size + sizeof_int + sizeof_node)
        then let (st', newHeadptr) := splitBlock st headptr size in
             addNode st' newHeadptr
        else st in
      let st := removeNode st headptr in
      let space := node_space st headptr in
      let resultptr := headptr + sizeof_int in
      let footptr := resultptr + space in
      let st := set_space st headptr (- space) in
      let st := write_int st footptr (- space) in
      if assert_checkMem st then Some (st, resultptr) else None
  end.

(** First part of [myfree]: flip the tags and push the block. *)
Definition myfree_mark (st : state) (oldptr : Z) : state :=
  let dataptr := oldptr - sizeof_int in
  let headptr := dataptr in
  let space := - node_space st headptr in
  let footptr := oldptr + space in
  let st := set_space st headptr space in
  let st := write_int st footptr space in
  addNode st headptr.

(** "Coalesce backward logic" of [myfree]: the state, and the header and
    payload size of the block that is current afterwards. *)
Definition myfree_backward (st : state) (dataptr space : Z) : state * Z * Z :=
  if negb (dataptr =? mem st)
  then
    let prevFootptr := dataptr - sizeof_int in
    let prevSpace := load_int (bytes st) prevFootptr in
    if prevSpace >? 0
    then
      let prevHeadptr := dataptr - prevSpace - 2 * sizeof_int in
      let st := coalesce st prevHeadptr dataptr in
      (st, prevHeadptr, node_space st prevHeadptr)
    else (st, dataptr, space)
  else (st, dataptr, space).

(** "Coalesce forward logic" of [myfree]. *)
Definition myfree_forward (st : state) (dataptr space : Z) : state :=
  let endptr := dataptr + space + 2 * sizeof_int in
  if negb (endptr =? mem st + MEMORY_SIZE st)
  then
    let nextHeadptr := endptr in
    if node_space st nextHeadptr >? 0
    then coalesce st dataptr nextHeadptr
    else st
  else st.

(** [myfree], without the final assertion. *)
Definition myfree_body (st : state) (oldptr : Z) : state :=
  let dataptr := oldptr - sizeof_int in
  let space := - node_space st dataptr in
  let st := myfree_mark st oldptr in
  let '(st, dataptr, space) := myfree_backward st dataptr space in
  myfree_forward st dataptr space.

Definition myfree (st : state) (oldptr : Z) : option state :=
  if isValid st oldptr =? 0 then None
  else
    let st := myfree_body st oldptr in
    if assert_checkMem st then Some st else None.

(** The byte loop at the end of [myrealloc], [n] iterations from offset [i]. *)
Fixpoint copy_loop (n : nat) (m : memory) (newptr oldptr i : Z) : memory :=
  match n with
  | O => m
  | S k => copy_loop k (store_byte m (newptr + i) (load_byte m (oldptr + i)))
                     newptr oldptr (i + 1)
  end.

(** The "reallocating is not possible" branch of [myrealloc]. *)
Definition myrealloc_undo (st : state)
  (oldHeadptr oldSpace oldFootptr tempA tempB prevHeadptr prevSpace nextHeadptr : Z)
  : state :=
  let st :=
    if negb (prevHeadptr =? NULL) && negb (nextHeadptr =? NULL)
    then
      let st := fst (splitBlock st prevHeadptr prevSpace) in
      let st := fst (splitBlock st oldHeadptr oldSpace) in
      addNode st nextHeadptr
    else if negb (prevHeadptr =? NULL)
    then fst (splitBlock st prevHeadptr prevSpace)
    else if negb (nextHeadptr =? NULL)
    then
      let st := fst (splitBlock st oldHeadptr oldSpace) in
      let st := addNode st nextHeadptr in
      removeNode st oldHeadptr
    else removeNode st oldHeadptr in
  let st := set_space st oldHeadptr (- oldSpace) in
  let st := set_next st oldHeadptr tempA in
  let st := set_prev st oldHeadptr tempB in
  write_int st oldFootptr (- oldSpace).

(** The copy at the end of [myrealloc]. *)
Definition myrealloc_copy (st : state) (oldptr newptr size tempA tempB : Z) : state :=
  let newDataptr := newptr - sizeof_int in
  let newHeadptr := newDataptr in
  let nSpace := - node_space st newHeadptr in
  let st := write_int st newptr (load_int (bytes st) oldptr) in
  let st := set_next st newHeadptr tempA in
  let st := set_prev st newHeadptr tempB in
  let i := sizeof_node - sizeof_int in
  set_bytes st (copy_loop (Z.to_nat (Z.min nSpace size - i)) (bytes st) newptr oldptr i).

Definition myrealloc (st : state) (oldptr size : Z) : option (state * Z) :=
  let oldDataptr := oldptr - sizeof_int in
  let oldHeadptr := oldDataptr in
  let oldSpace := - node_space st oldHeadptr in
  let oldFootptr := oldptr + oldSpace in
  let endptr := oldFootptr + sizeof_int in
  let tempA := node_next st oldHeadptr in
  let tempB := node_prev st oldHeadptr in
  let prevSpace :=
    if negb (oldDataptr =? mem st)
    then load_int (bytes st) (oldDataptr - sizeof_int) else 0 in
  let prevHeadptr :=
    if negb (oldDataptr =? mem st) && (prevSpace >? 0)
    then oldDataptr - prevSpace - 2 * sizeof_int else NULL in
  let nextHeadptr :=
    if negb (endptr =? mem st + MEMORY_SIZE st) && (load_int (bytes st) endptr >? 0)
    then endptr else NULL in
  match myfree st oldptr with
  | None => None
  | Some st =>
    match myalloc st size with
    | None => None
    | Some (st, newptr) =>
      if newptr =? NULL
      then Some (myrealloc_undo st oldHeadptr oldSpace oldFootptr tempA tempB
                                prevHeadptr prevSpace nextHeadptr, NULL)
      else Some (myrealloc_copy st oldptr newptr size tempA tempB, newptr)
    end
  end.

(** [allocate] of simpletest.c: allocate and fill with a byte. *)
Fixpoint fill_loop (n : nat) (m : memory) (block i fill : Z) : memory :=
  match n with
  | O => m
  | S k => fill_loop k (store_byte m (block + i) fill) block (i + 1) fill
  end.

Definition allocate (st : state) (size fill : Z) : option (state * Z) :=
  match myalloc st size with
  | None => None
  | Some (st, block) =>
    if block =? NULL then Some (st, block)
    else Some (set_bytes st (fill_loop (Z.to_nat size) (bytes st) block 0 fill), block)
  end.

(* ------------------------------------------------------------------ *)
(** ** The heap as a sequence of blocks

    The pool read from left to right is a list of blocks; [Free s] and
    [Used s] carry the payload size.  The free list is the list of the header
    addresses it links, in list order. *)

Inductive block : Type :=
| Free (s : Z)
| Used (s : Z).

Definition size (b : block) : Z := match b with Free s => s | Used s => s end.
Definition is_free (b : block) : bool := match b with Free _ => true | Used _ => false end.
Definition tag (b : block) : Z := match b with Free s => s | Used s => - s end.

(** Bytes a block takes: payload and the two tags. *)
Definition extent (b : block) : Z := size b + 2 * sizeof_int.

Fixpoint total (bs : list block) : Z :=
  match bs with
  | [] => 0
  | b :: r => extent b + total r
  end.

Fixpoint layout (a : Z) (bs : list block) : list (Z * block) :=
  match bs with
  | [] => []
  | b :: r => (a, b) :: layout (a + extent b) r
  end.

Fixpoint free_addrs (a : Z) (bs : list block) : list Z :=
  match bs with
  | [] => []
  | b :: r => (if is_free b then [a] else []) ++ free_addrs (a + extent b) r
  end.

Fixpoint used_addrs (a : Z) (bs : list block) : list Z :=
  match bs with
  | [] => []
  | b :: r => (if is_free b then [] else [a]) ++ used_addrs (a + extent b) r
  end.

(** A block must be able to hold the two links once it is free. *)
Definition min_payload : Z := sizeof_node - sizeof_int.

Definition sizes_ok (bs : list block) : Prop :=
  Forall (fun b => min_payload <= size b) bs.

Definition tag_ok (m : memory) (xb : Z * block) : Prop :=
  load_int m (fst xb) = tag (snd xb) /\
  load_int m (fst xb + sizeof_int + size (snd xb)) = tag (snd xb).

Definition tags_ok (m : memory) (a : Z) (bs : list block) : Prop :=
  Forall (tag_ok m) (layout a bs).

(** The doubly linked list from [p], whose first node has [prev] as its
    back link, visits exactly [fl] and ends in null. *)
Fixpoint dll (m : memory) (prev p : Z) (fl : list Z) : Prop :=
  match fl with
  | [] => p = NULL
  | h :: t =>
    p = h /\ h <> NULL /\ load_ptr m (h + off_prev) = prev /\
    dll m h (load_ptr m (h + off_next)) t
  end.

(** No two neighbours in the pool are both free. *)
Fixpoint no_adjacent_free (bs : list block) : Prop :=
  match bs with
  | [] => True
  | b :: r =>
    match r with
    | [] => True
    | c :: _ => (is_free b && is_free c = false) /\ no_adjacent_free r
    end
  end.

(** What every phase of an operation keeps: the tags describe [bs], the list
    from [freeList] is [fl], and [fl] links free blocks only, each once. *)
Record Heap (st : state) (bs : list block) (fl : list Z) : Prop := mkHeap {
  heap_total : total bs = MEMORY_SIZE st;
  heap_int : MEMORY_SIZE st < 2 ^ 31;
  heap_base : 0 < mem st;
  heap_top : mem st + MEMORY_SIZE st < 2 ^ 64;
  heap_sizes : sizes_ok bs;
  heap_tags : tags_ok (bytes st) (mem st) bs;
  heap_dll : dll (bytes st) NULL (freeList st) fl;
  heap_nodup : NoDup fl;
  heap_incl : incl fl (free_addrs (mem st) bs)
}.

(** What holds between operations: moreover every free block is on the list
    and free blocks are coalesced. *)
Record Inv (st : state) (bs : list block) (fl : list Z) : Prop := mkInv {
  inv_heap : Heap st bs fl;
  inv_all : incl (free_addrs (mem st) bs) fl;
  inv_adj : no_adjacent_free bs
}.

(* ------------------------------------------------------------------ *)
(** ** Definitions used to state and prove the invariant *)

(** Nodes of a list lie a whole [node] apart, so their fields do not overlap. *)
Definition separated (l : list Z) : Prop :=
  forall g1 g2, In g1 l -> In g2 l -> g1 = g2 \/ g1 + 24 <= g2 \/ g2 + 24 <= g1.

(** The writes of [removeNode]. *)
Definition unlink_mem (m : memory) (badNode : Z) : memory :=
  let prevNode := load_ptr m (badNode + off_prev) in
  let nextNode := load_ptr m (badNode + off_next) in
  let m1 := if prevNode =? NULL then m else store_ptr m (prevNode + off_next) nextNode in
  if nextNode =? NULL then m1 else store_ptr m1 (nextNode + off_prev) prevNode.

(** [findHead] on the list of nodes it visits. *)
Fixpoint scan (st : state) (size : Z) (fl : list Z) (resultptr lowest : Z) : Z :=
  match fl with
  | [] => resultptr
  | h :: t =>
    let space := node_space st h in
    if space =? size then h
    else if space >? size then
      if (resultptr =? NULL) || (space <? lowest)
      then scan st size t h space
      else scan st size t resultptr lowest
    else scan st size t resultptr lowest
  end.

(** Whether a sequence of blocks starts with a free block. *)
Definition hd_free (l : list block) : bool :=
  match l with
  | [] => false
  | b :: _ => is_free b
  end.

(** Whether a sequence of blocks ends with a free block. *)
Fixpoint last_free (l : list block) : bool :=
  match l with
  | [] => false
  | b :: r => match r with [] => is_free b | _ :: _ => last_free r end
  end.

(** The part of [myalloc] after a block was found, before the assertion. *)
Definition myalloc_take (st : state) (headptr size0 : Z) : state :=
  let space := node_space st headptr in
  let size := to_int (MAX size0 (sizeof_node - sizeof_int)) in
  let st :=
    if to_size_t space >? to_size_t (to_size_t size + sizeof_int + sizeof_node)
    then let (st', newHeadptr) := splitBlock st headptr size in
         addNode st' newHeadptr
    else st in
  let st := removeNode st headptr in
  let space := node_space st headptr in
  let resultptr := headptr + sizeof_int in
  let footptr := resultptr + space in
  let st := set_space st headptr (- space) in
  write_int st footptr (- space).

(** The heap after releasing the block [Used s] between [pre] and [post]. *)
Definition free_shape (a : Z) (pre post : list block) (s : Z) (fl : list Z)
           (bs' : list block) (fl' : list Z) : Prop :=
  (last_free pre = false /\ hd_free post = false /\
   bs' = pre ++ Free s :: post /\ fl' = (a + total pre) :: fl)
  \/
  (hd_free post = false /\
   exists pre' sc, pre = pre' ++ [Free sc] /\
     bs' = pre' ++ Free (sc + s + 8) :: post /\ fl' = fl)
  \/
  (last_free pre = false /\
   exists sd post' f1 f2, post = Free sd :: post' /\
     fl = f1 ++ (a + total pre + s + 8) :: f2 /\
     bs' = pre ++ Free (s + sd + 8) :: post' /\ fl' = (a + total pre) :: f1 ++ f2)
  \/
  (exists pre' sc sd post' f1 f2, pre = pre' ++ [Free sc] /\ post = Free sd :: post' /\
     fl = f1 ++ (a + total pre + s + 8) :: f2 /\
     bs' = pre' ++ Free (sc + s + 8 + sd + 8) :: post' /\ fl' = f1 ++ f2).

(** The four writes that end the undo branch of [myrealloc]. *)
Definition restore_old (st : state) (oldHeadptr oldSpace oldFootptr tempA tempB : Z)
  : state :=
  let st := set_space st oldHeadptr (- oldSpace) in
  let st := set_next st oldHeadptr tempA in
  let st := set_prev st oldHeadptr tempB in
  write_int st oldFootptr (- oldSpace).

(** What [myrealloc] reads about the two neighbours before it frees. *)
Definition rq_prevSpace (st : state) (oldptr : Z) : Z :=
  let oldDataptr := oldptr - sizeof_int in
  if negb (oldDataptr =? mem st)
  then load_int (bytes st) (oldDataptr - sizeof_int) else 0.

Definition rq_prevHeadptr (st : state) (oldptr : Z) : Z :=
  let oldDataptr := oldptr - sizeof_int in
  if negb (oldDataptr =? mem st) && (rq_prevSpace st oldptr >? 0)
  then oldDataptr - rq_prevSpace st oldptr - 2 * sizeof_int else NULL.

Definition rq_nextHeadptr (st : state) (oldptr : Z) : Z :=
  let oldSpace := - node_space st (oldptr - sizeof_int) in
  let endptr := oldptr + oldSpace + sizeof_int in
  if negb (endptr =? mem st + MEMORY_SIZE st) && (load_int (bytes st) endptr >? 0)
  then endptr else NULL.

(** The bytes of the link words that [myalloc] may rewrite outside the block
    at [h] it takes: the back link of the list head, the forward link of the
    node before [h] in the list and the back link of the node after it. *)
Definition relinked (st : state) (h x : Z) : Prop :=
  freeList st + off_prev <= x < freeList st + off_prev + sizeof_ptr \/
  (node_prev st h <> NULL /\
   node_prev st h + off_next <= x < node_prev st h + off_next + sizeof_ptr) \/
  (node_next st h <> NULL /\
   node_next st h + off_prev <= x < node_next st h + off_prev + sizeof_ptr).

(** The bytes that [myalloc] writes inside the free block of header [h] and
    payload [sp] from which it serves a payload of [k] bytes: the header and
    the footer and, when it splits the block, the two tags at the cut, the
    links of the suffix and, if the block is the head of the free list, its
    own back link (which [addNode] of the suffix sets). *)
Definition taken_words (st : state) (h sp k x : Z) : Prop :=
  h <= x < h + 4 \/ h + 4 + sp <= x < h + 8 + sp \/
  (k + 28 < sp /\
   (h + 4 + k <= x < h + 12 + k \/ h + 16 + k <= x < h + 32 + k \/
    (freeList st = h /\ h + 16 <= x < h + 24))).

(* ------------------------------------------------------------------ *)
(** ** Sequences of operations *)

(** A client program: allocations, releases and reallocations, and stores
    into the payload of a block it holds. *)
Inductive op : Type :=
| Alloc (size : Z)
| Release (p : Z)
| Realloc (p : Z) (size : Z)
| Store (p : Z) (i : Z) (v : Z).

Inductive outcome : Type :=
| Done (st : state) (live : list Z)
| IllFormed
| Aborted.

Definition is_size (n : Z) : bool := (0 <? n) && (n <? 2 ^ 31).

Definition holds (p : Z) (live : list Z) : bool := existsb (Z.eqb p) live.

(** One operation.  [live] are the pointers the client holds: returned by
    [myalloc] or [myrealloc] and not released since.  An operation on a
    pointer the client does not hold, a size that is not a positive [int],
    or a store outside the payload is ill-formed. *)
Definition exec (st : state) (live : list Z) (o : op) : outcome :=
  match o with
  | Alloc n =>
    if is_size n then
      match myalloc st n with
      | Some (st', p) => Done st' (if p =? NULL then live else p :: live)
      | None => Aborted
      end
    else IllFormed
  | Release p =>
    if holds p live then
      match myfree st p with
      | Some st' => Done st' (remove Z.eq_dec p live)
      | None => Aborted
      end
    else IllFormed
  | Realloc p n =>
    if holds p live && is_size n then
      match myrealloc st p n with
      | Some (st', q) =>
        Done st' (if q =? NULL then live else q :: remove Z.eq_dec p live)
      | None => Aborted
      end
    else IllFormed
  | Store p i v =>
    if holds p live && (0 <=? i) && (i <? - node_space st (p - sizeof_int))
    then Done (write_byte st (p + i) v) live
    else IllFormed
  end.

Fixpoint run (st : state) (live : list Z) (ops : list op) : outcome :=
  match ops with
  | [] => Done st live
  | o :: r =>
    match exec st live o with
    | Done st' live' => run st' live' r
    | IllFormed => IllFormed
    | Aborted => Aborted
    end
  end.

(** The invariant of a run: the heap invariant, and every pointer held is
    the payload of a block in use. *)
Definition Held (st : state) (live : list Z) : Prop :=
  exists bs fl, Inv st bs fl /\
    forall p, In p live -> In (p - 4) (used_addrs (mem st) bs).

(* ------------------------------------------------------------------ *)
(** ** The properties, as predicates *)

(** Best fit, as the specification words it: [r] is the first node of [fl]
    whose payload is the least one that is at least [sz]. *)
Definition best_fit (st : state) (sz : Z) (fl : list Z) (r : Z) : Prop :=
  exists l1 l2,
    fl = l1 ++ r :: l2 /\
    sz <= node_space st r /\
    (forall g, In g l1 -> sz <= node_space st g -> node_space st r < node_space st g) /\
    (forall g, In g l2 -> sz <= node_space st g -> node_space st r <= node_space st g) /\
    (node_space st r = sz ->
     forall (n : nat) (res low : Z), (length l1 < n)%nat ->
       findHead_loop n st sz (freeList st) res low = Some r).

(** The split rule of [myalloc] for a minimum payload [L]: what the tags and
    the list head are after a successful call. *)
Definition split_rule (L : Z) (st : state) (request : Z) : Prop :=
  forall st' p, myalloc st request = Some (st', p) -> p <> NULL ->
    let s := Z.max request L in
    let original := node_space st (p - sizeof_int) in
    if original >? s + 2 * sizeof_int + L
    then node_space st' (p - sizeof_int) = - s /\
         load_int (bytes st') (p + s) = - s /\
         node_space st' (p + s + sizeof_int) = original - s - 2 * sizeof_int /\
         load_int (bytes st') (p + original) = original - s - 2 * sizeof_int /\
         freeList st' = p + s + sizeof_int
    else node_space st' (p - sizeof_int) = - original /\
         load_int (bytes st') (p + original) = - original.

(** The header that backward coalescing uses lies [k] tags before the
    payload of the block that precedes. *)
Definition prev_header_rule (k : Z) (st : state) (oldptr space : Z) : Prop :=
  let dataptr := oldptr - sizeof_int in
  let prev_footer := load_int (bytes st) (dataptr - sizeof_int) in
  myfree_backward st dataptr space =
    (coalesce st (oldptr - prev_footer - k * sizeof_int) dataptr,
     oldptr - prev_footer - k * sizeof_int,
     node_space (coalesce st (oldptr - prev_footer - k * sizeof_int) dataptr)
                (oldptr - prev_footer - k * sizeof_int)).

(** The pointers [isValid] accepts to look at. *)
Definition in_pool_range (st : state) (p : Z) : Prop :=
  mem st + sizeof_int <= p <= mem st + MEMORY_SIZE st - sizeof_int.

(** [isValid] turns down every pointer whose header word is not negative. *)
Definition rejects_unallocated (st : state) (p : Z) : Prop :=
  in_pool_range st p -> 0 <= load_int (bytes st) (p - sizeof_int) -> isValid st p = 0.

(** [myalloc] turns down every request that is not positive. *)
Definition rejects_nonpositive (st : state) : Prop :=
  forall request, request <= 0 -> exists st', myalloc st request = Some (st', NULL).

(** Two states hold the same heap: the same list head and the same bytes in
    the pool. *)
Definition same_heap (st st' : state) : Prop :=
  freeList st' = freeList st /\
  forall x, mem st <= x < mem st + MEMORY_SIZE st -> bytes st' x = bytes st x.

(** The state a client reaches by a sequence of operations. *)
Definition state_after (n base : Z) (m0 : memory) (ops : list op) : state :=
  match run (init_myalloc n base m0) [] ops with
  | Done st _ => st
  | IllFormed => init_myalloc n base m0
  | Aborted => init_myalloc n base m0
  end.

Definition zeroes : memory := fun _ => 0.

(* ------------------------------------------------------------------ *)
(** ** Regions of memory, and the pointers held *)

(** [x] is a byte of a free block of the heap [bs] laid out from [a]. *)
Definition in_free_block (a : Z) (bs : list block) (x : Z) : Prop :=
  exists y s, In (y, Free s) (layout a bs) /\ y <= x < y + s + 8.

(** [x] is none of the bytes that [myfree] rewrites inside the block it
    releases, of header [h] and payload [s]: the two tags and the two links. *)
Definition off_meta (h s x : Z) : Prop :=
  (x < h \/ h + 4 <= x) /\ (x < h + 8 \/ h + 24 <= x) /\
  (x < h + 4 + s \/ h + 8 + s <= x).

(** The bytes an operation may write besides those of free blocks: the block
    it releases or reallocates, the byte it stores. *)
Definition writes (st : state) (o : op) (x : Z) : Prop :=
  match o with
  | Alloc _ => False
  | Release p => p - 4 <= x < p + - node_space st (p - 4) + 4
  | Realloc p _ => p - 4 <= x < p + - node_space st (p - 4) + 4
  | Store p i _ => x = p + i
  end.

(** Whether an operation is applied to the pointer [p]. *)
Definition touches (o : op) (p : Z) : bool :=
  match o with
  | Alloc _ => false
  | Release q => q =? p
  | Realloc q _ => q =? p
  | Store q _ _ => q =? p
  end.

(** The invariant of a run, in full: the pointers held are exactly the
    payloads of the blocks in use, each held once. *)
Definition Owned (st : state) (live : list Z) : Prop :=
  exists bs fl, Inv st bs fl /\ NoDup live /\
    forall p, In p live <-> In (p - 4) (used_addrs (mem st) bs).

(* ------------------------------------------------------------------ *)
(** ** Concrete heaps *)

(** A pool of 100 bytes at address 1000, fresh and after one allocation. *)
Definition pool100 : state := init_myalloc 100 1000 zeroes.
Definition pool100_taken : state := state_after 100 1000 zeroes [Alloc 20].

(** A pool of 200 bytes: two blocks of 20 taken, the first released, and the
    second marked free by [myfree] just before it coalesces backward. *)
Definition pool200_marked : state :=
  myfree_mark (state_after 200 1000 zeroes [Alloc 20; Alloc 20; Release 1004]) 1032.

(** A pool of 200 bytes: four blocks of 20 taken, the first released.  The
    free list is the first block, then the rest of the pool. *)
Definition pool200_four : state :=
  state_after 200 1000 zeroes [Alloc 20; Alloc 20; Alloc 20; Alloc 20; Release 1004].

(** simpletest.c on a pool of 400 bytes: A of 100, B of 200 and C of 20
    bytes, filled, then A released. *)
Definition pool400_abc : option state :=
  match allocate (init_myalloc 400 1000 zeroes) 100 65 with
  | Some (st, a) =>
    match allocate st 200 66 with
    | Some (st, _) =>
      match allocate st 20 67 with
      | Some (st, _) => myfree st a
      | None => None
      end
    | None => None
    end
  | None => None
  end.

(** The pool of 200 bytes with four blocks after [myfree(1060)], after
    [myrealloc(1060, 30)] and after [myrealloc(1088, 1000)], which fails. *)
Definition pool200_released : state :=
  match myfree pool200_four 1060 with
  | Some st => st
  | None => pool200_four
  end.

Definition pool200_moved : state :=
  match myrealloc pool200_four 1060 30 with
  | Some (st, _) => st
  | None => pool200_four
  end.

Definition pool200_undone : state :=
  match myrealloc pool200_four 1088 1000 with
  | Some (st, _) => st
  | None => pool200_four
  end.

(** The same pool three operations later. *)
Definition pool200_later : state :=
  match run pool200_four [1088; 1060; 1032] [Release 1032; Alloc 50; Store 1088 3 7] with
  | Done st _ => st
  | IllFormed => pool200_four
  | Aborted => pool200_four
  end.

(** The pool of 100 bytes with its block split in two free blocks, both on
    the free list. *)
Definition pool100_split : state :=
  addNode (fst (splitBlock pool100 1000 20)) 1028.

(** The pool of 200 bytes with four blocks after [myalloc(30)], which splits
    the last block. *)
Definition pool200_five : state :=
  match myalloc pool200_four 30 with
  | Some (st, _) => st
  | None => pool200_four
  end.

(** The pool left by the failed [myrealloc], whose free list is the block of
    80 bytes and then the block of 20, after [myalloc(10)]: the block of 20 is
    taken. *)
Definition pool200_refit : state :=
  match myalloc pool200_undone 10 with
  | Some (st, _) => st
  | None => pool200_undone
  end.

(** The pool of 200 bytes with four blocks, its last block split in two by
    [splitBlock]; then with the new block on the free list, which has three
    nodes. *)
Definition pool200_cut : state := fst (splitBlock pool200_four 1112 20).
Definition pool200_three : state := addNode pool200_cut 1140.

(** A pool of 200 bytes after two blocks were taken and both released. *)
Definition pool200_idle : state :=
  state_after 200 1000 zeroes [Alloc 20; Alloc 50; Release 1004; Release 1032].

(* ------------------------------------------------------------------ *)
(** ** Memory lemmas *)

Section MemoryLemmas.

Lemma store_byte_same (m : memory) (a v : Z) : store_byte m a v a = v mod 256.
Proof. unfold store_byte. now rewrite Z.eqb_refl. Qed.

Lemma store_byte_other (m : memory) (a v x : Z) :
  x <> a -> store_byte m a v x = m x.
Proof. intros H. unfold store_byte. destruct (Z.eqb_spec x a); congruence. Qed.

Lemma store_le_other (n : nat) : forall (m : memory) (a v x : Z),
  x < a \/ a + Z.of_nat n <= x -> store_le m a n v x = m x.
Proof.
  induction n as [|n IH]; intros m a v x H; cbn [store_le]; [reflexivity|].
  rewrite IH by lia. apply store_byte_other. lia.
Qed.

Lemma load_le_ext (n : nat) : forall (m m' : memory) (a : Z),
  (forall x, a <= x < a + Z.of_nat n -> m' x = m x) ->
  load_le m' a n = load_le m a n.
Proof.
  induction n as [|n IH]; intros m m' a H; cbn [load_le]; [reflexivity|].
  unfold load_byte. rewrite (H a) by lia. f_equal. f_equal.
  apply IH. intros x Hx. apply H. lia.
Qed.

Lemma load_le_store_le_other (m : memory) (a : Z) (n : nat) (v a' : Z) (n' : nat) :
  a' + Z.of_nat n' <= a \/ a + Z.of_nat n <= a' ->
  load_le (store_le m a n v) a' n' = load_le m a' n'.
Proof.
  intros H. apply load_le_ext. intros x Hx. apply store_le_other. lia.
Qed.

Lemma load_le_range (n : nat) : forall (m : memory) (a : Z),
  0 <= load_le m a n < 2 ^ (8 * Z.of_nat n).
Proof.
  induction n as [|n IH]; intros m a; cbn [load_le].
  - cbn. lia.
  - specialize (IH m (a + 1)). unfold load_byte.
    pose proof (Z.mod_pos_bound (m a) 256 ltac:(lia)) as Hb.
    replace (8 * Z.of_nat (S n)) with (8 + 8 * Z.of_nat n) by lia.
    rewrite Z.pow_add_r by lia. change (2 ^ 8) with 256. nia.
Qed.

Lemma load_le_store_le_same (n : nat) : forall (m : memory) (a v : Z),
  load_le (store_le m a n v) a n = v mod 2 ^ (8 * Z.of_nat n).
Proof.
  induction n as [|n IH]; intros m a v; cbn [load_le store_le].
  - cbn. now rewrite Z.mod_1_r.
  - rewrite IH. unfold load_byte.
    rewrite store_le_other by lia. rewrite store_byte_same.
    rewrite Z.mod_mod by lia.
    replace (8 * Z.of_nat (S n)) with (8 + 8 * Z.of_nat n) by lia.
    rewrite Z.pow_add_r by lia. change (2 ^ 8) with 256.
    assert (Hp : 0 < 2 ^ (8 * Z.of_nat n)) by (apply Z.pow_pos_nonneg; lia).
    rewrite (Z.rem_mul_r v 256 (2 ^ (8 * Z.of_nat n))) by lia.
    reflexivity.
Qed.

Lemma signed32_wrap (v : Z) :
  - 2 ^ 31 <= v < 2 ^ 31 -> signed32 (v mod 2 ^ 32) = v.
Proof.
  intros H. unfold signed32.
  destruct (Z_lt_le_dec v 0) as [Hn|Hn].
  - replace (v mod 2 ^ 32) with (v + 2 ^ 32).
    + destruct (Z.ltb_spec (v + 2 ^ 32) (2 ^ 31)); lia.
    + apply Z.mod_unique with (q := -1); lia.
  - rewrite Z.mod_small by lia.
    destruct (Z.ltb_spec v (2 ^ 31)); lia.
Qed.

Lemma to_int_id (v : Z) : - 2 ^ 31 <= v < 2 ^ 31 -> to_int v = v.
Proof. apply signed32_wrap. Qed.

Lemma to_size_t_id (v : Z) : 0 <= v < 2 ^ 64 -> to_size_t v = v.
Proof. intros H. unfold to_size_t. apply Z.mod_small. lia. Qed.

Lemma signed32_range (u : Z) :
  0 <= u < 2 ^ 32 -> - 2 ^ 31 <= signed32 u < 2 ^ 31.
Proof. intros H. unfold signed32. destruct (Z.ltb_spec u (2 ^ 31)); lia. Qed.

Lemma load_int_range (m : memory) (a : Z) : - 2 ^ 31 <= load_int m a < 2 ^ 31.
Proof. unfold load_int. apply signed32_range. apply (load_le_range 4). Qed.

Lemma load_ptr_range (m : memory) (a : Z) : 0 <= load_ptr m a < 2 ^ 64.
Proof. apply (load_le_range 8). Qed.

Lemma load_int_ext (m m' : memory) (a : Z) :
  (forall x, a <= x < a + 4 -> m' x = m x) -> load_int m' a = load_int m a.
Proof. intros H. unfold load_int. f_equal. apply load_le_ext. exact H. Qed.

Lemma load_ptr_ext (m m' : memory) (a : Z) :
  (forall x, a <= x < a + 8 -> m' x = m x) -> load_ptr m' a = load_ptr m a.
Proof. intros H. unfold load_ptr. apply load_le_ext. exact H. Qed.

Lemma load_int_store_int_same (m : memory) (a v : Z) :
  - 2 ^ 31 <= v < 2 ^ 31 -> load_int (store_int m a v) a = v.
Proof.
  intros H. unfold load_int, store_int. rewrite load_le_store_le_same.
  now apply signed32_wrap.
Qed.

Lemma load_ptr_store_ptr_same (m : memory) (a v : Z) :
  0 <= v < 2 ^ 64 -> load_ptr (store_ptr m a v) a = v.
Proof.
  intros H. unfold load_ptr, store_ptr. rewrite load_le_store_le_same.
  apply Z.mod_small. exact H.
Qed.

Lemma store_int_other (m : memory) (a v x : Z) :
  x < a \/ a + 4 <= x -> store_int m a v x = m x.
Proof. intros H. apply store_le_other. lia. Qed.

Lemma store_ptr_other (m : memory) (a v x : Z) :
  x < a \/ a + 8 <= x -> store_ptr m a v x = m x.
Proof. intros H. apply store_le_other. lia. Qed.

Lemma load_int_store_int_other (m : memory) (a v a' : Z) :
  a' + 4 <= a \/ a + 4 <= a' -> load_int (store_int m a v) a' = load_int m a'.
Proof. intros H. apply load_int_ext. intros. apply store_int_other. lia. Qed.

Lemma load_int_store_ptr_other (m : memory) (a v a' : Z) :
  a' + 4 <= a \/ a + 8 <= a' -> load_int (store_ptr m a v) a' = load_int m a'.
Proof. intros H. apply load_int_ext. intros. apply store_ptr_other. lia. Qed.

Lemma load_ptr_store_int_other (m : memory) (a v a' : Z) :
  a' + 8 <= a \/ a + 4 <= a' -> load_ptr (store_int m a v) a' = load_ptr m a'.
Proof. intros H. apply load_ptr_ext. intros. apply store_int_other. lia. Qed.

Lemma load_ptr_store_ptr_other (m : memory) (a v a' : Z) :
  a' + 8 <= a \/ a + 8 <= a' -> load_ptr (store_ptr m a v) a' = load_ptr m a'.
Proof. intros H. apply load_ptr_ext. intros. apply store_ptr_other. lia. Qed.

End MemoryLemmas.

#[global] Arguments load_le : simpl never.
#[global] Arguments store_le : simpl never.
#[global] Arguments load_int : simpl never.
#[global] Arguments store_int : simpl never.
#[global] Arguments load_ptr : simpl never.
#[global] Arguments store_ptr : simpl never.
#[global] Arguments to_int : simpl never.
#[global] Arguments to_size_t : simpl never.

(** Loads through stores at other places, and loads of what was just stored. *)
Ltac mem_simpl :=
  repeat first
    [ rewrite load_int_store_int_same by lia
    | rewrite load_ptr_store_ptr_same by lia
    | rewrite load_int_store_int_other by lia
    | rewrite load_int_store_ptr_other by lia
    | rewrite load_ptr_store_int_other by lia
    | rewrite load_ptr_store_ptr_other by lia
    | rewrite store_int_other by lia
    | rewrite store_ptr_other by lia ].

(* ------------------------------------------------------------------ *)
(** ** Layout lemmas *)

Section Layout.

Lemma extent_eq (b : block) : extent b = size b + 8.
Proof. reflexivity. Qed.

Lemma total_app (l1 l2 : list block) : total (l1 ++ l2) = total l1 + total l2.
Proof. induction l1 as [|b l1 IH]; cbn [total app]; lia. Qed.

Lemma layout_app (l1 : list block) : forall (a : Z) (l2 : list block),
  layout a (l1 ++ l2) = layout a l1 ++ layout (a + total l1) l2.
Proof.
  induction l1 as [|b l1 IH]; intros a l2; cbn [layout total app].
  - f_equal. lia.
  - rewrite IH. do 3 f_equal. lia.
Qed.

Lemma free_addrs_app (l1 : list block) : forall (a : Z) (l2 : list block),
  free_addrs a (l1 ++ l2) = free_addrs a l1 ++ free_addrs (a + total l1) l2.
Proof.
  induction l1 as [|b l1 IH]; intros a l2; cbn [free_addrs total app].
  - f_equal. lia.
  - rewrite IH, <- app_assoc. do 3 f_equal. lia.
Qed.

Lemma used_addrs_app (l1 : list block) : forall (a : Z) (l2 : list block),
  used_addrs a (l1 ++ l2) = used_addrs a l1 ++ used_addrs (a + total l1) l2.
Proof.
  induction l1 as [|b l1 IH]; intros a l2; cbn [used_addrs total app].
  - f_equal. lia.
  - rewrite IH, <- app_assoc. do 3 f_equal. lia.
Qed.

Lemma sizes_ok_app (l1 l2 : list block) :
  sizes_ok (l1 ++ l2) <-> sizes_ok l1 /\ sizes_ok l2.
Proof. apply Forall_app. Qed.

Lemma sizes_ok_cons (b : block) (l : list block) :
  sizes_ok (b :: l) <-> min_payload <= size b /\ sizes_ok l.
Proof. apply Forall_cons_iff. Qed.

Lemma tags_ok_app (m : memory) (a : Z) (l1 l2 : list block) :
  tags_ok m a (l1 ++ l2) <-> tags_ok m a l1 /\ tags_ok m (a + total l1) l2.
Proof. unfold tags_ok. rewrite layout_app. apply Forall_app. Qed.

Lemma tags_ok_cons (m : memory) (a : Z) (b : block) (l : list block) :
  tags_ok m a (b :: l) <->
  (load_int m a = tag b /\ load_int m (a + sizeof_int + size b) = tag b) /\
  tags_ok m (a + extent b) l.
Proof. unfold tags_ok. cbn [layout]. apply Forall_cons_iff. Qed.

Lemma total_nonneg (bs : list block) : sizes_ok bs -> 0 <= total bs.
Proof.
  induction 1 as [|b bs Hb _ IH]; cbn [total]; [lia|].
  unfold extent, min_payload, sizeof_node, sizeof_int in *. lia.
Qed.

Lemma total_length (bs : list block) :
  sizes_ok bs -> 28 * Z.of_nat (length bs) <= total bs.
Proof.
  induction 1 as [|b bs Hb _ IH]; cbn [total length]; [lia|].
  unfold extent, min_payload, sizeof_node, sizeof_int in *. lia.
Qed.

Lemma layout_bounds (bs : list block) : forall (a x : Z) (b : block),
  sizes_ok bs -> In (x, b) (layout a bs) ->
  a <= x /\ x + extent b <= a + total bs /\ min_payload <= size b.
Proof.
  induction bs as [|c bs IH]; intros a x b Hs Hin; cbn [layout total] in *.
  - contradiction.
  - apply sizes_ok_cons in Hs. destruct Hs as [Hc Hs].
    pose proof (total_nonneg bs Hs) as Ht.
    unfold extent, min_payload, sizeof_node, sizeof_int in *.
    destruct Hin as [Heq|Hin].
    + inversion Heq; subst. lia.
    + specialize (IH _ _ _ Hs Hin). cbn in IH. lia.
Qed.

Lemma layout_sep (bs : list block) : forall (a x1 x2 : Z) (b1 b2 : block),
  sizes_ok bs -> In (x1, b1) (layout a bs) -> In (x2, b2) (layout a bs) ->
  (x1 = x2 /\ b1 = b2) \/ x1 + extent b1 <= x2 \/ x2 + extent b2 <= x1.
Proof.
  induction bs as [|c bs IH]; intros a x1 x2 b1 b2 Hs H1 H2; cbn [layout] in *.
  - contradiction.
  - pose proof Hs as Hs'. apply sizes_ok_cons in Hs'. destruct Hs' as [Hc Hr].
    destruct H1 as [E1|H1], H2 as [E2|H2].
    + inversion E1; inversion E2; subst. now left.
    + inversion E1; subst. right; left.
      pose proof (layout_bounds _ _ _ _ Hr H2). lia.
    + inversion E2; subst. right; right.
      pose proof (layout_bounds _ _ _ _ Hr H1). lia.
    + eapply IH; eauto.
Qed.

Lemma free_addrs_layout (bs : list block) : forall (a h : Z),
  In h (free_addrs a bs) <-> exists s, In (h, Free s) (layout a bs).
Proof.
  induction bs as [|c bs IH]; intros a h; cbn [free_addrs layout].
  - split; [contradiction|]. intros [s []].
  - rewrite in_app_iff, IH. split.
    + intros [H|[s H]].
      * destruct c as [s|s]; cbn in H; [|contradiction].
        destruct H as [<-|[]]. exists s. now left.
      * exists s. now right.
    + intros [s [H|H]].
      * inversion H; subst. left. cbn. now left.
      * right. now exists s.
Qed.

Lemma used_addrs_layout (bs : list block) : forall (a h : Z),
  In h (used_addrs a bs) <-> exists s, In (h, Used s) (layout a bs).
Proof.
  induction bs as [|c bs IH]; intros a h; cbn [used_addrs layout].
  - split; [contradiction|]. intros [s []].
  - rewrite in_app_iff, IH. split.
    + intros [H|[s H]].
      * destruct c as [s|s]; cbn in H; [contradiction|].
        destruct H as [<-|[]]. exists s. now left.
      * exists s. now right.
    + intros [s [H|H]].
      * inversion H; subst. left. cbn. now left.
      * right. now exists s.
Qed.

Lemma free_addrs_bounds (bs : list block) (a h : Z) :
  sizes_ok bs -> In h (free_addrs a bs) -> a <= h /\ h + 28 <= a + total bs.
Proof.
  intros Hs Hin. apply free_addrs_layout in Hin. destruct Hin as [s Hin].
  pose proof (layout_bounds _ _ _ _ Hs Hin) as Hb.
  unfold extent, min_payload, sizeof_node, sizeof_int in Hb. cbn in Hb. lia.
Qed.

Lemma free_addrs_sep (bs : list block) (a g1 g2 : Z) :
  sizes_ok bs -> In g1 (free_addrs a bs) -> In g2 (free_addrs a bs) ->
  g1 = g2 \/ g1 + 28 <= g2 \/ g2 + 28 <= g1.
Proof.
  intros Hs H1 H2.
  apply free_addrs_layout in H1, H2. destruct H1 as [s1 H1], H2 as [s2 H2].
  pose proof (layout_bounds _ _ _ _ Hs H1) as B1.
  pose proof (layout_bounds _ _ _ _ Hs H2) as B2.
  pose proof (layout_sep _ _ _ _ _ _ Hs H1 H2) as Hsep.
  unfold extent, min_payload, sizeof_node, sizeof_int in *. cbn in *. lia.
Qed.

Lemma layout_split (bs : list block) : forall (a x : Z) (b : block),
  In (x, b) (layout a bs) ->
  exists pre post, bs = pre ++ b :: post /\ x = a + total pre.
Proof.
  induction bs as [|c bs IH]; intros a x b Hin; cbn [layout] in *.
  - contradiction.
  - destruct Hin as [E|Hin].
    + inversion E; subst. exists [], bs. cbn. split; [reflexivity|lia].
    + destruct (IH _ _ _ Hin) as (pre & post & -> & ->).
      exists (c :: pre), post. cbn [app total]. split; [reflexivity|lia].
Qed.

(** Tags only depend on the bytes of the blocks themselves. *)
Lemma tags_ok_agree (m m' : memory) (a : Z) (bs : list block) :
  sizes_ok bs -> tags_ok m a bs ->
  (forall x, a <= x < a + total bs -> m' x = m x) ->
  tags_ok m' a bs.
Proof.
  intros Hs Ht Hag. unfold tags_ok in *. rewrite Forall_forall in *.
  intros [x b] Hin. specialize (Ht _ Hin). destruct Ht as [T1 T2]. cbn [fst snd] in *.
  pose proof (layout_bounds _ _ _ _ Hs Hin) as Hb.
  unfold extent, min_payload, sizeof_node, sizeof_int in *.
  split; cbn [fst snd].
  - rewrite <- T1. apply load_int_ext. intros y Hy. apply Hag. lia.
  - rewrite <- T2. apply load_int_ext. intros y Hy. apply Hag. lia.
Qed.

(** Writes into the link fields of free blocks leave all tags alone. *)
Lemma tags_ok_links (m m' : memory) (a : Z) (bs : list block) :
  sizes_ok bs -> tags_ok m a bs ->
  (forall x, (forall g, In g (free_addrs a bs) -> x < g + 8 \/ g + 24 <= x) ->
             m' x = m x) ->
  tags_ok m' a bs.
Proof.
  intros Hs Ht Hag. unfold tags_ok in *. rewrite Forall_forall in *.
  intros [x b] Hin. specialize (Ht _ Hin). destruct Ht as [T1 T2]. cbn [fst snd] in *.
  pose proof (layout_bounds _ _ _ _ Hs Hin) as Hb.
  assert (Hkey : forall y, x <= y < x + 4 \/ x + 4 + size b <= y < x + 8 + size b ->
                 forall g, In g (free_addrs a bs) -> y < g + 8 \/ g + 24 <= y).
  { intros y Hy g Hg. apply free_addrs_layout in Hg. destruct Hg as [s Hg].
    pose proof (layout_bounds _ _ _ _ Hs Hg) as Hb'.
    pose proof (layout_sep _ _ _ _ _ _ Hs Hin Hg) as Hsep.
    unfold extent, min_payload, sizeof_node, sizeof_int in *. cbn in *.
    destruct Hsep as [[-> ->]|Hsep]; cbn in *; lia. }
  unfold extent, min_payload, sizeof_node, sizeof_int in *.
  split; cbn [fst snd].
  - rewrite <- T1. apply load_int_ext. intros y Hy. apply Hag. apply Hkey. lia.
  - rewrite <- T2. apply load_int_ext. intros y Hy. apply Hag. apply Hkey. lia.
Qed.

End Layout.

(* ------------------------------------------------------------------ *)
(** ** The free list in memory *)

Ltac unfold_consts :=
  unfold min_payload, extent in *;
  unfold off_space, off_next, off_prev, sizeof_int, sizeof_ptr, sizeof_node, NULL in *.

Ltac st_simpl :=
  unfold node_space, node_next, node_prev, set_space, set_next, set_prev,
         write_int, write_ptr, write_byte, set_bytes, set_freeList in *;
  cbn [bytes mem MEMORY_SIZE freeList] in *.

Ltac st_goal :=
  unfold node_space, node_next, node_prev, set_space, set_next, set_prev,
         write_int, write_ptr, write_byte, set_bytes, set_freeList;
  cbn [bytes mem MEMORY_SIZE freeList].

Ltac consts_goal :=
  unfold min_payload, extent;
  unfold off_space, off_next, off_prev, sizeof_int, sizeof_ptr, sizeof_node, NULL.

Section FreeList.

Lemma separated_tail (x : Z) (l : list Z) : separated (x :: l) -> separated l.
Proof. intros H g1 g2 H1 H2. apply H; now right. Qed.

Lemma dll_agree (m m' : memory) (fl : list Z) : forall prev p,
  (forall g, In g fl -> forall x, g + 8 <= x < g + 24 -> m' x = m x) ->
  dll m prev p fl -> dll m' prev p fl.
Proof.
  induction fl as [|h t IH]; intros prev p Hag Hd; cbn [dll] in *; [exact Hd|].
  destruct Hd as (-> & Hn & Hp & Hd). unfold_consts.
  assert (E1 : load_ptr m' (h + 16) = load_ptr m (h + 16)).
  { apply load_ptr_ext. intros x Hx. apply (Hag h); [now left|lia]. }
  assert (E2 : load_ptr m' (h + 8) = load_ptr m (h + 8)).
  { apply load_ptr_ext. intros x Hx. apply (Hag h); [now left|lia]. }
  rewrite E1, E2. repeat split; try assumption.
  apply IH; [|exact Hd]. intros g Hg. apply Hag. now right.
Qed.

Lemma dll_head (m : memory) (prev p : Z) (fl : list Z) :
  dll m prev p fl -> p = hd NULL fl.
Proof. destruct fl; cbn; intuition. Qed.

Lemma dll_nonnull (m : memory) (fl : list Z) : forall prev p,
  dll m prev p fl -> forall g, In g fl -> g <> NULL.
Proof.
  induction fl as [|h t IH]; intros prev p Hd g Hg; cbn in *; [contradiction|].
  destruct Hd as (_ & Hn & _ & Hd). destruct Hg as [<-|Hg]; [exact Hn|].
  eapply IH; eauto.
Qed.

Lemma last_in (l : list Z) (d : Z) : l <> [] -> In (last l d) l.
Proof.
  induction l as [|x l IH]; intros H; [congruence|].
  destruct l as [|y l]; [now left|]. right. apply IH. discriminate.
Qed.

Lemma in_mid_l (l1 l2 : list Z) (h g : Z) : In g l1 -> In g (l1 ++ h :: l2).
Proof. intros H. apply in_or_app. now left. Qed.

Lemma in_mid_r (l1 l2 : list Z) (h g : Z) : In g l2 -> In g (l1 ++ h :: l2).
Proof. intros H. apply in_or_app. right. now right. Qed.

Lemma in_mid (l1 l2 : list Z) (h : Z) : In h (l1 ++ h :: l2).
Proof. apply in_or_app. right. now left. Qed.

Lemma last_cons (l : list Z) : forall x d, last (x :: l) d = last l x.
Proof.
  induction l as [|y l IH]; intros x d; [reflexivity|].
  change (last (x :: y :: l) d) with (last (y :: l) d). rewrite !IH. reflexivity.
Qed.

Lemma dll_links (m : memory) (h : Z) (l2 : list Z) : forall l1 prev p,
  dll m prev p (l1 ++ h :: l2) ->
  load_ptr m (h + off_prev) = last l1 prev /\
  load_ptr m (h + off_next) = hd NULL l2.
Proof.
  induction l1 as [|x l1 IH]; intros prev p Hd; cbn [app dll] in Hd.
  - destruct Hd as (_ & _ & Hp & Hd). split; [exact Hp|]. eapply dll_head; eauto.
  - destruct Hd as (_ & _ & _ & Hd). specialize (IH _ _ Hd).
    destruct IH as [I1 I2]. split; [|exact I2].
    rewrite I1. symmetry. apply last_cons.
Qed.

Lemma removeNode_bytes (st : state) (h : Z) :
  bytes (removeNode st h) = unlink_mem (bytes st) h.
Proof.
  unfold removeNode, unlink_mem. st_simpl.
  destruct (load_ptr (bytes st) (h + off_prev) =? NULL);
  destruct (load_ptr (bytes st) (h + off_next) =? NULL); reflexivity.
Qed.

Lemma removeNode_freeList (st : state) (h : Z) :
  freeList (removeNode st h) =
  if node_prev st h =? NULL then node_next st h else freeList st.
Proof.
  unfold removeNode. st_simpl.
  destruct (load_ptr (bytes st) (h + off_prev) =? NULL);
  destruct (load_ptr (bytes st) (h + off_next) =? NULL); reflexivity.
Qed.

Lemma removeNode_mem (st : state) (h : Z) :
  mem (removeNode st h) = mem st /\ MEMORY_SIZE (removeNode st h) = MEMORY_SIZE st.
Proof.
  unfold removeNode. st_simpl.
  destruct (load_ptr (bytes st) (h + off_prev) =? NULL);
  destruct (load_ptr (bytes st) (h + off_next) =? NULL); split; reflexivity.
Qed.

Lemma unlink_mem_other (m : memory) (h x : Z) :
  (load_ptr m (h + off_prev) = NULL \/
   x < load_ptr m (h + off_prev) + 8 \/ load_ptr m (h + off_prev) + 16 <= x) ->
  (load_ptr m (h + off_next) = NULL \/
   x < load_ptr m (h + off_next) + 16 \/ load_ptr m (h + off_next) + 24 <= x) ->
  unlink_mem m h x = m x.
Proof.
  intros H1 H2. unfold unlink_mem.
  destruct (Z.eqb_spec (load_ptr m (h + off_next)) NULL) as [En|En];
  destruct (Z.eqb_spec (load_ptr m (h + off_prev)) NULL) as [Ep|Ep];
  unfold_consts; mem_simpl; try reflexivity;
  rewrite ?store_ptr_other by lia; try reflexivity.
Qed.

Lemma dll_remove (m : memory) (h : Z) (l2 : list Z) : forall l1 prev p,
  dll m prev p (l1 ++ h :: l2) ->
  NoDup (l1 ++ h :: l2) ->
  separated (l1 ++ h :: l2) ->
  (prev = NULL \/ forall g, In g (l1 ++ h :: l2) -> g + 24 <= prev \/ prev + 24 <= g) ->
  dll (unlink_mem m h) prev
      (match l1 with [] => load_ptr m (h + off_next) | _ :: _ => p end)
      (l1 ++ l2).
Proof.
  induction l1 as [|x l1 IH]; intros prev p Hd Hnd Hsep Hprev.
  - cbn [app] in *. cbn [dll] in Hd. destruct Hd as (-> & Hn & Hp & Hd).
    pose proof (dll_head _ _ _ _ Hd) as Hnx.
    destruct l2 as [|n t].
    + cbn in Hnx. cbn [dll]. exact Hnx.
    + cbn in Hnx. cbn [dll] in Hd |- *. destruct Hd as (_ & Hn0 & Hpn & Hd).
      apply NoDup_cons_iff in Hnd. destruct Hnd as [Hh Hnd'].
      apply NoDup_cons_iff in Hnd'. destruct Hnd' as [Hnt Hnd''].
      assert (Hhn : n + 24 <= h \/ h + 24 <= n).
      { destruct (Hsep h n) as [E|E]; [now left|right; now left| |lia].
        exfalso. apply Hh. left. now symmetry. }
      assert (Hother : forall g, In g t ->
                forall y, g + 8 <= y < g + 24 -> unlink_mem m h y = m y).
      { intros g Hg y Hy. apply unlink_mem_other; rewrite ?Hp, ?Hnx.
        - destruct Hprev as [E|E]; [now left|right].
          specialize (E g ltac:(right; now right)). lia.
        - right.
          destruct (Hsep n g) as [E|E]; [right; now left|right; now right| |lia].
          exfalso. apply Hnt. now rewrite E. }
      assert (E8 : load_ptr (unlink_mem m h) (n + off_next) = load_ptr m (n + off_next)).
      { apply load_ptr_ext. intros y Hy. apply unlink_mem_other; rewrite ?Hp, ?Hnx.
        - destruct Hprev as [E|E]; [now left|right].
          specialize (E n ltac:(right; now left)). unfold_consts. lia.
        - right. unfold_consts. lia. }
      assert (E16 : load_ptr (unlink_mem m h) (n + off_prev) = prev).
      { unfold unlink_mem. rewrite Hp, Hnx.
        destruct (Z.eqb_spec n NULL) as [?|_]; [contradiction|].
        apply load_ptr_store_ptr_same. rewrite <- Hp. apply load_ptr_range. }
      repeat split; try assumption.
      rewrite E8. eapply dll_agree; [|exact Hd]. exact Hother.
  - cbn [app] in *. cbn [dll] in Hd. destruct Hd as (-> & Hn & Hp & Hd).
    apply NoDup_cons_iff in Hnd. destruct Hnd as [Hx Hnd'].
    assert (Hxsep : forall g, In g (l1 ++ h :: l2) -> g + 24 <= x \/ x + 24 <= g).
    { intros g Hg. destruct (Hsep x g) as [E|E]; [now left|now right| |lia].
      exfalso. apply Hx. now rewrite E. }
    specialize (IH x (load_ptr m (x + off_next)) Hd Hnd' (separated_tail _ _ Hsep)
                   (or_intror Hxsep)).
    destruct (dll_links _ _ _ _ _ _ Hd) as [Lp Ln].
    assert (Hprv : In (load_ptr m (h + off_prev)) (x :: l1)).
    { rewrite Lp. destruct l1 as [|y l1]; [now left|]. right. apply last_in. discriminate. }
    assert (Hnxt : load_ptr m (h + off_next) = NULL \/ In (load_ptr m (h + off_next)) l2).
    { rewrite Ln. destruct l2; [now left|right; now left]. }
    assert (Hnxt' : forall y, x + 8 <= y < x + 24 ->
              load_ptr m (h + off_next) = NULL \/
              y < load_ptr m (h + off_next) + 16 \/ load_ptr m (h + off_next) + 24 <= y).
    { intros y Hy. destruct Hnxt as [E|E]; [now left|right].
      specialize (Hxsep _ (in_mid_r _ l2 h _ E)). lia. }
    assert (E16 : load_ptr (unlink_mem m h) (x + off_prev) = load_ptr m (x + off_prev)).
    { apply load_ptr_ext. intros y Hy. unfold_consts. apply unlink_mem_other.
      - right. destruct Hprv as [E|E].
        + unfold_consts. rewrite <- E. lia.
        + specialize (Hxsep _ (in_mid_l _ l2 h _ E)). unfold_consts. lia.
      - apply Hnxt'. lia. }
    cbn [dll]. repeat split; try assumption; [congruence|].
    destruct l1 as [|y l1].
    + cbn [app] in *. cbn [last] in Lp.
      assert (E8 : load_ptr (unlink_mem m h) (x + off_next) = load_ptr m (h + off_next)).
      { unfold unlink_mem. rewrite Lp.
        destruct (Z.eqb_spec x NULL) as [?|_]; [contradiction|].
        destruct (Z.eqb_spec (load_ptr m (h + off_next)) NULL) as [E0|E0].
        - apply load_ptr_store_ptr_same. apply load_ptr_range.
        - destruct Hnxt as [?|Hnxt]; [contradiction|].
          specialize (Hxsep _ (in_mid_r [] l2 h _ Hnxt)).
          unfold_consts. rewrite load_ptr_store_ptr_other by lia.
          apply load_ptr_store_ptr_same. apply load_ptr_range. }
      rewrite E8. exact IH.
    + assert (E8 : load_ptr (unlink_mem m h) (x + off_next) = load_ptr m (x + off_next)).
      { apply load_ptr_ext. intros z Hz. unfold_consts. apply unlink_mem_other.
        - right. destruct Hprv as [E|E].
          + exfalso. apply Hx. rewrite E, Lp. apply in_or_app. left.
            apply last_in. discriminate.
          + specialize (Hxsep _ (in_mid_l _ l2 h _ E)). unfold_consts. lia.
        - apply Hnxt'. lia. }
      rewrite E8. exact IH.
Qed.

End FreeList.

(* ------------------------------------------------------------------ *)
(** ** How the phases of an operation keep [Heap] *)

Section HeapSteps.

Lemma Heap_separated (st : state) (bs : list block) (fl : list Z) :
  Heap st bs fl -> separated fl.
Proof.
  intros H g1 g2 H1 H2.
  pose proof (free_addrs_sep bs (mem st) g1 g2 (heap_sizes _ _ _ H)
                (heap_incl _ _ _ H _ H1) (heap_incl _ _ _ H _ H2)).
  lia.
Qed.

Lemma Heap_freeList (st : state) (bs : list block) (fl : list Z) :
  Heap st bs fl -> freeList st = hd NULL fl.
Proof. intros H. eapply dll_head. apply (heap_dll _ _ _ H). Qed.

Lemma Heap_node_bounds (st : state) (bs : list block) (fl : list Z) (g : Z) :
  Heap st bs fl -> In g fl -> mem st <= g /\ g + 28 <= mem st + MEMORY_SIZE st.
Proof.
  intros H Hg. rewrite <- (heap_total _ _ _ H).
  apply free_addrs_bounds; [apply (heap_sizes _ _ _ H)|apply (heap_incl _ _ _ H _ Hg)].
Qed.

(** Rewriting the blocks [mid] of the pool into [mid'] of the same extent,
    touching no byte outside them. *)
Lemma Heap_change_mid (st : state) (pre mid mid' post : list block)
      (fl : list Z) (m' : memory) :
  Heap st (pre ++ mid ++ post) fl ->
  (forall x, x < mem st + total pre \/ mem st + total pre + total mid <= x ->
             m' x = bytes st x) ->
  total mid' = total mid ->
  sizes_ok mid' ->
  tags_ok m' (mem st + total pre) mid' ->
  (forall g, In g fl -> In g (free_addrs (mem st + total pre) mid) ->
     In g (free_addrs (mem st + total pre) mid') /\
     forall x, g + 8 <= x < g + 24 -> m' x = bytes st x) ->
  Heap (set_bytes st m') (pre ++ mid' ++ post) fl.
Proof.
  intros H Hout Htot Hs' Ht' Hfl.
  destruct H as [Ht Hi Hb Htop Hs Htags Hd Hnd Hincl].
  apply sizes_ok_app in Hs. destruct Hs as [Hs1 Hs]. apply sizes_ok_app in Hs.
  destruct Hs as [Hs2 Hs3].
  apply tags_ok_app in Htags. destruct Htags as [Tg1 Tg]. apply tags_ok_app in Tg.
  destruct Tg as [Tg2 Tg3].
  pose proof (total_nonneg _ Hs1) as N1. pose proof (total_nonneg _ Hs2) as N2.
  pose proof (total_nonneg _ Hs3) as N3.
  assert (Hcase : forall g, In g fl ->
            (In g (free_addrs (mem st) pre) /\ g + 28 <= mem st + total pre) \/
            In g (free_addrs (mem st + total pre) mid) \/
            (In g (free_addrs (mem st + total pre + total mid) post) /\
             mem st + total pre + total mid <= g)).
  { intros g Hg. specialize (Hincl _ Hg).
    rewrite !free_addrs_app in Hincl. rewrite !in_app_iff in Hincl.
    destruct Hincl as [I|[I|I]].
    - left. split; [exact I|]. pose proof (free_addrs_bounds _ _ _ Hs1 I). lia.
    - right; left. exact I.
    - right; right. split; [exact I|]. pose proof (free_addrs_bounds _ _ _ Hs3 I). lia. }
  constructor; st_simpl.
  - rewrite !total_app in *. lia.
  - exact Hi.
  - exact Hb.
  - exact Htop.
  - apply sizes_ok_app. split; [exact Hs1|]. apply sizes_ok_app. now split.
  - apply tags_ok_app. split.
    + eapply tags_ok_agree; [exact Hs1|exact Tg1|]. intros x Hx. apply Hout. lia.
    + apply tags_ok_app. split; [exact Ht'|]. rewrite Htot.
      eapply tags_ok_agree; [exact Hs3|exact Tg3|]. intros x Hx. apply Hout. lia.
  - eapply dll_agree; [|exact Hd]. intros g Hg x Hx.
    destruct (Hcase g Hg) as [[_ I]|[I|[_ I]]].
    + apply Hout. lia.
    + apply (Hfl g Hg I). exact Hx.
    + apply Hout. lia.
  - exact Hnd.
  - intros g Hg. rewrite !free_addrs_app, !in_app_iff.
    destruct (Hcase g Hg) as [[I _]|[I|[I _]]].
    + now left.
    + right; left. apply (Hfl g Hg I).
    + right; right. rewrite Htot. exact I.
Qed.

Lemma addNode_mem (st : state) (n : Z) :
  mem (addNode st n) = mem st /\ MEMORY_SIZE (addNode st n) = MEMORY_SIZE st /\
  freeList (addNode st n) = n.
Proof.
  unfold addNode. destruct (freeList st =? NULL); st_simpl; repeat split.
Qed.

Lemma addNode_other (st : state) (n x : Z) :
  x < n + 8 \/ n + 24 <= x ->
  freeList st = NULL \/ x < freeList st + 16 \/ freeList st + 24 <= x ->
  bytes (addNode st n) x = bytes st x.
Proof.
  intros H1 H2. unfold addNode.
  destruct (Z.eqb_spec (freeList st) NULL) as [E|E]; st_simpl; unfold_consts;
    mem_simpl; reflexivity.
Qed.

Lemma Heap_addNode (st : state) (bs : list block) (fl : list Z) (n : Z) :
  Heap st bs fl -> In n (free_addrs (mem st) bs) -> ~ In n fl ->
  Heap (addNode st n) bs (n :: fl).
Proof.
  intros H Hn Hnot.
  pose proof (Heap_freeList _ _ _ H) as Hhd.
  pose proof (free_addrs_bounds _ _ _ (heap_sizes _ _ _ H) Hn) as Bn.
  rewrite (heap_total _ _ _ H) in Bn.
  pose proof (heap_base _ _ _ H) as Hb. pose proof (heap_top _ _ _ H) as Htop.
  assert (Hsepn : forall g, In g fl -> g + 28 <= n \/ n + 28 <= g).
  { intros g Hg.
    destruct (free_addrs_sep bs (mem st) g n (heap_sizes _ _ _ H)
                (heap_incl _ _ _ H _ Hg) Hn) as [E|E]; [|exact E].
    subst. contradiction. }
  destruct (addNode_mem st n) as (Em & Es & Ef).
  constructor; rewrite ?Em, ?Es, ?Ef; try apply H.
  - eapply tags_ok_links; [apply (heap_sizes _ _ _ H)|apply (heap_tags _ _ _ H)|].
    intros x Hx. apply addNode_other.
    + apply Hx. exact Hn.
    + destruct fl as [|f t]; [now left|]. right. cbn in Hhd. rewrite Hhd.
      specialize (Hx f (heap_incl _ _ _ H _ (or_introl eq_refl))). lia.
  - pose proof (heap_dll _ _ _ H) as Hd. cbn [dll].
    assert (E16 : load_ptr (bytes (addNode st n)) (n + off_prev) = NULL).
    { unfold addNode. destruct (Z.eqb_spec (freeList st) NULL) as [E|E]; st_simpl;
        unfold_consts.
      - apply load_ptr_store_ptr_same. lia.
      - destruct fl as [|f t]; [cbn in Hhd; congruence|]. cbn in Hhd.
        specialize (Hsepn f (or_introl eq_refl)).
        rewrite load_ptr_store_ptr_other by lia.
        apply load_ptr_store_ptr_same. lia. }
    assert (E8 : load_ptr (bytes (addNode st n)) (n + off_next) = freeList st).
    { pose proof (load_ptr_range (bytes st) 0).
      assert (0 <= freeList st < 2 ^ 64).
      { destruct fl as [|f t]; cbn in Hhd; rewrite Hhd; [unfold NULL; lia|].
        pose proof (Heap_node_bounds _ _ _ f H (or_introl eq_refl)). lia. }
      unfold addNode. destruct (Z.eqb_spec (freeList st) NULL) as [E|E]; st_simpl;
        unfold_consts.
      - rewrite load_ptr_store_ptr_other by lia.
        apply load_ptr_store_ptr_same. lia.
      - destruct fl as [|f t]; [cbn in Hhd; congruence|]. cbn in Hhd.
        specialize (Hsepn f (or_introl eq_refl)).
        rewrite !load_ptr_store_ptr_other by lia.
        apply load_ptr_store_ptr_same. lia. }
    repeat split; [unfold NULL; lia|exact E16|]. rewrite E8.
    destruct fl as [|f t]; [exact Hd|].
    cbn [dll] in Hd |- *. destruct Hd as (Ef' & Hf & Hfp & Hd).
    pose proof (Hsepn f (or_introl eq_refl)) as Hfn.
    assert (F16 : load_ptr (bytes (addNode st n)) (f + off_prev) = n).
    { unfold addNode. rewrite Ef'.
      destruct (Z.eqb_spec f NULL) as [?|_]; [contradiction|]. st_simpl.
      apply load_ptr_store_ptr_same. lia. }
    assert (F8 : load_ptr (bytes (addNode st n)) (f + off_next) =
                 load_ptr (bytes st) (f + off_next)).
    { apply load_ptr_ext. intros x Hx. unfold_consts.
      apply addNode_other; [lia|]. right. rewrite Ef'. lia. }
    repeat split; try assumption. rewrite F8.
    eapply dll_agree; [|exact Hd]. intros g Hg x Hx.
    pose proof (heap_nodup _ _ _ H) as Hnd. apply NoDup_cons_iff in Hnd.
    destruct Hnd as [Hft _].
    apply addNode_other.
    + specialize (Hsepn g (or_intror Hg)). lia.
    + right. rewrite Ef'.
      destruct (Heap_separated _ _ _ H f g (or_introl eq_refl) (or_intror Hg)) as [E|E];
        [subst; contradiction|lia].
  - constructor; [exact Hnot|apply (heap_nodup _ _ _ H)].
  - intros g [<-|Hg]; [exact Hn|apply (heap_incl _ _ _ H _ Hg)].
Qed.

Lemma removeNode_dll (st : state) (l1 l2 : list Z) (h : Z) :
  dll (bytes st) NULL (freeList st) (l1 ++ h :: l2) ->
  NoDup (l1 ++ h :: l2) -> separated (l1 ++ h :: l2) ->
  dll (bytes (removeNode st h)) NULL (freeList (removeNode st h)) (l1 ++ l2).
Proof.
  intros Hd Hnd Hsep.
  destruct (dll_links _ _ _ _ _ _ Hd) as [Lp Ln].
  rewrite removeNode_bytes, removeNode_freeList.
  pose proof (dll_remove _ _ _ _ _ _ Hd Hnd Hsep (or_introl eq_refl)) as Hr.
  unfold node_prev, node_next. rewrite Lp.
  destruct l1 as [|y l1].
  - cbn [last]. rewrite Z.eqb_refl. exact Hr.
  - destruct (Z.eqb_spec (last (y :: l1) NULL) NULL) as [E|E]; [|exact Hr].
    exfalso. apply (dll_nonnull _ _ _ _ Hd (last (y :: l1) NULL)); [|exact E].
    apply in_mid_l. apply last_in. discriminate.
Qed.

(** [removeNode] only writes link fields of the two list neighbours. *)
Lemma removeNode_other (st : state) (l1 l2 : list Z) (h x : Z) :
  dll (bytes st) NULL (freeList st) (l1 ++ h :: l2) ->
  (forall g, In g (l1 ++ l2) -> x < g + 8 \/ g + 24 <= x) ->
  bytes (removeNode st h) x = bytes st x.
Proof.
  intros Hd Hx. destruct (dll_links _ _ _ _ _ _ Hd) as [Lp Ln].
  rewrite removeNode_bytes. apply unlink_mem_other.
  - rewrite Lp. destruct l1 as [|y l1]; [now left|right].
    assert (In (last (y :: l1) NULL) ((y :: l1) ++ l2)) as Hin.
    { apply in_or_app. left. apply last_in. discriminate. }
    specialize (Hx _ Hin). lia.
  - rewrite Ln. destruct l2 as [|y l2]; [now left|right]. cbn [hd].
    assert (In y (l1 ++ y :: l2)) as Hin by apply in_mid.
    specialize (Hx _ Hin). lia.
Qed.

Lemma Heap_removeNode (st : state) (bs : list block) (l1 l2 : list Z) (h : Z) :
  Heap st bs (l1 ++ h :: l2) -> Heap (removeNode st h) bs (l1 ++ l2).
Proof.
  intros H.
  destruct (removeNode_mem st h) as [Em Es].
  pose proof (heap_dll _ _ _ H) as Hd.
  assert (Hsub : incl (l1 ++ l2) (l1 ++ h :: l2)).
  { intros g Hg. apply in_app_iff in Hg.
    destruct Hg; [now apply in_mid_l|now apply in_mid_r]. }
  constructor; rewrite ?Em, ?Es; try apply H.
  - eapply tags_ok_links; [apply (heap_sizes _ _ _ H)|apply (heap_tags _ _ _ H)|].
    intros x Hx. eapply removeNode_other; [exact Hd|].
    intros g Hg. apply Hx. apply (heap_incl _ _ _ H). now apply Hsub.
  - apply removeNode_dll; [exact Hd|apply (heap_nodup _ _ _ H)|].
    apply (Heap_separated _ _ _ H).
  - eapply NoDup_remove_1. apply (heap_nodup _ _ _ H).
  - intros g Hg. apply (heap_incl _ _ _ H). now apply Hsub.
Qed.

(** The same, for any state that differs in its bytes only. *)
Lemma Heap_change (st st' : state) (pre mid mid' post : list block) (fl : list Z) :
  Heap st (pre ++ mid ++ post) fl ->
  mem st' = mem st -> MEMORY_SIZE st' = MEMORY_SIZE st -> freeList st' = freeList st ->
  (forall x, x < mem st + total pre \/ mem st + total pre + total mid <= x ->
             bytes st' x = bytes st x) ->
  total mid' = total mid ->
  sizes_ok mid' ->
  tags_ok (bytes st') (mem st + total pre) mid' ->
  (forall g, In g fl -> In g (free_addrs (mem st + total pre) mid) ->
     In g (free_addrs (mem st + total pre) mid') /\
     forall x, g + 8 <= x < g + 24 -> bytes st' x = bytes st x) ->
  Heap st' (pre ++ mid' ++ post) fl.
Proof.
  intros H Em Es Ef Hout Htot Hs Ht Hfl.
  destruct st' as [N' a' f' m']. cbn in Em, Es, Ef, Hout, Ht, Hfl. subst.
  apply (Heap_change_mid st pre mid mid' post fl m'); assumption.
Qed.

Lemma Heap_block (st : state) (pre post : list block) (b : block) (fl : list Z) :
  Heap st (pre ++ b :: post) fl ->
  load_int (bytes st) (mem st + total pre) = tag b /\
  load_int (bytes st) (mem st + total pre + 4 + size b) = tag b /\
  20 <= size b /\ 0 <= total pre /\ 0 <= total post /\
  total pre + (size b + 8) + total post = MEMORY_SIZE st.
Proof.
  intros H. pose proof (heap_tags _ _ _ H) as Ht. pose proof (heap_sizes _ _ _ H) as Hs.
  pose proof (heap_total _ _ _ H) as Htot.
  apply tags_ok_app in Ht. destruct Ht as [_ Ht]. apply tags_ok_cons in Ht.
  destruct Ht as [[T1 T2] _].
  apply sizes_ok_app in Hs. destruct Hs as [Hs1 Hs]. apply sizes_ok_cons in Hs.
  destruct Hs as [Hb Hs2].
  rewrite total_app in Htot. cbn [total] in Htot.
  pose proof (total_nonneg _ Hs1). pose proof (total_nonneg _ Hs2).
  unfold_consts. repeat split; try assumption; lia.
Qed.

Lemma free_addrs_mid (a : Z) (pre post : list block) (s : Z) :
  In (a + total pre) (free_addrs a (pre ++ Free s :: post)).
Proof. rewrite free_addrs_app. apply in_or_app. right. now left. Qed.

(** A node of the list that is the block at [mem + total pre] of a heap. *)
Lemma Heap_node_cases (st : state) (pre post : list block) (b : block)
      (fl : list Z) (g : Z) :
  Heap st (pre ++ b :: post) fl -> In g fl ->
  g + 28 <= mem st + total pre \/
  (g = mem st + total pre /\ is_free b = true) \/
  mem st + total pre + size b + 8 <= g.
Proof.
  intros H Hg. pose proof (heap_incl _ _ _ H _ Hg) as Hin.
  pose proof (heap_sizes _ _ _ H) as Hs.
  apply sizes_ok_app in Hs. destruct Hs as [Hs1 Hs]. apply sizes_ok_cons in Hs.
  destruct Hs as [Hb Hs2].
  rewrite free_addrs_app in Hin. cbn [free_addrs] in Hin.
  rewrite !in_app_iff in Hin. destruct Hin as [I|[I|I]].
  - left. pose proof (free_addrs_bounds _ _ _ Hs1 I). lia.
  - right; left. destruct b; cbn in I |- *; [|contradiction].
    destruct I as [<-|[]]. split; reflexivity.
  - right; right. pose proof (free_addrs_bounds _ _ _ Hs2 I). unfold_consts. lia.
Qed.

Lemma Heap_splitBlock (st : state) (pre post : list block) (sp sz : Z) (fl : list Z) :
  Heap st (pre ++ Free sp :: post) fl ->
  20 <= sz -> 20 <= sp - sz - 8 ->
  Heap (fst (splitBlock st (mem st + total pre) sz))
       (pre ++ Free sz :: Free (sp - sz - 8) :: post) fl /\
  snd (splitBlock st (mem st + total pre) sz) = mem st + total pre + sz + 8.
Proof.
  intros H Hsz Hrest.
  destruct (Heap_block _ _ _ _ _ H) as (T1 & T2 & Hb & Hp & Hq & Htot).
  cbn [tag size] in *. pose proof (heap_int _ _ _ H) as Hint.
  set (h := mem st + total pre) in *.
  unfold splitBlock. cbn [fst snd]. unfold node_space. unfold_consts.
  rewrite Z.add_0_r, T1. rewrite (to_int_id (sp - sz - 2 * 4)) by lia.
  split; [|lia].
  apply (Heap_change st _ pre [Free sp] [Free sz; Free (sp - sz - 8)] post fl H);
    st_simpl; try reflexivity.
  - intros x Hx. cbn [total] in Hx. unfold_consts. cbn [size] in Hx. fold h in Hx.
    rewrite !Z.add_0_r. mem_simpl. reflexivity.
  - cbn [total]. unfold_consts. cbn [size]. lia.
  - repeat constructor; cbn [size]; unfold_consts; lia.
  - fold h. rewrite !Z.add_0_r.
    apply tags_ok_cons. cbn [tag size]. unfold_consts. split; [split|].
    + mem_simpl. reflexivity.
    + mem_simpl. reflexivity.
    + apply tags_ok_cons. cbn [tag size]. unfold_consts. split; [split|constructor].
      * replace (h + (sz + 2 * 4)) with (h + 4 + sz + 4) by lia.
        mem_simpl. reflexivity.
      * replace (h + (sz + 2 * 4) + 4 + (sp - sz - 8)) with (h + 4 + sp) by lia.
        replace (sp - sz - 2 * 4) with (sp - sz - 8) by lia.
        mem_simpl. reflexivity.
  - fold h. intros g Hg Hin. cbn [free_addrs is_free app] in Hin.
    destruct Hin as [<-|[]]. split; [now left|].
    intros x Hx. rewrite !Z.add_0_r. mem_simpl. reflexivity.
Qed.

Lemma Heap_mark_used (st : state) (pre post : list block) (s : Z) (fl : list Z) :
  Heap st (pre ++ Free s :: post) fl ->
  ~ In (mem st + total pre) fl ->
  Heap (write_int (set_space st (mem st + total pre) (- s))
                  (mem st + total pre + sizeof_int + s) (- s))
       (pre ++ Used s :: post) fl.
Proof.
  intros H Hnot.
  destruct (Heap_block _ _ _ _ _ H) as (T1 & T2 & Hb & Hp & Hq & Htot).
  cbn [tag size] in *. pose proof (heap_int _ _ _ H) as Hint.
  set (h := mem st + total pre) in *.
  apply (Heap_change st _ pre [Free s] [Used s] post fl H);
    st_simpl; try reflexivity.
  - intros x Hx. cbn [total] in Hx. unfold_consts. cbn [size] in Hx. fold h in Hx.
    rewrite !Z.add_0_r. mem_simpl. reflexivity.
  - repeat constructor; cbn [size]; unfold_consts; lia.
  - fold h. rewrite !Z.add_0_r.
    apply tags_ok_cons. cbn [tag size]. unfold_consts. split; [split|constructor].
    + mem_simpl. reflexivity.
    + mem_simpl. reflexivity.
  - fold h. intros g Hg Hin. cbn [free_addrs is_free app] in Hin.
    destruct Hin as [<-|[]]. contradiction.
Qed.

Lemma Heap_mark_free (st : state) (pre post : list block) (s : Z) (fl : list Z) :
  Heap st (pre ++ Used s :: post) fl ->
  Heap (write_int (set_space st (mem st + total pre) s)
                  (mem st + total pre + sizeof_int + s) s)
       (pre ++ Free s :: post) fl.
Proof.
  intros H.
  destruct (Heap_block _ _ _ _ _ H) as (T1 & T2 & Hb & Hp & Hq & Htot).
  cbn [tag size] in *. pose proof (heap_int _ _ _ H) as Hint.
  set (h := mem st + total pre) in *.
  apply (Heap_change st _ pre [Used s] [Free s] post fl H);
    st_simpl; try reflexivity.
  - intros x Hx. cbn [total] in Hx. unfold_consts. cbn [size] in Hx. fold h in Hx.
    rewrite !Z.add_0_r. mem_simpl. reflexivity.
  - repeat constructor; cbn [size]; unfold_consts; lia.
  - fold h. rewrite !Z.add_0_r.
    apply tags_ok_cons. cbn [tag size]. unfold_consts. split; [split|constructor].
    + mem_simpl. reflexivity.
    + mem_simpl. reflexivity.
  - intros g Hg Hin. cbn [free_addrs is_free app] in Hin. contradiction.
Qed.

(** Writing inside the payload of a block in use. *)
Lemma Heap_payload (st st' : state) (pre post : list block) (s : Z) (fl : list Z) :
  Heap st (pre ++ Used s :: post) fl ->
  mem st' = mem st -> MEMORY_SIZE st' = MEMORY_SIZE st -> freeList st' = freeList st ->
  (forall x, x < mem st + total pre + 4 \/ mem st + total pre + 4 + s <= x ->
             bytes st' x = bytes st x) ->
  Heap st' (pre ++ Used s :: post) fl.
Proof.
  intros H Em Es Ef Hout.
  destruct (Heap_block _ _ _ _ _ H) as (T1 & T2 & Hb & Hp & Hq & Htot).
  cbn [tag size] in *.
  apply (Heap_change st st' pre [Used s] [Used s] post fl H); try assumption.
  - intros x Hx. cbn [total] in Hx. unfold_consts. cbn [size] in Hx. apply Hout. lia.
  - reflexivity.
  - repeat constructor; cbn [size]; unfold_consts; lia.
  - apply tags_ok_cons. cbn [tag size]. unfold_consts. split; [split|constructor].
    + rewrite <- T1. apply load_int_ext. intros x Hx. apply Hout. lia.
    + rewrite <- T2. apply load_int_ext. intros x Hx. apply Hout. lia.
  - intros g Hg Hin. cbn [free_addrs is_free app] in Hin. contradiction.
Qed.

Lemma tags_ok_change (m m' : memory) (a : Z) (pre mid mid' post : list block) :
  sizes_ok (pre ++ mid ++ post) -> tags_ok m a (pre ++ mid ++ post) ->
  (forall x, x < a + total pre \/ a + total pre + total mid <= x -> m' x = m x) ->
  total mid' = total mid ->
  tags_ok m' (a + total pre) mid' ->
  tags_ok m' a (pre ++ mid' ++ post).
Proof.
  intros Hs Htags Hout Htot Ht'.
  apply sizes_ok_app in Hs. destruct Hs as [Hs1 Hs]. apply sizes_ok_app in Hs.
  destruct Hs as [Hs2 Hs3].
  apply tags_ok_app in Htags. destruct Htags as [Tg1 Tg]. apply tags_ok_app in Tg.
  destruct Tg as [Tg2 Tg3].
  pose proof (total_nonneg _ Hs1) as N1. pose proof (total_nonneg _ Hs2) as N2.
  pose proof (total_nonneg _ Hs3) as N3.
  apply tags_ok_app. split.
  - eapply tags_ok_agree; [exact Hs1|exact Tg1|]. intros x Hx. apply Hout. lia.
  - apply tags_ok_app. split; [exact Ht'|]. rewrite Htot.
    eapply tags_ok_agree; [exact Hs3|exact Tg3|]. intros x Hx. apply Hout. lia.
Qed.

Lemma Heap_coalesce (st : state) (pre post : list block) (sa sb : Z) (l1 l2 : list Z) :
  Heap st (pre ++ Free sa :: Free sb :: post)
       (l1 ++ (mem st + total pre + sa + 8) :: l2) ->
  Heap (coalesce st (mem st + total pre) (mem st + total pre + sa + 8))
       (pre ++ Free (sa + sb + 8) :: post) (l1 ++ l2).
Proof.
  intros H.
  destruct (Heap_block _ _ _ _ _ H) as (A1 & A2 & Ha & Hp & Hq & Htot).
  assert (H' : Heap st ((pre ++ [Free sa]) ++ Free sb :: post)
                    (l1 ++ (mem st + total pre + sa + 8) :: l2)).
  { rewrite <- app_assoc. exact H. }
  destruct (Heap_block _ _ _ _ _ H') as (B1 & B2 & Hb & _ & Hq' & _).
  rewrite total_app in B1, B2. cbn [total] in B1, B2, Htot.
  unfold_consts. cbn [tag size] in *.
  pose proof (heap_int _ _ _ H) as Hint.
  pose proof (heap_dll _ _ _ H) as Hd.
  assert (Hpos : forall g, In g (l1 ++ (mem st + total pre + sa + 8) :: l2) ->
            g + 28 <= mem st + total pre \/ g = mem st + total pre \/
            g = mem st + total pre + sa + 8 \/
            mem st + total pre + (sa + sb + 8) + 8 <= g).
  { intros g Hg.
    pose proof (Heap_node_cases _ _ _ _ _ g H Hg) as C1.
    pose proof (Heap_node_cases _ _ _ _ _ g H' Hg) as C2.
    rewrite total_app in C2. cbn [total size] in C1, C2. unfold_consts.
    cbn [size] in C2. lia. }
  clear H'.
  replace (mem st + (total pre + (sa + 2 * 4 + 0))) with (mem st + total pre + sa + 8)
    in B1, B2 by lia.
  set (h := mem st + total pre) in *.
  set (hb := h + sa + 8) in *.
  unfold coalesce. unfold node_space. unfold_consts. rewrite !Z.add_0_r, A1, B1.
  rewrite (to_int_id (sa + sb + 2 * 4)) by lia.
  replace (sa + sb + 2 * 4) with (sa + sb + 8) by lia.
  set (ns := sa + sb + 8) in *.
  set (st1 := write_int (set_space st h ns) (h + ns + 4) ns).
  assert (Eb : forall x, x < h \/ (h + 4 <= x < h + ns + 4) \/ h + ns + 8 <= x ->
               bytes st1 x = bytes st x).
  { intros x Hx. unfold st1. st_simpl. unfold_consts. rewrite !Z.add_0_r.
    mem_simpl. reflexivity. }
  assert (Hd1 : dll (bytes st1) NULL (freeList st1) (l1 ++ hb :: l2)).
  { change (freeList st1) with (freeList st).
    eapply dll_agree; [|exact Hd]. intros g Hg x Hx. apply Eb.
    specialize (Hpos g Hg). unfold ns, hb in *. lia. }
  assert (Ht1 : tags_ok (bytes st1) (mem st) (pre ++ Free ns :: post)).
  { apply (tags_ok_change (bytes st) (bytes st1) (mem st) pre
             [Free sa; Free sb] [Free ns] post).
    - apply (heap_sizes _ _ _ H).
    - apply (heap_tags _ _ _ H).
    - intros x Hx. cbn [total] in Hx. unfold_consts. cbn [size] in Hx. apply Eb.
      fold h in Hx. unfold ns. lia.
    - cbn [total]. unfold_consts. cbn [size]. unfold ns. lia.
    - fold h. apply tags_ok_cons. cbn [tag size]. unfold_consts.
      split; [split|constructor]; unfold st1; st_simpl; unfold_consts;
        rewrite !Z.add_0_r.
      + mem_simpl. reflexivity.
      + replace (h + 4 + ns) with (h + ns + 4) by lia. mem_simpl. reflexivity. }
  assert (Hs' : sizes_ok (pre ++ Free ns :: post)).
  { pose proof (heap_sizes _ _ _ H) as Hs.
    apply sizes_ok_app in Hs. destruct Hs as [Hs1 Hs]. apply sizes_ok_cons in Hs.
    destruct Hs as [_ Hs]. apply sizes_ok_cons in Hs. destruct Hs as [_ Hs].
    apply sizes_ok_app. split; [exact Hs1|]. apply sizes_ok_cons. split; [|exact Hs].
    cbn [size]. unfold_consts. unfold ns. lia. }
  assert (Hincl' : incl (l1 ++ l2) (free_addrs (mem st) (pre ++ Free ns :: post))).
  { intros g Hg.
    assert (Hg' : In g (l1 ++ hb :: l2)).
    { apply in_app_iff in Hg. destruct Hg; [now apply in_mid_l|now apply in_mid_r]. }
    assert (Hne : g <> hb).
    { intros ->. pose proof (heap_nodup _ _ _ H) as Hnd.
      apply NoDup_remove_2 in Hnd. contradiction. }
    pose proof (heap_incl _ _ _ H _ Hg') as Hin.
    rewrite free_addrs_app in Hin |- *. cbn [free_addrs is_free] in Hin |- *.
    rewrite !in_app_iff in Hin |- *. cbn [In] in Hin |- *. unfold_consts.
    cbn [size] in Hin |- *. fold h in Hin |- *.
    replace (h + (ns + 2 * 4)) with (h + (sa + 2 * 4) + (sb + 2 * 4))
      by (unfold ns; lia).
    cbn [app In] in Hin.
    destruct Hin as [I|[[I|[]]|[I|I]]]; auto.
    exfalso. apply Hne. rewrite <- I. unfold hb. lia. }
  destruct (removeNode_mem st1 hb) as [Em Es].
  constructor; rewrite ?Em, ?Es; try apply H.
  - rewrite total_app in *. cbn [total] in *. unfold_consts. cbn [size] in *.
    change (MEMORY_SIZE st1) with (MEMORY_SIZE st).
    rewrite <- (heap_total _ _ _ H). rewrite total_app. cbn [total]. unfold_consts.
    cbn [size]. unfold ns. lia.
  - exact Hs'.
  - change (mem st1) with (mem st).
    eapply tags_ok_links; [exact Hs'|exact Ht1|].
    intros x Hx. eapply removeNode_other; [exact Hd1|].
    intros g Hg. apply Hx. now apply Hincl'.
  - apply removeNode_dll; [exact Hd1|apply (heap_nodup _ _ _ H)|].
    apply (Heap_separated _ _ _ H).
  - eapply NoDup_remove_1. apply (heap_nodup _ _ _ H).
  - exact Hincl'.
Qed.

End HeapSteps.

(* ------------------------------------------------------------------ *)
(** ** The two loops that walk memory *)

Section Loops.

Lemma checkMem_loop_tiled (bs : list block) : forall (n : nat) (st : state) (a fr al : Z),
  sizes_ok bs -> tags_ok (bytes st) a bs ->
  a + total bs = mem st + MEMORY_SIZE st -> total bs < 2 ^ 31 ->
  (length bs < n)%nat ->
  checkMem_loop n st a fr al = Some (al + fr + total bs).
Proof.
  induction bs as [|b r IH]; intros n st a fr al Hs Ht Hend Hint Hn;
    (destruct n as [|n]; [cbn in Hn; lia|]); cbn [checkMem_loop].
  - cbn [total] in *. replace (a =? mem st + MEMORY_SIZE st) with true
      by (symmetry; apply Z.eqb_eq; lia).
    f_equal. lia.
  - apply sizes_ok_cons in Hs. destruct Hs as [Hb Hs].
    apply tags_ok_cons in Ht. destruct Ht as [[T1 _] Ht].
    pose proof (total_nonneg _ Hs) as Hr. cbn [total length] in *.
    unfold_consts.
    destruct (Z.eqb_spec a (mem st + MEMORY_SIZE st)) as [E|_]; [lia|].
    unfold node_space. unfold_consts. rewrite Z.add_0_r, T1.
    assert (Habs : Z.abs (tag b) = size b) by (destruct b; cbn [tag size] in *; lia).
    rewrite Habs. rewrite (to_int_id (size b + 2 * 4)) by lia.
    destruct b as [s|s]; cbn [tag size] in *.
    + destruct (Z.ltb_spec s 0); [lia|].
      rewrite (IH n st (a + (s + 2 * 4)) (fr + (s + 2 * 4)) al); try assumption;
        try lia.
      f_equal. lia.
    + destruct (Z.ltb_spec (- s) 0); [|lia].
      rewrite (IH n st (a + (s + 2 * 4)) fr (al + (s + 2 * 4))); try assumption;
        try lia.
      f_equal. lia.
Qed.

Lemma Heap_blocks_fuel (st : state) (bs : list block) (fl : list Z) :
  Heap st bs fl -> (length bs < fuel st)%nat.
Proof.
  intros H. pose proof (total_length _ (heap_sizes _ _ _ H)) as Hl.
  rewrite (heap_total _ _ _ H) in Hl. unfold fuel. lia.
Qed.

Lemma checkMem_Heap (st : state) (bs : list block) (fl : list Z) :
  Heap st bs fl -> checkMem st = Some (MEMORY_SIZE st).
Proof.
  intros H. unfold checkMem.
  rewrite (checkMem_loop_tiled bs (fuel st) st (mem st) 0 0).
  - f_equal. rewrite (heap_total _ _ _ H). lia.
  - apply (heap_sizes _ _ _ H).
  - apply (heap_tags _ _ _ H).
  - rewrite (heap_total _ _ _ H). reflexivity.
  - rewrite (heap_total _ _ _ H). apply (heap_int _ _ _ H).
  - eapply Heap_blocks_fuel; eauto.
Qed.

Lemma assert_checkMem_Heap (st : state) (bs : list block) (fl : list Z) :
  Heap st bs fl -> assert_checkMem st = true.
Proof.
  intros H. unfold assert_checkMem. rewrite (checkMem_Heap _ _ _ H).
  apply Z.eqb_refl.
Qed.

Lemma findHead_loop_scan (st : state) (sz : Z) (fl : list Z) :
  forall (n : nat) (prev p res low : Z),
  dll (bytes st) prev p fl -> (length fl < n)%nat ->
  findHead_loop n st sz p res low = Some (scan st sz fl res low).
Proof.
  induction fl as [|h t IH]; intros n prev p res low Hd Hn;
    (destruct n as [|n]; [cbn in Hn; lia|]); cbn [findHead_loop scan dll] in *.
  - subst p. reflexivity.
  - destruct Hd as (-> & Hnz & _ & Hd).
    destruct (Z.eqb_spec h NULL) as [?|_]; [contradiction|].
    cbn [length] in Hn.
    destruct (node_space st h =? sz); [reflexivity|].
    unfold node_next.
    destruct (node_space st h >? sz);
      [destruct ((res =? NULL) || (node_space st h <? low))|];
      eapply IH; eauto; lia.
Qed.

(** The scan stops at the first exact fit: fuel for the nodes up to it is
    enough, whatever follows. *)
Lemma findHead_loop_exact (st : state) (sz r : Z) (l2 : list Z) :
  forall (l1 : list Z) (n : nat) (prev p res low : Z),
  dll (bytes st) prev p (l1 ++ r :: l2) ->
  node_space st r = sz ->
  (forall g, In g l1 -> node_space st g <> sz) ->
  (length l1 < n)%nat ->
  findHead_loop n st sz p res low = Some r.
Proof.
  induction l1 as [|h t IH]; intros n prev p res low Hd Hr Hl Hn;
    (destruct n as [|n]; [cbn in Hn; lia|]); cbn [findHead_loop dll app] in *.
  - destruct Hd as (-> & Hnz & _ & _).
    destruct (Z.eqb_spec r NULL) as [?|_]; [contradiction|].
    rewrite Hr, Z.eqb_refl. reflexivity.
  - destruct Hd as (-> & Hnz & _ & Hd).
    destruct (Z.eqb_spec h NULL) as [?|_]; [contradiction|].
    cbn [length] in Hn.
    destruct (Z.eqb_spec (node_space st h) sz) as [E|_].
    + exfalso. apply (Hl h); [now left|exact E].
    + unfold node_next.
      destruct (node_space st h >? sz);
        [destruct ((res =? NULL) || (node_space st h <? low))|];
        eapply IH; eauto; try lia; intros g Hg; apply Hl; now right.
Qed.

Lemma scan_spec (st : state) (sz : Z) (fl : list Z) : forall (res low : Z),
  (forall g, In g fl -> g <> NULL) ->
  (res <> NULL -> sz < low) ->
  (scan st sz fl res low = res /\
   forall g, In g fl -> sz <= node_space st g -> res <> NULL /\ low <= node_space st g)
  \/
  (exists l1 l2,
     fl = l1 ++ scan st sz fl res low :: l2 /\
     sz <= node_space st (scan st sz fl res low) /\
     (res <> NULL -> node_space st (scan st sz fl res low) < low) /\
     (forall g, In g l1 -> sz <= node_space st g ->
                node_space st (scan st sz fl res low) < node_space st g) /\
     (forall g, In g l2 -> sz <= node_space st g ->
                node_space st (scan st sz fl res low) <= node_space st g)).
Proof.
  induction fl as [|h t IH]; intros res low Hnz Hlow; cbn [scan].
  - left. split; [reflexivity|]. intros g [].
  - assert (Hnz' : forall g, In g t -> g <> NULL) by (intros g Hg; apply Hnz; now right).
    assert (Hh : h <> NULL) by (apply Hnz; now left).
    assert (Hnew : forall res' low',
      (res' = h /\ low' = node_space st h /\ sz < node_space st h /\
       (res <> NULL -> node_space st h < low)) \/
      (res' = res /\ low' = low /\
       (sz <= node_space st h -> res <> NULL /\ low <= node_space st h)) ->
      (scan st sz t res' low' = res /\
       forall g, In g (h :: t) -> sz <= node_space st g ->
                 res <> NULL /\ low <= node_space st g)
      \/
      (exists l1 l2,
         h :: t = l1 ++ scan st sz t res' low' :: l2 /\
         sz <= node_space st (scan st sz t res' low') /\
         (res <> NULL -> node_space st (scan st sz t res' low') < low) /\
         (forall g, In g l1 -> sz <= node_space st g ->
                    node_space st (scan st sz t res' low') < node_space st g) /\
         (forall g, In g l2 -> sz <= node_space st g ->
                    node_space st (scan st sz t res' low') <= node_space st g))).
    { intros res' low' [(-> & -> & G & L)|(-> & -> & K)].
      - destruct (IH h (node_space st h) Hnz' ltac:(lia))
          as [[E Hall]|(l1 & l2 & E & P1 & P2 & P3 & P4)].
        + right. exists [], t. rewrite E. cbn [app].
          split; [reflexivity|]. split; [lia|]. split; [exact L|].
          split; [intros g []|]. intros g Hg Hs. apply (Hall g Hg Hs).
        + right. exists (h :: l1), l2. cbn [app]. rewrite <- E.
          split; [reflexivity|]. split; [exact P1|].
          split; [intros R; specialize (P2 Hh); specialize (L R); lia|].
          split; [|exact P4].
          intros g [<-|Hg] Hs; [apply P2; exact Hh|apply P3; assumption].
      - destruct (IH res low Hnz' Hlow)
          as [[E Hall]|(l1 & l2 & E & P1 & P2 & P3 & P4)].
        + left. split; [exact E|]. intros g [<-|Hg] Hs; [apply K; exact Hs|].
          apply (Hall g Hg Hs).
        + right. exists (h :: l1), l2. cbn [app]. rewrite <- E.
          split; [reflexivity|]. split; [exact P1|]. split; [exact P2|].
          split; [|exact P4].
          intros g [<-|Hg] Hs; [|apply P3; assumption].
          destruct (K Hs) as [R K']. specialize (P2 R). lia. }
    destruct (Z.eqb_spec (node_space st h) sz) as [E|NE].
    + right. exists [], t. cbn [app].
      split; [reflexivity|]. split; [lia|]. split; [intros R; specialize (Hlow R); lia|].
      split; [intros g []|]. intros g _ Hs. lia.
    + destruct (Z.gtb_spec (node_space st h) sz) as [G|G].
      * destruct (Z.eqb_spec res NULL) as [R|R]; cbn [orb].
        -- apply Hnew. left. repeat split; try lia; intros; contradiction.
        -- destruct (Z.ltb_spec (node_space st h) low) as [L|L].
           ++ apply Hnew. left. repeat split; try lia; intros; lia.
           ++ apply Hnew. right. repeat split; try lia; try exact R; intros; lia.
      * apply Hnew. right. repeat split; try lia; intros; lia.
Qed.

End Loops.

(* ------------------------------------------------------------------ *)
(** ** Neighbouring free blocks *)

Section Adjacent.

Lemma last_free_snoc (l : list block) (b : block) : last_free (l ++ [b]) = is_free b.
Proof.
  induction l as [|c l IH]; [reflexivity|].
  cbn [app last_free]. rewrite IH. destruct (l ++ [b]) eqn:E; [|reflexivity].
  destruct l; discriminate.
Qed.

Lemma naf_cons (b : block) (l : list block) :
  no_adjacent_free (b :: l) <->
  (is_free b && hd_free l = false) /\ no_adjacent_free l.
Proof.
  destruct l as [|c l]; cbn [no_adjacent_free hd_free].
  - rewrite andb_false_r. tauto.
  - tauto.
Qed.

Lemma naf_app (l1 l2 : list block) :
  no_adjacent_free (l1 ++ l2) <->
  no_adjacent_free l1 /\ no_adjacent_free l2 /\ (last_free l1 && hd_free l2 = false).
Proof.
  induction l1 as [|b l1 IH].
  - cbn. tauto.
  - cbn [app]. rewrite !naf_cons, IH.
    destruct l1 as [|c l1].
    + cbn [app hd_free last_free no_adjacent_free]. rewrite andb_false_r. tauto.
    + cbn [app hd_free last_free]. tauto.
Qed.

Lemma naf_mid (pre post : list block) (b : block) :
  no_adjacent_free (pre ++ b :: post) <->
  no_adjacent_free pre /\ no_adjacent_free post /\
  (last_free pre && is_free b = false) /\ (is_free b && hd_free post = false).
Proof. rewrite naf_app, naf_cons. cbn [hd_free]. tauto. Qed.

Lemma list_snoc_cases (l : list block) : l = [] \/ exists l' c, l = l' ++ [c].
Proof.
  destruct l as [|b l] using rev_ind; [now left|right]. now exists l, b.
Qed.

Lemma naf_snoc (pre : list block) (b : block) :
  no_adjacent_free (pre ++ [b]) <->
  no_adjacent_free pre /\ (last_free pre && is_free b = false).
Proof. rewrite naf_mid. cbn. rewrite andb_false_r. tauto. Qed.

Lemma free_addrs_length (bs : list block) : forall a,
  (length (free_addrs a bs) <= length bs)%nat.
Proof.
  induction bs as [|b bs IH]; intros a; cbn [free_addrs length]; [lia|].
  rewrite length_app. specialize (IH (a + extent b)).
  destruct b; cbn [is_free length]; lia.
Qed.

Lemma Heap_list_fuel (st : state) (bs : list block) (fl : list Z) :
  Heap st bs fl -> (length fl < fuel st)%nat.
Proof.
  intros H. pose proof (Heap_blocks_fuel _ _ _ H).
  pose proof (NoDup_incl_length (heap_nodup _ _ _ H) (heap_incl _ _ _ H)).
  pose proof (free_addrs_length bs (mem st)). lia.
Qed.

End Adjacent.

(* ------------------------------------------------------------------ *)
(** ** myalloc *)

Section Allocate.

Lemma myalloc_unfold (st : state) (sz : Z) :
  myalloc st sz =
  match findHead st sz with
  | None => None
  | Some h =>
    if h =? NULL then Some (st, NULL)
    else if assert_checkMem (myalloc_take st h sz)
         then Some (myalloc_take st h sz, h + sizeof_int)
         else None
  end.
Proof. reflexivity. Qed.

Lemma MAX_request (r : Z) :
  0 <= r < 2 ^ 31 -> to_int (MAX r (sizeof_node - sizeof_int)) = Z.max r 20.
Proof.
  intros H. unfold MAX. unfold_consts.
  rewrite !to_size_t_id by lia.
  destruct (Z.gtb_spec r (24 - 4)); rewrite to_int_id by lia; lia.
Qed.

Lemma split_test (sp s : Z) :
  0 <= sp < 2 ^ 31 -> 0 <= s < 2 ^ 31 ->
  (to_size_t sp >? to_size_t (to_size_t s + sizeof_int + sizeof_node)) = (sp >? s + 28).
Proof.
  intros H1 H2. unfold_consts.
  rewrite (to_size_t_id s), (to_size_t_id sp), (to_size_t_id (s + 4 + 24)) by lia.
  destruct (Z.gtb_spec sp (s + 4 + 24)); destruct (Z.gtb_spec sp (s + 28));
    try reflexivity; lia.
Qed.

Lemma splitBlock_mem (st : state) (h sz : Z) :
  mem (fst (splitBlock st h sz)) = mem st /\
  MEMORY_SIZE (fst (splitBlock st h sz)) = MEMORY_SIZE st /\
  freeList (fst (splitBlock st h sz)) = freeList st.
Proof. repeat split. Qed.

Lemma splitBlock_other (st : state) (h sz x : Z) :
  x < h \/ h + node_space st h + 8 <= x ->
  0 <= sz -> sz + 8 <= node_space st h ->
  bytes (fst (splitBlock st h sz)) x = bytes st x.
Proof.
  intros Hx H0 H1. unfold splitBlock. cbn [fst]. unfold node_space in *.
  st_simpl. unfold_consts. rewrite !Z.add_0_r in *. mem_simpl. reflexivity.
Qed.

Lemma node_space_block (st : state) (pre post : list block) (b : block) (fl : list Z) :
  Heap st (pre ++ b :: post) fl -> node_space st (mem st + total pre) = tag b.
Proof.
  intros H. destruct (Heap_block _ _ _ _ _ H) as (T1 & _).
  unfold node_space, off_space. rewrite Z.add_0_r. exact T1.
Qed.

Lemma Heap_head_cases (st : state) (bs : list block) (l1 l2 : list Z) (h x : Z) :
  Heap st bs (l1 ++ h :: l2) ->
  (x < h + 8 \/ h + 24 <= x) ->
  (forall g, In g (l1 ++ l2) -> x < g + 8 \/ g + 24 <= x) ->
  freeList st = NULL \/ x < freeList st + 16 \/ freeList st + 24 <= x.
Proof.
  intros H Hh Hx. right. rewrite (Heap_freeList _ _ _ H).
  destruct l1 as [|f l1]; cbn [app hd].
  - lia.
  - specialize (Hx f (or_introl eq_refl)). lia.
Qed.

Lemma myalloc_take_Heap (st : state) (pre post : list block) (sp : Z)
      (l1 l2 : list Z) (request : Z) :
  Heap st (pre ++ Free sp :: post) (l1 ++ (mem st + total pre) :: l2) ->
  0 <= request <= sp ->
  mem (myalloc_take st (mem st + total pre) request) = mem st /\
  MEMORY_SIZE (myalloc_take st (mem st + total pre) request) = MEMORY_SIZE st /\
  (forall x, x < mem st + total pre \/ mem st + total pre + sp + 8 <= x ->
     ~ relinked st (mem st + total pre) x ->
     bytes (myalloc_take st (mem st + total pre) request) x = bytes st x) /\
  ((Z.max request 20 + 28 < sp /\
    Heap (myalloc_take st (mem st + total pre) request)
         (pre ++ Used (Z.max request 20) :: Free (sp - Z.max request 20 - 8) :: post)
         ((mem st + total pre + Z.max request 20 + 8) :: l1 ++ l2))
   \/
   (sp <= Z.max request 20 + 28 /\
    Heap (myalloc_take st (mem st + total pre) request)
         (pre ++ Used sp :: post) (l1 ++ l2))).
Proof.
  intros H Hreq.
  destruct (Heap_block _ _ _ _ _ H) as (T1 & T2 & Hb & Hp & Hq & Htot).
  cbn [tag size] in *. pose proof (heap_int _ _ _ H) as Hint.
  pose proof (node_space_block _ _ _ _ _ H) as Hsp. cbn [tag] in Hsp.
  pose proof (heap_nodup _ _ _ H) as Hnd.
  set (h := mem st + total pre) in *.
  set (s := Z.max request 20).
  assert (Hs : 20 <= s <= sp) by (unfold s; lia).
  unfold myalloc_take. rewrite Hsp, MAX_request by lia. fold s.
  rewrite split_test by lia.
  destruct (Z.gtb_spec sp (s + 28)) as [G|G].
  - (* the block is split *)
    destruct (Heap_splitBlock st pre post sp s _ H ltac:(lia) ltac:(lia)) as [H1 Esnd].
    fold h in H1, Esnd.
    rewrite (surjective_pairing (splitBlock st h s)), Esnd.
    set (st1 := fst (splitBlock st h s)) in *.
    set (nh := h + s + 8) in *.
    assert (Hin : In nh (free_addrs (mem st1) (pre ++ Free s :: Free (sp - s - 8) :: post))).
    { change (mem st1) with (mem st).
      replace (pre ++ Free s :: Free (sp - s - 8) :: post)
        with ((pre ++ [Free s]) ++ Free (sp - s - 8) :: post)
        by (rewrite <- app_assoc; reflexivity).
      replace nh with (mem st + total (pre ++ [Free s])).
      - apply free_addrs_mid.
      - rewrite total_app. cbn [total]. unfold_consts. cbn [size]. unfold nh, h. lia. }
    assert (Hnot : ~ In nh (l1 ++ h :: l2)).
    { intros Hc. pose proof (Heap_node_cases _ _ _ _ _ nh H Hc) as C.
      cbn [size] in C. fold h in C. unfold nh in C. lia. }
    pose proof (Heap_addNode _ _ _ _ H1 Hin Hnot) as H2.
    destruct (addNode_mem st1 nh) as (Em2 & Es2 & Ef2).
    set (st2 := addNode st1 nh) in *.
    change (nh :: l1 ++ h :: l2) with ((nh :: l1) ++ h :: l2) in H2.
    pose proof (Heap_removeNode _ _ _ _ _ H2) as H3.
    destruct (removeNode_mem st2 h) as (Em3 & Es3).
    pose proof (heap_dll _ _ _ H2) as Hd2.
    set (st3 := removeNode st2 h) in *.
    assert (Em : mem st3 = mem st) by (rewrite Em3, Em2; reflexivity).
    assert (Es : MEMORY_SIZE st3 = MEMORY_SIZE st) by (rewrite Es3, Es2; reflexivity).
    pose proof (node_space_block _ _ _ _ _ H3) as Hsp3. cbn [tag] in Hsp3.
    rewrite Em in Hsp3. fold h in Hsp3. rewrite Hsp3.
    assert (Hnot3 : ~ In (mem st3 + total pre) ((nh :: l1) ++ l2)).
    { rewrite Em. fold h. pose proof (heap_nodup _ _ _ H2) as Hnd2.
      apply NoDup_remove_2 in Hnd2. exact Hnd2. }
    pose proof (Heap_mark_used _ _ _ _ _ H3 Hnot3) as H4.
    rewrite Em in H4. fold h in H4.
    split; [exact Em|]. split; [exact Es|]. split.
    + intros x Hx Hg. st_goal. consts_goal. rewrite !Z.add_0_r.
      mem_simpl.
      destruct (dll_links _ _ _ _ _ _ Hd2) as [Lp2 Ln2].
      destruct (dll_links _ _ _ _ _ _ (heap_dll _ _ _ H)) as [Lp Ln].
      unfold relinked, node_prev, node_next in Hg. fold h in Lp, Ln, Hg.
      unfold_consts.
      transitivity (bytes st2 x).
      { unfold st3. rewrite removeNode_bytes. apply unlink_mem_other.
        - unfold off_prev. rewrite Lp2. destruct l1 as [|y l1].
          + cbn [last]. right. unfold nh. lia.
          + rewrite !last_cons. rewrite last_cons in Lp. rewrite <- Lp. unfold NULL. lia.
        - unfold off_next. rewrite Ln2, <- Ln. unfold NULL. lia. }
      transitivity (bytes st1 x).
      { apply addNode_other; [unfold nh; lia|].
        change (freeList st1) with (freeList st). right. lia. }
      apply splitBlock_other; rewrite ?Hsp; lia.
    + left. split; [lia|]. exact H4.
  - (* the whole block is taken *)
    pose proof (Heap_removeNode _ _ _ _ _ H) as H3. fold h in H3.
    destruct (removeNode_mem st h) as (Em & Es).
    pose proof (heap_dll _ _ _ H) as Hd.
    set (st3 := removeNode st h) in *.
    pose proof (node_space_block _ _ _ _ _ H3) as Hsp3. cbn [tag] in Hsp3.
    rewrite Em in Hsp3. fold h in Hsp3. rewrite Hsp3.
    assert (Hnot3 : ~ In (mem st3 + total pre) (l1 ++ l2)).
    { rewrite Em. fold h. apply NoDup_remove_2 in Hnd. exact Hnd. }
    pose proof (Heap_mark_used _ _ _ _ _ H3 Hnot3) as H4.
    rewrite Em in H4. fold h in H4.
    split; [exact Em|]. split; [exact Es|]. split.
    + intros x Hx Hg. st_goal. consts_goal. rewrite !Z.add_0_r.
      mem_simpl.
      unfold relinked, node_prev, node_next in Hg. fold h in Hg. unfold_consts.
      unfold st3. rewrite removeNode_bytes. apply unlink_mem_other.
      * unfold off_prev, NULL. lia.
      * unfold off_next, NULL. lia.
    + right. split; [lia|]. exact H4.
Qed.

Lemma in_remove_mid (l1 l2 : list Z) (h g : Z) :
  In g (l1 ++ h :: l2) -> g <> h -> In g (l1 ++ l2).
Proof.
  intros Hin Hne. apply in_app_iff in Hin. apply in_app_iff.
  destruct Hin as [I|[I|I]]; [now left|congruence|now right].
Qed.

Lemma findHead_scan (st : state) (bs : list block) (fl : list Z) (sz : Z) :
  Heap st bs fl -> findHead st sz = Some (scan st sz fl NULL 0).
Proof.
  intros H. unfold findHead.
  eapply findHead_loop_scan; [apply (heap_dll _ _ _ H)|].
  eapply Heap_list_fuel; eauto.
Qed.

(** What [myalloc] does to a heap that satisfies the invariant. *)
Lemma myalloc_spec (st : state) (bs : list block) (fl : list Z) (request : Z) :
  Inv st bs fl -> 0 <= request < 2 ^ 31 ->
  (myalloc st request = Some (st, NULL) /\
   forall g, In g fl -> node_space st g < request)
  \/
  (exists pre sp post l1 l2 st',
     bs = pre ++ Free sp :: post /\
     fl = l1 ++ (mem st + total pre) :: l2 /\
     request <= sp /\
     myalloc st request = Some (st', mem st + total pre + 4) /\
     mem st' = mem st /\ MEMORY_SIZE st' = MEMORY_SIZE st /\
     (forall x, x < mem st + total pre \/ mem st + total pre + sp + 8 <= x ->
        ~ relinked st (mem st + total pre) x ->
        bytes st' x = bytes st x) /\
     ((Z.max request 20 + 28 < sp /\
       Inv st' (pre ++ Used (Z.max request 20) ::
                       Free (sp - Z.max request 20 - 8) :: post)
               ((mem st + total pre + Z.max request 20 + 8) :: l1 ++ l2))
      \/
      (sp <= Z.max request 20 + 28 /\
       Inv st' (pre ++ Used sp :: post) (l1 ++ l2)))).
Proof.
  intros [H Hall Hadj] Hreq.
  pose proof (findHead_scan st bs fl request H) as Hfind.
  pose proof (dll_nonnull _ _ _ _ (heap_dll _ _ _ H)) as Hnz.
  destruct (scan_spec st request fl NULL 0 Hnz ltac:(congruence))
    as [[E Hno]|(l1 & l2 & E & P1 & _ & _ & _)].
  - left. rewrite myalloc_unfold, Hfind, E, Z.eqb_refl. split; [reflexivity|].
    intros g Hg. destruct (Z_lt_le_dec (node_space st g) request) as [L|L]; [exact L|].
    destruct (Hno g Hg L) as [C _]. congruence.
  - right. set (r := scan st request fl NULL 0) in *.
    assert (Hr : In r fl) by (rewrite E; apply in_mid).
    pose proof (heap_incl _ _ _ H _ Hr) as Hrf.
    apply free_addrs_layout in Hrf. destruct Hrf as [sp Hrf].
    destruct (layout_split _ _ _ _ Hrf) as (pre & post & Ebs & Er).
    subst bs. rewrite E in H.
    pose proof (node_space_block _ _ _ _ _ H) as Hsp. cbn [tag] in Hsp.
    rewrite <- Er in Hsp. rewrite Hsp in P1.
    rewrite Er in H.
    destruct (myalloc_take_Heap st pre post sp l1 l2 request H ltac:(lia))
      as (Em & Es & Hframe & Hcases).
    rewrite <- Er in Hcases, Em, Es, Hframe.
    set (st' := myalloc_take st r request) in *.
    assert (Hst' : exists bs' fl', Heap st' bs' fl').
    { destruct Hcases as [[_ H']|[_ H']]; eauto. }
    destruct Hst' as (bs' & fl' & Hst').
    exists pre, sp, post, l1, l2, st'.
    rewrite <- Er.
    split; [reflexivity|]. split; [exact E|]. split; [exact P1|].
    split.
    { rewrite myalloc_unfold, Hfind. fold r.
      destruct (Z.eqb_spec r NULL) as [C|_]; [exfalso; apply (Hnz r Hr C)|].
      fold st'. rewrite (assert_checkMem_Heap _ _ _ Hst'). reflexivity. }
    split; [exact Em|]. split; [exact Es|]. split; [exact Hframe|].
    apply naf_mid in Hadj. destruct Hadj as (Np & Nq & Lp & Lq).
    cbn [is_free] in Lp, Lq. rewrite andb_true_r in Lp. cbn [andb] in Lq.
    destruct (Heap_block _ _ _ _ _ H) as (_ & _ & Hb & Hp & Hq & Htot).
    cbn [size] in *.
    assert (Hold : forall g, In g (free_addrs (mem st) pre) \/
                     In g (free_addrs (mem st + total pre + (sp + 8)) post) ->
                     In g (l1 ++ l2)).
    { intros g Hg.
      pose proof (heap_sizes _ _ _ H) as Hs.
      apply sizes_ok_app in Hs. destruct Hs as [Hs1 Hs]. apply sizes_ok_cons in Hs.
      destruct Hs as [_ Hs2].
      apply (in_remove_mid l1 l2 (mem st + total pre)).
      - rewrite <- Er, <- E. apply Hall.
        rewrite free_addrs_app. cbn [free_addrs is_free]. unfold_consts. cbn [size].
        rewrite !in_app_iff.
        replace (mem st + total pre + (sp + 2 * 4)) with (mem st + total pre + (sp + 8))
          by lia.
        destruct Hg as [Hg|Hg]; [now left|right; now right].
      - destruct Hg as [Hg|Hg].
        + pose proof (free_addrs_bounds _ _ _ Hs1 Hg). lia.
        + pose proof (free_addrs_bounds _ _ _ Hs2 Hg). lia. }
    destruct Hcases as [[G H']|[G H']]; [left|right]; (split; [exact G|]).
    + constructor; [exact H'| |].
      * rewrite Em. intros g Hg.
        rewrite free_addrs_app in Hg. cbn [free_addrs is_free] in Hg.
        unfold_consts. cbn [size] in Hg. rewrite !in_app_iff in Hg. cbn [In] in Hg.
        destruct Hg as [Hg|[[]|[[Hg|[]]|Hg]]].
        -- right. apply Hold. now left.
        -- left. rewrite <- Hg, Er. lia.
        -- right. apply Hold. right.
           replace (mem st + total pre + (sp + 8))
             with (mem st + total pre + (Z.max request 20 + 2 * 4) +
                   (sp - Z.max request 20 - 8 + 2 * 4)) by lia.
           exact Hg.
      * apply naf_mid. cbn [is_free hd_free]. rewrite andb_false_r.
        repeat split; try assumption; try reflexivity.
        apply naf_cons. cbn [is_free]. split; [exact Lq|exact Nq].
    + constructor; [exact H'| |].
      * rewrite Em. intros g Hg.
        rewrite free_addrs_app in Hg. cbn [free_addrs is_free] in Hg.
        unfold_consts. cbn [size] in Hg. rewrite !in_app_iff in Hg. cbn [In] in Hg.
        destruct Hg as [Hg|[[]|Hg]].
        -- apply Hold. now left.
        -- apply Hold. right.
           replace (mem st + total pre + (sp + 8))
             with (mem st + total pre + (sp + 2 * 4)) by lia.
           exact Hg.
      * apply naf_mid. cbn [is_free]. rewrite andb_false_r.
        repeat split; try assumption; reflexivity.
Qed.

End Allocate.

(* ------------------------------------------------------------------ *)
(** ** myfree *)

Section Release.

Lemma coalesce_mem (st : state) (a b : Z) :
  mem (coalesce st a b) = mem st /\ MEMORY_SIZE (coalesce st a b) = MEMORY_SIZE st.
Proof.
  unfold coalesce.
  match goal with |- context [removeNode ?s ?h] =>
    destruct (removeNode_mem s h) as [E1 E2]; rewrite E1, E2 end.
  split; reflexivity.
Qed.

Lemma isValid_used (st : state) (pre post : list block) (s : Z) (fl : list Z) :
  Heap st (pre ++ Used s :: post) fl ->
  isValid st (mem st + total pre + 4) = 1.
Proof.
  intros H. destruct (Heap_block _ _ _ _ _ H) as (T1 & T2 & Hb & Hp & Hq & Htot).
  cbn [tag size] in *. unfold isValid. unfold_consts.
  replace (mem st + total pre + 4 - 4) with (mem st + total pre) by lia.
  rewrite T1. rewrite Z.opp_involutive.
  replace (mem st + total pre + 4 + s) with (mem st + total pre + 4 + s) by lia.
  rewrite T2.
  destruct (Z.gtb_spec (mem st + 4) (mem st + total pre + 4)); [lia|].
  destruct (Z.ltb_spec (mem st + MEMORY_SIZE st - 4) (mem st + total pre + 4)); [lia|].
  destruct (Z.ltb_spec s 0); [lia|].
  destruct (Z.gtb_spec (mem st + total pre + 4 + s) (mem st + MEMORY_SIZE st - 4)); [lia|].
  cbn [orb]. rewrite Z.eqb_refl. reflexivity.
Qed.

Lemma Heap_myfree_mark (st : state) (pre post : list block) (s : Z) (fl : list Z) :
  Heap st (pre ++ Used s :: post) fl ->
  Heap (myfree_mark st (mem st + total pre + 4)) (pre ++ Free s :: post)
       ((mem st + total pre) :: fl).
Proof.
  intros H. unfold myfree_mark. consts_goal.
  replace (mem st + total pre + 4 - 4) with (mem st + total pre) by lia.
  rewrite (node_space_block _ _ _ _ _ H). cbn [tag]. rewrite Z.opp_involutive.
  pose proof (Heap_mark_free _ _ _ _ _ H) as H1. unfold sizeof_int in H1.
  apply (Heap_addNode _ _ _ _ H1).
  - apply free_addrs_mid.
  - intros Hc. pose proof (Heap_node_cases _ _ _ _ _ _ H Hc) as C.
    cbn [is_free size] in C.
    destruct (Heap_block _ _ _ _ _ H) as (_ & _ & Hb & _). cbn [size] in Hb.
    destruct C as [C|[[_ C]|C]]; [lia|discriminate|lia].
Qed.

Lemma myfree_backward_coalesce (st : state) (pre post : list block) (sc s : Z)
      (fl : list Z) :
  Heap st (pre ++ Free sc :: Free s :: post) ((mem st + total pre + sc + 8) :: fl) ->
  myfree_backward st (mem st + total pre + sc + 8) s =
    (coalesce st (mem st + total pre) (mem st + total pre + sc + 8),
     mem st + total pre, sc + s + 8) /\
  Heap (coalesce st (mem st + total pre) (mem st + total pre + sc + 8))
       (pre ++ Free (sc + s + 8) :: post) fl.
Proof.
  intros H.
  destruct (Heap_block _ _ _ _ _ H) as (T1 & T2 & Hb & Hp & Hq & Htot).
  cbn [tag size] in *.
  pose proof (Heap_coalesce st pre post sc s [] fl H) as Hc. cbn [app] in Hc.
  pose proof (node_space_block _ _ _ _ _ Hc) as Hsp. cbn [tag] in Hsp.
  destruct (coalesce_mem st (mem st + total pre) (mem st + total pre + sc + 8)) as [Em _].
  rewrite Em in Hsp.
  split; [|exact Hc].
  unfold myfree_backward. consts_goal.
  destruct (Z.eqb_spec (mem st + total pre + sc + 8) (mem st)) as [E|_]; [lia|].
  cbn [negb].
  replace (mem st + total pre + sc + 8 - 4) with (mem st + total pre + 4 + sc) by lia.
  rewrite T2.
  destruct (Z.gtb_spec sc 0) as [_|L]; [|lia].
  replace (mem st + total pre + sc + 8 - sc - 2 * 4) with (mem st + total pre) by lia.
  rewrite Hsp. reflexivity.
Qed.

Lemma myfree_backward_none (st : state) (pre post : list block) (s : Z) (fl : list Z) :
  Heap st (pre ++ Free s :: post) fl -> last_free pre = false ->
  myfree_backward st (mem st + total pre) s = (st, mem st + total pre, s).
Proof.
  intros H Hl. unfold myfree_backward. consts_goal.
  destruct (list_snoc_cases pre) as [->|(pre' & c & ->)].
  - cbn [total]. rewrite Z.add_0_r, Z.eqb_refl. reflexivity.
  - rewrite last_free_snoc in Hl. destruct c as [sc|sc]; [discriminate|].
    rewrite <- app_assoc in H. cbn [app] in H.
    destruct (Heap_block _ _ _ _ _ H) as (T1 & T2 & Hb & Hp & Hq & Htot).
    cbn [tag size] in *. rewrite total_app. cbn [total]. unfold_consts. cbn [size].
    destruct (Z.eqb_spec (mem st + (total pre' + (sc + 2 * 4 + 0))) (mem st)) as [E|_];
      [lia|].
    cbn [negb].
    replace (mem st + (total pre' + (sc + 2 * 4 + 0)) - 4)
      with (mem st + total pre' + 4 + sc) by lia.
    rewrite T2. destruct (Z.gtb_spec (- sc) 0) as [L|_]; [lia|]. reflexivity.
Qed.

Lemma myfree_forward_coalesce (st : state) (pre post : list block) (s sd : Z)
      (f1 f2 : list Z) :
  Heap st (pre ++ Free s :: Free sd :: post) (f1 ++ (mem st + total pre + s + 8) :: f2) ->
  myfree_forward st (mem st + total pre) s =
    coalesce st (mem st + total pre) (mem st + total pre + s + 8) /\
  Heap (coalesce st (mem st + total pre) (mem st + total pre + s + 8))
       (pre ++ Free (s + sd + 8) :: post) (f1 ++ f2).
Proof.
  intros H. split; [|apply Heap_coalesce; exact H].
  assert (H' : Heap st ((pre ++ [Free s]) ++ Free sd :: post)
                    (f1 ++ (mem st + total pre + s + 8) :: f2)).
  { rewrite <- app_assoc. exact H. }
  destruct (Heap_block _ _ _ _ _ H') as (B1 & B2 & Hb & Hp & Hq & Htot).
  pose proof (node_space_block _ _ _ _ _ H') as Hsp.
  rewrite total_app in B1, Htot, Hsp, Hp. cbn [total tag size] in *. unfold_consts.
  cbn [size] in *.
  replace (mem st + (total pre + (s + 2 * 4 + 0))) with (mem st + total pre + s + 2 * 4)
    in Hsp by lia.
  unfold myfree_forward. consts_goal. rewrite Hsp.
  destruct (Z.eqb_spec (mem st + total pre + s + 2 * 4) (mem st + MEMORY_SIZE st))
    as [E|_]; [lia|].
  cbn [negb]. destruct (Z.gtb_spec sd 0) as [_|L]; [|lia].
  replace (mem st + total pre + s + 2 * 4) with (mem st + total pre + s + 8) by lia.
  reflexivity.
Qed.

Lemma myfree_forward_none (st : state) (pre post : list block) (s : Z) (fl : list Z) :
  Heap st (pre ++ Free s :: post) fl -> hd_free post = false ->
  myfree_forward st (mem st + total pre) s = st.
Proof.
  intros H Hh. unfold myfree_forward. consts_goal.
  destruct (Heap_block _ _ _ _ _ H) as (_ & _ & Hb & Hp & Hq & Htot).
  cbn [size] in *.
  destruct post as [|[sd|sd] post]; [| discriminate |].
  - cbn [total] in Htot.
    replace (mem st + total pre + s + 2 * 4 =? mem st + MEMORY_SIZE st) with true
      by (symmetry; apply Z.eqb_eq; lia).
    reflexivity.
  - assert (H' : Heap st ((pre ++ [Free s]) ++ Used sd :: post) fl).
    { rewrite <- app_assoc. exact H. }
    pose proof (node_space_block _ _ _ _ _ H') as Hsp.
    rewrite total_app in Hsp. cbn [total tag] in Hsp. unfold_consts. cbn [size] in Hsp.
    replace (mem st + (total pre + (s + 2 * 4 + 0))) with (mem st + total pre + s + 2 * 4)
      in Hsp by lia.
    rewrite Hsp.
    destruct (Heap_block _ _ _ _ _ H') as (_ & _ & Hb' & _). cbn [size] in Hb'.
    destruct (negb (mem st + total pre + s + 2 * 4 =? mem st + MEMORY_SIZE st));
      [|reflexivity].
    destruct (Z.gtb_spec (- sd) 0) as [L|_]; [lia|]. reflexivity.
Qed.

Lemma myfree_mark_mem (st : state) (p : Z) :
  mem (myfree_mark st p) = mem st /\ MEMORY_SIZE (myfree_mark st p) = MEMORY_SIZE st.
Proof.
  unfold myfree_mark.
  match goal with |- context [addNode ?s ?h] =>
    destruct (addNode_mem s h) as (E1 & E2 & _); rewrite E1, E2 end.
  split; reflexivity.
Qed.

Lemma myfree_body_unfold (st : state) (pre post : list block) (s : Z) (fl : list Z) :
  Heap st (pre ++ Used s :: post) fl ->
  myfree_body st (mem st + total pre + 4) =
  let '(st', dataptr, space) :=
    myfree_backward (myfree_mark st (mem st + total pre + 4)) (mem st + total pre) s in
  myfree_forward st' dataptr space.
Proof.
  intros H. unfold myfree_body. consts_goal.
  replace (mem st + total pre + 4 - 4) with (mem st + total pre) by lia.
  rewrite (node_space_block _ _ _ _ _ H). cbn [tag]. rewrite Z.opp_involutive.
  reflexivity.
Qed.

Lemma last_free_true (pre : list block) :
  last_free pre = true -> exists pre' sc, pre = pre' ++ [Free sc].
Proof.
  intros Hl. destruct (list_snoc_cases pre) as [->|(pre' & c & ->)]; [discriminate|].
  rewrite last_free_snoc in Hl. destruct c as [sc|sc]; [|discriminate].
  now exists pre', sc.
Qed.

Lemma hd_free_true (post : list block) :
  hd_free post = true -> exists sd post', post = Free sd :: post'.
Proof.
  destruct post as [|[sd|sd] post]; try discriminate. intros _. now exists sd, post.
Qed.

(** The four cases of [myfree], by the state of the two neighbours. *)
Lemma myfree_body_NN (st : state) (pre post : list block) (s : Z) (fl : list Z) :
  Heap st (pre ++ Used s :: post) fl ->
  last_free pre = false -> hd_free post = false ->
  myfree_body st (mem st + total pre + 4) = myfree_mark st (mem st + total pre + 4) /\
  Heap (myfree_mark st (mem st + total pre + 4)) (pre ++ Free s :: post)
       ((mem st + total pre) :: fl).
Proof.
  intros H Hl Hh. pose proof (Heap_myfree_mark _ _ _ _ _ H) as H1.
  split; [|exact H1].
  rewrite (myfree_body_unfold _ _ _ _ _ H).
  destruct (myfree_mark_mem st (mem st + total pre + 4)) as [Em _].
  pose proof (myfree_backward_none _ _ _ _ _ H1 Hl) as Eb. rewrite Em in Eb.
  rewrite Eb.
  pose proof (myfree_forward_none _ _ _ _ _ H1 Hh) as Ef. rewrite Em in Ef.
  exact Ef.
Qed.

Lemma myfree_body_PN (st : state) (pre post : list block) (sc s : Z) (fl : list Z) :
  Heap st (pre ++ Free sc :: Used s :: post) fl ->
  hd_free post = false ->
  myfree_body st (mem st + total pre + sc + 8 + 4) =
    coalesce (myfree_mark st (mem st + total pre + sc + 8 + 4))
             (mem st + total pre) (mem st + total pre + sc + 8) /\
  Heap (coalesce (myfree_mark st (mem st + total pre + sc + 8 + 4))
                 (mem st + total pre) (mem st + total pre + sc + 8))
       (pre ++ Free (sc + s + 8) :: post) fl.
Proof.
  intros H Hh.
  assert (H' : Heap st ((pre ++ [Free sc]) ++ Used s :: post) fl).
  { rewrite <- app_assoc. exact H. }
  assert (Et : mem st + total (pre ++ [Free sc]) = mem st + total pre + sc + 8).
  { rewrite total_app. cbn [total]. unfold_consts. cbn [size]. lia. }
  pose proof (Heap_myfree_mark _ _ _ _ _ H') as H1.
  pose proof (myfree_body_unfold _ _ _ _ _ H') as Eu.
  rewrite Et in H1, Eu. rewrite <- app_assoc in H1. cbn [app] in H1.
  destruct (myfree_mark_mem st (mem st + total pre + sc + 8 + 4)) as [Em _].
  set (st1 := myfree_mark st (mem st + total pre + sc + 8 + 4)) in *.
  rewrite <- Em in H1.
  destruct (myfree_backward_coalesce _ _ _ _ _ _ H1) as [Eb H2].
  rewrite Em in Eb, H2.
  rewrite Eu, Eb.
  destruct (coalesce_mem st1 (mem st + total pre) (mem st + total pre + sc + 8)) as [Em2 _].
  rewrite Em in Em2.
  pose proof (myfree_forward_none _ _ _ _ _ H2 Hh) as Ef. rewrite Em2 in Ef.
  split; [exact Ef|exact H2].
Qed.

Lemma myfree_body_NP (st : state) (pre post : list block) (s sd : Z) (f1 f2 : list Z) :
  Heap st (pre ++ Used s :: Free sd :: post) (f1 ++ (mem st + total pre + s + 8) :: f2) ->
  last_free pre = false ->
  myfree_body st (mem st + total pre + 4) =
    coalesce (myfree_mark st (mem st + total pre + 4))
             (mem st + total pre) (mem st + total pre + s + 8) /\
  Heap (coalesce (myfree_mark st (mem st + total pre + 4))
                 (mem st + total pre) (mem st + total pre + s + 8))
       (pre ++ Free (s + sd + 8) :: post) ((mem st + total pre) :: f1 ++ f2).
Proof.
  intros H Hl.
  pose proof (Heap_myfree_mark _ _ _ _ _ H) as H1.
  pose proof (myfree_body_unfold _ _ _ _ _ H) as Eu.
  destruct (myfree_mark_mem st (mem st + total pre + 4)) as [Em _].
  set (st1 := myfree_mark st (mem st + total pre + 4)) in *.
  pose proof (myfree_backward_none _ _ _ _ _ H1 Hl) as Eb. rewrite Em in Eb.
  rewrite Eu, Eb.
  change ((mem st + total pre) :: f1 ++ (mem st + total pre + s + 8) :: f2)
    with (((mem st + total pre) :: f1) ++ (mem st + total pre + s + 8) :: f2) in H1.
  rewrite <- Em in H1.
  destruct (myfree_forward_coalesce _ _ _ _ _ _ _ H1) as [Ef H2].
  rewrite Em in Ef, H2. split; [exact Ef|exact H2].
Qed.

Lemma myfree_body_PP (st : state) (pre post : list block) (sc s sd : Z)
      (f1 f2 : list Z) :
  Heap st (pre ++ Free sc :: Used s :: Free sd :: post)
       (f1 ++ (mem st + total pre + sc + 8 + s + 8) :: f2) ->
  myfree_body st (mem st + total pre + sc + 8 + 4) =
    coalesce (coalesce (myfree_mark st (mem st + total pre + sc + 8 + 4))
                       (mem st + total pre) (mem st + total pre + sc + 8))
             (mem st + total pre) (mem st + total pre + sc + 8 + s + 8) /\
  Heap (coalesce (coalesce (myfree_mark st (mem st + total pre + sc + 8 + 4))
                           (mem st + total pre) (mem st + total pre + sc + 8))
                 (mem st + total pre) (mem st + total pre + sc + 8 + s + 8))
       (pre ++ Free (sc + s + 8 + sd + 8) :: post) (f1 ++ f2).
Proof.
  intros H.
  assert (H' : Heap st ((pre ++ [Free sc]) ++ Used s :: Free sd :: post)
                    (f1 ++ (mem st + total pre + sc + 8 + s + 8) :: f2)).
  { rewrite <- app_assoc. exact H. }
  assert (Et : mem st + total (pre ++ [Free sc]) = mem st + total pre + sc + 8).
  { rewrite total_app. cbn [total]. unfold_consts. cbn [size]. lia. }
  pose proof (Heap_myfree_mark _ _ _ _ _ H') as H1.
  pose proof (myfree_body_unfold _ _ _ _ _ H') as Eu.
  rewrite Et in H1, Eu. rewrite <- app_assoc in H1. cbn [app] in H1.
  destruct (myfree_mark_mem st (mem st + total pre + sc + 8 + 4)) as [Em _].
  set (st1 := myfree_mark st (mem st + total pre + sc + 8 + 4)) in *.
  rewrite <- Em in H1.
  destruct (myfree_backward_coalesce _ _ _ _ _ _ H1) as [Eb H2].
  rewrite Em in Eb, H2.
  rewrite Eu, Eb.
  destruct (coalesce_mem st1 (mem st + total pre) (mem st + total pre + sc + 8)) as [Em2 _].
  rewrite Em in Em2.
  set (st2 := coalesce st1 (mem st + total pre) (mem st + total pre + sc + 8)) in *.
  replace (mem st + total pre + sc + 8 + s + 8)
    with (mem st2 + total pre + (sc + s + 8) + 8) in H2 at 1 by (rewrite Em2; lia).
  destruct (myfree_forward_coalesce _ _ _ _ _ _ _ H2) as [Ef H3].
  rewrite Em2 in Ef, H3.
  replace (mem st + total pre + (sc + s + 8) + 8)
    with (mem st + total pre + sc + 8 + s + 8) in Ef, H3 by lia.
  split; [exact Ef|exact H3].
Qed.

Lemma sizes_ok_in (bs : list block) (b : block) :
  sizes_ok bs -> In b bs -> 20 <= size b.
Proof.
  intros Hs Hin. unfold sizes_ok in Hs. rewrite Forall_forall in Hs.
  specialize (Hs b Hin). unfold_consts. lia.
Qed.

Lemma myfree_finish (st st' : state) (p : Z) (bs' : list block) (fl' : list Z) :
  myfree_body st p = st' -> isValid st p = 1 -> Heap st' bs' fl' ->
  myfree st p = Some st'.
Proof.
  intros Eb Ev H. unfold myfree. rewrite Ev, Eb. cbn [Z.eqb].
  rewrite (assert_checkMem_Heap _ _ _ H). reflexivity.
Qed.

(** From the heap after a release to the invariant: [mid], of which the
    released block is part, has become one free block. *)
Lemma free_assemble (st st' : state) (pre mid post : list block) (X : Z)
      (fl fl' : list Z) :
  Inv st (pre ++ mid ++ post) fl ->
  Heap st' (pre ++ Free X :: post) fl' ->
  mem st' = mem st ->
  total mid = X + 8 ->
  last_free pre = false -> hd_free post = false ->
  In (mem st + total pre) fl' ->
  (forall g, In g fl ->
     g + 28 <= mem st + total pre \/ mem st + total pre + total mid <= g ->
     In g fl') ->
  Inv st' (pre ++ Free X :: post) fl'.
Proof.
  intros [H Hall Hadj] H' Em Ht Hl Hh Hin Hkeep.
  pose proof (heap_sizes _ _ _ H) as Hs.
  apply sizes_ok_app in Hs. destruct Hs as [Hs1 Hs]. apply sizes_ok_app in Hs.
  destruct Hs as [Hs2 Hs3].
  constructor; [exact H'| |].
  - rewrite Em. intros g Hg. rewrite free_addrs_app in Hg. cbn [free_addrs is_free] in Hg.
    rewrite !in_app_iff in Hg. cbn [In] in Hg. unfold_consts. cbn [size] in Hg.
    destruct Hg as [Hg|[[Hg|[]]|Hg]].
    + apply Hkeep.
      * apply Hall. rewrite free_addrs_app. apply in_or_app. now left.
      * left. pose proof (free_addrs_bounds _ _ _ Hs1 Hg). lia.
    + rewrite <- Hg. exact Hin.
    + replace (mem st + total pre + (X + 2 * 4)) with (mem st + total pre + total mid)
        in Hg by lia.
      apply Hkeep.
      * apply Hall. rewrite !free_addrs_app. apply in_or_app. right.
        apply in_or_app. now right.
      * right. pose proof (free_addrs_bounds _ _ _ Hs3 Hg). lia.
  - apply naf_app in Hadj. destruct Hadj as (Np & Nq & _).
    apply naf_app in Nq. destruct Nq as (_ & Nq & _).
    apply naf_mid. cbn [is_free]. rewrite Hl, Hh. repeat split; assumption.
Qed.

Lemma used_transfer (a : Z) (pre mid mid' post : list block) (q : Z) :
  In q (used_addrs a (pre ++ mid ++ post)) ->
  total mid' = total mid ->
  ~ In q (used_addrs (a + total pre) mid) ->
  In q (used_addrs a (pre ++ mid' ++ post)).
Proof.
  intros Hq Ht Hn. rewrite !used_addrs_app, !in_app_iff in *. rewrite Ht.
  destruct Hq as [Hq|[Hq|Hq]]; [now left|contradiction|right; now right].
Qed.

Lemma myfree_spec (st : state) (pre post : list block) (s : Z) (fl : list Z) :
  Inv st (pre ++ Used s :: post) fl ->
  exists st' bs' fl',
    myfree st (mem st + total pre + 4) = Some st' /\
    Inv st' bs' fl' /\
    mem st' = mem st /\ MEMORY_SIZE st' = MEMORY_SIZE st /\
    (forall q, In q (used_addrs (mem st) (pre ++ Used s :: post)) ->
               q <> mem st + total pre ->
               In q (used_addrs (mem st) bs')) /\
    free_shape (mem st) pre post s fl bs' fl'.
Proof.
  intros I. pose proof (inv_heap _ _ _ I) as H.
  pose proof (isValid_used _ _ _ _ _ H) as Ev.
  pose proof (inv_adj _ _ _ I) as Hadj.
  destruct (Heap_block _ _ _ _ _ H) as (_ & _ & Hb & Hp & Hq & Htot). cbn [size] in *.
  destruct (last_free pre) eqn:Hl; destruct (hd_free post) eqn:Hh.
  - (* both neighbours are free *)
    destruct (last_free_true _ Hl) as (pre' & sc & ->).
    destruct (hd_free_true _ Hh) as (sd & post' & ->).
    rewrite <- app_assoc in I, H, Hadj |- *. cbn [app] in I, H, Hadj |- *.
    assert (Et : mem st + total (pre' ++ [Free sc]) = mem st + total pre' + sc + 8).
    { rewrite total_app. cbn [total]. unfold_consts. cbn [size]. lia. }
    rewrite Et in *.
    destruct (Heap_block _ _ _ _ _ H) as (_ & _ & Hc & _). cbn [size] in Hc.
    assert (Hn : In (mem st + total pre' + sc + 8 + s + 8) fl).
    { apply (inv_all _ _ _ I).
      replace (pre' ++ Free sc :: Used s :: Free sd :: post')
        with ((pre' ++ [Free sc; Used s]) ++ Free sd :: post')
        by (rewrite <- app_assoc; reflexivity).
      replace (mem st + total pre' + sc + 8 + s + 8)
        with (mem st + total (pre' ++ [Free sc; Used s])).
      - apply free_addrs_mid.
      - rewrite total_app. cbn [total]. unfold_consts. cbn [size]. lia. }
    apply in_split in Hn. destruct Hn as (f1 & f2 & ->).
    assert (Hd : 20 <= size (Free sd)).
    { apply (sizes_ok_in _ _ (heap_sizes _ _ _ H)). apply in_or_app. right.
      cbn [In]. auto. }
    cbn [size] in Hd.
    destruct (myfree_body_PP _ _ _ _ _ _ _ _ H) as [Eb H'].
    set (st' := coalesce _ _ _) in *.
    assert (Em : mem st' = mem st /\ MEMORY_SIZE st' = MEMORY_SIZE st).
    { unfold st'. repeat match goal with |- context [coalesce ?a ?b ?c] =>
        destruct (coalesce_mem a b c) as [-> ->] end.
      apply myfree_mark_mem. }
    destruct Em as [Em Es].
    apply naf_mid in Hadj. destruct Hadj as (_ & _ & Lp & _).
    cbn [is_free] in Lp. rewrite andb_true_r in Lp.
    exists st', (pre' ++ Free (sc + s + 8 + sd + 8) :: post'), (f1 ++ f2).
    split; [eapply myfree_finish; eauto|].
    split.
    { apply (free_assemble st st' pre' [Free sc; Used s; Free sd] post' _
               (f1 ++ (mem st + total pre' + sc + 8 + s + 8) :: f2)); try assumption.
      - cbn [total]. unfold_consts. cbn [size]. lia.
      - pose proof (inv_adj _ _ _ I) as A.
        replace (pre' ++ Free sc :: Used s :: Free sd :: post')
          with ((pre' ++ [Free sc; Used s]) ++ Free sd :: post') in A
          by (rewrite <- app_assoc; reflexivity).
        apply naf_mid in A. destruct A as (_ & _ & _ & A). exact A.
      - apply (in_remove_mid f1 f2 (mem st + total pre' + sc + 8 + s + 8)); [|lia].
        apply (inv_all _ _ _ I). apply free_addrs_mid.
      - intros g Hg Hr. apply (in_remove_mid _ _ _ _ Hg).
        cbn [total] in Hr. unfold_consts. cbn [size] in Hr. lia. }
    split; [exact Em|]. split; [exact Es|]. split.
    { intros q Hu Hne.
      apply (used_transfer (mem st) pre' [Free sc; Used s; Free sd]
                           [Free (sc + s + 8 + sd + 8)] post' q Hu).
      + cbn [total]. unfold_consts. cbn [size]. lia.
      + cbn [used_addrs is_free app]. unfold_consts. cbn [size]. intros [C|[]]. lia. }
    right; right; right. exists pre', sc, sd, post', f1, f2.
    rewrite Et. repeat split; reflexivity.
  - (* only the previous block is free *)
    destruct (last_free_true _ Hl) as (pre' & sc & ->).
    rewrite <- app_assoc in I, H, Hadj |- *. cbn [app] in I, H, Hadj |- *.
    assert (Et : mem st + total (pre' ++ [Free sc]) = mem st + total pre' + sc + 8).
    { rewrite total_app. cbn [total]. unfold_consts. cbn [size]. lia. }
    rewrite Et in *.
    destruct (Heap_block _ _ _ _ _ H) as (_ & _ & Hc & _). cbn [size] in Hc.
    destruct (myfree_body_PN _ _ _ _ _ _ H Hh) as [Eb H'].
    set (st' := coalesce _ _ _) in *.
    assert (Em : mem st' = mem st /\ MEMORY_SIZE st' = MEMORY_SIZE st).
    { unfold st'. repeat match goal with |- context [coalesce ?a ?b ?c] =>
        destruct (coalesce_mem a b c) as [-> ->] end.
      apply myfree_mark_mem. }
    destruct Em as [Em Es].
    apply naf_mid in Hadj. destruct Hadj as (_ & _ & Lp & _).
    cbn [is_free] in Lp. rewrite andb_true_r in Lp.
    exists st', (pre' ++ Free (sc + s + 8) :: post), fl.
    split; [eapply myfree_finish; eauto|].
    split.
    { apply (free_assemble st st' pre' [Free sc; Used s] post _ fl); try assumption.
      - cbn [total]. unfold_consts. cbn [size]. lia.
      - apply (inv_all _ _ _ I). apply free_addrs_mid.
      - intros g Hg _. exact Hg. }
    split; [exact Em|]. split; [exact Es|]. split.
    { intros q Hu Hne.
      apply (used_transfer (mem st) pre' [Free sc; Used s] [Free (sc + s + 8)] post q Hu).
      + cbn [total]. unfold_consts. cbn [size]. lia.
      + cbn [used_addrs is_free app]. unfold_consts. cbn [size]. intros [C|[]]. lia. }
    right; left. split; [exact Hh|]. exists pre', sc. repeat split; reflexivity.
  - (* only the next block is free *)
    destruct (hd_free_true _ Hh) as (sd & post' & ->).
    assert (Hn : In (mem st + total pre + s + 8) fl).
    { apply (inv_all _ _ _ I).
      replace (pre ++ Used s :: Free sd :: post')
        with ((pre ++ [Used s]) ++ Free sd :: post')
        by (rewrite <- app_assoc; reflexivity).
      replace (mem st + total pre + s + 8) with (mem st + total (pre ++ [Used s])).
      - apply free_addrs_mid.
      - rewrite total_app. cbn [total]. unfold_consts. cbn [size]. lia. }
    apply in_split in Hn. destruct Hn as (f1 & f2 & ->).
    assert (Hd : 20 <= size (Free sd)).
    { apply (sizes_ok_in _ _ (heap_sizes _ _ _ H)). apply in_or_app. right.
      cbn [In]. auto. }
    cbn [size] in Hd.
    destruct (myfree_body_NP _ _ _ _ _ _ _ H Hl) as [Eb H'].
    set (st' := coalesce _ _ _) in *.
    assert (Em : mem st' = mem st /\ MEMORY_SIZE st' = MEMORY_SIZE st).
    { unfold st'. repeat match goal with |- context [coalesce ?a ?b ?c] =>
        destruct (coalesce_mem a b c) as [-> ->] end.
      apply myfree_mark_mem. }
    destruct Em as [Em Es].
    exists st', (pre ++ Free (s + sd + 8) :: post'), ((mem st + total pre) :: f1 ++ f2).
    split; [eapply myfree_finish; eauto|].
    split.
    { apply (free_assemble st st' pre [Used s; Free sd] post' _
               (f1 ++ (mem st + total pre + s + 8) :: f2)); try assumption.
      - cbn [total]. unfold_consts. cbn [size]. lia.
      - replace (pre ++ Used s :: Free sd :: post')
          with ((pre ++ [Used s]) ++ Free sd :: post') in Hadj
          by (rewrite <- app_assoc; reflexivity).
        apply naf_mid in Hadj. destruct Hadj as (_ & _ & _ & A). exact A.
      - now left.
      - intros g Hg Hr. right. apply (in_remove_mid _ _ _ _ Hg).
        cbn [total] in Hr. unfold_consts. cbn [size] in Hr. lia. }
    split; [exact Em|]. split; [exact Es|]. split.
    { intros q Hu Hne.
      apply (used_transfer (mem st) pre [Used s; Free sd] [Free (s + sd + 8)] post' q Hu).
      + cbn [total]. unfold_consts. cbn [size]. lia.
      + cbn [used_addrs is_free app]. unfold_consts. cbn [size]. intros [C|[]]. lia. }
    right; right; left. split; [exact Hl|]. exists sd, post', f1, f2.
    repeat split; reflexivity.
  - (* no neighbour is free *)
    destruct (myfree_body_NN _ _ _ _ _ H Hl Hh) as [Eb H'].
    destruct (myfree_mark_mem st (mem st + total pre + 4)) as [Em Es].
    set (st' := myfree_mark _ _) in *.
    exists st', (pre ++ Free s :: post), ((mem st + total pre) :: fl).
    split; [eapply myfree_finish; eauto|].
    split.
    { apply (free_assemble st st' pre [Used s] post _ fl); try assumption.
      - cbn [total]. unfold_consts. cbn [size]. lia.
      - now left.
      - intros g Hg _. now right. }
    split; [exact Em|]. split; [exact Es|]. split.
    { intros q Hu Hne.
      apply (used_transfer (mem st) pre [Used s] [Free s] post q Hu).
      + reflexivity.
      + cbn [used_addrs is_free app]. intros [C|[]]. lia. }
    left. repeat split; try assumption; reflexivity.
Qed.

End Release.

(* ------------------------------------------------------------------ *)
(** ** myrealloc *)

Section Reallocate.

Lemma Heap_restore (st : state) (pre post : list block) (s tA tB : Z) (fl : list Z) :
  Heap st (pre ++ Free s :: post) fl ->
  ~ In (mem st + total pre) fl ->
  Heap (restore_old st (mem st + total pre) s (mem st + total pre + 4 + s) tA tB)
       (pre ++ Used s :: post) fl.
Proof.
  intros H Hnot.
  destruct (Heap_block _ _ _ _ _ H) as (T1 & T2 & Hb & Hp & Hq & Htot).
  cbn [tag size] in *. pose proof (heap_int _ _ _ H) as Hint.
  set (h := mem st + total pre) in *.
  apply (Heap_change st _ pre [Free s] [Used s] post fl H);
    unfold restore_old; st_goal; try reflexivity.
  - intros x Hx. cbn [total] in Hx. unfold_consts. cbn [size] in Hx. fold h in Hx.
    rewrite !Z.add_0_r. mem_simpl. reflexivity.
  - repeat constructor; cbn [size]; unfold_consts; lia.
  - fold h. consts_goal. rewrite !Z.add_0_r.
    apply tags_ok_cons. cbn [tag size]. consts_goal. split; [split|constructor].
    + mem_simpl. reflexivity.
    + mem_simpl. reflexivity.
  - fold h. intros g Hg Hin. cbn [free_addrs is_free app] in Hin.
    destruct Hin as [<-|[]]. contradiction.
Qed.

Lemma restore_old_mem (st : state) (h s f tA tB : Z) :
  mem (restore_old st h s f tA tB) = mem st /\
  MEMORY_SIZE (restore_old st h s f tA tB) = MEMORY_SIZE st.
Proof. split; reflexivity. Qed.

Lemma myrealloc_undo_unfold (st : state) (h s f tA tB ph ps nh : Z) :
  myrealloc_undo st h s f tA tB ph ps nh =
  restore_old
    (if negb (ph =? NULL) && negb (nh =? NULL)
     then addNode (fst (splitBlock (fst (splitBlock st ph ps)) h s)) nh
     else if negb (ph =? NULL)
     then fst (splitBlock st ph ps)
     else if negb (nh =? NULL)
     then removeNode (addNode (fst (splitBlock st h s)) nh) h
     else removeNode st h)
    h s f tA tB.
Proof. reflexivity. Qed.

Lemma undo_NN (st : state) (pre post : list block) (s tA tB ps : Z) (fl : list Z) :
  Heap st (pre ++ Free s :: post) ((mem st + total pre) :: fl) ->
  Heap (myrealloc_undo st (mem st + total pre) s (mem st + total pre + 4 + s)
                       tA tB NULL ps NULL)
       (pre ++ Used s :: post) fl.
Proof.
  intros H. rewrite myrealloc_undo_unfold. rewrite Z.eqb_refl. cbn [negb andb].
  pose proof (Heap_removeNode st _ [] fl _ H) as H1. cbn [app] in H1.
  destruct (removeNode_mem st (mem st + total pre)) as [Em _].
  pose proof (heap_nodup _ _ _ H) as Hnd. apply NoDup_cons_iff in Hnd.
  destruct Hnd as [Hnot _].
  set (st1 := removeNode st (mem st + total pre)) in *.
  rewrite <- Em. apply Heap_restore; [exact H1|]. rewrite Em. exact Hnot.
Qed.

Lemma undo_PN (st : state) (pre post : list block) (sc s tA tB : Z) (fl : list Z) :
  Heap st (pre ++ Free (sc + s + 8) :: post) fl ->
  20 <= sc -> 20 <= s ->
  Heap (myrealloc_undo st (mem st + total pre + sc + 8) s
                       (mem st + total pre + sc + 8 + 4 + s)
                       tA tB (mem st + total pre) sc NULL)
       (pre ++ Free sc :: Used s :: post) fl.
Proof.
  intros H Hc Hs. rewrite myrealloc_undo_unfold. rewrite Z.eqb_refl.
  pose proof (heap_base _ _ _ H) as Hbase.
  destruct (Heap_block _ _ _ _ _ H) as (_ & _ & _ & Hp & _).
  destruct (Z.eqb_spec (mem st + total pre) NULL) as [E|_]; [unfold NULL in E; lia|].
  cbn [negb andb].
  destruct (Heap_splitBlock st pre post (sc + s + 8) sc fl H ltac:(lia) ltac:(lia))
    as [H1 _].
  replace (sc + s + 8 - sc - 8) with s in H1 by lia.
  set (st1 := fst (splitBlock st (mem st + total pre) sc)) in *.
  assert (H1' : Heap st1 ((pre ++ [Free sc]) ++ Free s :: post) fl).
  { rewrite <- app_assoc. exact H1. }
  assert (Et : mem st1 + total (pre ++ [Free sc]) = mem st + total pre + sc + 8).
  { change (mem st1) with (mem st). rewrite total_app. cbn [total]. unfold_consts.
    cbn [size]. lia. }
  assert (Hnot : ~ In (mem st1 + total (pre ++ [Free sc])) fl).
  { rewrite Et. intros Hin. pose proof (Heap_node_cases _ _ _ _ _ _ H Hin) as C.
    cbn [size] in C. lia. }
  pose proof (Heap_restore st1 _ _ s tA tB fl H1' Hnot) as H2.
  rewrite Et in H2. rewrite <- app_assoc in H2. exact H2.
Qed.

Lemma undo_NP (st : state) (pre post : list block) (s sd tA tB ps : Z)
      (f1 f2 : list Z) :
  Heap st (pre ++ Free (s + sd + 8) :: post) ((mem st + total pre) :: f1 ++ f2) ->
  20 <= s -> 20 <= sd ->
  Heap (myrealloc_undo st (mem st + total pre) s (mem st + total pre + 4 + s)
                       tA tB NULL ps (mem st + total pre + s + 8))
       (pre ++ Used s :: Free sd :: post) ((mem st + total pre + s + 8) :: f1 ++ f2).
Proof.
  intros H Hs Hd. rewrite myrealloc_undo_unfold. rewrite Z.eqb_refl.
  pose proof (heap_base _ _ _ H) as Hbase.
  destruct (Heap_block _ _ _ _ _ H) as (_ & _ & _ & Hp & _).
  destruct (Z.eqb_spec (mem st + total pre + s + 8) NULL) as [E|_];
    [unfold NULL in E; lia|].
  cbn [negb andb].
  destruct (Heap_splitBlock st pre post (s + sd + 8) s _ H ltac:(lia) ltac:(lia))
    as [H1 _].
  replace (s + sd + 8 - s - 8) with sd in H1 by lia.
  set (h := mem st + total pre) in *.
  set (st1 := fst (splitBlock st h s)) in *.
  set (nh := h + s + 8) in *.
  assert (Hin : In nh (free_addrs (mem st1) (pre ++ Free s :: Free sd :: post))).
  { change (mem st1) with (mem st).
    replace (pre ++ Free s :: Free sd :: post)
      with ((pre ++ [Free s]) ++ Free sd :: post)
      by (rewrite <- app_assoc; reflexivity).
    replace nh with (mem st + total (pre ++ [Free s])).
    - apply free_addrs_mid.
    - rewrite total_app. cbn [total]. unfold_consts. cbn [size]. unfold nh, h. lia. }
  assert (Hnot : ~ In nh (h :: f1 ++ f2)).
  { intros Hc. pose proof (Heap_node_cases _ _ _ _ _ nh H Hc) as C.
    cbn [size] in C. fold h in C. unfold nh in C. lia. }
  pose proof (Heap_addNode _ _ _ _ H1 Hin Hnot) as H2.
  destruct (addNode_mem st1 nh) as (Em2 & _ & _).
  set (st2 := addNode st1 nh) in *.
  change (nh :: h :: f1 ++ f2) with ([nh] ++ h :: f1 ++ f2) in H2.
  pose proof (Heap_removeNode _ _ _ _ _ H2) as H3.
  destruct (removeNode_mem st2 h) as (Em3 & _).
  set (st3 := removeNode st2 h) in *.
  assert (Em : mem st3 = mem st) by (rewrite Em3, Em2; reflexivity).
  assert (Hnot3 : ~ In (mem st3 + total pre) ([nh] ++ f1 ++ f2)).
  { rewrite Em. fold h. pose proof (heap_nodup _ _ _ H2) as Hnd2.
    apply NoDup_remove_2 in Hnd2. exact Hnd2. }
  pose proof (Heap_restore st3 _ _ s tA tB _ H3 Hnot3) as H4.
  rewrite Em in H4. fold h in H4. exact H4.
Qed.

Lemma undo_PP (st : state) (pre post : list block) (sc s sd tA tB : Z)
      (f1 f2 : list Z) :
  Heap st (pre ++ Free (sc + s + 8 + sd + 8) :: post) (f1 ++ f2) ->
  20 <= sc -> 20 <= s -> 20 <= sd ->
  Heap (myrealloc_undo st (mem st + total pre + sc + 8) s
                       (mem st + total pre + sc + 8 + 4 + s)
                       tA tB (mem st + total pre) sc
                       (mem st + total pre + sc + 8 + s + 8))
       (pre ++ Free sc :: Used s :: Free sd :: post)
       ((mem st + total pre + sc + 8 + s + 8) :: f1 ++ f2).
Proof.
  intros H Hc Hs Hd. rewrite myrealloc_undo_unfold.
  pose proof (heap_base _ _ _ H) as Hbase.
  destruct (Heap_block _ _ _ _ _ H) as (_ & _ & _ & Hp & _).
  destruct (Z.eqb_spec (mem st + total pre) NULL) as [E|_]; [unfold NULL in E; lia|].
  destruct (Z.eqb_spec (mem st + total pre + sc + 8 + s + 8) NULL) as [E|_];
    [unfold NULL in E; lia|].
  cbn [negb andb].
  destruct (Heap_splitBlock st pre post (sc + s + 8 + sd + 8) sc _ H
              ltac:(lia) ltac:(lia)) as [H1 _].
  replace (sc + s + 8 + sd + 8 - sc - 8) with (s + sd + 8) in H1 by lia.
  set (st1 := fst (splitBlock st (mem st + total pre) sc)) in *.
  assert (H1' : Heap st1 ((pre ++ [Free sc]) ++ Free (s + sd + 8) :: post) (f1 ++ f2)).
  { rewrite <- app_assoc. exact H1. }
  assert (Et : mem st1 + total (pre ++ [Free sc]) = mem st + total pre + sc + 8).
  { change (mem st1) with (mem st). rewrite total_app. cbn [total]. unfold_consts.
    cbn [size]. lia. }
  destruct (Heap_splitBlock st1 _ post (s + sd + 8) s _ H1' ltac:(lia) ltac:(lia))
    as [H2 _].
  rewrite Et in H2.
  replace (s + sd + 8 - s - 8) with sd in H2 by lia.
  set (h := mem st + total pre + sc + 8) in *.
  set (st2 := fst (splitBlock st1 h s)) in *.
  set (nh := h + s + 8) in *.
  assert (Hin : In nh (free_addrs (mem st2) ((pre ++ [Free sc]) ++ Free s :: Free sd :: post))).
  { change (mem st2) with (mem st).
    replace ((pre ++ [Free sc]) ++ Free s :: Free sd :: post)
      with ((pre ++ [Free sc; Free s]) ++ Free sd :: post)
      by (rewrite <- !app_assoc; reflexivity).
    replace nh with (mem st + total (pre ++ [Free sc; Free s])).
    - apply free_addrs_mid.
    - rewrite total_app. cbn [total]. unfold_consts. cbn [size]. unfold nh, h. lia. }
  assert (Hnoth : forall g, In g (f1 ++ f2) -> g <> h /\ g <> nh).
  { intros g Hg. pose proof (Heap_node_cases _ _ _ _ _ g H Hg) as C.
    cbn [size] in C. unfold nh, h. lia. }
  assert (Hnot : ~ In nh (f1 ++ f2)).
  { intros Hg. destruct (Hnoth _ Hg) as [_ C]. congruence. }
  pose proof (Heap_addNode _ _ _ _ H2 Hin Hnot) as H3.
  destruct (addNode_mem st2 nh) as (Em3 & _ & _).
  set (st3 := addNode st2 nh) in *.
  assert (Em : mem st3 + total (pre ++ [Free sc]) = h).
  { rewrite Em3. exact Et. }
  assert (Hnot3 : ~ In (mem st3 + total (pre ++ [Free sc])) (nh :: f1 ++ f2)).
  { rewrite Em. intros [C|C]; [unfold nh in C; lia|].
    destruct (Hnoth _ C) as [C' _]. congruence. }
  pose proof (Heap_restore st3 _ _ s tA tB _ H3 Hnot3) as H4.
  rewrite Em in H4. rewrite <- app_assoc in H4. exact H4.
Qed.

Lemma myrealloc_unfold (st : state) (oldptr sz : Z) :
  myrealloc st oldptr sz =
  match myfree st oldptr with
  | None => None
  | Some st1 =>
    match myalloc st1 sz with
    | None => None
    | Some (st2, newptr) =>
      if newptr =? NULL
      then Some (myrealloc_undo st2 (oldptr - sizeof_int)
                   (- node_space st (oldptr - sizeof_int))
                   (oldptr + - node_space st (oldptr - sizeof_int))
                   (node_next st (oldptr - sizeof_int))
                   (node_prev st (oldptr - sizeof_int))
                   (rq_prevHeadptr st oldptr) (rq_prevSpace st oldptr)
                   (rq_nextHeadptr st oldptr), NULL)
      else Some (myrealloc_copy st2 oldptr newptr sz
                   (node_next st (oldptr - sizeof_int))
                   (node_prev st (oldptr - sizeof_int)), newptr)
    end
  end.
Proof. reflexivity. Qed.

Lemma rq_prev_none (st : state) (pre post : list block) (s : Z) (fl : list Z) :
  Heap st (pre ++ Used s :: post) fl -> last_free pre = false ->
  rq_prevHeadptr st (mem st + total pre + 4) = NULL.
Proof.
  intros H Hl. unfold rq_prevHeadptr, rq_prevSpace. consts_goal.
  replace (mem st + total pre + 4 - 4) with (mem st + total pre) by lia.
  destruct (list_snoc_cases pre) as [->|(pre' & c & ->)].
  - cbn [total]. rewrite Z.add_0_r, Z.eqb_refl. reflexivity.
  - rewrite last_free_snoc in Hl. destruct c as [sc|sc]; [discriminate|].
    rewrite <- app_assoc in H. cbn [app] in H.
    destruct (Heap_block _ _ _ _ _ H) as (T1 & T2 & Hb & Hp & Hq & Htot).
    cbn [tag size] in *. rewrite total_app. cbn [total]. unfold_consts. cbn [size].
    destruct (negb (mem st + (total pre' + (sc + 2 * 4 + 0)) =? mem st)); [|reflexivity].
    replace (mem st + (total pre' + (sc + 2 * 4 + 0)) - 4)
      with (mem st + total pre' + 4 + sc) by lia.
    rewrite T2. destruct (Z.gtb_spec (- sc) 0) as [L|_]; [lia|]. reflexivity.
Qed.

Lemma rq_prev_free (st : state) (pre post : list block) (sc s : Z) (fl : list Z) :
  Heap st (pre ++ Free sc :: Used s :: post) fl ->
  rq_prevSpace st (mem st + total pre + sc + 8 + 4) = sc /\
  rq_prevHeadptr st (mem st + total pre + sc + 8 + 4) = mem st + total pre.
Proof.
  intros H.
  destruct (Heap_block _ _ _ _ _ H) as (T1 & T2 & Hb & Hp & Hq & Htot).
  cbn [tag size] in *.
  assert (E : rq_prevSpace st (mem st + total pre + sc + 8 + 4) = sc).
  { unfold rq_prevSpace. consts_goal.
    replace (mem st + total pre + sc + 8 + 4 - 4) with (mem st + total pre + sc + 8) by lia.
    destruct (Z.eqb_spec (mem st + total pre + sc + 8) (mem st)) as [C|_]; [lia|].
    cbn [negb].
    replace (mem st + total pre + sc + 8 - 4) with (mem st + total pre + 4 + sc) by lia.
    exact T2. }
  split; [exact E|].
  unfold rq_prevHeadptr. rewrite E. consts_goal.
  replace (mem st + total pre + sc + 8 + 4 - 4) with (mem st + total pre + sc + 8) by lia.
  destruct (Z.eqb_spec (mem st + total pre + sc + 8) (mem st)) as [C|_]; [lia|].
  destruct (Z.gtb_spec sc 0) as [_|L]; [|lia]. cbn [negb andb]. lia.
Qed.

Lemma rq_next_none (st : state) (pre post : list block) (s : Z) (fl : list Z) :
  Heap st (pre ++ Used s :: post) fl -> hd_free post = false ->
  rq_nextHeadptr st (mem st + total pre + 4) = NULL.
Proof.
  intros H Hh. unfold rq_nextHeadptr. consts_goal.
  replace (mem st + total pre + 4 - 4) with (mem st + total pre) by lia.
  rewrite (node_space_block _ _ _ _ _ H). cbn [tag]. rewrite Z.opp_involutive.
  destruct (Heap_block _ _ _ _ _ H) as (_ & _ & Hb & Hp & Hq & Htot).
  cbn [size] in *.
  destruct post as [|[sd|sd] post]; [| discriminate |].
  - cbn [total] in Htot.
    replace (mem st + total pre + 4 + s + 4 =? mem st + MEMORY_SIZE st) with true
      by (symmetry; apply Z.eqb_eq; lia).
    reflexivity.
  - assert (H' : Heap st ((pre ++ [Used s]) ++ Used sd :: post) fl).
    { rewrite <- app_assoc. exact H. }
    destruct (Heap_block _ _ _ _ _ H') as (T1 & _ & Hb' & _).
    rewrite total_app in T1. cbn [total tag size] in *. unfold_consts. cbn [size] in T1.
    replace (mem st + (total pre + (s + 2 * 4 + 0))) with (mem st + total pre + 4 + s + 4)
      in T1 by lia.
    rewrite T1.
    destruct (negb (mem st + total pre + 4 + s + 4 =? mem st + MEMORY_SIZE st));
      [|reflexivity].
    destruct (Z.gtb_spec (- sd) 0) as [L|_]; [lia|]. reflexivity.
Qed.

Lemma rq_next_free (st : state) (pre post : list block) (s sd : Z) (fl : list Z) :
  Heap st (pre ++ Used s :: Free sd :: post) fl ->
  rq_nextHeadptr st (mem st + total pre + 4) = mem st + total pre + s + 8.
Proof.
  intros H. unfold rq_nextHeadptr. consts_goal.
  replace (mem st + total pre + 4 - 4) with (mem st + total pre) by lia.
  rewrite (node_space_block _ _ _ _ _ H). cbn [tag]. rewrite Z.opp_involutive.
  assert (H' : Heap st ((pre ++ [Used s]) ++ Free sd :: post) fl).
  { rewrite <- app_assoc. exact H. }
  destruct (Heap_block _ _ _ _ _ H') as (T1 & _ & Hb' & Hp & Hq & Htot).
  rewrite total_app in T1, Htot, Hp. cbn [total tag size] in *. unfold_consts.
  cbn [size] in *.
  replace (mem st + (total pre + (s + 2 * 4 + 0))) with (mem st + total pre + 4 + s + 4)
    in T1 by lia.
  rewrite T1.
  destruct (Z.eqb_spec (mem st + total pre + 4 + s + 4) (mem st + MEMORY_SIZE st))
    as [C|_]; [lia|].
  destruct (Z.gtb_spec sd 0) as [_|L]; [|lia]. cbn [negb andb]. lia.
Qed.

Lemma copy_loop_other (newptr oldptr : Z) (n : nat) : forall (m : memory) (i x : Z),
  x < newptr + i \/ newptr + i + Z.of_nat n <= x ->
  copy_loop n m newptr oldptr i x = m x.
Proof.
  induction n as [|n IH]; intros m i x Hx; cbn [copy_loop]; [reflexivity|].
  rewrite IH by lia. apply store_byte_other. lia.
Qed.

Lemma myrealloc_copy_mem (st : state) (oldptr newptr sz tA tB : Z) :
  mem (myrealloc_copy st oldptr newptr sz tA tB) = mem st /\
  MEMORY_SIZE (myrealloc_copy st oldptr newptr sz tA tB) = MEMORY_SIZE st /\
  freeList (myrealloc_copy st oldptr newptr sz tA tB) = freeList st.
Proof. repeat split. Qed.

Lemma Heap_copy (st : state) (pre post : list block) (s : Z) (fl : list Z)
      (oldptr sz tA tB : Z) :
  Heap st (pre ++ Used s :: post) fl ->
  Heap (myrealloc_copy st oldptr (mem st + total pre + 4) sz tA tB)
       (pre ++ Used s :: post) fl.
Proof.
  intros H.
  destruct (Heap_block _ _ _ _ _ H) as (T1 & T2 & Hb & Hp & Hq & Htot).
  cbn [tag size] in *.
  pose proof (node_space_block _ _ _ _ _ H) as Hsp. cbn [tag] in Hsp.
  apply (Heap_payload st _ pre post s fl H); try reflexivity.
  intros x Hx. unfold myrealloc_copy. consts_goal.
  replace (mem st + total pre + 4 - 4) with (mem st + total pre) by lia.
  st_goal. unfold node_space in Hsp. rewrite Hsp, Z.opp_involutive.
  consts_goal.
  rewrite copy_loop_other by lia.
  mem_simpl. reflexivity.
Qed.

Lemma Inv_relist (st st' : state) (bs : list block) (fl fl' : list Z) :
  Inv st bs fl -> Heap st' bs fl' -> mem st' = mem st -> incl fl fl' ->
  Inv st' bs fl'.
Proof.
  intros [H Hall Hadj] H' Em Hi. constructor; [exact H'| |exact Hadj].
  rewrite Em. intros g Hg. apply Hi. apply Hall. exact Hg.
Qed.

(** What [myrealloc] does to a heap that satisfies the invariant. *)
Lemma myrealloc_spec (st : state) (pre post : list block) (s : Z) (fl : list Z)
      (sz : Z) :
  Inv st (pre ++ Used s :: post) fl -> 0 <= sz < 2 ^ 31 ->
  exists st' q bs' fl',
    myrealloc st (mem st + total pre + 4) sz = Some (st', q) /\
    Inv st' bs' fl' /\
    mem st' = mem st /\ MEMORY_SIZE st' = MEMORY_SIZE st /\
    ((q = NULL /\ bs' = pre ++ Used s :: post) \/
     (q <> NULL /\ In (q - 4) (used_addrs (mem st) bs') /\
      forall u, In u (used_addrs (mem st) (pre ++ Used s :: post)) ->
                u <> mem st + total pre -> In u (used_addrs (mem st) bs'))).
Proof.
  intros I Hsz. pose proof (inv_heap _ _ _ I) as H.
  destruct (myfree_spec _ _ _ _ _ I)
    as (st1 & bs1 & fl1 & Efree & I1 & Em1 & Es1 & Hused1 & Hshape).
  pose proof (node_space_block _ _ _ _ _ H) as Hsp. cbn [tag] in Hsp.
  destruct (Heap_block _ _ _ _ _ H) as (_ & _ & Hb & Hp & _). cbn [size] in Hb.
  rewrite myrealloc_unfold, Efree. consts_goal.
  replace (mem st + total pre + 4 - 4) with (mem st + total pre) by lia.
  rewrite Hsp, Z.opp_involutive.
  set (tA := node_next st (mem st + total pre)).
  set (tB := node_prev st (mem st + total pre)).
  destruct (myalloc_spec st1 bs1 fl1 sz I1 Hsz)
    as [[Ea Hno]|(pre2 & sp & post2 & l1 & l2 & st2 & Ebs & Efl & Hle & Ea & Em2 & Es2 &
                  Hframe & Hcases)].
  - (* no room: undo *)
    rewrite Ea, Z.eqb_refl.
    pose proof (inv_heap _ _ _ I1) as H1.
    assert (Hundo : exists fl',
      Heap (myrealloc_undo st1 (mem st + total pre) s (mem st + total pre + 4 + s)
              tA tB (rq_prevHeadptr st (mem st + total pre + 4))
              (rq_prevSpace st (mem st + total pre + 4))
              (rq_nextHeadptr st (mem st + total pre + 4)))
           (pre ++ Used s :: post) fl' /\ incl fl fl').
    { destruct Hshape as [(Hl & Hh & -> & ->)
                         |[(Hh & pre' & sc & -> & -> & ->)
                         |[(Hl & sd & post' & f1 & f2 & -> & -> & -> & ->)
                         |(pre' & sc & sd & post' & f1 & f2 & -> & -> & -> & -> & ->)]]].
      - rewrite (rq_prev_none _ _ _ _ _ H Hl), (rq_next_none _ _ _ _ _ H Hh).
        exists fl. split; [|apply incl_refl].
        rewrite <- Em1. apply undo_NN. rewrite Em1. exact H1.
      - rewrite <- app_assoc in H |- *. cbn [app] in H |- *.
        assert (Et : mem st + total (pre' ++ [Free sc]) = mem st + total pre' + sc + 8).
        { rewrite total_app. cbn [total]. unfold_consts. cbn [size]. lia. }
        rewrite Et.
        destruct (rq_prev_free _ _ _ _ _ _ H) as [-> ->].
        assert (H' : Heap st ((pre' ++ [Free sc]) ++ Used s :: post) fl).
        { rewrite <- app_assoc. exact H. }
        pose proof (rq_next_none _ _ _ _ _ H' Hh) as En. rewrite Et in En. rewrite En.
        destruct (Heap_block _ _ _ _ _ H) as (_ & _ & Hc & _). cbn [size] in Hc.
        exists fl. split; [|apply incl_refl].
        rewrite <- Em1. apply undo_PN; [exact H1|lia|lia].
      - rewrite (rq_prev_none _ _ _ _ _ H Hl), (rq_next_free _ _ _ _ _ _ H).
        assert (Hd : 20 <= size (Free sd)).
        { apply (sizes_ok_in _ _ (heap_sizes _ _ _ H)). apply in_or_app. right.
          cbn [In]. auto. }
        cbn [size] in Hd.
        exists ((mem st + total pre + s + 8) :: f1 ++ f2). split.
        + rewrite <- Em1. apply undo_NP; [|lia|lia]. rewrite Em1. exact H1.
        + intros g Hg. apply in_app_iff in Hg. cbn [In] in *. rewrite in_app_iff.
          tauto.
      - rewrite <- app_assoc in H |- *. cbn [app] in H |- *.
        assert (Et : mem st + total (pre' ++ [Free sc]) = mem st + total pre' + sc + 8).
        { rewrite total_app. cbn [total]. unfold_consts. cbn [size]. lia. }
        rewrite Et in *.
        destruct (rq_prev_free _ _ _ _ _ _ H) as [-> ->].
        assert (H' : Heap st ((pre' ++ [Free sc]) ++ Used s :: Free sd :: post')
                          (f1 ++ (mem st + total pre' + sc + 8 + s + 8) :: f2)).
        { rewrite <- app_assoc. exact H. }
        pose proof (rq_next_free _ _ _ _ _ _ H') as En. rewrite Et in En. rewrite En.
        destruct (Heap_block _ _ _ _ _ H) as (_ & _ & Hc & _). cbn [size] in Hc.
        assert (Hd : 20 <= size (Free sd)).
        { apply (sizes_ok_in _ _ (heap_sizes _ _ _ H)). apply in_or_app. right.
          cbn [In]. auto. }
        cbn [size] in Hd.
        exists ((mem st + total pre' + sc + 8 + s + 8) :: f1 ++ f2). split.
        + rewrite <- Em1. apply undo_PP; [exact H1|lia|lia|lia].
        + intros g Hg. apply in_app_iff in Hg. cbn [In] in *. rewrite in_app_iff.
          tauto. }
    destruct Hundo as (fl' & Hu & Hi).
    match type of Hu with Heap ?x _ _ => set (st' := x) in * end.
    assert (Em : mem st' = mem st /\ MEMORY_SIZE st' = MEMORY_SIZE st).
    { unfold st'. rewrite myrealloc_undo_unfold.
      match goal with |- context [restore_old ?a ?b ?c ?d ?e ?f] =>
        destruct (restore_old_mem a b c d e f) as [-> ->] end.
      repeat match goal with
      | |- context [if ?c then _ else _] => destruct c
      | |- context [removeNode ?a ?b] => destruct (removeNode_mem a b) as [-> ->]
      | |- context [addNode ?a ?b] => destruct (addNode_mem a b) as (-> & -> & _)
      end; cbn [fst splitBlock mem MEMORY_SIZE set_space write_int set_bytes];
        split; assumption. }
    destruct Em as [Em Es].
    exists st', NULL, (pre ++ Used s :: post), fl'.
    split; [reflexivity|]. split; [apply (Inv_relist st st' _ fl fl'); assumption|].
    split; [exact Em|]. split; [exact Es|]. left. split; reflexivity.
  - (* room was found: copy *)
    rewrite Ea.
    pose proof (heap_base _ _ _ (inv_heap _ _ _ I1)) as Hbase.
    assert (Hp2 : 0 <= total pre2).
    { subst bs1. destruct (Heap_block _ _ _ _ _ (inv_heap _ _ _ I1)) as (_&_&_&Hp2&_).
      exact Hp2. }
    destruct (Z.eqb_spec (mem st1 + total pre2 + 4) 0) as [C|Hq]; [lia|].
    assert (Hst2 : exists s2 post3 bs2 fl2,
              bs2 = pre2 ++ Used s2 :: post3 /\ Inv st2 bs2 fl2 /\
              forall u, In u (used_addrs (mem st) bs1) -> In u (used_addrs (mem st) bs2)).
    { destruct Hcases as [[_ I2]|[_ I2]].
      - eexists _, _, _, _. split; [reflexivity|]. split; [exact I2|].
        intros u Hu. subst bs1.
        apply (used_transfer (mem st) pre2 [Free sp]
                 [Used (Z.max sz 20); Free (sp - Z.max sz 20 - 8)] post2 u Hu).
        + cbn [total]. unfold_consts. cbn [size]. lia.
        + cbn [used_addrs is_free app]. intros [].
      - eexists _, _, _, _. split; [reflexivity|]. split; [exact I2|].
        intros u Hu. subst bs1.
        apply (used_transfer (mem st) pre2 [Free sp] [Used sp] post2 u Hu).
        + reflexivity.
        + cbn [used_addrs is_free app]. intros []. }
    destruct Hst2 as (s2 & post3 & bs2 & fl2 & Ebs2 & I2 & Hused2).
    subst bs2.
    pose proof (Heap_copy st2 pre2 post3 s2 fl2 (mem st + total pre + 4) sz tA tB
                  (inv_heap _ _ _ I2)) as H3.
    rewrite Em2 in H3.
    set (st3 := myrealloc_copy st2 (mem st + total pre + 4) (mem st1 + total pre2 + 4)
                  sz tA tB) in *.
    exists st3, (mem st1 + total pre2 + 4), (pre2 ++ Used s2 :: post3), fl2.
    split; [reflexivity|].
    split; [apply (Inv_relist st2 st3 _ fl2 fl2); [exact I2|exact H3|reflexivity|apply incl_refl]|].
    split; [change (mem st3) with (mem st2); congruence|].
    split; [change (MEMORY_SIZE st3) with (MEMORY_SIZE st2); congruence|].
    right. split; [exact Hq|]. split.
    + replace (mem st1 + total pre2 + 4 - 4) with (mem st + total pre2) by (rewrite Em1; lia).
      rewrite used_addrs_app. apply in_or_app. right. cbn [used_addrs is_free app].
      now left.
    + intros u Hu Hne. apply Hused2. apply Hused1; assumption.
Qed.

End Reallocate.

(* ------------------------------------------------------------------ *)
(** ** Runs keep the invariant *)

Section Runs.

Lemma Inv_init (n base : Z) (m0 : memory) :
  28 <= n < 2 ^ 31 -> 0 < base -> base + n < 2 ^ 64 ->
  Inv (init_myalloc n base m0) [Free (n - 8)] [base].
Proof.
  intros Hn Hb Ht.
  assert (E : init_myalloc n base m0 =
    mkState n base base
      (store_int (store_ptr (store_ptr (store_int m0 base (n - 8)) (base + 8) 0)
                            (base + 16) 0) (base + 4 + (n - 8)) (n - 8))).
  { unfold init_myalloc, addNode. st_goal. consts_goal.
    rewrite (to_int_id (n - 2 * 4)) by lia. cbn [Z.eqb].
    replace (n - 2 * 4) with (n - 8) by lia. rewrite Z.add_0_r. reflexivity. }
  rewrite E. constructor; [constructor|..]; cbn [MEMORY_SIZE mem freeList bytes].
  - cbn [total]. unfold_consts. cbn [size]. lia.
  - lia.
  - exact Hb.
  - exact Ht.
  - repeat constructor. cbn [size]. unfold_consts. lia.
  - apply tags_ok_cons. cbn [tag size]. consts_goal. split; [split|constructor].
    + mem_simpl. reflexivity.
    + mem_simpl. reflexivity.
  - cbn [dll]. consts_goal. repeat split; try lia.
    + mem_simpl. reflexivity.
    + mem_simpl. reflexivity.
  - repeat constructor. intros [].
  - intros g [<-|[]]. cbn [free_addrs is_free app]. now left.
  - intros g Hg. cbn [free_addrs is_free app] in Hg. exact Hg.
  - exact I.
Qed.

Lemma holds_In (p : Z) (live : list Z) : holds p live = true -> In p live.
Proof.
  unfold holds. rewrite existsb_exists. intros (x & Hx & E).
  apply Z.eqb_eq in E. now subst.
Qed.

Lemma Held_block (st : state) (live : list Z) (bs : list block) (p : Z) :
  In (p - 4) (used_addrs (mem st) bs) ->
  exists pre s post, bs = pre ++ Used s :: post /\ p = mem st + total pre + 4.
Proof.
  intros Hin. apply used_addrs_layout in Hin. destruct Hin as [s Hin].
  destruct (layout_split _ _ _ _ Hin) as (pre & post & -> & E).
  exists pre, s, post. split; [reflexivity|lia].
Qed.

Lemma exec_Held (st : state) (live : list Z) (o : op) :
  Held st live ->
  match exec st live o with
  | Done st' live' =>
    Held st' live' /\ mem st' = mem st /\ MEMORY_SIZE st' = MEMORY_SIZE st
  | IllFormed => True
  | Aborted => False
  end.
Proof.
  intros (bs & fl & I & Hl). destruct o as [n|p|p n|p i v]; cbn [exec].
  - (* Alloc *)
    destruct (is_size n) eqn:En; [|exact Logic.I].
    unfold is_size in En. apply andb_true_iff in En. destruct En as [E1 E2].
    apply Z.ltb_lt in E1, E2.
    destruct (myalloc_spec st bs fl n I ltac:(lia))
      as [[Ea _]|(pre & sp & post & l1 & l2 & st' & -> & -> & _ & Ea & Em & Es & _ & Hc)].
    + rewrite Ea. rewrite Z.eqb_refl.
      split; [|split; reflexivity]. exists bs, fl. split; assumption.
    + rewrite Ea.
      pose proof (heap_base _ _ _ (inv_heap _ _ _ I)) as Hb.
      destruct (Heap_block _ _ _ _ _ (inv_heap _ _ _ I)) as (_ & _ & _ & Hp & _).
      destruct (Z.eqb_spec (mem st + total pre + 4) NULL) as [C|_];
        [unfold NULL in C; lia|].
      split; [|split; assumption].
      destruct Hc as [[_ I']|[_ I']].
      * eexists _, _. split; [exact I'|]. rewrite Em.
        intros q [<-|Hq].
        -- replace (mem st + total pre + 4 - 4) with (mem st + total pre) by lia.
           rewrite used_addrs_app. apply in_or_app. right. now left.
        -- apply (used_transfer (mem st) pre [Free sp]
                    [Used (Z.max n 20); Free (sp - Z.max n 20 - 8)] post _ (Hl q Hq)).
           ++ cbn [total]. unfold_consts. cbn [size]. lia.
           ++ intros [].
      * eexists _, _. split; [exact I'|]. rewrite Em.
        intros q [<-|Hq].
        -- replace (mem st + total pre + 4 - 4) with (mem st + total pre) by lia.
           rewrite used_addrs_app. apply in_or_app. right. now left.
        -- apply (used_transfer (mem st) pre [Free sp] [Used sp] post _ (Hl q Hq)).
           ++ reflexivity.
           ++ intros [].
  - (* Release *)
    destruct (holds p live) eqn:Eh; [|exact Logic.I].
    apply holds_In in Eh.
    destruct (Held_block st live bs p (Hl p Eh)) as (pre & s & post & -> & ->).
    destruct (myfree_spec _ _ _ _ _ I)
      as (st' & bs' & fl' & Ef & I' & Em & Es & Hu & _).
    rewrite Ef. split; [|split; assumption].
    exists bs', fl'. split; [exact I'|]. rewrite Em.
    intros q Hq. apply in_remove in Hq. destruct Hq as [Hq Hne].
    apply Hu; [apply Hl; exact Hq|lia].
  - (* Realloc *)
    destruct (holds p live) eqn:Eh; [|exact Logic.I].
    destruct (is_size n) eqn:En; [|exact Logic.I]. cbn [andb].
    apply holds_In in Eh.
    unfold is_size in En. apply andb_true_iff in En. destruct En as [E1 E2].
    apply Z.ltb_lt in E1, E2.
    destruct (Held_block st live bs p (Hl p Eh)) as (pre & s & post & -> & ->).
    destruct (myrealloc_spec _ _ _ _ _ n I ltac:(lia))
      as (st' & q & bs' & fl' & Er & I' & Em & Es & Hq).
    rewrite Er. split; [|split; assumption].
    exists bs', fl'. split; [exact I'|]. rewrite Em.
    destruct Hq as [[-> ->]|(Hne & Hin & Hu)].
    + rewrite Z.eqb_refl. exact Hl.
    + destruct (Z.eqb_spec q NULL) as [C|_]; [contradiction|].
      intros u [<-|Hu']; [exact Hin|].
      apply in_remove in Hu'. destruct Hu' as [Hu' Hne'].
      apply Hu; [apply Hl; exact Hu'|lia].
  - (* Store *)
    destruct (holds p live) eqn:Eh; [|exact Logic.I]. cbn [andb].
    destruct (Z.leb_spec 0 i) as [Hi|_]; [|exact Logic.I]. cbn [andb].
    apply holds_In in Eh.
    destruct (Held_block st live bs p (Hl p Eh)) as (pre & s & post & -> & ->).
    unfold sizeof_int.
    replace (mem st + total pre + 4 - 4) with (mem st + total pre) by lia.
    rewrite (node_space_block _ _ _ _ _ (inv_heap _ _ _ I)). cbn [tag].
    rewrite Z.opp_involutive.
    destruct (Z.ltb_spec i s) as [Hi'|_]; [|exact Logic.I].
    split; [|split; reflexivity].
    exists (pre ++ Used s :: post), fl. split; [|exact Hl].
    apply (Inv_relist st _ _ fl fl I); [|reflexivity|apply incl_refl].
    apply (Heap_payload st _ pre post s fl (inv_heap _ _ _ I)); try reflexivity.
    intros x Hx. unfold write_byte. st_goal. apply store_byte_other. lia.
Qed.

Lemma run_Held (ops : list op) : forall (st : state) (live : list Z),
  Held st live ->
  match run st live ops with
  | Done st' live' =>
    Held st' live' /\ mem st' = mem st /\ MEMORY_SIZE st' = MEMORY_SIZE st
  | IllFormed => True
  | Aborted => False
  end.
Proof.
  induction ops as [|o r IH]; intros st live Hh; cbn [run].
  - repeat split. exact Hh.
  - pose proof (exec_Held st live o Hh) as He.
    destruct (exec st live o) as [st' live'| |]; [|exact I|exact He].
    destruct He as (Hh' & Em & Es).
    specialize (IH st' live' Hh').
    destruct (run st' live' r) as [st'' live''| |]; [|exact I|exact IH].
    destruct IH as (Hh'' & Em' & Es'). repeat split; [exact Hh''|congruence|congruence].
Qed.

Lemma run_app (ops1 : list op) : forall (st : state) (live : list Z) (ops2 : list op),
  run st live (ops1 ++ ops2) =
  match run st live ops1 with
  | Done st' live' => run st' live' ops2
  | IllFormed => IllFormed
  | Aborted => Aborted
  end.
Proof.
  induction ops1 as [|o r IH]; intros st live ops2; cbn [run app]; [reflexivity|].
  destruct (exec st live o); [apply IH|reflexivity|reflexivity].
Qed.

(** After every prefix of a well-formed run the invariant holds. *)
Lemma run_prefix (n base : Z) (m0 : memory) (ops1 ops2 : list op) :
  28 <= n < 2 ^ 31 -> 0 < base -> base + n < 2 ^ 64 ->
  run (init_myalloc n base m0) [] (ops1 ++ ops2) <> IllFormed ->
  exists st live bs fl,
    run (init_myalloc n base m0) [] ops1 = Done st live /\
    Inv st bs fl /\ mem st = base /\ MEMORY_SIZE st = n.
Proof.
  intros Hn Hb Ht Hwf.
  assert (Hh : Held (init_myalloc n base m0) []).
  { exists [Free (n - 8)], [base]. split; [apply Inv_init; assumption|]. intros p []. }
  pose proof (run_Held ops1 _ _ Hh) as Hr. rewrite run_app in Hwf.
  destruct (run (init_myalloc n base m0) [] ops1) as [st live| |];
    [|congruence|contradiction].
  destruct Hr as ((bs & fl & I & _) & Em & Es).
  exists st, live, bs, fl.
  split; [reflexivity|]. split; [exact I|]. split; [exact Em|exact Es].
Qed.

End Runs.

(* ------------------------------------------------------------------ *)
(** ** Properties of the specification *)

Section Claims.


(** C1.  After every operation of a well-formed sequence of allocations,
    releases and reallocations (and stores into held payloads) on a pool of
    [n] bytes, [checkMem] returns [n]: the blocks that the tags describe add
    up to the pool. *)
Theorem checkMem_after_every_operation (n base : Z) (m0 : memory) (ops1 ops2 : list op) :
  28 <= n < 2 ^ 31 -> 0 < base -> base + n < 2 ^ 64 ->
  run (init_myalloc n base m0) [] (ops1 ++ ops2) <> IllFormed ->
  exists st live,
    run (init_myalloc n base m0) [] ops1 = Done st live /\
    checkMem st = Some n /\
    exists bs, tags_ok (bytes st) (mem st) bs /\ total bs = n.
Proof.
  intros Hn Hb Ht Hwf.
  destruct (run_prefix n base m0 ops1 ops2 Hn Hb Ht Hwf)
    as (st & live & bs & fl & Er & I & Em & Es).
  exists st, live. split; [exact Er|]. split.
  - rewrite (checkMem_Heap _ _ _ (inv_heap _ _ _ I)). congruence.
  - exists bs. split; [apply (heap_tags _ _ _ (inv_heap _ _ _ I))|].
    rewrite (heap_total _ _ _ (inv_heap _ _ _ I)). exact Es.
Qed.


(** C3.  On a free list that is a null-terminated list [fl], [findHead]
    returns null when no block has a payload of at least [sz], and otherwise
    the first block whose payload is the least one that is at least [sz]; an
    exact fit ends the scan at once. *)
Theorem findHead_best_fit (st : state) (sz : Z) (fl : list Z) :
  dll (bytes st) NULL (freeList st) fl -> (length fl < fuel st)%nat ->
  exists r, findHead st sz = Some r /\
    ((r = NULL /\ forall g, In g fl -> node_space st g < sz) \/ best_fit st sz fl r).
Proof.
  intros Hd Hn. exists (scan st sz fl NULL 0). split.
  - unfold findHead. eapply findHead_loop_scan; eauto.
  - pose proof (dll_nonnull _ _ _ _ Hd) as Hnz.
    destruct (scan_spec st sz fl NULL 0 Hnz ltac:(congruence))
      as [[E Hno]|(l1 & l2 & E & P1 & _ & P3 & P4)].
    + left. split; [exact E|]. intros g Hg.
      destruct (Z_lt_le_dec (node_space st g) sz) as [L|L]; [exact L|].
      destruct (Hno g Hg L) as [C _]. congruence.
    + right. exists l1, l2. repeat split; try assumption.
      intros Heq n res low Hlen.
      eapply findHead_loop_exact; [rewrite <- E; exact Hd|exact Heq| |exact Hlen].
      intros g Hg Hc. specialize (P3 g Hg ltac:(lia)). lia.
Qed.

(** C8, as amended.  With [L = sizeof(node) - sizeof(int)] (20 bytes: the two
    links and the padding before them), a block found by [myalloc] is split
    exactly when its payload exceeds [s + 2T + L] for [s = max(request, L)];
    then the prefix has payload [s] and the suffix, of payload
    [original - s - 2T], is the new head of the free list; otherwise the whole
    block is handed out. *)
Theorem myalloc_split_rule (st : state) (bs : list block) (fl : list Z) (request : Z) :
  Inv st bs fl -> 0 < request < 2 ^ 31 ->
  split_rule (sizeof_node - sizeof_int) st request.
Proof.
  intros I Hreq st' p Ea Hp.
  destruct (myalloc_spec st bs fl request I ltac:(lia))
    as [[Ea' _]|(pre & sp & post & l1 & l2 & st2 & -> & -> & Hle & Ea' & Em & Es & _ & Hc)].
  - rewrite Ea' in Ea. inversion Ea; subst. congruence.
  - rewrite Ea' in Ea. inversion Ea; subst st2 p. clear Ea.
    pose proof (node_space_block _ _ _ _ _ (inv_heap _ _ _ I)) as Hsp. cbn [tag] in Hsp.
    cbn zeta. unfold_consts.
    replace (mem st + total pre + 4 - 4) with (mem st + total pre) by lia.
    rewrite Hsp.
    replace (24 - 4) with 20 by lia.
    destruct Hc as [[G I']|[G I']].
    + destruct (Z.gtb_spec sp (Z.max request 20 + 2 * 4 + 20)) as [_|C]; [|lia].
      pose proof (inv_heap _ _ _ I') as H'.
      destruct (Heap_block _ _ _ _ _ H') as (_ & T2 & _).
      pose proof (node_space_block _ _ _ _ _ H') as N1.
      assert (H'' : Heap st' ((pre ++ [Used (Z.max request 20)]) ++
                              Free (sp - Z.max request 20 - 8) :: post)
                         ((mem st + total pre + Z.max request 20 + 8) :: l1 ++ l2)).
      { rewrite <- app_assoc. exact H'. }
      destruct (Heap_block _ _ _ _ _ H'') as (_ & U2 & _).
      pose proof (node_space_block _ _ _ _ _ H'') as N2.
      pose proof (Heap_freeList _ _ _ H') as Hf.
      rewrite total_app in U2, N2. cbn [total tag size hd] in *. unfold_consts.
      cbn [size] in *. rewrite Em in *.
      replace (sp - Z.max request 20 - 2 * 4) with (sp - Z.max request 20 - 8) by lia.
      split; [exact N1|]. split; [exact T2|]. split; [|split].
      * replace (mem st + total pre + 4 + Z.max request 20 + 4)
          with (mem st + (total pre + (Z.max request 20 + 2 * 4 + 0))) by lia.
        exact N2.
      * replace (mem st + total pre + 4 + sp)
          with (mem st + (total pre + (Z.max request 20 + 2 * 4 + 0)) + 4 +
                (sp - Z.max request 20 - 8)) by lia.
        exact U2.
      * rewrite Hf. lia.
    + destruct (Z.gtb_spec sp (Z.max request 20 + 2 * 4 + 20)) as [C|_]; [lia|].
      pose proof (inv_heap _ _ _ I') as H'.
      destruct (Heap_block _ _ _ _ _ H') as (_ & T2 & _).
      pose proof (node_space_block _ _ _ _ _ H') as N1.
      cbn [tag size] in *. rewrite Em in *. split; [exact N1|exact T2].
Qed.

Lemma splitBlock_bytes (st : state) (h sz x : Z) :
  (x < h \/ h + 4 <= x) ->
  (x < h + 4 + sz \/ h + 12 + sz <= x) ->
  (x < h + 4 + node_space st h \/ h + 8 + node_space st h <= x) ->
  bytes (fst (splitBlock st h sz)) x = bytes st x.
Proof.
  intros H1 H2 H3. unfold splitBlock. cbn [fst]. st_goal.
  unfold node_space in H3. revert H3. consts_goal. rewrite !Z.add_0_r. intros H3.
  mem_simpl. reflexivity.
Qed.

Lemma myalloc_Some_take (st st' : state) (sz p : Z) :
  myalloc st sz = Some (st', p) -> p <> NULL ->
  st' = myalloc_take st (p - 4) sz.
Proof.
  rewrite myalloc_unfold. destruct (findHead st sz) as [h|]; [|discriminate].
  destruct (Z.eqb_spec h NULL) as [->|_].
  - intros E. inversion E. contradiction.
  - destruct (assert_checkMem _); [|discriminate]. intros E _. inversion E.
    unfold sizeof_int. replace (h + 4 - 4) with h by lia. reflexivity.
Qed.

(** Inside the block it takes, [myalloc] writes the words of [taken_words]
    only. *)
Lemma myalloc_take_block (st : state) (pre post : list block) (sp : Z)
      (l1 l2 : list Z) (request x : Z) :
  Heap st (pre ++ Free sp :: post) (l1 ++ (mem st + total pre) :: l2) ->
  0 <= request <= sp ->
  mem st + total pre <= x < mem st + total pre + sp + 8 ->
  ~ taken_words st (mem st + total pre) sp (Z.max request 20) x ->
  bytes (myalloc_take st (mem st + total pre) request) x = bytes st x.
Proof.
  intros H Hreq Hx Hnw.
  destruct (Heap_block _ _ _ _ _ H) as (T1 & T2 & Hb & Hp & Hq & Htot).
  cbn [tag size] in *. pose proof (heap_int _ _ _ H) as Hint.
  pose proof (node_space_block _ _ _ _ _ H) as Hsp. cbn [tag] in Hsp.
  assert (Hl : forall g, In g (l1 ++ l2) -> x < g + 8 \/ g + 24 <= x).
  { intros g Hg.
    assert (Hg' : In g (l1 ++ (mem st + total pre) :: l2)).
    { apply in_app_iff in Hg. destruct Hg; [now apply in_mid_l|now apply in_mid_r]. }
    pose proof (Heap_node_cases _ _ _ _ _ g H Hg') as C. cbn [size] in C.
    assert (Hne : g <> mem st + total pre).
    { intros ->. pose proof (heap_nodup _ _ _ H) as Hnd.
      apply NoDup_remove_2 in Hnd. contradiction. }
    lia. }
  pose proof (Heap_freeList _ _ _ H) as Hhd.
  set (h := mem st + total pre) in *.
  set (s := Z.max request 20) in *.
  assert (Hs : 20 <= s <= sp) by (unfold s; lia).
  unfold taken_words in Hnw.
  unfold myalloc_take. rewrite Hsp, MAX_request by lia. fold s.
  rewrite split_test by lia.
  destruct (Z.gtb_spec sp (s + 28)) as [G|G].
  - destruct (Heap_splitBlock st pre post sp s _ H ltac:(lia) ltac:(lia)) as [H1 Esnd].
    fold h in H1, Esnd.
    rewrite (surjective_pairing (splitBlock st h s)), Esnd.
    set (st1 := fst (splitBlock st h s)) in *.
    set (nh := h + s + 8) in *.
    assert (Hin : In nh (free_addrs (mem st1) (pre ++ Free s :: Free (sp - s - 8) :: post))).
    { change (mem st1) with (mem st).
      replace (pre ++ Free s :: Free (sp - s - 8) :: post)
        with ((pre ++ [Free s]) ++ Free (sp - s - 8) :: post)
        by (rewrite <- app_assoc; reflexivity).
      replace nh with (mem st + total (pre ++ [Free s])).
      - apply free_addrs_mid.
      - rewrite total_app. cbn [total]. unfold_consts. cbn [size]. unfold nh, h. lia. }
    assert (Hnot : ~ In nh (l1 ++ h :: l2)).
    { intros Hc. pose proof (Heap_node_cases _ _ _ _ _ nh H Hc) as C.
      cbn [size] in C. fold h in C. unfold nh in C. lia. }
    pose proof (Heap_addNode _ _ _ _ H1 Hin Hnot) as H2.
    destruct (addNode_mem st1 nh) as (Em2 & Es2 & Ef2).
    set (st2 := addNode st1 nh) in *.
    change (nh :: l1 ++ h :: l2) with ((nh :: l1) ++ h :: l2) in H2.
    pose proof (Heap_removeNode _ _ _ _ _ H2) as H3.
    destruct (removeNode_mem st2 h) as (Em3 & Es3).
    pose proof (heap_dll _ _ _ H2) as Hd2.
    set (st3 := removeNode st2 h) in *.
    assert (Em : mem st3 = mem st) by (rewrite Em3, Em2; reflexivity).
    pose proof (node_space_block _ _ _ _ _ H3) as Hsp3. cbn [tag] in Hsp3.
    rewrite Em in Hsp3. fold h in Hsp3. rewrite Hsp3.
    st_goal. consts_goal. rewrite !Z.add_0_r. mem_simpl.
    transitivity (bytes st2 x).
    { unfold st3. apply (removeNode_other st2 (nh :: l1) l2 h x Hd2).
      intros g [<-|Hg]; [unfold nh; lia|]. apply Hl. exact Hg. }
    transitivity (bytes st1 x).
    { apply addNode_other; [unfold nh; lia|].
      change (freeList st1) with (freeList st). right. rewrite Hhd.
      destruct l1 as [|f l1]; cbn [app hd] in *.
      - lia.
      - specialize (Hl f (or_introl eq_refl)). lia. }
    apply splitBlock_bytes; rewrite ?Hsp; lia.
  - pose proof (Heap_removeNode _ _ _ _ _ H) as H3. fold h in H3.
    destruct (removeNode_mem st h) as (Em & Es).
    pose proof (heap_dll _ _ _ H) as Hd.
    set (st3 := removeNode st h) in *.
    pose proof (node_space_block _ _ _ _ _ H3) as Hsp3. cbn [tag] in Hsp3.
    rewrite Em in Hsp3. fold h in Hsp3. rewrite Hsp3.
    st_goal. consts_goal. rewrite !Z.add_0_r. mem_simpl.
    unfold st3. apply (removeNode_other st l1 l2 h x Hd Hl).
Qed.

(** C10.  A successful [myalloc] writes only to the block it chose and to
    the link words it relinks (the back link of the list head, the forward
    link of the list predecessor of the block and the back link of its list
    successor).  Inside the block it writes only the header and the footer
    and, when it splits, the tags and the links of the suffix and the footer
    of the prefix, so the payload it hands out is as it was, but for the back
    link of a block that was the list head and is split.  The tags of every
    other block and the payload of every block in use are as before. *)
Theorem myalloc_frame (st : state) (bs : list block) (fl : list Z)
        (request : Z) (st' : state) (p : Z) :
  Inv st bs fl -> 0 < request < 2 ^ 31 ->
  myalloc st request = Some (st', p) -> p <> NULL ->
  exists pre sp post,
    bs = pre ++ Free sp :: post /\ p = mem st + total pre + 4 /\
    (forall x,
       x < mem st + total pre \/ mem st + total pre + sp + 8 <= x ->
       ~ relinked st (mem st + total pre) x ->
       bytes st' x = bytes st x) /\
    (forall y c, In (y, c) (layout (mem st) bs) -> y <> mem st + total pre ->
       load_int (bytes st') y = load_int (bytes st) y /\
       load_int (bytes st') (y + 4 + size c) = load_int (bytes st) (y + 4 + size c)) /\
    (forall y s, In (y, Used s) (layout (mem st) bs) ->
       forall x, y + 4 <= x < y + 4 + s -> bytes st' x = bytes st x) /\
    (forall x, mem st + total pre <= x < mem st + total pre + sp + 8 ->
       ~ taken_words st (mem st + total pre) sp (Z.max request 20) x ->
       bytes st' x = bytes st x).
Proof.
  intros I Hreq Ea Hp.
  destruct (myalloc_spec st bs fl request I ltac:(lia))
    as [[Ea' _]|(pre & sp & post & l1 & l2 & st2 & Ebs & Efl & Hle & Ea' & Em & Es &
                 Hframe & _)].
  - rewrite Ea' in Ea. inversion Ea; subst. congruence.
  - rewrite Ea' in Ea. inversion Ea; subst st2 p. clear Ea.
    pose proof (inv_heap _ _ _ I) as H.
    pose proof (heap_sizes _ _ _ H) as Hs.
    pose proof (myalloc_Some_take _ _ _ _ Ea' Hp) as Etake.
    replace (mem st + total pre + 4 - 4) with (mem st + total pre) in Etake by lia.
    assert (Hchosen : In (mem st + total pre, Free sp) (layout (mem st) bs)).
    { subst bs. rewrite layout_app. apply in_or_app. right. now left. }
    assert (Hfr : forall x,
       x < mem st + total pre \/ mem st + total pre + sp + 8 <= x ->
       (forall g, In g fl -> x < g + 8 \/ g + 24 <= x) ->
       bytes st' x = bytes st x).
    { intros x Hx Hg. apply Hframe; [exact Hx|].
      rewrite Efl in H, Hg.
      destruct (dll_links _ _ _ _ _ _ (heap_dll _ _ _ H)) as [Lp Ln].
      pose proof (Heap_freeList _ _ _ H) as Hhd.
      unfold relinked, node_prev, node_next. rewrite Lp, Ln, Hhd. unfold_consts.
      intros [C|[[Cn C]|[Cn C]]].
      - assert (Hin : In (hd 0 (l1 ++ mem st + total pre :: l2))
                         (l1 ++ mem st + total pre :: l2)).
        { destruct l1; cbn [app hd]; now left. }
        specialize (Hg _ Hin). lia.
      - destruct l1 as [|y l1]; [cbn [last] in Cn; congruence|].
        assert (Hin : In (last (y :: l1) 0) ((y :: l1) ++ mem st + total pre :: l2)).
        { apply in_mid_l. apply last_in. discriminate. }
        specialize (Hg _ Hin). lia.
      - destruct l2 as [|y l2]; [cbn [hd] in Cn; congruence|]. cbn [hd] in C.
        assert (Hin : In y (l1 ++ mem st + total pre :: y :: l2)).
        { apply in_mid_r. now left. }
        specialize (Hg _ Hin). lia. }
    assert (Hlinks : forall y c g x, In (y, c) (layout (mem st) bs) -> In g fl ->
       (y <= x < y + 4 \/ y + 4 + size c <= x < y + 8 + size c \/
        (is_free c = false /\ y + 4 <= x < y + 4 + size c)) ->
       x < g + 8 \/ g + 24 <= x).
    { intros y c g x Hy Hg Hx.
      pose proof (heap_incl _ _ _ H _ Hg) as Hgf. apply free_addrs_layout in Hgf.
      destruct Hgf as [sg Hgf].
      pose proof (layout_bounds _ _ _ _ Hs Hgf) as Bg.
      pose proof (layout_bounds _ _ _ _ Hs Hy) as By.
      pose proof (layout_sep _ _ _ _ _ _ Hs Hy Hgf) as Hsep.
      unfold_consts. cbn [size] in *.
      destruct Hsep as [[-> ->]|Hsep]; cbn [size is_free] in *; [|lia].
      destruct Hx as [Hx|[Hx|[C _]]]; [lia|lia|discriminate]. }
    exists pre, sp, post. split; [exact Ebs|]. split; [reflexivity|].
    split; [exact Hframe|]. split; [|split].
    + intros y c Hy Hne.
      pose proof (layout_bounds _ _ _ _ Hs Hy) as By.
      pose proof (layout_sep _ _ _ _ _ _ Hs Hy Hchosen) as Hsep.
      unfold_consts. cbn [size] in *.
      assert (Hd : y + (size c + 2 * 4) <= mem st + total pre \/
                   mem st + total pre + (sp + 2 * 4) <= y).
      { destruct Hsep as [[C _]|Hsep]; [contradiction|exact Hsep]. }
      split; apply load_int_ext; intros x Hx; apply Hfr; try lia;
        intros g Hg; apply (Hlinks y c g x Hy Hg); lia.
    + intros y s Hy x Hx.
      pose proof (layout_bounds _ _ _ _ Hs Hy) as By.
      pose proof (layout_sep _ _ _ _ _ _ Hs Hy Hchosen) as Hsep.
      unfold_consts. cbn [size] in *.
      assert (Hd : y + (s + 2 * 4) <= mem st + total pre \/
                   mem st + total pre + (sp + 2 * 4) <= y).
      { destruct Hsep as [[_ C]|Hsep]; [discriminate|exact Hsep]. }
      apply Hfr; [lia|].
      intros g Hg. apply (Hlinks y (Used s) g x Hy Hg). right; right.
      cbn [is_free size]. split; [reflexivity|lia].
    + intros x Hx Hnw. rewrite Etake. rewrite Ebs, Efl in H.
      apply (myalloc_take_block st pre post sp l1 l2 request x H); [lia|exact Hx|exact Hnw].
Qed.

Lemma Heap_node_space (st : state) (bs : list block) (fl : list Z) (g : Z) :
  Heap st bs fl -> In g fl -> 20 <= node_space st g.
Proof.
  intros H Hg. pose proof (heap_incl _ _ _ H _ Hg) as Hin.
  apply free_addrs_layout in Hin. destruct Hin as [s Hin].
  destruct (layout_split _ _ _ _ Hin) as (pre & post & -> & ->).
  rewrite (node_space_block _ _ _ _ _ H). cbn [tag].
  destruct (Heap_block _ _ _ _ _ H) as (_ & _ & Hb & _). exact Hb.
Qed.

(** C5, as amended.  A request that is not positive is turned down exactly
    when the free list is empty; with a block on the list [myalloc] never
    returns null for it, and [myalloc(0)] hands out a block. *)
Theorem myalloc_nonpositive (st : state) (bs : list block) (fl : list Z) (request : Z) :
  Inv st bs fl -> - 2 ^ 31 <= request <= 0 ->
  (freeList st = NULL -> myalloc st request = Some (st, NULL)) /\
  (freeList st <> NULL ->
   (forall st' p, myalloc st request = Some (st', p) -> p <> NULL) /\
   exists st' p, myalloc st 0 = Some (st', p) /\ p <> NULL).
Proof.
  intros I Hreq. pose proof (inv_heap _ _ _ I) as H.
  pose proof (findHead_scan st bs fl request H) as Hfind.
  pose proof (Heap_freeList _ _ _ H) as Hhd.
  pose proof (dll_nonnull _ _ _ _ (heap_dll _ _ _ H)) as Hnz.
  split.
  - intros E. rewrite E in Hhd.
    destruct fl as [|h t]; [|exfalso; apply (Hnz h); [now left|cbn in Hhd; congruence]].
    rewrite myalloc_unfold, Hfind. cbn [scan]. rewrite Z.eqb_refl. reflexivity.
  - intros E. destruct fl as [|h t]; [cbn in Hhd; congruence|].
    pose proof (Heap_node_space _ _ _ h H (or_introl eq_refl)) as Hh.
    split.
    + intros st' p Ea. rewrite myalloc_unfold, Hfind in Ea.
      destruct (scan_spec st request (h :: t) NULL 0 Hnz ltac:(congruence))
        as [[_ Hno]|(l1 & l2 & E' & _)].
      { destruct (Hno h (or_introl eq_refl) ltac:(lia)) as [C _]. congruence. }
      set (r := scan st request (h :: t) NULL 0) in *.
      assert (Hr : In r (h :: t)) by (rewrite E'; apply in_mid).
      pose proof (Heap_node_bounds _ _ _ r H Hr) as Br.
      pose proof (heap_base _ _ _ H) as Hb.
      destruct (Z.eqb_spec r NULL) as [C|_]; [exfalso; apply (Hnz r Hr C)|].
      destruct (assert_checkMem (myalloc_take st r request)); [|discriminate].
      inversion Ea; subst. unfold_consts. lia.
    + destruct (myalloc_spec st bs (h :: t) 0 I ltac:(lia))
        as [[_ Hno]|(pre & sp & post & l1 & l2 & st' & _ & _ & _ & Ea & _)].
      * specialize (Hno h (or_introl eq_refl)). lia.
      * exists st', (mem st + total pre + 4). split; [exact Ea|].
        pose proof (heap_base _ _ _ H) as Hb.
        assert (0 <= total pre).
        { destruct (myalloc_spec st bs (h :: t) 0 I ltac:(lia))
            as [[_ Hno]|(pre' & sp' & post' & _ & _ & st'' & Ebs & _ & _ & Ea' & _)].
          - specialize (Hno h (or_introl eq_refl)). lia.
          - rewrite Ea' in Ea. inversion Ea. subst bs.
            destruct (Heap_block _ _ _ _ _ H) as (_ & _ & _ & Hp & _).
            assert (total pre = total pre') by lia. lia. }
        unfold NULL. lia.
Qed.

(** C6, as amended.  When the block being released is not the first of the
    pool and the word before its header is positive, backward coalescing
    merges into the header at [payload_begin - prev_footer - 3T]: the two
    tags of the previous block and the released block's own header lie
    between the payloads. *)
Theorem myfree_backward_prev_header (st : state) (oldptr space : Z) :
  oldptr - sizeof_int <> mem st ->
  load_int (bytes st) (oldptr - sizeof_int - sizeof_int) > 0 ->
  prev_header_rule 3 st oldptr space.
Proof.
  intros Hne Hpos. unfold prev_header_rule, myfree_backward.
  destruct (Z.eqb_spec (oldptr - sizeof_int) (mem st)) as [C|_]; [contradiction|].
  cbn [negb].
  destruct (Z.gtb_spec (load_int (bytes st) (oldptr - sizeof_int - sizeof_int)) 0)
    as [_|C]; [|lia].
  replace (oldptr - sizeof_int -
           load_int (bytes st) (oldptr - sizeof_int - sizeof_int) - 2 * sizeof_int)
    with (oldptr - load_int (bytes st) (oldptr - sizeof_int - sizeof_int) -
          3 * sizeof_int) by (unfold sizeof_int; lia).
  reflexivity.
Qed.

(** C7, as amended.  For a pointer in the range [isValid] looks at whose
    header word is not negative, [isValid] returns 0 exactly when the header
    word is positive or the word at the pointer is not zero, and 1 exactly
    when both words are zero: a positive header is always turned down, a
    zero header only when the word at the pointer is not zero as well. *)
Theorem isValid_rejects_unallocated (st : state) (p : Z) :
  in_pool_range st p ->
  0 <= load_int (bytes st) (p - sizeof_int) ->
  (isValid st p = 0 <->
   0 < load_int (bytes st) (p - sizeof_int) \/ load_int (bytes st) p <> 0) /\
  (isValid st p = 1 <->
   load_int (bytes st) (p - sizeof_int) = 0 /\ load_int (bytes st) p = 0).
Proof.
  intros [R1 R2] Hge. unfold isValid.
  destruct (Z.gtb_spec (mem st + sizeof_int) p) as [C|_]; [lia|].
  destruct (Z.ltb_spec (mem st + MEMORY_SIZE st - sizeof_int) p) as [C|_]; [lia|].
  cbn [orb].
  destruct (Z.ltb_spec (- load_int (bytes st) (p - sizeof_int)) 0) as [L|L]; cbn [orb].
  - split.
    + split; [intros _; left; lia|intros _; reflexivity].
    + split; [discriminate|intros [E _]; lia].
  - assert (E : load_int (bytes st) (p - sizeof_int) = 0) by lia.
    rewrite E. cbn [Z.opp]. rewrite Z.add_0_r.
    destruct (Z.gtb_spec p (mem st + MEMORY_SIZE st - sizeof_int)) as [C|_]; [lia|].
    destruct (Z.eqb_spec (load_int (bytes st) p) 0) as [Z0|Z0]; cbn [negb].
    + split.
      * split; [discriminate|intros [C|C]; [lia|contradiction]].
      * split; [intros _; split; [reflexivity|exact Z0]|intros _; reflexivity].
    + split.
      * split; [intros _; now right|intros _; reflexivity].
      * split; [discriminate|intros [_ C]; contradiction].
Qed.

End Claims.

(* ------------------------------------------------------------------ *)
(** ** Witnesses and counterexamples *)

Section Examples.

Lemma Inv_pool100 : Inv pool100 [Free 92] [1000].
Proof. apply (Inv_init 100 1000 zeroes); lia. Qed.

Lemma Inv_pool200_four :
  Inv pool200_four [Free 20; Used 20; Used 20; Used 20; Free 80] [1000; 1112].
Proof.
  constructor; [constructor|..].
  - vm_compute. reflexivity.
  - vm_compute. reflexivity.
  - vm_compute. reflexivity.
  - vm_compute. reflexivity.
  - repeat constructor; vm_compute; discriminate.
  - unfold tags_ok. cbn [layout].
    repeat (apply Forall_cons; [split; vm_compute; reflexivity|]). apply Forall_nil.
  - cbn [dll]. split; [vm_compute; reflexivity|]. split; [discriminate|].
    split; [vm_compute; reflexivity|].
    split; [vm_compute; reflexivity|]. split; [discriminate|].
    split; [vm_compute; reflexivity|]. vm_compute. reflexivity.
  - constructor; [intros [C|[]]; discriminate C|]. constructor; [intros []|constructor].
  - intros g Hg. vm_compute in Hg |- *. exact Hg.
  - intros g Hg. vm_compute in Hg |- *. exact Hg.
  - vm_compute. repeat split.
Qed.

Lemma checkMem_after_every_operation_witness :
  exists st live,
    run (init_myalloc 40000 1000 zeroes) []
        [Alloc 100; Alloc 200; Alloc 300; Release 1112; Release 1004] = Done st live /\
    checkMem st = Some 40000 /\
    exists bs, tags_ok (bytes st) (mem st) bs /\ total bs = 40000.
Proof.
  apply (checkMem_after_every_operation 40000 1000 zeroes
           [Alloc 100; Alloc 200; Alloc 300; Release 1112; Release 1004]
           [Release 1320; Alloc 40000; Alloc 39992]); [lia|lia|lia|].
  vm_compute. discriminate.
Defined.


Lemma findHead_best_fit_witness :
  exists r, findHead pool200_four 50 = Some r /\
    ((r = NULL /\ forall g, In g [1000; 1112] -> node_space pool200_four g < 50) \/
     best_fit pool200_four 50 [1000; 1112] r).
Proof.
  apply (findHead_best_fit pool200_four 50 [1000; 1112]).
  - cbn [dll].
    split; [vm_compute; reflexivity|]. split; [discriminate|].
    split; [vm_compute; reflexivity|].
    split; [vm_compute; reflexivity|]. split; [discriminate|].
    split; [vm_compute; reflexivity|]. vm_compute. reflexivity.
  - vm_compute. lia.
Defined.

Lemma myalloc_split_rule_witness : split_rule (sizeof_node - sizeof_int) pool100 16.
Proof.
  apply (myalloc_split_rule pool100 [Free 92] [1000] 16); [exact Inv_pool100|lia].
Defined.

Lemma myalloc_frame_witness :
  exists pre sp post,
    [Free 20; Used 20; Used 20; Used 20; Free 80] = pre ++ Free sp :: post /\
    1116 = mem pool200_four + total pre + 4 /\
    (forall x,
       x < mem pool200_four + total pre \/ mem pool200_four + total pre + sp + 8 <= x ->
       ~ relinked pool200_four (mem pool200_four + total pre) x ->
       bytes pool200_five x = bytes pool200_four x) /\
    (forall y c,
       In (y, c) (layout (mem pool200_four) [Free 20; Used 20; Used 20; Used 20; Free 80]) ->
       y <> mem pool200_four + total pre ->
       load_int (bytes pool200_five) y = load_int (bytes pool200_four) y /\
       load_int (bytes pool200_five) (y + 4 + size c) =
       load_int (bytes pool200_four) (y + 4 + size c)) /\
    (forall y s,
       In (y, Used s) (layout (mem pool200_four) [Free 20; Used 20; Used 20; Used 20; Free 80]) ->
       forall x, y + 4 <= x < y + 4 + s -> bytes pool200_five x = bytes pool200_four x) /\
    (forall x,
       mem pool200_four + total pre <= x < mem pool200_four + total pre + sp + 8 ->
       ~ taken_words pool200_four (mem pool200_four + total pre) sp (Z.max 30 20) x ->
       bytes pool200_five x = bytes pool200_four x).
Proof.
  apply (myalloc_frame pool200_four [Free 20; Used 20; Used 20; Used 20; Free 80]
           [1000; 1112] 30 pool200_five 1116);
    [exact Inv_pool200_four|lia|vm_compute; reflexivity|discriminate].
Defined.

Lemma myalloc_nonpositive_witness :
  (freeList pool100 = NULL -> myalloc pool100 0 = Some (pool100, NULL)) /\
  (freeList pool100 <> NULL ->
   (forall st' p, myalloc pool100 0 = Some (st', p) -> p <> NULL) /\
   exists st' p, myalloc pool100 0 = Some (st', p) /\ p <> NULL).
Proof.
  apply (myalloc_nonpositive pool100 [Free 92] [1000] 0); [exact Inv_pool100|lia].
Defined.

Lemma myfree_backward_prev_header_witness : prev_header_rule 3 pool200_marked 1032 20.
Proof.
  apply (myfree_backward_prev_header pool200_marked 1032 20).
  - vm_compute. discriminate.
  - vm_compute. reflexivity.
Defined.

Lemma isValid_rejects_unallocated_witness :
  (isValid pool100 1004 = 0 <->
   0 < load_int (bytes pool100) (1004 - sizeof_int) \/ load_int (bytes pool100) 1004 <> 0) /\
  (isValid pool100 1004 = 1 <->
   load_int (bytes pool100) (1004 - sizeof_int) = 0 /\ load_int (bytes pool100) 1004 = 0).
Proof.
  apply (isValid_rejects_unallocated pool100 1004).
  - unfold in_pool_range. vm_compute. split; discriminate.
  - vm_compute. discriminate.
Defined.

(** C5, as stated, fails: on a fresh pool [myalloc(0)] returns a block. *)
Lemma myalloc_zero_not_rejected : ~ rejects_nonpositive pool100.
Proof.
  intros Hc. destruct (Hc 0 ltac:(lia)) as [st' E].
  apply (f_equal (fun o => match o with Some (_, p) => p | None => 0 end)) in E.
  vm_compute in E. discriminate E.
Qed.

(** C6, as stated, fails: with two tags between the payloads the header
    would be at 1004, and [myfree] merges into the block at 1000. *)
Lemma prev_header_not_two_tags :
  1032 - sizeof_int <> mem pool200_marked /\
  load_int (bytes pool200_marked) (1032 - sizeof_int - sizeof_int) > 0 /\
  ~ prev_header_rule 2 pool200_marked 1032 20.
Proof.
  split; [vm_compute; discriminate|]. split; [vm_compute; reflexivity|].
  intros Hc. unfold prev_header_rule in Hc.
  apply (f_equal (fun r => snd (fst r))) in Hc.
  vm_compute in Hc. discriminate Hc.
Qed.

(** C7, as stated, fails: a pointer into zeroed memory has a zero header word
    and a matching zero footer word, and [isValid] returns 1. *)
Lemma isValid_accepts_zero_header : ~ rejects_unallocated pool100 1040.
Proof.
  intros Hc. unfold rejects_unallocated in Hc.
  assert (E : isValid pool100 1040 = 0).
  { apply Hc.
    - unfold in_pool_range. vm_compute. split; discriminate.
    - vm_compute. discriminate. }
  vm_compute in E. discriminate E.
Qed.

(** C8, as stated, fails with [L = 2 * sizeof(pointer)]: a request of 16
    bytes gets a payload of 20. *)
Lemma split_rule_not_two_pointers : ~ split_rule (2 * sizeof_ptr) pool100 16.
Proof.
  intros Hc. specialize (Hc pool100_taken 1004).
  assert (Ea : myalloc pool100 16 = Some (pool100_taken, 1004)).
  { vm_compute. reflexivity. }
  assert (Hp : 1004 <> NULL) by discriminate.
  specialize (Hc Ea Hp). clear Ea Hp.
  vm_compute in Hc. destruct Hc as [Hc _]. discriminate Hc.
Qed.

(** C2.  [myrealloc] returns null but leaves another heap behind: the free
    neighbour after the block is put back at the head of the free list, which
    was the block at 1000 before the call. *)
Theorem myrealloc_null_reorders_free_list :
  match myrealloc pool200_four 1088 1000 with
  | Some (st', q) =>
    q = NULL /\ freeList pool200_four = 1000 /\ freeList st' = 1112 /\
    ~ same_heap pool200_four st'
  | None => False
  end.
Proof.
  destruct (myrealloc pool200_four 1088 1000) as [[st' q]|] eqn:E.
  - assert (Eq : q = NULL).
    { apply (f_equal (fun o => match o with Some (_, p) => p | None => 1 end)) in E.
      vm_compute in E. unfold NULL. congruence. }
    assert (Ef : freeList st' = 1112).
    { apply (f_equal (fun o => match o with Some (s, _) => freeList s | None => 0 end)) in E.
      rewrite <- E. vm_compute. reflexivity. }
    assert (E0 : freeList pool200_four = 1000) by (vm_compute; reflexivity).
    split; [exact Eq|]. split; [exact E0|]. split; [exact Ef|].
    intros [C _]. rewrite Ef, E0 in C. discriminate C.
  - apply (f_equal (fun o => match o with Some _ => true | None => false end)) in E.
    vm_compute in E. discriminate E.
Qed.

(** C4.  [myrealloc] returns a block whose byte 42 is not the byte 42 of the
    old payload: [myalloc] chose the block merged from A and B and wrote the
    tags of the split into the old payload before the copy. *)
Theorem myrealloc_loses_payload_bytes :
  match pool400_abc with
  | Some st =>
    node_space st 1108 = - 200 /\ load_byte (bytes st) (1112 + 42) = 66 /\
    match myrealloc st 1112 150 with
    | Some (st', q) => q = 1004 /\ load_byte (bytes st') (q + 42) = 106
    | None => False
    end
  | None => False
  end.
Proof.
  vm_compute. split; [reflexivity|]. split; [reflexivity|]. split; reflexivity.
Qed.

End Examples.

(* ------------------------------------------------------------------ *)
(** ** The rest of the allocator: bytes, blocks, frames and runs *)

Section ByteLemmas.

Lemma store_le_in (n : nat) : forall (m : memory) (a v x : Z),
  a <= x < a + Z.of_nat n ->
  store_le m a n v x = (v / 256 ^ (x - a)) mod 256.
Proof.
  induction n as [|k IH]; intros m a v x Hx; [lia|].
  change (store_le m a (S k) v) with (store_le (store_byte m a v) (a + 1) k (v / 256)).
  destruct (Z.eq_dec x a) as [->|Hne].
  - rewrite store_le_other by lia. rewrite store_byte_same.
    rewrite Z.sub_diag. change (256 ^ 0) with 1. now rewrite Z.div_1_r.
  - rewrite IH by lia. rewrite Z.div_div by lia.
    replace (256 * 256 ^ (x - (a + 1))) with (256 ^ (x - a)); [reflexivity|].
    replace (x - a) with (Z.succ (x - (a + 1))) by lia.
    rewrite Z.pow_succ_r by lia. reflexivity.
Qed.

Lemma load_le_byte (n : nat) : forall (m : memory) (a k : Z),
  0 <= k < Z.of_nat n ->
  (load_le m a n / 256 ^ k) mod 256 = load_byte m (a + k).
Proof.
  induction n as [|j IH]; intros m a k Hk; [lia|].
  change (load_le m a (S j)) with (load_byte m a + 256 * load_le m (a + 1) j).
  assert (Hb : 0 <= load_byte m a < 256).
  { unfold load_byte. apply Z.mod_pos_bound. lia. }
  destruct (Z.eq_dec k 0) as [->|Hne].
  - change (256 ^ 0) with 1. rewrite Z.div_1_r, Z.add_0_r.
    rewrite (Z.mul_comm 256), Z.mod_add by lia.
    apply Z.mod_small. exact Hb.
  - replace (256 ^ k) with (256 * 256 ^ (k - 1)).
    2:{ replace k with (Z.succ (k - 1)) at 2 by lia.
        rewrite Z.pow_succ_r by lia. reflexivity. }
    rewrite <- Z.div_div by lia.
    replace ((load_byte m a + 256 * load_le m (a + 1) j) / 256)
      with (load_le m (a + 1) j).
    2:{ rewrite (Z.mul_comm 256), Z.div_add by lia.
        rewrite (Z.div_small (load_byte m a)) by lia. lia. }
    rewrite IH by lia. f_equal. lia.
Qed.

(** Storing at [a] what was loaded at [b] copies the bytes. *)
Lemma store_le_load_le (n : nat) (m m' : memory) (a b x : Z) :
  a <= x < a + Z.of_nat n ->
  store_le m' a n (load_le m b n) x = load_byte m (b + (x - a)).
Proof.
  intros Hx. rewrite store_le_in by exact Hx.
  rewrite load_le_byte by lia. reflexivity.
Qed.

Lemma store_ptr_load_ptr (m m' : memory) (a b x : Z) :
  a <= x < a + 8 ->
  store_ptr m' a (load_ptr m b) x = load_byte m (b + (x - a)).
Proof. intros Hx. apply (store_le_load_le 8). lia. Qed.

(** The same for an [int], which is loaded with its sign. *)
Lemma store_int_load_int (m m' : memory) (a b x : Z) :
  a <= x < a + 4 ->
  store_int m' a (load_int m b) x = load_byte m (b + (x - a)).
Proof.
  intros Hx. unfold store_int, load_int. rewrite store_le_in by (cbn; lia).
  rewrite <- (load_le_byte 4 m b (x - a)) by (cbn; lia).
  pose proof (load_le_range 4 m b) as R. cbn in R.
  unfold signed32. destruct (Z.ltb_spec (load_le m b 4) (2 ^ 31)); [reflexivity|].
  set (u := load_le m b 4) in *. set (k := x - a) in *.
  assert (Hk : k = 0 \/ k = 1 \/ k = 2 \/ k = 3) by lia.
  assert (E : forall c d, 0 < c -> 2 ^ 32 = c * (256 * d) ->
            ((u - 2 ^ 32) / c) mod 256 = (u / c) mod 256).
  { intros c d Hc Ed. rewrite Ed.
    replace (u - c * (256 * d)) with (u + (- (256 * d)) * c) by lia.
    rewrite Z.div_add by lia.
    replace (u / c + - (256 * d)) with (u / c + (- d) * 256) by lia.
    apply Z.mod_add. lia. }
  destruct Hk as [Hk | [Hk | [Hk | Hk]]]; rewrite Hk.
  - apply (E _ (2 ^ 24)); [lia|reflexivity].
  - apply (E _ (2 ^ 16)); [lia|reflexivity].
  - apply (E _ (2 ^ 8)); [lia|reflexivity].
  - apply (E _ 1); [lia|reflexivity].
Qed.

Lemma store_le_zero (n : nat) (m : memory) (a x : Z) :
  a <= x < a + Z.of_nat n -> store_le m a n 0 x = 0.
Proof.
  intros Hx. rewrite store_le_in by exact Hx. rewrite Z.div_0_l; [reflexivity|].
  apply Z.pow_nonzero; lia.
Qed.

End ByteLemmas.

Section Initialisation.

(** X1.  [init_myalloc] makes a pool of [n] bytes (28 or more) one free block: the
    free list is that block alone, with both links null, its header and footer
    hold [n - 8], and no byte outside the pool is written. *)
Theorem init_myalloc_one_free_block (n base : Z) (m0 : memory) :
  28 <= n < 2 ^ 31 -> 0 < base -> base + n < 2 ^ 64 ->
  freeList (init_myalloc n base m0) = base /\
  node_space (init_myalloc n base m0) base = n - 8 /\
  load_int (bytes (init_myalloc n base m0)) (base + n - 4) = n - 8 /\
  node_next (init_myalloc n base m0) base = NULL /\
  node_prev (init_myalloc n base m0) base = NULL /\
  forall x, x < base \/ base + n <= x -> bytes (init_myalloc n base m0) x = m0 x.
Proof.
  intros Hn Hb Ht.
  pose proof (Inv_init n base m0 Hn Hb Ht) as HI. destruct HI as [H _ _].
  pose proof (Heap_freeList _ _ _ H) as Hf. cbn [hd] in Hf.
  assert (Em : mem (init_myalloc n base m0) = base) by reflexivity.
  destruct (Heap_block _ [] [] _ _ H) as (T1 & T2 & _).
  rewrite Em in T1, T2. cbn [total tag size] in T1, T2.
  pose proof (heap_dll _ _ _ H) as Hd. cbn [dll] in Hd.
  destruct Hd as (_ & _ & Hp & Hnx).
  split; [exact Hf|]. split.
  { unfold node_space. unfold_consts. rewrite <- T1. f_equal. }
  split.
  { rewrite <- T2. f_equal. lia. }
  split; [exact Hnx|]. split; [exact Hp|].
  intros x Hx. unfold init_myalloc, addNode. st_goal. consts_goal.
  rewrite (to_int_id (n - 2 * 4)) by lia. cbn [Z.eqb]. st_goal.
  rewrite !Z.add_0_r. mem_simpl. reflexivity.
Qed.

Lemma init_myalloc_one_free_block_witness :
  freeList (init_myalloc 100 1000 zeroes) = 1000 /\
  node_space (init_myalloc 100 1000 zeroes) 1000 = 100 - 8 /\
  load_int (bytes (init_myalloc 100 1000 zeroes)) (1000 + 100 - 4) = 100 - 8 /\
  node_next (init_myalloc 100 1000 zeroes) 1000 = NULL /\
  node_prev (init_myalloc 100 1000 zeroes) 1000 = NULL /\
  forall x, x < 1000 \/ 1000 + 100 <= x ->
    bytes (init_myalloc 100 1000 zeroes) x = zeroes x.
Proof. apply (init_myalloc_one_free_block 100 1000 zeroes); lia. Defined.

(** X2.  [init_myalloc] writes the first node without looking at [MEMORY_SIZE]:
    with a pool shorter than a node (24 bytes) the null back link of the node
    is stored past the end of the pool. *)
Theorem init_myalloc_small_pool (n base : Z) (m0 : memory) (x : Z) :
  0 <= n < 2 ^ 31 ->
  base + n <= x -> base + 16 <= x < base + 24 ->
  bytes (init_myalloc n base m0) x = 0.
Proof.
  intros Hn Hx Hr. unfold init_myalloc, addNode. st_goal. consts_goal.
  rewrite (to_int_id (n - 2 * 4)) by lia. cbn [Z.eqb]. st_goal.
  rewrite !Z.add_0_r. rewrite store_int_other by lia.
  unfold store_ptr. apply (store_le_zero 8). lia.
Qed.

Lemma init_myalloc_small_pool_witness :
  bytes (init_myalloc 16 1000 (fun _ => 7)) 1020 = 0.
Proof. apply (init_myalloc_small_pool 16 1000 (fun _ => 7) 1020); lia. Defined.

End Initialisation.

Section Blocks.

Lemma layout_mid (a : Z) (pre post : list block) (b : block) :
  In (a + total pre, b) (layout a (pre ++ b :: post)).
Proof. rewrite layout_app. apply in_or_app. right. now left. Qed.

Lemma layout_parts (a : Z) (pre mid post : list block) (yc : Z * block) :
  In yc (layout a (pre ++ mid ++ post)) <->
  In yc (layout a pre) \/ In yc (layout (a + total pre) mid) \/
  In yc (layout (a + total pre + total mid) post).
Proof. rewrite !layout_app, !in_app_iff. tauto. Qed.

Lemma node_space_layout (st : state) (bs : list block) (fl : list Z) (y : Z) (b : block) :
  Heap st bs fl -> In (y, b) (layout (mem st) bs) -> node_space st y = tag b.
Proof.
  intros H Hin. destruct (layout_split _ _ _ _ Hin) as (pre & post & -> & ->).
  eapply node_space_block. exact H.
Qed.

(** Where the blocks of [pre ++ b :: post] other than [b] lie. *)
Lemma layout_others (a : Z) (pre post : list block) (b : block) (y : Z) (c : block) :
  sizes_ok (pre ++ b :: post) ->
  In (y, c) (layout a (pre ++ b :: post)) ->
  (In (y, c) (layout a pre) /\ a <= y /\ y + extent c <= a + total pre) \/
  (y = a + total pre /\ c = b) \/
  (In (y, c) (layout (a + total pre + extent b) post) /\
   a + total pre + extent b <= y /\ y + extent c <= a + total pre + extent b + total post).
Proof.
  intros Hs Hin. apply sizes_ok_app in Hs. destruct Hs as [Hs1 Hs].
  apply sizes_ok_cons in Hs. destruct Hs as [_ Hs2].
  rewrite layout_app in Hin. cbn [layout] in Hin. apply in_app_iff in Hin.
  destruct Hin as [I|[I|I]].
  - left. split; [exact I|]. pose proof (layout_bounds _ _ _ _ Hs1 I). lia.
  - right; left. inversion I. split; reflexivity.
  - right; right. split; [exact I|].
    pose proof (layout_bounds _ _ _ _ Hs2 I). lia.
Qed.

End Blocks.

Section Validity.

(** X3.  In a well-formed heap [isValid] returns 1 for the payload pointer of
    every block in use. *)
Theorem isValid_accepts_block_in_use (st : state) (bs : list block) (fl : list Z) (p : Z) :
  Heap st bs fl -> In (p - 4) (used_addrs (mem st) bs) -> isValid st p = 1.
Proof.
  intros H Hin. destruct (Held_block st [] bs p Hin) as (pre & s & post & -> & ->).
  eapply isValid_used. exact H.
Qed.

(** X4.  In a well-formed heap [myfree] of the payload pointer of a free block
    stops at its assertion: [isValid] returns 0 for it. *)
Theorem myfree_aborts_on_free_block (st : state) (bs : list block) (fl : list Z) (p : Z) :
  Heap st bs fl -> In (p - 4) (free_addrs (mem st) bs) -> myfree st p = None.
Proof.
  intros H Hin. apply free_addrs_layout in Hin. destruct Hin as [s Hin].
  destruct (layout_split _ _ _ _ Hin) as (pre & post & -> & E).
  destruct (Heap_block _ _ _ _ _ H) as (T1 & _ & Hb & _). cbn [tag size] in *.
  rewrite <- E in T1.
  unfold myfree. replace (isValid st p) with 0; [reflexivity|].
  unfold isValid. unfold_consts. rewrite T1.
  destruct (_ || _); [reflexivity|].
  destruct (Z.ltb_spec (- s) 0); [reflexivity|lia].
Qed.

End Validity.

Section Allocation.

(** X5.  For a positive request [myalloc] returns, and it returns null exactly
    when no free block has a payload of at least the request; the heap is
    then as it was. *)
Theorem myalloc_null_iff_no_fit (st : state) (bs : list block) (fl : list Z)
        (request : Z) :
  Inv st bs fl -> 0 < request < 2 ^ 31 ->
  exists st' p, myalloc st request = Some (st', p) /\
    (p = NULL <-> forall y s, In (y, Free s) (layout (mem st) bs) -> s < request) /\
    (p = NULL -> st' = st).
Proof.
  intros HI Hr. pose proof (inv_heap _ _ _ HI) as H.
  destruct (myalloc_spec st bs fl request HI) as
    [[E Hall]|(pre & sp & post & l1 & l2 & st' & Ebs & Efl & Hle & E & _)]; [lia|..].
  - exists st, NULL. split; [exact E|]. split; [|reflexivity]. split; [|reflexivity].
    intros _ y s Hin.
    assert (Hy : In y fl).
    { apply (inv_all _ _ _ HI). apply free_addrs_layout. now exists s. }
    specialize (Hall y Hy). rewrite (node_space_layout _ _ _ _ _ H Hin) in Hall.
    exact Hall.
  - exists st', (mem st + total pre + 4). split; [exact E|].
    subst bs. destruct (Heap_block _ _ _ _ _ H) as (_ & _ & _ & Hp & _).
    pose proof (heap_base _ _ _ H) as Hb.
    split; [|intros C; unfold NULL in C; lia].
    split; [intros C; unfold NULL in C; lia|].
    intros Hall. specialize (Hall _ _ (layout_mid (mem st) pre post (Free sp))). lia.
Qed.

(** X6.  A block handed out by [myalloc] has a payload of at least the request and
    of at least 20 bytes, lies inside the pool and is made of bytes that were
    in a free block; every block that was in use is still in use with the
    size it had, and does not overlap the new one.  The heap invariant holds
    afterwards. *)
Theorem myalloc_returns_fresh_block (st : state) (bs : list block) (fl : list Z)
        (request : Z) (st' : state) (p : Z) :
  Inv st bs fl -> 0 < request < 2 ^ 31 ->
  myalloc st request = Some (st', p) -> p <> NULL ->
  exists bs' fl' k,
    Inv st' bs' fl' /\ mem st' = mem st /\ MEMORY_SIZE st' = MEMORY_SIZE st /\
    In (p - 4, Used k) (layout (mem st) bs') /\
    request <= k /\ 20 <= k /\
    mem st + 4 <= p /\ p + k + 4 <= mem st + MEMORY_SIZE st /\
    (forall x, p - 4 <= x < p + k + 4 -> in_free_block (mem st) bs x) /\
    (forall y s, In (y, Used s) (layout (mem st) bs) ->
       In (y, Used s) (layout (mem st) bs') /\
       (y + s + 8 <= p - 4 \/ p + k + 4 <= y)).
Proof.
  intros HI Hr Ea Hp. pose proof (inv_heap _ _ _ HI) as H.
  destruct (myalloc_spec st bs fl request HI) as
    [[E Hall]|(pre & sp & post & l1 & l2 & st'' & Ebs & Efl & Hle & E & Em & Es & _ & Hc)];
    [lia|rewrite E in Ea; inversion Ea; subst; contradiction|].
  rewrite E in Ea. inversion Ea. subst st'' p. clear Ea.
  subst bs. destruct (Heap_block _ _ _ _ _ H) as (_ & _ & Hsp & Hpre & Hpost & Htot).
  cbn [size] in Hsp, Htot.
  pose proof (heap_sizes _ _ _ H) as Hs.
  replace (mem st + total pre + 4 - 4) with (mem st + total pre) by lia.
  assert (Hfree : forall k x, k <= sp ->
            mem st + total pre <= x < mem st + total pre + 4 + k + 4 ->
            in_free_block (mem st) (pre ++ Free sp :: post) x).
  { intros k x Hk Hx. exists (mem st + total pre), sp. split; [apply layout_mid|lia]. }
  destruct Hc as [[Hbig HI']|[Hsmall HI']].
  - exists (pre ++ Used (Z.max request 20) :: Free (sp - Z.max request 20 - 8) :: post),
           ((mem st + total pre + Z.max request 20 + 8) :: l1 ++ l2), (Z.max request 20).
    split; [exact HI'|]. split; [exact Em|]. split; [exact Es|].
    split; [apply layout_mid|]. split; [lia|]. split; [lia|]. split; [lia|].
    split; [lia|]. split; [intros x Hx; apply (Hfree (Z.max request 20)); lia|].
    intros y s Hin.
    destruct (layout_others _ _ _ _ _ _ Hs Hin) as [(I & B1 & B2)|[(_ & C)|(I & B1 & B2)]];
      [|discriminate C|]; unfold_consts; cbn [size] in *.
    + split; [|lia]. rewrite layout_app. apply in_or_app. now left.
    + split; [|lia]. rewrite layout_app. apply in_or_app. right.
      cbn [layout]. right. right. unfold_consts. cbn [size].
      replace (mem st + total pre + (Z.max request 20 + 2 * 4) +
               (sp - Z.max request 20 - 8 + 2 * 4))
        with (mem st + total pre + (sp + 2 * 4)) by lia.
      exact I.
  - exists (pre ++ Used sp :: post), (l1 ++ l2), sp.
    split; [exact HI'|]. split; [exact Em|]. split; [exact Es|].
    split; [apply layout_mid|]. split; [lia|]. split; [lia|]. split; [lia|].
    split; [lia|]. split; [intros x Hx; apply (Hfree sp); lia|].
    intros y s Hin.
    destruct (layout_others _ _ _ _ _ _ Hs Hin) as [(I & B1 & B2)|[(_ & C)|(I & B1 & B2)]];
      [|discriminate C|]; unfold_consts; cbn [size] in *.
    + split; [|lia]. rewrite layout_app. apply in_or_app. now left.
    + split; [|lia]. rewrite layout_app. apply in_or_app. right.
      cbn [layout]. right. unfold_consts. cbn [size]. exact I.
Qed.

(** X7.  [myalloc] serves a request from a free block whose payload is the least
    among the free blocks that fit it (best fit). *)
Theorem myalloc_takes_smallest_fit (st : state) (bs : list block) (fl : list Z)
        (request : Z) (st' : state) (p : Z) :
  Inv st bs fl -> 0 < request < 2 ^ 31 ->
  myalloc st request = Some (st', p) -> p <> NULL ->
  exists sp, In (p - 4, Free sp) (layout (mem st) bs) /\ request <= sp /\
    forall y s, In (y, Free s) (layout (mem st) bs) -> request <= s -> sp <= s.
Proof.
  intros HI Hr Ea Hp. pose proof (inv_heap _ _ _ HI) as H.
  rewrite myalloc_unfold, (findHead_scan _ _ _ _ H) in Ea.
  set (h := scan st request fl NULL 0) in *.
  destruct (Z.eqb_spec h NULL) as [E0|Hne].
  { inversion Ea. subst. contradiction. }
  destruct (assert_checkMem _); [|discriminate Ea].
  inversion Ea as [[Est Ep]]. clear Ea. unfold sizeof_int.
  replace (h + 4 - 4) with h by lia.
  destruct (scan_spec st request fl NULL 0) as
    [[E0 _]|(l1 & l2 & Efl & Hfit & _ & Hl1 & Hl2)].
  { apply (dll_nonnull _ _ _ _ (heap_dll _ _ _ H)). }
  { intros C. contradiction. }
  { fold h in E0. contradiction. }
  fold h in Efl, Hfit, Hl1, Hl2.
  assert (Hh : In h (free_addrs (mem st) bs)).
  { apply (heap_incl _ _ _ H). rewrite Efl. apply in_mid. }
  apply free_addrs_layout in Hh. destruct Hh as [sp Hh].
  pose proof (node_space_layout _ _ _ _ _ H Hh) as Esp. cbn [tag] in Esp.
  exists sp. split; [exact Hh|]. split; [lia|].
  intros y s Hin Hs.
  pose proof (node_space_layout _ _ _ _ _ H Hin) as Es. cbn [tag] in Es.
  assert (Hy : In y fl).
  { apply (inv_all _ _ _ HI). apply free_addrs_layout. now exists s. }
  rewrite Efl in Hy. apply in_app_iff in Hy. destruct Hy as [I|[I|I]].
  - specialize (Hl1 y I). lia.
  - subst y. lia.
  - specialize (Hl2 y I). lia.
Qed.

End Allocation.

Section ListOperations.

Lemma split_not_node (st : state) (pre post : list block) (sp sz : Z) (fl : list Z) :
  Heap st (pre ++ Free sp :: post) fl ->
  20 <= sz -> 20 <= sp - sz - 8 ->
  ~ In (mem st + total pre + sz + 8) fl.
Proof.
  intros H Hsz Hrest Hin.
  pose proof (Heap_node_cases _ _ _ _ _ _ H Hin) as C. cbn [size] in C. lia.
Qed.

(** X8.  [addNode] puts a free block that is not on the free list at its head,
    and [removeNode] of that block gives back the list, and its head, as they
    were. *)
Theorem addNode_then_removeNode (st : state) (bs : list block) (fl : list Z) (n : Z) :
  Heap st bs fl -> In n (free_addrs (mem st) bs) -> ~ In n fl ->
  Heap (addNode st n) bs (n :: fl) /\
  Heap (removeNode (addNode st n) n) bs fl /\
  freeList (removeNode (addNode st n) n) = freeList st.
Proof.
  intros H Hn Hnot.
  pose proof (Heap_addNode _ _ _ _ H Hn Hnot) as H1.
  pose proof (Heap_removeNode _ _ [] fl n H1) as H2. cbn [app] in H2.
  split; [exact H1|]. split; [exact H2|].
  rewrite (Heap_freeList _ _ _ H2), (Heap_freeList _ _ _ H). reflexivity.
Qed.

(** X9.  [removeNode] takes a node out of the free list wherever it stands: the
    other nodes stay linked in the order they had, and in memory only link
    fields of nodes that stay on the list are written. *)
Theorem removeNode_unlinks (st : state) (bs : list block) (l1 l2 : list Z) (h : Z) :
  Heap st bs (l1 ++ h :: l2) ->
  Heap (removeNode st h) bs (l1 ++ l2) /\
  forall x, (forall g, In g (l1 ++ l2) -> x < g + 8 \/ g + 24 <= x) ->
    bytes (removeNode st h) x = bytes st x.
Proof.
  intros H. split; [apply Heap_removeNode; exact H|].
  intros x Hx. eapply removeNode_other; [apply (heap_dll _ _ _ H)|exact Hx].
Qed.

(** X10.  Splitting a free block with [splitBlock], putting the second part on the
    free list with [addNode] and merging the two parts with [coalesce] gives
    back the blocks and the free list as they were. *)
Theorem splitBlock_then_coalesce (st : state) (pre post : list block) (sp sz : Z)
        (fl : list Z) :
  Heap st (pre ++ Free sp :: post) fl ->
  20 <= sz -> 20 <= sp - sz - 8 ->
  Heap (coalesce (addNode (fst (splitBlock st (mem st + total pre) sz))
                          (snd (splitBlock st (mem st + total pre) sz)))
                 (mem st + total pre) (snd (splitBlock st (mem st + total pre) sz)))
       (pre ++ Free sp :: post) fl.
Proof.
  intros H Hsz Hrest.
  destruct (Heap_splitBlock _ _ _ _ _ _ H Hsz Hrest) as [H1 E].
  rewrite E. set (st1 := fst (splitBlock st (mem st + total pre) sz)) in *.
  assert (Em : mem st1 = mem st) by reflexivity.
  assert (H2 : Heap (addNode st1 (mem st + total pre + sz + 8))
                 (pre ++ Free sz :: Free (sp - sz - 8) :: post)
                 ((mem st + total pre + sz + 8) :: fl)).
  { apply Heap_addNode; [exact H1| |eapply split_not_node; eassumption].
    rewrite Em.
    replace (pre ++ Free sz :: Free (sp - sz - 8) :: post)
      with ((pre ++ [Free sz]) ++ Free (sp - sz - 8) :: post)
      by (rewrite <- app_assoc; reflexivity).
    replace (mem st + total pre + sz + 8) with (mem st + total (pre ++ [Free sz])).
    - apply free_addrs_mid.
    - rewrite total_app. cbn [total]. unfold_consts. cbn [size]. lia. }
  destruct (addNode_mem st1 (mem st + total pre + sz + 8)) as (Em2 & _).
  pose proof (Heap_coalesce (addNode st1 (mem st + total pre + sz + 8))
                pre post sz (sp - sz - 8) [] fl) as Hc.
  rewrite Em2, Em in Hc. cbn [app] in Hc. specialize (Hc H2).
  replace (sz + (sp - sz - 8) + 8) with sp in Hc by lia. exact Hc.
Qed.

(** X11.  [splitBlock] on a free block of payload [sp] with room for two blocks
    leaves two free blocks of payloads [sz] and [sp - sz - 8], returns the
    header of the second, and writes only the four tag words: the header, the
    two tags at the cut and the footer. *)
Theorem splitBlock_splits (st : state) (pre post : list block) (sp sz : Z) (fl : list Z) :
  Heap st (pre ++ Free sp :: post) fl ->
  20 <= sz -> 20 <= sp - sz - 8 ->
  Heap (fst (splitBlock st (mem st + total pre) sz))
       (pre ++ Free sz :: Free (sp - sz - 8) :: post) fl /\
  snd (splitBlock st (mem st + total pre) sz) = mem st + total pre + sz + 8 /\
  forall x,
    x < mem st + total pre \/ mem st + total pre + 4 <= x ->
    x < mem st + total pre + 4 + sz \/ mem st + total pre + 12 + sz <= x ->
    x < mem st + total pre + 4 + sp \/ mem st + total pre + 8 + sp <= x ->
    bytes (fst (splitBlock st (mem st + total pre) sz)) x = bytes st x.
Proof.
  intros H Hsz Hrest.
  destruct (Heap_splitBlock _ _ _ _ _ _ H Hsz Hrest) as [H1 E].
  split; [exact H1|]. split; [exact E|].
  intros x X1 X2 X3. unfold splitBlock. cbn [fst].
  rewrite (node_space_block _ _ _ _ _ H). cbn [tag]. st_goal. consts_goal.
  rewrite !Z.add_0_r. mem_simpl. reflexivity.
Qed.

End ListOperations.

Section RoundTrips.

Lemma nodup_head_split (x : Z) (l f1 f2 : list Z) :
  NoDup (x :: l) -> f1 ++ x :: f2 = x :: l -> f1 = [] /\ f2 = l.
Proof.
  intros Hnd E. destruct f1 as [|y f1].
  - cbn in E. inversion E. split; reflexivity.
  - cbn in E. inversion E. subst y l. exfalso.
    apply NoDup_cons_iff in Hnd. destruct Hnd as [Hx _]. apply Hx. apply in_mid.
Qed.

(** X12.  Releasing a block right after [myalloc] handed it out gives back the
    blocks as they were before the allocation; the free list has the nodes it
    had, with the block that served the request moved to its head. *)
Theorem myalloc_then_myfree (st : state) (bs : list block) (fl : list Z)
        (request : Z) (st1 : state) (p : Z) :
  Inv st bs fl -> 0 < request < 2 ^ 31 ->
  myalloc st request = Some (st1, p) -> p <> NULL ->
  exists st2 l1 l2,
    myfree st1 p = Some st2 /\
    fl = l1 ++ (p - 4) :: l2 /\
    Inv st2 bs ((p - 4) :: l1 ++ l2).
Proof.
  intros HI Hr Ea Hp. pose proof (inv_heap _ _ _ HI) as H.
  destruct (myalloc_spec st bs fl request HI) as
    [[E Hall]|(pre & sp & post & l1 & l2 & st'' & Ebs & Efl & Hle & E & Em & Es & _ & Hc)];
    [lia|rewrite E in Ea; inversion Ea; subst; contradiction|].
  rewrite E in Ea. inversion Ea. subst st'' p. clear Ea.
  replace (mem st + total pre + 4 - 4) with (mem st + total pre) by lia.
  pose proof (inv_adj _ _ _ HI) as Hadj. rewrite Ebs in Hadj.
  apply naf_mid in Hadj. destruct Hadj as (_ & _ & Hlf & Hhf).
  cbn [is_free] in Hlf, Hhf. rewrite andb_true_r in Hlf. cbn [andb] in Hhf.
  destruct Hc as [[Hbig HI']|[Hsmall HI']].
  - destruct (myfree_spec st1 pre (Free (sp - Z.max request 20 - 8) :: post)
                (Z.max request 20) _ HI')
      as (st2 & bs' & fl' & Ef & HI2 & Em2 & Es2 & _ & Hshape).
    rewrite Em in Ef, Hshape.
    exists st2, l1, l2. split; [exact Ef|]. split; [exact Efl|].
    destruct Hshape as [(_ & C & _)|[(C & _)|[(_ & sd & post' & f1 & f2 & Ep & Ef1 & Eb & Efl')
                                             |(pre' & sc & _ & _ & _ & _ & C & _)]]].
    + cbn in C. discriminate C.
    + cbn in C. discriminate C.
    + inversion Ep. subst sd post'. clear Ep.
      replace (Z.max request 20 + (sp - Z.max request 20 - 8) + 8) with sp in Eb by lia.
      symmetry in Ef1.
      destruct (nodup_head_split _ _ _ _ (heap_nodup _ _ _ (inv_heap _ _ _ HI')) Ef1)
        as [-> ->].
      cbn [app] in Efl'. subst bs' fl' bs. exact HI2.
    + subst pre. rewrite last_free_snoc in Hlf. cbn in Hlf. discriminate Hlf.
  - destruct (myfree_spec st1 pre post sp _ HI')
      as (st2 & bs' & fl' & Ef & HI2 & Em2 & Es2 & _ & Hshape).
    rewrite Em in Ef, Hshape.
    exists st2, l1, l2. split; [exact Ef|]. split; [exact Efl|].
    destruct Hshape as [(_ & _ & Eb & Efl')|[(_ & pre' & sc & C & _)|[(_ & sd & post' & f1 & f2 & C & _)
                                             |(pre' & sc & _ & _ & _ & _ & C & _)]]].
    + subst bs' fl' bs. exact HI2.
    + subst pre. rewrite last_free_snoc in Hlf. cbn in Hlf. discriminate Hlf.
    + subst post. cbn in Hhf. discriminate Hhf.
    + subst pre. rewrite last_free_snoc in Hlf. cbn in Hlf. discriminate Hlf.
Qed.

(** X13.  When neither neighbour of a block in use is free, releasing the block
    and then asking for its payload size returns the same pointer, and the
    blocks and the free list are as before the release. *)
Theorem myfree_then_myalloc_same_size (st : state) (pre post : list block) (s : Z)
        (fl : list Z) :
  Inv st (pre ++ Used s :: post) fl ->
  last_free pre = false -> hd_free post = false ->
  exists st1 st2,
    myfree st (mem st + total pre + 4) = Some st1 /\
    myalloc st1 s = Some (st2, mem st + total pre + 4) /\
    Inv st2 (pre ++ Used s :: post) fl.
Proof.
  intros HI Hlf Hhf. pose proof (inv_heap _ _ _ HI) as H.
  destruct (Heap_block _ _ _ _ _ H) as (_ & _ & Hs & _). cbn [size] in Hs.
  pose proof (heap_int _ _ _ H) as Hint.
  destruct (Heap_block _ _ _ _ _ H) as (_ & _ & _ & Hp0 & Hq0 & Htot). cbn [size] in Htot.
  destruct (myfree_spec st pre post s fl HI)
    as (st1 & bs' & fl' & Ef & HI1 & Em1 & Es1 & _ & Hshape).
  exists st1.
  destruct Hshape as [(_ & _ & Eb & Efl')|[(_ & pre' & sc & C & _)|[(_ & sd & post' & f1 & f2 & C & _)
                                           |(pre' & sc & _ & _ & _ & _ & C & _)]]].
  2:{ subst pre. rewrite last_free_snoc in Hlf. cbn in Hlf. discriminate Hlf. }
  2:{ subst post. cbn in Hhf. discriminate Hhf. }
  2:{ subst pre. rewrite last_free_snoc in Hlf. cbn in Hlf. discriminate Hlf. }
  subst bs' fl'. pose proof (inv_heap _ _ _ HI1) as H1.
  set (h := mem st + total pre) in *.
  assert (Esp : node_space st1 h = s).
  { unfold h. rewrite <- Em1. apply (node_space_block _ _ _ _ _ H1). }
  assert (Efh : findHead st1 s = Some h).
  { rewrite (findHead_scan _ _ _ _ H1). cbn [scan]. rewrite Esp, Z.eqb_refl. reflexivity. }
  pose proof (myalloc_take_Heap st1 pre post s [] fl s) as Ht.
  rewrite Em1 in Ht. fold h in Ht. cbn [app] in Ht.
  destruct (Ht H1 ltac:(lia)) as (Em2 & Es2 & _ & [[C _]|[_ H2]]); [lia|].
  exists (myalloc_take st1 h s). split; [exact Ef|]. split.
  - rewrite myalloc_unfold, Efh.
    destruct (Z.eqb_spec h NULL) as [C|_].
    { pose proof (heap_base _ _ _ H). unfold h, NULL in C. lia. }
    rewrite (assert_checkMem_Heap _ _ _ H2). reflexivity.
  - constructor; [exact H2| |apply (inv_adj _ _ _ HI)].
    rewrite Em2. apply (inv_all _ _ _ HI).
Qed.

End RoundTrips.

Section RunInvariants.


(** X15.  After a well-formed sequence every pointer held points to a block of at
    least 20 bytes that lies inside the pool, and the blocks of two different
    pointers held, tags included, do not overlap. *)
Theorem live_blocks_disjoint (n base : Z) (m0 : memory) (ops : list op)
        (st : state) (live : list Z) :
  28 <= n < 2 ^ 31 -> 0 < base -> base + n < 2 ^ 64 ->
  run (init_myalloc n base m0) [] ops = Done st live ->
  (forall p, In p live ->
     20 <= - node_space st (p - 4) /\
     base + 4 <= p /\ p + - node_space st (p - 4) + 4 <= base + n) /\
  (forall p q, In p live -> In q live -> p <> q ->
     p + - node_space st (p - 4) + 8 <= q \/ q + - node_space st (q - 4) + 8 <= p).
Proof.
  intros Hn Hb Ht E.
  assert (H0 : Held (init_myalloc n base m0) []).
  { exists [Free (n - 8)], [base]. split; [now apply Inv_init|]. intros p []. }
  pose proof (run_Held ops _ _ H0) as HR. rewrite E in HR.
  destruct HR as ((bs & fl & HI & Hl) & Em & Es).
  change (mem (init_myalloc n base m0)) with base in Em.
  change (MEMORY_SIZE (init_myalloc n base m0)) with n in Es.
  pose proof (inv_heap _ _ _ HI) as H. pose proof (heap_sizes _ _ _ H) as Hs.
  pose proof (heap_total _ _ _ H) as Htot.
  assert (Hblk : forall p, In p live ->
            exists s, In (p - 4, Used s) (layout (mem st) bs) /\
                      node_space st (p - 4) = - s).
  { intros p Hp. specialize (Hl p Hp). apply used_addrs_layout in Hl.
    destruct Hl as [s Hin]. exists s. split; [exact Hin|].
    apply (node_space_layout _ _ _ _ _ H Hin). }
  split.
  - intros p Hp. destruct (Hblk p Hp) as (s & Hin & ->).
    pose proof (layout_bounds _ _ _ _ Hs Hin) as B. unfold_consts. cbn [size] in B.
    lia.
  - intros p q Hp Hq Hne.
    destruct (Hblk p Hp) as (s & Hin & ->). destruct (Hblk q Hq) as (t & Hin' & ->).
    destruct (layout_sep _ _ _ _ _ _ Hs Hin Hin') as [[C _]|C]; unfold_consts;
      cbn [size] in C; lia.
Qed.

End RunInvariants.

Section Filling.

Lemma fill_loop_other (block fill : Z) (n : nat) : forall (m : memory) (i x : Z),
  x < block + i \/ block + i + Z.of_nat n <= x ->
  fill_loop n m block i fill x = m x.
Proof.
  induction n as [|k IH]; intros m i x Hx; [reflexivity|].
  cbn [fill_loop]. rewrite IH by lia. apply store_byte_other. lia.
Qed.

Lemma fill_loop_in (block fill : Z) (n : nat) : forall (m : memory) (i x : Z),
  block + i <= x < block + i + Z.of_nat n ->
  fill_loop n m block i fill x = fill mod 256.
Proof.
  induction n as [|k IH]; intros m i x Hx; [lia|].
  cbn [fill_loop]. destruct (Z.eq_dec x (block + i)) as [->|Hne].
  - rewrite fill_loop_other by lia. apply store_byte_same.
  - apply IH. lia.
Qed.

(** X16.  [allocate] of simpletest.c returns what [myalloc] returns.  A block it
    obtains has its first [sz] bytes set to the fill character, no other byte
    is changed after the allocation, and the heap invariant holds with the
    block in use; when [myalloc] returns null the heap is untouched. *)
Theorem allocate_fills_block (st : state) (bs : list block) (fl : list Z)
        (sz fill : Z) :
  Inv st bs fl -> 0 < sz < 2 ^ 31 ->
  exists st1 st' p,
    myalloc st sz = Some (st1, p) /\ allocate st sz fill = Some (st', p) /\
    (p = NULL -> st' = st) /\
    (p <> NULL ->
     (forall i, 0 <= i < sz -> bytes st' (p + i) = fill mod 256) /\
     (forall x, x < p \/ p + sz <= x -> bytes st' x = bytes st1 x) /\
     exists bs' fl', Inv st' bs' fl' /\ In (p - 4) (used_addrs (mem st') bs')).
Proof.
  intros HI Hr. pose proof (inv_heap _ _ _ HI) as H.
  destruct (myalloc_spec st bs fl sz HI) as
    [[E Hall]|(pre & sp & post & l1 & l2 & st1 & Ebs & Efl & Hle & E & Em & Es & _ & Hc)];
    [lia|..].
  - exists st, st, NULL. split; [exact E|]. unfold allocate. rewrite E, Z.eqb_refl.
    split; [reflexivity|]. split; [reflexivity|]. intros C. contradiction.
  - set (p := mem st + total pre + 4) in *.
    set (st' := set_bytes st1 (fill_loop (Z.to_nat sz) (bytes st1) p 0 fill)).
    assert (Hp : p <> NULL).
    { subst bs. destruct (Heap_block _ _ _ _ _ H) as (_ & _ & _ & Hp & _).
      pose proof (heap_base _ _ _ H). unfold p, NULL. lia. }
    exists st1, st', p. split; [exact E|]. split.
    { unfold allocate. rewrite E. destruct (Z.eqb_spec p NULL); [contradiction|].
      reflexivity. }
    split; [intros C; contradiction|]. intros _.
    assert (Hout : forall x, x < p \/ p + sz <= x -> bytes st' x = bytes st1 x).
    { intros x Hx. unfold st'. st_goal. apply fill_loop_other. lia. }
    split.
    { intros i Hi. unfold st'. st_goal. apply fill_loop_in. lia. }
    split; [exact Hout|].
    assert (Hk : forall k post' fl1, sz <= k -> Inv st1 (pre ++ Used k :: post') fl1 ->
              Inv st' (pre ++ Used k :: post') fl1 /\
              In (p - 4) (used_addrs (mem st') (pre ++ Used k :: post'))).
    { intros k post' fl1 Hle' HI1. split.
      - apply (Inv_relist st1 _ _ fl1 fl1 HI1); [|reflexivity|apply incl_refl].
        apply (Heap_payload st1 _ pre post' k fl1 (inv_heap _ _ _ HI1)); try reflexivity.
        intros x Hx. apply Hout. rewrite Em in Hx. unfold p. lia.
      - change (mem st') with (mem st1). rewrite Em.
        replace (p - 4) with (mem st + total pre) by (unfold p; lia).
        rewrite used_addrs_app. apply in_or_app. right. now left. }
    destruct Hc as [[Hbig HI1]|[Hsmall HI1]].
    + destruct (Hk (Z.max sz 20) _ _ ltac:(lia) HI1) as [A B].
      eexists _, _. split; [exact A|exact B].
    + destruct (Hk sp _ _ Hle HI1) as [A B].
      eexists _, _. split; [exact A|exact B].
Qed.

End Filling.

Section Copying.

Lemma copy_loop_byte (newptr oldptr : Z) (n : nat) : forall (m : memory) (i j : Z),
  i <= j < i + Z.of_nat n ->
  newptr <= oldptr \/ oldptr + j < newptr + i ->
  load_byte (copy_loop n m newptr oldptr i) (newptr + j) = load_byte m (oldptr + j).
Proof.
  induction n as [|k IH]; intros m i j Hj Hd; [lia|].
  cbn [copy_loop]. destruct (Z.eq_dec j i) as [->|Hne].
  - unfold load_byte at 1. rewrite copy_loop_other by lia.
    rewrite store_byte_same. unfold load_byte. rewrite !Z.mod_mod by lia. reflexivity.
  - rewrite IH by lia. unfold load_byte at 1 3.
    rewrite store_byte_other by lia. reflexivity.
Qed.

(** X17.  The byte loop that ends [myrealloc] copies every byte of its range from
    the old place to the new one when the new place is not after the old one,
    or when the two ranges are apart. *)
Theorem copy_loop_copies (newptr oldptr : Z) (n : nat) (m : memory) (i : Z) :
  newptr <= oldptr \/ oldptr + i + Z.of_nat n <= newptr + i ->
  forall j, i <= j < i + Z.of_nat n ->
    load_byte (copy_loop n m newptr oldptr i) (newptr + j) = load_byte m (oldptr + j).
Proof.
  intros Hd j Hj. apply copy_loop_byte; [exact Hj|lia].
Qed.

End Copying.

Section Frames.

Lemma not_free_block (a : Z) (bs : list block) (x y c : Z) :
  ~ in_free_block a bs x -> In (y, Free c) (layout a bs) -> x < y \/ y + c + 8 <= x.
Proof.
  intros Hnf Hin. destruct (Z_lt_dec x y) as [|Hge]; [now left|].
  destruct (Z_le_dec (y + c + 8) x) as [|Hlt]; [now right|].
  exfalso. apply Hnf. exists y, c. split; [exact Hin|lia].
Qed.

Lemma not_free_mid (a : Z) (pre post : list block) (c x : Z) :
  ~ in_free_block a (pre ++ Free c :: post) x ->
  x < a + total pre \/ a + total pre + c + 8 <= x.
Proof. intros Hnf. apply (not_free_block _ _ _ _ _ Hnf). apply layout_mid. Qed.

Lemma not_free_node (st : state) (bs : list block) (fl : list Z) (x g : Z) :
  Heap st bs fl -> ~ in_free_block (mem st) bs x -> In g fl -> x < g \/ g + 28 <= x.
Proof.
  intros H Hnf Hg. pose proof (heap_incl _ _ _ H _ Hg) as Hin.
  apply free_addrs_layout in Hin. destruct Hin as [c Hin].
  pose proof (not_free_block _ _ _ _ _ Hnf Hin).
  pose proof (layout_bounds _ _ _ _ (heap_sizes _ _ _ H) Hin) as (_ & _ & B).
  unfold_consts. cbn [size] in B. lia.
Qed.

Lemma used_not_free (a : Z) (bs : list block) (y t x : Z) :
  sizes_ok bs -> In (y, Used t) (layout a bs) -> y <= x < y + t + 8 ->
  ~ in_free_block a bs x.
Proof.
  intros Hs Hin Hx (y' & c & Hin' & Hx').
  destruct (layout_sep _ _ _ _ _ _ Hs Hin Hin') as [[_ C]|C]; [discriminate C|].
  unfold_consts. cbn [size] in C. lia.
Qed.

Lemma outside_not_free (a : Z) (bs : list block) (x : Z) :
  sizes_ok bs -> x < a \/ a + total bs <= x -> ~ in_free_block a bs x.
Proof.
  intros Hs Hx (y & c & Hin & Hx').
  pose proof (layout_bounds _ _ _ _ Hs Hin) as B. unfold_consts. cbn [size] in B. lia.
Qed.

Lemma restore_old_bytes (st : state) (h s f tA tB x : Z) :
  (x < h \/ h + 4 <= x) -> (x < h + 8 \/ h + 24 <= x) -> (x < f \/ f + 4 <= x) ->
  bytes (restore_old st h s f tA tB) x = bytes st x.
Proof.
  intros H1 H2 H3. unfold restore_old. st_goal. consts_goal. rewrite !Z.add_0_r.
  mem_simpl. reflexivity.
Qed.

Lemma myfree_mark_other (st : state) (pre post : list block) (s : Z) (fl : list Z)
      (x : Z) :
  Heap st (pre ++ Used s :: post) fl ->
  off_meta (mem st + total pre) s x ->
  (forall g, In g fl -> x < g + 8 \/ g + 24 <= x) ->
  bytes (myfree_mark st (mem st + total pre + 4)) x = bytes st x.
Proof.
  intros H (M1 & M2 & M3) Hfl. unfold myfree_mark. consts_goal.
  replace (mem st + total pre + 4 - 4) with (mem st + total pre) by lia.
  rewrite (node_space_block _ _ _ _ _ H). cbn [tag]. rewrite Z.opp_involutive.
  rewrite addNode_other.
  - st_goal. consts_goal. rewrite Z.add_0_r. mem_simpl. reflexivity.
  - lia.
  - st_goal. rewrite (Heap_freeList _ _ _ H).
    destruct fl as [|f t]; [now left|right]. cbn [hd].
    specialize (Hfl f (or_introl eq_refl)). lia.
Qed.

Lemma coalesce_other (st : state) (pre post : list block) (sa sb : Z) (l1 l2 : list Z)
      (x : Z) :
  Heap st (pre ++ Free sa :: Free sb :: post)
       (l1 ++ (mem st + total pre + sa + 8) :: l2) ->
  (x < mem st + total pre \/ mem st + total pre + 4 <= x) ->
  (x < mem st + total pre + sa + sb + 12 \/ mem st + total pre + sa + sb + 16 <= x) ->
  (forall g, In g (l1 ++ l2) -> x < g + 8 \/ g + 24 <= x) ->
  bytes (coalesce st (mem st + total pre) (mem st + total pre + sa + 8)) x = bytes st x.
Proof.
  intros H X1 X2 Xl.
  destruct (Heap_block _ _ _ _ _ H) as (A1 & A2 & Ha & Hp & Hq & Htot).
  assert (H' : Heap st ((pre ++ [Free sa]) ++ Free sb :: post)
                    (l1 ++ (mem st + total pre + sa + 8) :: l2)).
  { rewrite <- app_assoc. exact H. }
  destruct (Heap_block _ _ _ _ _ H') as (B1 & B2 & Hb & _ & Hq' & _).
  rewrite total_app in B1, B2. cbn [total] in B1, B2, Htot.
  unfold_consts. cbn [tag size] in *.
  pose proof (heap_int _ _ _ H) as Hint.
  pose proof (heap_dll _ _ _ H) as Hd.
  assert (Hpos : forall g, In g (l1 ++ (mem st + total pre + sa + 8) :: l2) ->
            g + 28 <= mem st + total pre \/ g = mem st + total pre \/
            g = mem st + total pre + sa + 8 \/
            mem st + total pre + (sa + sb + 8) + 8 <= g).
  { intros g Hg.
    pose proof (Heap_node_cases _ _ _ _ _ g H Hg) as C1.
    pose proof (Heap_node_cases _ _ _ _ _ g H' Hg) as C2.
    rewrite total_app in C2. cbn [total size] in C1, C2. unfold_consts.
    cbn [size] in C2. lia. }
  clear H'.
  replace (mem st + (total pre + (sa + 2 * 4 + 0))) with (mem st + total pre + sa + 8)
    in B1, B2 by lia.
  set (h := mem st + total pre) in *.
  set (hb := h + sa + 8) in *.
  unfold coalesce. unfold node_space. unfold_consts. rewrite !Z.add_0_r, A1, B1.
  rewrite (to_int_id (sa + sb + 2 * 4)) by lia.
  replace (sa + sb + 2 * 4) with (sa + sb + 8) by lia.
  set (ns := sa + sb + 8) in *.
  set (st1 := write_int (set_space st h ns) (h + ns + 4) ns).
  assert (Eb : forall x, x < h \/ (h + 4 <= x < h + ns + 4) \/ h + ns + 8 <= x ->
               bytes st1 x = bytes st x).
  { intros x' Hx. unfold st1. st_simpl. unfold_consts. rewrite !Z.add_0_r.
    mem_simpl. reflexivity. }
  assert (Hd1 : dll (bytes st1) NULL (freeList st1) (l1 ++ hb :: l2)).
  { change (freeList st1) with (freeList st).
    eapply dll_agree; [|exact Hd]. intros g Hg x' Hx. apply Eb.
    specialize (Hpos g Hg). unfold ns, hb in *. lia. }
  rewrite (removeNode_other st1 l1 l2 hb x Hd1 Xl).
  apply Eb. unfold ns. lia.
Qed.

(** X18.  [coalesce] on two free neighbours, the second of them on the free list,
    leaves one free block of payload [sa + sb + 8] and the list without the
    second; it writes only the header of the first, the footer of the second
    and link fields of nodes that stay on the list. *)
Theorem coalesce_merges (st : state) (pre post : list block) (sa sb : Z)
        (l1 l2 : list Z) :
  Heap st (pre ++ Free sa :: Free sb :: post)
       (l1 ++ (mem st + total pre + sa + 8) :: l2) ->
  Heap (coalesce st (mem st + total pre) (mem st + total pre + sa + 8))
       (pre ++ Free (sa + sb + 8) :: post) (l1 ++ l2) /\
  forall x,
    x < mem st + total pre \/ mem st + total pre + 4 <= x ->
    x < mem st + total pre + sa + sb + 12 \/ mem st + total pre + sa + sb + 16 <= x ->
    (forall g, In g (l1 ++ l2) -> x < g + 8 \/ g + 24 <= x) ->
    bytes (coalesce st (mem st + total pre) (mem st + total pre + sa + 8)) x = bytes st x.
Proof.
  intros H. split; [apply Heap_coalesce; exact H|].
  intros x X1 X2 Xl. apply (coalesce_other _ _ _ _ _ _ _ _ H X1 X2 Xl).
Qed.

Lemma layout_mid2 (a : Z) (pre post : list block) (b c : block) :
  In (a + total pre + extent b, c) (layout a (pre ++ b :: c :: post)).
Proof.
  rewrite layout_app. apply in_or_app. right. cbn [layout]. right. now left.
Qed.

Lemma layout_mid3 (a : Z) (pre post : list block) (b c d : block) :
  In (a + total pre + extent b + extent c, d) (layout a (pre ++ b :: c :: d :: post)).
Proof.
  rewrite layout_app. apply in_or_app. right. cbn [layout]. right. right. now left.
Qed.

Lemma links_not_free (st : state) (bs : list block) (fl : list Z) (x : Z) :
  Heap st bs fl -> ~ in_free_block (mem st) bs x ->
  forall g, In g fl -> x < g + 8 \/ g + 24 <= x.
Proof.
  intros H Hnf g Hg. pose proof (not_free_node _ _ _ _ _ H Hnf Hg). lia.
Qed.

Lemma total_snoc (pre : list block) (b : block) :
  total (pre ++ [b]) = total pre + size b + 8.
Proof. rewrite total_app. cbn [total]. unfold extent, sizeof_int. lia. Qed.

(** What [myfree] leaves alone, by the state of the two neighbours. *)
Lemma myfree_frame_NN (st : state) (pre post : list block) (s : Z) (fl : list Z) (x : Z) :
  Heap st (pre ++ Used s :: post) fl ->
  last_free pre = false -> hd_free post = false ->
  ~ in_free_block (mem st) (pre ++ Used s :: post) x ->
  off_meta (mem st + total pre) s x ->
  bytes (myfree_body st (mem st + total pre + 4)) x = bytes st x.
Proof.
  intros H Hl Hh Hnf Hoff.
  destruct (myfree_body_NN _ _ _ _ _ H Hl Hh) as [Eb _]. rewrite Eb.
  apply (myfree_mark_other _ _ _ _ _ _ H Hoff).
  apply (links_not_free _ _ _ _ H Hnf).
Qed.

Lemma myfree_frame_PN (st : state) (pre post : list block) (sc s : Z) (fl : list Z)
      (x : Z) :
  Heap st (pre ++ Free sc :: Used s :: post) fl ->
  hd_free post = false ->
  ~ in_free_block (mem st) (pre ++ Free sc :: Used s :: post) x ->
  off_meta (mem st + total pre + sc + 8) s x ->
  bytes (myfree_body st (mem st + total pre + sc + 8 + 4)) x = bytes st x.
Proof.
  intros H Hh Hnf Hoff.
  destruct (myfree_body_PN _ _ _ _ _ _ H Hh) as [Eb _]. rewrite Eb.
  assert (H' : Heap st ((pre ++ [Free sc]) ++ Used s :: post) fl).
  { rewrite <- app_assoc. exact H. }
  assert (Et : mem st + total (pre ++ [Free sc]) = mem st + total pre + sc + 8).
  { rewrite total_snoc. cbn [size]. lia. }
  pose proof (Heap_myfree_mark _ _ _ _ _ H') as H1.
  pose proof (myfree_mark_other st (pre ++ [Free sc]) post s fl x H') as Hm.
  rewrite Et in H1, Hm. rewrite <- app_assoc in H1. cbn [app] in H1.
  destruct (myfree_mark_mem st (mem st + total pre + sc + 8 + 4)) as [Em _].
  set (st1 := myfree_mark st (mem st + total pre + sc + 8 + 4)) in *.
  pose proof (coalesce_other st1 pre post sc s [] fl x) as Hc.
  rewrite Em in Hc. cbn [app] in Hc.
  pose proof (not_free_mid _ _ _ _ _ Hnf) as Xa.
  pose proof (links_not_free _ _ _ _ H Hnf) as Xl.
  destruct (Heap_block _ _ _ _ _ H) as (_ & _ & Hsc & _). cbn [size] in Hsc.
  destruct Hoff as (M1 & M2 & M3).
  rewrite Hc; [|exact H1|lia|lia|exact Xl].
  apply Hm; [|exact Xl]. repeat split; assumption.
Qed.

Lemma myfree_frame_NP (st : state) (pre post : list block) (s sd : Z) (f1 f2 : list Z)
      (x : Z) :
  Heap st (pre ++ Used s :: Free sd :: post) (f1 ++ (mem st + total pre + s + 8) :: f2) ->
  last_free pre = false ->
  ~ in_free_block (mem st) (pre ++ Used s :: Free sd :: post) x ->
  off_meta (mem st + total pre) s x ->
  bytes (myfree_body st (mem st + total pre + 4)) x = bytes st x.
Proof.
  intros H Hl Hnf Hoff.
  destruct (myfree_body_NP _ _ _ _ _ _ _ H Hl) as [Eb _]. rewrite Eb.
  pose proof (Heap_myfree_mark _ _ _ _ _ H) as H1.
  destruct (myfree_mark_mem st (mem st + total pre + 4)) as [Em _].
  pose proof (myfree_mark_other st pre (Free sd :: post) s _ x H Hoff) as Hm.
  set (st1 := myfree_mark st (mem st + total pre + 4)) in *.
  pose proof (coalesce_other st1 pre post s sd ((mem st + total pre) :: f1) f2 x) as Hc.
  rewrite Em in Hc.
  pose proof (not_free_block _ _ _ _ _ Hnf (layout_mid2 (mem st) pre post (Used s) (Free sd)))
    as Xn.
  unfold extent, sizeof_int in Xn. cbn [size] in Xn.
  pose proof (layout_bounds _ _ _ _ (heap_sizes _ _ _ H)
                (layout_mid2 (mem st) pre post (Used s) (Free sd))) as (_ & _ & Hsd).
  unfold min_payload, sizeof_node, sizeof_int in Hsd. cbn [size] in Hsd.
  pose proof (links_not_free _ _ _ _ H Hnf) as Xl.
  destruct (Heap_block _ _ _ _ _ H) as (_ & _ & Hs & _). cbn [size] in Hs.
  destruct Hoff as (M1 & M2 & M3).
  rewrite Hc; [|exact H1|lia|lia|].
  - apply Hm. exact Xl.
  - intros g [<-|Hg]; [lia|]. apply Xl. apply in_app_iff in Hg.
    destruct Hg; [now apply in_mid_l|now apply in_mid_r].
Qed.

Lemma myfree_frame_PP (st : state) (pre post : list block) (sc s sd : Z)
      (f1 f2 : list Z) (x : Z) :
  Heap st (pre ++ Free sc :: Used s :: Free sd :: post)
       (f1 ++ (mem st + total pre + sc + 8 + s + 8) :: f2) ->
  ~ in_free_block (mem st) (pre ++ Free sc :: Used s :: Free sd :: post) x ->
  off_meta (mem st + total pre + sc + 8) s x ->
  bytes (myfree_body st (mem st + total pre + sc + 8 + 4)) x = bytes st x.
Proof.
  intros H Hnf Hoff.
  destruct (myfree_body_PP _ _ _ _ _ _ _ _ H) as [Eb _]. rewrite Eb.
  assert (H' : Heap st ((pre ++ [Free sc]) ++ Used s :: Free sd :: post)
                    (f1 ++ (mem st + total pre + sc + 8 + s + 8) :: f2)).
  { rewrite <- app_assoc. exact H. }
  assert (Et : mem st + total (pre ++ [Free sc]) = mem st + total pre + sc + 8).
  { rewrite total_snoc. cbn [size]. lia. }
  pose proof (Heap_myfree_mark _ _ _ _ _ H') as H1.
  pose proof (myfree_mark_other st (pre ++ [Free sc]) (Free sd :: post) s _ x H') as Hm.
  rewrite Et in H1, Hm. rewrite <- app_assoc in H1. cbn [app] in H1.
  destruct (myfree_mark_mem st (mem st + total pre + sc + 8 + 4)) as [Em _].
  set (st1 := myfree_mark st (mem st + total pre + sc + 8 + 4)) in *.
  pose proof (coalesce_other st1 pre (Free sd :: post) sc s []
                (f1 ++ (mem st + total pre + sc + 8 + s + 8) :: f2) x) as Hc.
  pose proof (Heap_coalesce st1 pre (Free sd :: post) sc s []
                (f1 ++ (mem st + total pre + sc + 8 + s + 8) :: f2)) as H2.
  rewrite Em in Hc, H2. cbn [app] in Hc, H2. specialize (H2 H1).
  destruct (coalesce_mem st1 (mem st + total pre) (mem st + total pre + sc + 8)) as [Em2 _].
  rewrite Em in Em2.
  set (st2 := coalesce st1 (mem st + total pre) (mem st + total pre + sc + 8)) in *.
  pose proof (coalesce_other st2 pre post (sc + s + 8) sd f1 f2 x) as Hc2.
  rewrite Em2 in Hc2.
  replace (mem st + total pre + (sc + s + 8) + 8)
    with (mem st + total pre + sc + 8 + s + 8) in Hc2 by lia.
  pose proof (not_free_mid _ _ _ _ _ Hnf) as Xa.
  pose proof (not_free_block _ _ _ _ _ Hnf
                (layout_mid3 (mem st) pre post (Free sc) (Used s) (Free sd))) as Xn.
  unfold extent, sizeof_int in Xn. cbn [size] in Xn.
  pose proof (layout_bounds _ _ _ _ (heap_sizes _ _ _ H)
                (layout_mid3 (mem st) pre post (Free sc) (Used s) (Free sd)))
    as (_ & _ & Hsd).
  unfold min_payload, sizeof_node, sizeof_int in Hsd. cbn [size] in Hsd.
  pose proof (links_not_free _ _ _ _ H Hnf) as Xl.
  destruct (Heap_block _ _ _ _ _ H) as (_ & _ & Hsc & _). cbn [size] in Hsc.
  destruct (Heap_block _ _ _ _ _ H') as (_ & _ & Hs & _). cbn [size] in Hs.
  destruct Hoff as (M1 & M2 & M3).
  rewrite Hc2; [|exact H2|lia|lia|].
  2:{ intros g Hg. apply Xl. apply in_app_iff in Hg.
      destruct Hg; [now apply in_mid_l|now apply in_mid_r]. }
  rewrite Hc; [|exact H1|lia|lia|exact Xl].
  apply Hm; [|exact Xl]. repeat split; assumption.
Qed.

Lemma myfree_body_frame (st : state) (pre post : list block) (s : Z) (fl : list Z)
      (x : Z) :
  Inv st (pre ++ Used s :: post) fl ->
  ~ in_free_block (mem st) (pre ++ Used s :: post) x ->
  off_meta (mem st + total pre) s x ->
  bytes (myfree_body st (mem st + total pre + 4)) x = bytes st x.
Proof.
  intros I. pose proof (inv_heap _ _ _ I) as H.
  destruct (last_free pre) eqn:Hl; destruct (hd_free post) eqn:Hh.
  - destruct (last_free_true _ Hl) as (pre' & sc & ->).
    destruct (hd_free_true _ Hh) as (sd & post' & ->).
    rewrite <- app_assoc in I, H |- *. cbn [app] in I, H |- *.
    rewrite total_snoc. cbn [size]. rewrite !Z.add_assoc.
    assert (Hn : In (mem st + total pre' + sc + 8 + s + 8) fl).
    { apply (inv_all _ _ _ I). apply free_addrs_layout. exists sd.
      pose proof (layout_mid3 (mem st) pre' post' (Free sc) (Used s) (Free sd)) as L.
      unfold extent, sizeof_int in L. cbn [size] in L.
      replace (mem st + total pre' + sc + 8 + s + 8)
        with (mem st + total pre' + (sc + 2 * 4) + (s + 2 * 4)) by lia.
      exact L. }
    apply in_split in Hn. destruct Hn as (f1 & f2 & ->).
    apply (myfree_frame_PP _ _ _ _ _ _ f1 f2 _ H).
  - destruct (last_free_true _ Hl) as (pre' & sc & ->).
    rewrite <- app_assoc in I, H |- *. cbn [app] in I, H |- *.
    rewrite total_snoc. cbn [size]. rewrite !Z.add_assoc.
    apply (myfree_frame_PN _ _ _ _ _ fl _ H Hh).
  - destruct (hd_free_true _ Hh) as (sd & post' & ->).
    assert (Hn : In (mem st + total pre + s + 8) fl).
    { apply (inv_all _ _ _ I). apply free_addrs_layout. exists sd.
      pose proof (layout_mid2 (mem st) pre post' (Used s) (Free sd)) as L.
      unfold extent, sizeof_int in L. cbn [size] in L.
      replace (mem st + total pre + s + 8) with (mem st + total pre + (s + 2 * 4)) by lia.
      exact L. }
    apply in_split in Hn. destruct Hn as (f1 & f2 & ->).
    apply (myfree_frame_NP _ _ _ _ _ f1 f2 _ H Hl).
  - apply (myfree_frame_NN _ _ _ _ fl _ H Hl Hh).
Qed.

Lemma myfree_Some (st st' : state) (p : Z) :
  myfree st p = Some st' -> st' = myfree_body st p.
Proof.
  unfold myfree. destruct (isValid st p =? 0); [discriminate|].
  destruct (assert_checkMem _); [|discriminate]. intros E. inversion E. reflexivity.
Qed.

Lemma not_relinked (st : state) (bs : list block) (l1 l2 : list Z) (h x : Z) :
  Heap st bs (l1 ++ h :: l2) ->
  (forall g, In g (l1 ++ h :: l2) -> x < g + 8 \/ g + 24 <= x) ->
  ~ relinked st h x.
Proof.
  intros H Hg.
  destruct (dll_links _ _ _ _ _ _ (heap_dll _ _ _ H)) as [Lp Ln].
  pose proof (Heap_freeList _ _ _ H) as Hhd.
  unfold relinked, node_prev, node_next. rewrite Lp, Ln, Hhd. unfold_consts.
  intros [C|[[Cn C]|[Cn C]]].
  - assert (Hin : In (hd 0 (l1 ++ h :: l2)) (l1 ++ h :: l2)).
    { destruct l1; cbn [app hd]; now left. }
    specialize (Hg _ Hin). lia.
  - destruct l1 as [|y l1]; [cbn [last] in Cn; congruence|].
    assert (Hin : In (last (y :: l1) 0) ((y :: l1) ++ h :: l2)).
    { apply in_mid_l. apply last_in. discriminate. }
    specialize (Hg _ Hin). lia.
  - destruct l2 as [|y l2]; [cbn [hd] in Cn; congruence|]. cbn [hd] in C.
    assert (Hin : In y (l1 ++ h :: y :: l2)).
    { apply in_mid_r. now left. }
    specialize (Hg _ Hin). lia.
Qed.

(** [myalloc] writes to free blocks only. *)
Lemma myalloc_region (st : state) (bs : list block) (fl : list Z) (request : Z)
      (st' : state) (p x : Z) :
  Inv st bs fl -> 0 <= request < 2 ^ 31 ->
  myalloc st request = Some (st', p) ->
  ~ in_free_block (mem st) bs x ->
  bytes st' x = bytes st x.
Proof.
  intros I Hr Ea Hnf. pose proof (inv_heap _ _ _ I) as H.
  destruct (myalloc_spec st bs fl request I Hr) as
    [[E _]|(pre & sp & post & l1 & l2 & st'' & Ebs & Efl & Hle & E & Em & Es & Hframe & _)].
  - rewrite E in Ea. inversion Ea. reflexivity.
  - rewrite E in Ea. inversion Ea. subst st'' p. clear Ea. subst bs fl.
    apply Hframe.
    + pose proof (not_free_mid _ _ _ _ _ Hnf). lia.
    + apply (not_relinked _ _ _ _ _ _ H). apply (links_not_free _ _ _ _ H Hnf).
Qed.

(** Inside the block it takes, [myalloc] leaves the payload it hands out
    alone, but for the place of the links. *)
Lemma myalloc_take_inner (st : state) (pre post : list block) (sp : Z)
      (l1 l2 : list Z) (request x : Z) :
  Heap st (pre ++ Free sp :: post) (l1 ++ (mem st + total pre) :: l2) ->
  0 <= request <= sp ->
  mem st + total pre + 4 <= x < mem st + total pre + 8 \/
  mem st + total pre + 24 <= x < mem st + total pre + 4 + Z.max request 20 ->
  bytes (myalloc_take st (mem st + total pre) request) x = bytes st x.
Proof.
  intros H Hreq Hx.
  destruct (Heap_block _ _ _ _ _ H) as (T1 & T2 & Hb & Hp & Hq & Htot).
  cbn [tag size] in *. pose proof (heap_int _ _ _ H) as Hint.
  pose proof (node_space_block _ _ _ _ _ H) as Hsp. cbn [tag] in Hsp.
  assert (Hl : forall g, In g (l1 ++ l2) -> x < g + 8 \/ g + 24 <= x).
  { intros g Hg.
    assert (Hg' : In g (l1 ++ (mem st + total pre) :: l2)).
    { apply in_app_iff in Hg. destruct Hg; [now apply in_mid_l|now apply in_mid_r]. }
    pose proof (Heap_node_cases _ _ _ _ _ g H Hg') as C. cbn [size] in C. lia. }
  set (h := mem st + total pre) in *.
  set (s := Z.max request 20) in *.
  assert (Hs : 20 <= s <= sp) by (unfold s; lia).
  unfold myalloc_take. rewrite Hsp, MAX_request by lia. fold s.
  rewrite split_test by lia.
  destruct (Z.gtb_spec sp (s + 28)) as [G|G].
  - destruct (Heap_splitBlock st pre post sp s _ H ltac:(lia) ltac:(lia)) as [H1 Esnd].
    fold h in H1, Esnd.
    rewrite (surjective_pairing (splitBlock st h s)), Esnd.
    set (st1 := fst (splitBlock st h s)) in *.
    set (nh := h + s + 8) in *.
    assert (Hin : In nh (free_addrs (mem st1) (pre ++ Free s :: Free (sp - s - 8) :: post))).
    { change (mem st1) with (mem st).
      replace (pre ++ Free s :: Free (sp - s - 8) :: post)
        with ((pre ++ [Free s]) ++ Free (sp - s - 8) :: post)
        by (rewrite <- app_assoc; reflexivity).
      replace nh with (mem st + total (pre ++ [Free s])).
      - apply free_addrs_mid.
      - rewrite total_app. cbn [total]. unfold_consts. cbn [size]. unfold nh, h. lia. }
    assert (Hnot : ~ In nh (l1 ++ h :: l2)).
    { intros Hc. pose proof (Heap_node_cases _ _ _ _ _ nh H Hc) as C.
      cbn [size] in C. fold h in C. unfold nh in C. lia. }
    pose proof (Heap_addNode _ _ _ _ H1 Hin Hnot) as H2.
    destruct (addNode_mem st1 nh) as (Em2 & Es2 & Ef2).
    set (st2 := addNode st1 nh) in *.
    change (nh :: l1 ++ h :: l2) with ((nh :: l1) ++ h :: l2) in H2.
    pose proof (Heap_removeNode _ _ _ _ _ H2) as H3.
    destruct (removeNode_mem st2 h) as (Em3 & Es3).
    pose proof (heap_dll _ _ _ H2) as Hd2.
    set (st3 := removeNode st2 h) in *.
    assert (Em : mem st3 = mem st) by (rewrite Em3, Em2; reflexivity).
    pose proof (node_space_block _ _ _ _ _ H3) as Hsp3. cbn [tag] in Hsp3.
    rewrite Em in Hsp3. fold h in Hsp3. rewrite Hsp3.
    st_goal. consts_goal. rewrite !Z.add_0_r. mem_simpl.
    transitivity (bytes st2 x).
    { unfold st3. apply (removeNode_other st2 (nh :: l1) l2 h x Hd2).
      intros g [<-|Hg]; [unfold nh; lia|]. apply Hl. exact Hg. }
    transitivity (bytes st1 x).
    { apply addNode_other; [unfold nh; lia|].
      change (freeList st1) with (freeList st).
      apply (Heap_head_cases _ _ _ _ _ _ H); [fold h; lia|exact Hl]. }
    apply splitBlock_bytes; rewrite ?Hsp; lia.
  - pose proof (Heap_removeNode _ _ _ _ _ H) as H3. fold h in H3.
    destruct (removeNode_mem st h) as (Em & Es).
    pose proof (heap_dll _ _ _ H) as Hd.
    set (st3 := removeNode st h) in *.
    pose proof (node_space_block _ _ _ _ _ H3) as Hsp3. cbn [tag] in Hsp3.
    rewrite Em in Hsp3. fold h in Hsp3. rewrite Hsp3.
    st_goal. consts_goal. rewrite !Z.add_0_r. mem_simpl.
    unfold st3. apply (removeNode_other st l1 l2 h x Hd Hl).
Qed.

End Frames.

Section Releasing.

(** X19.  [myfree] writes only in the block it releases and in blocks that are
    free already: every other block in use keeps its tags and its payload,
    and no byte outside the pool changes. *)
Theorem myfree_frame (st : state) (bs : list block) (fl : list Z) (p : Z) (st' : state) :
  Inv st bs fl -> In (p - 4) (used_addrs (mem st) bs) -> myfree st p = Some st' ->
  (forall x, ~ in_free_block (mem st) bs x ->
     x < p - 4 \/ p - node_space st (p - 4) + 4 <= x ->
     bytes st' x = bytes st x) /\
  (forall y t, In (y, Used t) (layout (mem st) bs) -> y <> p - 4 ->
     forall x, y <= x < y + t + 8 -> bytes st' x = bytes st x) /\
  (forall x, x < mem st \/ mem st + MEMORY_SIZE st <= x -> bytes st' x = bytes st x).
Proof.
  intros I Hin Ef. pose proof (inv_heap _ _ _ I) as H.
  destruct (Held_block st [] bs p Hin) as (pre & s & post & -> & ->).
  apply myfree_Some in Ef. subst st'.
  replace (mem st + total pre + 4 - 4) with (mem st + total pre) by lia.
  rewrite (node_space_block _ _ _ _ _ H). cbn [tag].
  destruct (Heap_block _ _ _ _ _ H) as (_ & _ & Hs & Hp & Hq & Htot). cbn [size] in *.
  pose proof (heap_sizes _ _ _ H) as Hsz.
  assert (F : forall x, ~ in_free_block (mem st) (pre ++ Used s :: post) x ->
            x < mem st + total pre \/ mem st + total pre + s + 8 <= x ->
            bytes (myfree_body st (mem st + total pre + 4)) x = bytes st x).
  { intros x Hnf Hx. apply (myfree_body_frame _ _ _ _ _ _ I Hnf).
    unfold off_meta. lia. }
  split; [intros x Hnf Hx; apply F; [exact Hnf|lia]|]. split.
  - intros y t Hy Hne x Hx. apply F.
    + apply (used_not_free _ _ _ _ _ Hsz Hy Hx).
    + destruct (layout_sep _ _ _ _ _ _ Hsz Hy (layout_mid (mem st) pre post (Used s)))
        as [[C _]|C]; [contradiction|].
      unfold extent, sizeof_int in C. cbn [size] in C. lia.
  - intros x Hx. apply F.
    + apply (outside_not_free _ _ _ Hsz). rewrite (heap_total _ _ _ H). exact Hx.
    + lia.
Qed.

Lemma isValid_positive_header (st : state) (p : Z) :
  0 < load_int (bytes st) (p - 4) -> isValid st p = 0.
Proof.
  intros Hpos. unfold isValid. unfold_consts.
  destruct (_ || _); [reflexivity|].
  destruct (Z.ltb_spec (- load_int (bytes st) (p - 4)) 0); [reflexivity|lia].
Qed.

Lemma nodes_off_block (st : state) (pre post : list block) (s : Z) (fl : list Z) (g : Z) :
  Heap st (pre ++ Used s :: post) fl -> In g fl ->
  g + 28 <= mem st + total pre \/ mem st + total pre + s + 8 <= g.
Proof.
  intros H Hg. pose proof (Heap_node_cases _ _ _ _ _ _ H Hg) as C.
  cbn [is_free size] in C. destruct C as [C|[[_ C]|C]]; [lia|discriminate C|lia].
Qed.

Lemma myfree_header_PN (st : state) (pre post : list block) (sc s : Z) (fl : list Z) :
  Heap st (pre ++ Free sc :: Used s :: post) fl ->
  hd_free post = false ->
  load_int (bytes (myfree_body st (mem st + total pre + sc + 8 + 4)))
           (mem st + total pre + sc + 8) = s.
Proof.
  intros H Hh.
  destruct (myfree_body_PN _ _ _ _ _ _ H Hh) as [Eb _]. rewrite Eb.
  assert (H' : Heap st ((pre ++ [Free sc]) ++ Used s :: post) fl).
  { rewrite <- app_assoc. exact H. }
  assert (Et : mem st + total (pre ++ [Free sc]) = mem st + total pre + sc + 8).
  { rewrite total_snoc. cbn [size]. lia. }
  pose proof (Heap_myfree_mark _ _ _ _ _ H') as H1.
  destruct (myfree_mark_mem st (mem st + total (pre ++ [Free sc]) + 4)) as [Em _].
  pose proof (node_space_block _ _ _ _ _ H1) as Hsp. cbn [tag] in Hsp.
  unfold node_space, off_space in Hsp. rewrite Z.add_0_r in Hsp.
  pose proof (fun g => nodes_off_block _ _ _ _ _ g H') as Hoff.
  rewrite Em, Et in Hsp. rewrite Et in H1, Hoff. rewrite <- app_assoc in H1.
  cbn [app] in H1. rewrite Et in Em.
  set (st1 := myfree_mark st (mem st + total pre + sc + 8 + 4)) in *.
  destruct (Heap_block _ _ _ _ _ H) as (_ & _ & Hsc & _). cbn [size] in Hsc.
  destruct (Heap_block _ _ _ _ _ H') as (_ & _ & Hs & _). cbn [size] in Hs.
  rewrite <- Hsp. apply load_int_ext. intros x Hx.
  pose proof (coalesce_other st1 pre post sc s [] fl x) as Hc.
  rewrite Em in Hc. cbn [app] in Hc.
  apply Hc; [exact H1|lia|lia|].
  intros g Hg. specialize (Hoff g Hg). lia.
Qed.

Lemma myfree_header_PP (st : state) (pre post : list block) (sc s sd : Z)
      (f1 f2 : list Z) :
  Heap st (pre ++ Free sc :: Used s :: Free sd :: post)
       (f1 ++ (mem st + total pre + sc + 8 + s + 8) :: f2) ->
  load_int (bytes (myfree_body st (mem st + total pre + sc + 8 + 4)))
           (mem st + total pre + sc + 8) = s.
Proof.
  intros H.
  destruct (myfree_body_PP _ _ _ _ _ _ _ _ H) as [Eb _]. rewrite Eb.
  assert (H' : Heap st ((pre ++ [Free sc]) ++ Used s :: Free sd :: post)
                    (f1 ++ (mem st + total pre + sc + 8 + s + 8) :: f2)).
  { rewrite <- app_assoc. exact H. }
  assert (Et : mem st + total (pre ++ [Free sc]) = mem st + total pre + sc + 8).
  { rewrite total_snoc. cbn [size]. lia. }
  pose proof (Heap_myfree_mark _ _ _ _ _ H') as H1.
  destruct (myfree_mark_mem st (mem st + total (pre ++ [Free sc]) + 4)) as [Em _].
  pose proof (node_space_block _ _ _ _ _ H1) as Hsp. cbn [tag] in Hsp.
  unfold node_space, off_space in Hsp. rewrite Z.add_0_r in Hsp.
  pose proof (fun g => nodes_off_block _ _ _ _ _ g H') as Hoff.
  rewrite Em, Et in Hsp. rewrite Et in H1, Hoff. rewrite <- app_assoc in H1.
  cbn [app] in H1. rewrite Et in Em.
  set (st1 := myfree_mark st (mem st + total pre + sc + 8 + 4)) in *.
  pose proof (Heap_coalesce st1 pre (Free sd :: post) sc s []
                (f1 ++ (mem st + total pre + sc + 8 + s + 8) :: f2)) as H2.
  rewrite Em in H2. cbn [app] in H2. specialize (H2 H1).
  destruct (coalesce_mem st1 (mem st + total pre) (mem st + total pre + sc + 8)) as [Em2 _].
  rewrite Em in Em2.
  destruct (Heap_block _ _ _ _ _ H) as (_ & _ & Hsc & _). cbn [size] in Hsc.
  destruct (Heap_block _ _ _ _ _ H') as (_ & _ & Hs & _). cbn [size] in Hs.
  pose proof (layout_bounds _ _ _ _ (heap_sizes _ _ _ H)
                (layout_mid3 (mem st) pre post (Free sc) (Used s) (Free sd)))
    as (_ & _ & Hsd).
  unfold min_payload, sizeof_node, sizeof_int in Hsd. cbn [size] in Hsd.
  transitivity (load_int (bytes st1) (mem st + total pre + sc + 8)); [|exact Hsp].
  apply load_int_ext. intros x Hx.
  pose proof (coalesce_other st1 pre (Free sd :: post) sc s []
                (f1 ++ (mem st + total pre + sc + 8 + s + 8) :: f2) x) as Hc.
  rewrite Em in Hc. cbn [app] in Hc.
  set (st2 := coalesce st1 (mem st + total pre) (mem st + total pre + sc + 8)) in *.
  pose proof (coalesce_other st2 pre post (sc + s + 8) sd f1 f2 x) as Hc2.
  rewrite Em2 in Hc2.
  replace (mem st + total pre + (sc + s + 8) + 8)
    with (mem st + total pre + sc + 8 + s + 8) in Hc2 by lia.
  rewrite Hc2; [|exact H2|lia|lia|].
  2:{ intros g Hg.
      assert (Hg' : In g (f1 ++ (mem st + total pre + sc + 8 + s + 8) :: f2)).
      { apply in_app_iff in Hg. destruct Hg; [now apply in_mid_l|now apply in_mid_r]. }
      specialize (Hoff g Hg'). lia. }
  apply Hc; [exact H1|lia|lia|].
  intros g Hg. specialize (Hoff g Hg). lia.
Qed.

Lemma myfree_header_positive (st : state) (pre post : list block) (s : Z) (fl : list Z) :
  Inv st (pre ++ Used s :: post) fl ->
  0 < load_int (bytes (myfree_body st (mem st + total pre + 4))) (mem st + total pre).
Proof.
  intros I. pose proof (inv_heap _ _ _ I) as H.
  destruct (Heap_block _ _ _ _ _ H) as (_ & _ & Hs & _). cbn [size] in Hs.
  destruct (last_free pre) eqn:Hl; destruct (hd_free post) eqn:Hh.
  - destruct (last_free_true _ Hl) as (pre' & sc & ->).
    destruct (hd_free_true _ Hh) as (sd & post' & ->).
    rewrite <- app_assoc in I, H. cbn [app] in I, H.
    rewrite total_snoc. cbn [size]. rewrite !Z.add_assoc.
    assert (Hn : In (mem st + total pre' + sc + 8 + s + 8) fl).
    { apply (inv_all _ _ _ I). apply free_addrs_layout. exists sd.
      pose proof (layout_mid3 (mem st) pre' post' (Free sc) (Used s) (Free sd)) as L.
      unfold extent, sizeof_int in L. cbn [size] in L.
      replace (mem st + total pre' + sc + 8 + s + 8)
        with (mem st + total pre' + (sc + 2 * 4) + (s + 2 * 4)) by lia.
      exact L. }
    apply in_split in Hn. destruct Hn as (f1 & f2 & ->).
    rewrite (myfree_header_PP _ _ _ _ _ _ f1 f2 H). lia.
  - destruct (last_free_true _ Hl) as (pre' & sc & ->).
    rewrite <- app_assoc in I, H. cbn [app] in I, H.
    rewrite total_snoc. cbn [size]. rewrite !Z.add_assoc.
    rewrite (myfree_header_PN _ _ _ _ _ fl H Hh). lia.
  - destruct (hd_free_true _ Hh) as (sd & post' & ->).
    assert (Hn : In (mem st + total pre + s + 8) fl).
    { apply (inv_all _ _ _ I). apply free_addrs_layout. exists sd.
      pose proof (layout_mid2 (mem st) pre post' (Used s) (Free sd)) as L.
      unfold extent, sizeof_int in L. cbn [size] in L.
      replace (mem st + total pre + s + 8) with (mem st + total pre + (s + 2 * 4)) by lia.
      exact L. }
    apply in_split in Hn. destruct Hn as (f1 & f2 & ->).
    destruct (myfree_body_NP _ _ _ _ _ _ _ H Hl) as [Eb H2]. rewrite Eb.
    pose proof (layout_bounds _ _ _ _ (heap_sizes _ _ _ H)
                  (layout_mid2 (mem st) pre post' (Used s) (Free sd))) as (_ & _ & Hsd).
    unfold min_payload, sizeof_node, sizeof_int in Hsd. cbn [size] in Hsd.
    pose proof (node_space_block _ _ _ _ _ H2) as Hsp. cbn [tag] in Hsp.
    unfold node_space, off_space in Hsp. rewrite Z.add_0_r in Hsp.
    assert (Em3 : mem (coalesce (myfree_mark st (mem st + total pre + 4))
                         (mem st + total pre) (mem st + total pre + s + 8)) = mem st).
    { match goal with |- mem (coalesce ?a ?b ?c) = _ =>
        destruct (coalesce_mem a b c) as [-> _] end.
      apply myfree_mark_mem. }
    rewrite Em3 in Hsp. rewrite Hsp. lia.
  - destruct (myfree_body_NN _ _ _ _ _ H Hl Hh) as [Eb H2]. rewrite Eb.
    pose proof (node_space_block _ _ _ _ _ H2) as Hsp. cbn [tag] in Hsp.
    unfold node_space, off_space in Hsp. rewrite Z.add_0_r in Hsp.
    destruct (myfree_mark_mem st (mem st + total pre + 4)) as [Em _].
    rewrite Em in Hsp. rewrite Hsp. lia.
Qed.

(** X20.  Releasing a block in use succeeds, and releasing the same pointer once
    more stops at the assertion of [myfree]. *)
Theorem myfree_twice_aborts (st : state) (bs : list block) (fl : list Z) (p : Z) :
  Inv st bs fl -> In (p - 4) (used_addrs (mem st) bs) ->
  exists st', myfree st p = Some st' /\ myfree st' p = None.
Proof.
  intros I Hin.
  destruct (Held_block st [] bs p Hin) as (pre & s & post & -> & ->).
  destruct (myfree_spec _ _ _ _ _ I) as (st' & _ & _ & Ef & _).
  exists st'. split; [exact Ef|].
  pose proof (myfree_header_positive _ _ _ _ _ I) as Hpos.
  rewrite <- (myfree_Some _ _ _ Ef) in Hpos.
  unfold myfree. rewrite isValid_positive_header; [reflexivity|].
  replace (mem st + total pre + 4 - 4) with (mem st + total pre) by lia. exact Hpos.
Qed.

(** X21.  [myfree] of a block in use succeeds and merges it with each neighbour
    that is free.  With no free neighbour it becomes a free block at the head
    of the list; merged into a free previous block it leaves the list as it
    was; merged with a free next block, that block leaves the list and the
    merged block is the head; with both, the next block leaves the list and
    the previous one keeps its place.  The heap invariant holds afterwards. *)
Theorem myfree_merges_neighbours (st : state) (pre post : list block) (s : Z)
        (fl : list Z) :
  Inv st (pre ++ Used s :: post) fl ->
  exists st' bs' fl',
    myfree st (mem st + total pre + 4) = Some st' /\
    Inv st' bs' fl' /\
    free_shape (mem st) pre post s fl bs' fl'.
Proof.
  intros I. destruct (myfree_spec _ _ _ _ _ I) as (st' & bs' & fl' & Ef & I' & _ & _ & _ & Hs).
  exists st', bs', fl'. split; [exact Ef|]. split; [exact I'|exact Hs].
Qed.

End Releasing.

Section Reallocation.

(** What the undo branch of [myrealloc] leaves alone, by the neighbours that
    were merged. *)
Lemma undo_frame_NN (st : state) (pre post : list block) (s tA tB ps : Z) (fl : list Z)
      (x : Z) :
  Heap st (pre ++ Free s :: post) ((mem st + total pre) :: fl) ->
  off_meta (mem st + total pre) s x ->
  (forall g, In g fl -> x < g + 8 \/ g + 24 <= x) ->
  bytes (myrealloc_undo st (mem st + total pre) s (mem st + total pre + 4 + s)
                        tA tB NULL ps NULL) x = bytes st x.
Proof.
  intros H (M1 & M2 & M3) Hl. rewrite myrealloc_undo_unfold. rewrite Z.eqb_refl.
  cbn [negb andb].
  rewrite restore_old_bytes by lia.
  apply (removeNode_other st [] fl _ x (heap_dll _ _ _ H)). exact Hl.
Qed.

Lemma undo_frame_PN (st : state) (pre post : list block) (sc s tA tB : Z) (fl : list Z)
      (x : Z) :
  Heap st (pre ++ Free (sc + s + 8) :: post) fl ->
  20 <= sc -> 20 <= s ->
  x < mem st + total pre \/ mem st + total pre + sc + 8 <= x ->
  off_meta (mem st + total pre + sc + 8) s x ->
  bytes (myrealloc_undo st (mem st + total pre + sc + 8) s
                        (mem st + total pre + sc + 8 + 4 + s)
                        tA tB (mem st + total pre) sc NULL) x = bytes st x.
Proof.
  intros H Hc Hs Xa (M1 & M2 & M3). rewrite myrealloc_undo_unfold. rewrite Z.eqb_refl.
  pose proof (heap_base _ _ _ H) as Hbase.
  destruct (Heap_block _ _ _ _ _ H) as (_ & _ & _ & Hp & _).
  destruct (Z.eqb_spec (mem st + total pre) NULL) as [E|_]; [unfold NULL in E; lia|].
  cbn [negb andb].
  rewrite restore_old_bytes by lia.
  apply splitBlock_bytes; rewrite ?(node_space_block _ _ _ _ _ H); cbn [tag]; lia.
Qed.

Lemma undo_frame_NP (st : state) (pre post : list block) (s sd tA tB ps : Z)
      (f1 f2 : list Z) (x : Z) :
  Heap st (pre ++ Free (s + sd + 8) :: post) ((mem st + total pre) :: f1 ++ f2) ->
  20 <= s -> 20 <= sd ->
  off_meta (mem st + total pre) s x ->
  x < mem st + total pre + s + 8 \/ mem st + total pre + s + 8 + sd + 8 <= x ->
  (forall g, In g (f1 ++ f2) -> x < g + 8 \/ g + 24 <= x) ->
  bytes (myrealloc_undo st (mem st + total pre) s (mem st + total pre + 4 + s)
                        tA tB NULL ps (mem st + total pre + s + 8)) x = bytes st x.
Proof.
  intros H Hs Hd (M1 & M2 & M3) Xn Hl. rewrite myrealloc_undo_unfold. rewrite Z.eqb_refl.
  pose proof (heap_base _ _ _ H) as Hbase.
  destruct (Heap_block _ _ _ _ _ H) as (_ & _ & _ & Hp & _).
  destruct (Z.eqb_spec (mem st + total pre + s + 8) NULL) as [E|_];
    [unfold NULL in E; lia|].
  cbn [negb andb].
  destruct (Heap_splitBlock st pre post (s + sd + 8) s _ H ltac:(lia) ltac:(lia))
    as [H1 _].
  replace (s + sd + 8 - s - 8) with sd in H1 by lia.
  pose proof (node_space_block _ _ _ _ _ H) as Hsp. cbn [tag] in Hsp.
  set (h := mem st + total pre) in *.
  set (st1 := fst (splitBlock st h s)) in *.
  set (nh := h + s + 8) in *.
  assert (Hin : In nh (free_addrs (mem st1) (pre ++ Free s :: Free sd :: post))).
  { change (mem st1) with (mem st).
    replace (pre ++ Free s :: Free sd :: post)
      with ((pre ++ [Free s]) ++ Free sd :: post)
      by (rewrite <- app_assoc; reflexivity).
    replace nh with (mem st + total (pre ++ [Free s])).
    - apply free_addrs_mid.
    - rewrite total_app. cbn [total]. unfold_consts. cbn [size]. unfold nh, h. lia. }
  assert (Hnot : ~ In nh (h :: f1 ++ f2)).
  { intros Hc. pose proof (Heap_node_cases _ _ _ _ _ nh H Hc) as C.
    cbn [size] in C. fold h in C. unfold nh in C. lia. }
  pose proof (Heap_addNode _ _ _ _ H1 Hin Hnot) as H2.
  set (st2 := addNode st1 nh) in *.
  change (nh :: h :: f1 ++ f2) with ([nh] ++ h :: f1 ++ f2) in H2.
  rewrite restore_old_bytes by lia.
  rewrite (removeNode_other st2 [nh] (f1 ++ f2) h x (heap_dll _ _ _ H2)).
  2:{ intros g [<-|Hg]; [unfold nh; lia|]. apply Hl. exact Hg. }
  unfold st2. rewrite addNode_other.
  - apply splitBlock_bytes; rewrite ?Hsp; unfold nh in *; lia.
  - unfold nh in *. lia.
  - change (freeList st1) with (freeList st). rewrite (Heap_freeList _ _ _ H).
    cbn [hd]. right. lia.
Qed.

Lemma undo_frame_PP (st : state) (pre post : list block) (sc s sd tA tB : Z)
      (f1 f2 : list Z) (x : Z) :
  Heap st (pre ++ Free (sc + s + 8 + sd + 8) :: post) (f1 ++ f2) ->
  20 <= sc -> 20 <= s -> 20 <= sd ->
  x < mem st + total pre \/ mem st + total pre + sc + 8 <= x ->
  off_meta (mem st + total pre + sc + 8) s x ->
  x < mem st + total pre + sc + 8 + s + 8 \/
  mem st + total pre + sc + 8 + s + 8 + sd + 8 <= x ->
  (forall g, In g (f1 ++ f2) -> x < g + 8 \/ g + 24 <= x) ->
  bytes (myrealloc_undo st (mem st + total pre + sc + 8) s
                        (mem st + total pre + sc + 8 + 4 + s)
                        tA tB (mem st + total pre) sc
                        (mem st + total pre + sc + 8 + s + 8)) x = bytes st x.
Proof.
  intros H Hc Hs Hd Xa (M1 & M2 & M3) Xn Hl. rewrite myrealloc_undo_unfold.
  pose proof (heap_base _ _ _ H) as Hbase.
  destruct (Heap_block _ _ _ _ _ H) as (_ & _ & _ & Hp & _).
  destruct (Z.eqb_spec (mem st + total pre) NULL) as [E|_]; [unfold NULL in E; lia|].
  destruct (Z.eqb_spec (mem st + total pre + sc + 8 + s + 8) NULL) as [E|_];
    [unfold NULL in E; lia|].
  cbn [negb andb].
  pose proof (node_space_block _ _ _ _ _ H) as Hsp. cbn [tag] in Hsp.
  destruct (Heap_splitBlock st pre post (sc + s + 8 + sd + 8) sc _ H
              ltac:(lia) ltac:(lia)) as [H1 _].
  replace (sc + s + 8 + sd + 8 - sc - 8) with (s + sd + 8) in H1 by lia.
  set (st1 := fst (splitBlock st (mem st + total pre) sc)) in *.
  assert (H1' : Heap st1 ((pre ++ [Free sc]) ++ Free (s + sd + 8) :: post) (f1 ++ f2)).
  { rewrite <- app_assoc. exact H1. }
  assert (Et : mem st1 + total (pre ++ [Free sc]) = mem st + total pre + sc + 8).
  { change (mem st1) with (mem st). rewrite total_snoc. cbn [size]. lia. }
  pose proof (node_space_block _ _ _ _ _ H1') as Hsp1. cbn [tag] in Hsp1.
  rewrite Et in Hsp1.
  set (h := mem st + total pre + sc + 8) in *.
  set (st2 := fst (splitBlock st1 h s)) in *.
  set (nh := h + s + 8) in *.
  rewrite restore_old_bytes by lia.
  rewrite addNode_other.
  - transitivity (bytes st1 x).
    + apply splitBlock_bytes; rewrite ?Hsp1; unfold nh in *; lia.
    + apply splitBlock_bytes; rewrite ?Hsp; unfold nh, h in *; lia.
  - unfold nh in *. lia.
  - change (freeList st2) with (freeList st). rewrite (Heap_freeList _ _ _ H).
    destruct (f1 ++ f2) as [|f t] eqn:Ef; [now left|right]. cbn [hd].
    specialize (Hl f (or_introl eq_refl)). lia.
Qed.

(** The links that [myrealloc] saved are put back byte for byte. *)
Lemma restore_old_links (st : state) (m : memory) (h s x : Z) :
  0 <= s -> h + 8 <= x < h + 24 -> 20 <= s ->
  bytes (restore_old st h s (h + 4 + s) (load_ptr m (h + off_next))
                     (load_ptr m (h + off_prev))) x = load_byte m x.
Proof.
  intros H0 Hx Hs. unfold restore_old. st_goal. consts_goal.
  rewrite store_int_other by lia.
  destruct (Z_lt_dec x (h + 16)) as [L|L].
  - rewrite store_ptr_other by lia. rewrite store_ptr_load_ptr by lia. f_equal. lia.
  - rewrite store_ptr_load_ptr by lia. f_equal. lia.
Qed.

Lemma myrealloc_null_eq (st : state) (pre post : list block) (s : Z) (fl : list Z)
      (sz : Z) (st' : state) :
  Inv st (pre ++ Used s :: post) fl -> 0 <= sz < 2 ^ 31 ->
  myrealloc st (mem st + total pre + 4) sz = Some (st', NULL) ->
  myfree st (mem st + total pre + 4) = Some (myfree_body st (mem st + total pre + 4)) /\
  myalloc (myfree_body st (mem st + total pre + 4)) sz =
    Some (myfree_body st (mem st + total pre + 4), NULL) /\
  st' = myrealloc_undo (myfree_body st (mem st + total pre + 4))
          (mem st + total pre) s (mem st + total pre + 4 + s)
          (node_next st (mem st + total pre)) (node_prev st (mem st + total pre))
          (rq_prevHeadptr st (mem st + total pre + 4))
          (rq_prevSpace st (mem st + total pre + 4))
          (rq_nextHeadptr st (mem st + total pre + 4)).
Proof.
  intros I Hsz E. pose proof (inv_heap _ _ _ I) as H.
  destruct (myfree_spec _ _ _ _ _ I)
    as (st1 & bs1 & fl1 & Efree & I1 & Em1 & Es1 & _ & _).
  pose proof (node_space_block _ _ _ _ _ H) as Hsp. cbn [tag] in Hsp.
  rewrite myrealloc_unfold, Efree in E. unfold sizeof_int in E.
  replace (mem st + total pre + 4 - 4) with (mem st + total pre) in E by lia.
  rewrite Hsp, Z.opp_involutive in E.
  pose proof (myfree_Some _ _ _ Efree) as Eb.
  destruct (myalloc_spec st1 bs1 fl1 sz I1 Hsz)
    as [[Ea _]|(pre2 & sp & post2 & l1 & l2 & st2 & Ebs & _ & _ & Ea & _)].
  - rewrite Ea, Z.eqb_refl in E. inversion E as [E']. subst st1.
    split; [exact Efree|]. split; [exact Ea|]. reflexivity.
  - rewrite Ea in E. exfalso.
    pose proof (heap_base _ _ _ (inv_heap _ _ _ I1)) as Hbase.
    subst bs1. destruct (Heap_block _ _ _ _ _ (inv_heap _ _ _ I1)) as (_&_&_&Hp2&_).
    destruct (Z.eqb_spec (mem st1 + total pre2 + 4) NULL) as [C|Hq];
      [unfold NULL in C; lia|].
    inversion E as [[E1 E2]]. unfold NULL in E2. lia.
Qed.

Lemma myrealloc_null_safe (st : state) (pre post : list block) (s : Z) (fl : list Z)
      (sz : Z) (st' : state) (x : Z) :
  Inv st (pre ++ Used s :: post) fl -> 0 <= sz < 2 ^ 31 ->
  myrealloc st (mem st + total pre + 4) sz = Some (st', NULL) ->
  ~ in_free_block (mem st) (pre ++ Used s :: post) x ->
  off_meta (mem st + total pre) s x ->
  bytes st' x = bytes st x.
Proof.
  intros I Hsz E Hnf Hoff. pose proof (inv_heap _ _ _ I) as H.
  destruct (myrealloc_null_eq _ _ _ _ _ _ _ I Hsz E) as (_ & _ & ->).
  pose proof (myfree_body_frame _ _ _ _ _ _ I Hnf Hoff) as F1.
  destruct (myfree_spec _ _ _ _ _ I)
    as (st1 & bs1 & fl1 & Ef & I1 & Em1 & Es1 & _ & Hshape).
  rewrite <- (myfree_Some _ _ _ Ef) in *.
  rewrite <- F1. pose proof (inv_heap _ _ _ I1) as H1.
  pose proof (links_not_free _ _ _ _ H Hnf) as Xl.
  set (tA := node_next st (mem st + total pre)).
  set (tB := node_prev st (mem st + total pre)).
  clearbody tA tB.
  destruct (Heap_block _ _ _ _ _ H) as (_ & _ & Hs & _). cbn [size] in Hs.
  destruct Hshape as [(Hl & Hh & -> & ->)
                     |[(Hh & pre' & sc & -> & -> & ->)
                     |[(Hl & sd & post' & f1 & f2 & -> & -> & -> & ->)
                     |(pre' & sc & sd & post' & f1 & f2 & -> & -> & -> & -> & ->)]]].
  - rewrite (rq_prev_none _ _ _ _ _ H Hl), (rq_next_none _ _ _ _ _ H Hh).
    rewrite <- Em1. apply (undo_frame_NN st1 pre post s tA tB _ fl x);
      rewrite ?Em1; assumption.
  - rewrite <- app_assoc in H, Hnf. cbn [app] in H, Hnf.
    assert (Et : mem st + total (pre' ++ [Free sc]) = mem st + total pre' + sc + 8).
    { rewrite total_snoc. cbn [size]. lia. }
    rewrite Et in *.
    destruct (rq_prev_free _ _ _ _ _ _ H) as [-> ->].
    assert (H' : Heap st ((pre' ++ [Free sc]) ++ Used s :: post) fl).
    { rewrite <- app_assoc. exact H. }
    pose proof (rq_next_none _ _ _ _ _ H' Hh) as En. rewrite Et in En. rewrite En.
    destruct (Heap_block _ _ _ _ _ H) as (_ & _ & Hc & _). cbn [size] in Hc.
    pose proof (not_free_mid _ _ _ _ _ Hnf) as Xa.
    rewrite <- Em1. apply (undo_frame_PN st1 pre' post sc s tA tB fl x);
      rewrite ?Em1; try assumption; lia.
  - rewrite (rq_prev_none _ _ _ _ _ H Hl), (rq_next_free _ _ _ _ _ _ H).
    pose proof (layout_bounds _ _ _ _ (heap_sizes _ _ _ H)
                  (layout_mid2 (mem st) pre post' (Used s) (Free sd))) as (_ & _ & Hsd).
    unfold min_payload, sizeof_node, sizeof_int in Hsd. cbn [size] in Hsd.
    pose proof (not_free_block _ _ _ _ _ Hnf
                  (layout_mid2 (mem st) pre post' (Used s) (Free sd))) as Xn.
    unfold extent, sizeof_int in Xn. cbn [size] in Xn.
    rewrite <- Em1. apply (undo_frame_NP st1 pre post' s sd tA tB _ f1 f2 x);
      rewrite ?Em1; try assumption; try lia.
    intros g Hg. apply Xl. apply in_app_iff in Hg.
    destruct Hg; [now apply in_mid_l|now apply in_mid_r].
  - rewrite <- app_assoc in H, Hnf. cbn [app] in H, Hnf.
    assert (Et : mem st + total (pre' ++ [Free sc]) = mem st + total pre' + sc + 8).
    { rewrite total_snoc. cbn [size]. lia. }
    rewrite Et in *.
    destruct (rq_prev_free _ _ _ _ _ _ H) as [-> ->].
    assert (H' : Heap st ((pre' ++ [Free sc]) ++ Used s :: Free sd :: post')
                      (f1 ++ (mem st + total pre' + sc + 8 + s + 8) :: f2)).
    { rewrite <- app_assoc. exact H. }
    pose proof (rq_next_free _ _ _ _ _ _ H') as En. rewrite Et in En. rewrite En.
    destruct (Heap_block _ _ _ _ _ H) as (_ & _ & Hc & _). cbn [size] in Hc.
    pose proof (layout_bounds _ _ _ _ (heap_sizes _ _ _ H)
                  (layout_mid3 (mem st) pre' post' (Free sc) (Used s) (Free sd)))
      as (_ & _ & Hsd).
    unfold min_payload, sizeof_node, sizeof_int in Hsd. cbn [size] in Hsd.
    pose proof (not_free_mid _ _ _ _ _ Hnf) as Xa.
    pose proof (not_free_block _ _ _ _ _ Hnf
                  (layout_mid3 (mem st) pre' post' (Free sc) (Used s) (Free sd))) as Xn.
    unfold extent, sizeof_int in Xn. cbn [size] in Xn.
    rewrite <- Em1. apply (undo_frame_PP st1 pre' post' sc s sd tA tB f1 f2 x);
      rewrite ?Em1; try assumption; try lia.
    intros g Hg. apply Xl. apply in_app_iff in Hg.
    destruct Hg; [now apply in_mid_l|now apply in_mid_r].
Qed.

Lemma nodup_same_perm (l l' : list Z) :
  NoDup l -> NoDup l' -> incl l l' -> incl l' l -> Permutation l l'.
Proof.
  intros N N' I1 I2. apply NoDup_Permutation; [exact N|exact N'|].
  intros x. split; [apply I1|apply I2].
Qed.

(** X22.  When [myrealloc] returns null the blocks are as before the call and the
    free list holds the nodes it held, maybe in another order; the payload of
    the block is as it was, and so are every other block in use and every
    byte outside the pool. *)
Theorem myrealloc_null_keeps_heap (st : state) (bs : list block) (fl : list Z)
        (p sz : Z) (st' : state) :
  Inv st bs fl -> In (p - 4) (used_addrs (mem st) bs) -> 0 < sz < 2 ^ 31 ->
  myrealloc st p sz = Some (st', NULL) ->
  (exists fl', Inv st' bs fl' /\ Permutation fl fl') /\
  (forall i, 0 <= i < - node_space st (p - 4) ->
     load_byte (bytes st') (p + i) = load_byte (bytes st) (p + i)) /\
  (forall y t, In (y, Used t) (layout (mem st) bs) -> y <> p - 4 ->
     forall x, y <= x < y + t + 8 -> bytes st' x = bytes st x) /\
  (forall x, x < mem st \/ mem st + MEMORY_SIZE st <= x -> bytes st' x = bytes st x).
Proof.
  intros I Hin Hsz E. pose proof (inv_heap _ _ _ I) as H.
  destruct (Held_block st [] bs p Hin) as (pre & s & post & -> & ->).
  replace (mem st + total pre + 4 - 4) with (mem st + total pre) by lia.
  rewrite (node_space_block _ _ _ _ _ H). cbn [tag]. rewrite Z.opp_involutive.
  destruct (Heap_block _ _ _ _ _ H) as (_ & _ & Hs & Hp & Hq & Htot). cbn [size] in *.
  pose proof (heap_sizes _ _ _ H) as Hsizes.
  assert (Hz : 0 <= sz < 2 ^ 31) by lia.
  pose proof (fun x => myrealloc_null_safe _ _ _ _ _ _ _ x I Hz E) as F.
  split; [|split; [|split]].
  - destruct (myrealloc_spec _ _ _ _ _ sz I Hz)
      as (st'' & q & bs' & fl' & Er & I' & Em & _ & Hq').
    rewrite Er in E. inversion E. subst st'' q. clear E.
    destruct Hq' as [[_ ->]|[C _]]; [|contradiction].
    exists fl'. split; [exact I'|].
    apply nodup_same_perm.
    + apply (heap_nodup _ _ _ H).
    + apply (heap_nodup _ _ _ (inv_heap _ _ _ I')).
    + intros g Hg. apply (inv_all _ _ _ I'). rewrite Em.
      apply (heap_incl _ _ _ H). exact Hg.
    + intros g Hg. apply (inv_all _ _ _ I).
      pose proof (heap_incl _ _ _ (inv_heap _ _ _ I') _ Hg) as Hg'.
      rewrite Em in Hg'. exact Hg'.
  - intros i Hi.
    assert (Hnf : ~ in_free_block (mem st) (pre ++ Used s :: post)
                      (mem st + total pre + 4 + i)).
    { apply (used_not_free _ _ (mem st + total pre) s _ Hsizes); [apply layout_mid|lia]. }
    destruct (Z_lt_dec i 4) as [L|L];
      [|destruct (Z_le_dec 20 i) as [G|G]].
    + unfold load_byte. rewrite F; [reflexivity|exact Hnf|]. unfold off_meta. lia.
    + unfold load_byte. rewrite F; [reflexivity|exact Hnf|]. unfold off_meta. lia.
    + destruct (myrealloc_null_eq _ _ _ _ _ _ _ I Hz E) as (_ & _ & ->).
      rewrite myrealloc_undo_unfold. unfold node_next, node_prev.
      unfold load_byte at 1. rewrite restore_old_links by lia.
      unfold load_byte. apply Z.mod_mod. lia.
  - intros y t Hy Hne x Hx. apply F.
    + apply (used_not_free _ _ _ _ _ Hsizes Hy Hx).
    + destruct (layout_sep _ _ _ _ _ _ Hsizes Hy (layout_mid (mem st) pre post (Used s)))
        as [[C _]|C]; [contradiction|].
      unfold extent, sizeof_int in C. cbn [size] in C. unfold off_meta. lia.
  - intros x Hx. apply F.
    + apply (outside_not_free _ _ _ Hsizes). rewrite (heap_total _ _ _ H). exact Hx.
    + unfold off_meta. lia.
Qed.

Lemma region_change (a : Z) (pre mid mid' post : list block) (x : Z) :
  total mid' = total mid ->
  in_free_block a (pre ++ mid' ++ post) x ->
  in_free_block a (pre ++ mid ++ post) x \/ in_free_block (a + total pre) mid' x.
Proof.
  intros Ht (y & c & Hin & Hx). apply layout_parts in Hin.
  destruct Hin as [Hin|[Hin|Hin]].
  - left. exists y, c. split; [|exact Hx]. apply layout_parts. now left.
  - right. exists y, c. split; assumption.
  - left. exists y, c. split; [|exact Hx]. apply layout_parts. right. right.
    rewrite <- Ht. exact Hin.
Qed.

Lemma in_free_one (b X x : Z) :
  in_free_block b [Free X] x -> b <= x < b + X + 8.
Proof.
  intros (y & c & Hin & Hx). cbn [layout] in Hin. destruct Hin as [Hin|[]].
  inversion Hin. subst. exact Hx.
Qed.

(** The free blocks after a release are the free blocks before it and the
    block released. *)
Lemma free_shape_region (a : Z) (pre post : list block) (s : Z) (fl : list Z)
      (bs' : list block) (fl' : list Z) (x : Z) :
  free_shape a pre post s fl bs' fl' ->
  in_free_block a bs' x ->
  in_free_block a (pre ++ Used s :: post) x \/
  a + total pre <= x < a + total pre + s + 8.
Proof.
  intros Hshape Hin.
  destruct Hshape as [(Hl & Hh & -> & ->)
                     |[(Hh & pre' & sc & -> & -> & ->)
                     |[(Hl & sd & post' & f1 & f2 & -> & -> & -> & ->)
                     |(pre' & sc & sd & post' & f1 & f2 & -> & -> & -> & -> & ->)]]].
  - destruct (region_change a pre [Used s] [Free s] post x eq_refl Hin) as [C|C];
      [now left|right]. apply in_free_one in C. exact C.
  - rewrite total_snoc. cbn [size]. rewrite <- app_assoc. cbn [app].
    destruct (region_change a pre' [Free sc; Used s] [Free (sc + s + 8)] post x) as [C|C].
    + cbn [total]. unfold extent, sizeof_int. cbn [size]. lia.
    + exact Hin.
    + now left.
    + apply in_free_one in C.
      destruct (Z_lt_dec x (a + total pre' + sc + 8)) as [L|L]; [left|right; lia].
      exists (a + total pre'), sc. split; [apply layout_mid|lia].
  - destruct (region_change a pre [Used s; Free sd] [Free (s + sd + 8)] post' x) as [C|C].
    + cbn [total]. unfold extent, sizeof_int. cbn [size]. lia.
    + exact Hin.
    + now left.
    + apply in_free_one in C.
      destruct (Z_lt_dec x (a + total pre + s + 8)) as [L|L]; [right; lia|left].
      exists (a + total pre + extent (Used s)), sd. split; [apply layout_mid2|].
      unfold extent, sizeof_int. cbn [size]. lia.
  - rewrite total_snoc. cbn [size]. rewrite <- app_assoc. cbn [app].
    destruct (region_change a pre' [Free sc; Used s; Free sd]
                [Free (sc + s + 8 + sd + 8)] post' x) as [C|C].
    + cbn [total]. unfold extent, sizeof_int. cbn [size]. lia.
    + exact Hin.
    + now left.
    + apply in_free_one in C.
      destruct (Z_lt_dec x (a + total pre' + sc + 8)) as [L|L].
      { left. exists (a + total pre'), sc. split; [apply layout_mid|lia]. }
      destruct (Z_lt_dec x (a + total pre' + sc + 8 + s + 8)) as [L'|L']; [right; lia|].
      left. exists (a + total pre' + extent (Free sc) + extent (Used s)), sd.
      split; [apply layout_mid3|]. unfold extent, sizeof_int. cbn [size]. lia.
Qed.

Lemma myrealloc_copy_other (st : state) (pre post : list block) (k : Z) (fl : list Z)
      (oldptr sz tA tB x : Z) :
  Heap st (pre ++ Used k :: post) fl ->
  x < mem st + total pre + 4 \/ mem st + total pre + 4 + k <= x ->
  bytes (myrealloc_copy st oldptr (mem st + total pre + 4) sz tA tB) x = bytes st x.
Proof.
  intros H Hx.
  destruct (Heap_block _ _ _ _ _ H) as (T1 & T2 & Hb & Hp & Hq & Htot).
  cbn [tag size] in *.
  pose proof (node_space_block _ _ _ _ _ H) as Hsp. cbn [tag] in Hsp.
  unfold myrealloc_copy. consts_goal.
  replace (mem st + total pre + 4 - 4) with (mem st + total pre) by lia.
  st_goal. unfold node_space in Hsp. rewrite Hsp, Z.opp_involutive.
  consts_goal.
  rewrite copy_loop_other by lia.
  mem_simpl. reflexivity.
Qed.

Lemma myrealloc_success_eq (st : state) (p sz : Z) (st' : state) (q : Z) :
  myrealloc st p sz = Some (st', q) -> q <> NULL ->
  exists st1 st2,
    myfree st p = Some st1 /\ myalloc st1 sz = Some (st2, q) /\
    st' = myrealloc_copy st2 p q sz (node_next st (p - sizeof_int))
                         (node_prev st (p - sizeof_int)).
Proof.
  rewrite myrealloc_unfold. intros E Hq.
  destruct (myfree st p) as [st1|]; [|discriminate E].
  destruct (myalloc st1 sz) as [[st2 q']|] eqn:Ea; [|discriminate E].
  exists st1, st2. split; [reflexivity|].
  destruct (Z.eqb_spec q' NULL) as [C|C].
  - inversion E. congruence.
  - inversion E. subst. split; [exact Ea|reflexivity].
Qed.

(** [myrealloc] writes to the block it is given and to free blocks only. *)
Lemma myrealloc_region (st : state) (pre post : list block) (s : Z) (fl : list Z)
      (sz : Z) (st' : state) (q x : Z) :
  Inv st (pre ++ Used s :: post) fl -> 0 <= sz < 2 ^ 31 ->
  myrealloc st (mem st + total pre + 4) sz = Some (st', q) ->
  ~ in_free_block (mem st) (pre ++ Used s :: post) x ->
  x < mem st + total pre \/ mem st + total pre + s + 8 <= x ->
  bytes st' x = bytes st x.
Proof.
  intros I Hsz E Hnf Hx. pose proof (inv_heap _ _ _ I) as H.
  destruct (Heap_block _ _ _ _ _ H) as (_ & _ & Hs & _). cbn [size] in Hs.
  assert (Hoff : off_meta (mem st + total pre) s x) by (unfold off_meta; lia).
  destruct (Z.eq_dec q NULL) as [->|Hq].
  { apply (myrealloc_null_safe _ _ _ _ _ _ _ _ I Hsz E Hnf Hoff). }
  destruct (myrealloc_success_eq _ _ _ _ _ E Hq) as (st1 & st2 & Ef & Ea & ->).
  destruct (myfree_spec _ _ _ _ _ I)
    as (st1' & bs1 & fl1 & Ef' & I1 & Em1 & Es1 & _ & Hshape).
  rewrite Ef in Ef'. inversion Ef'. subst st1'. clear Ef'.
  assert (F1 : bytes st1 x = bytes st x).
  { rewrite (myfree_Some _ _ _ Ef). apply (myfree_body_frame _ _ _ _ _ _ I Hnf Hoff). }
  assert (Hnf1 : ~ in_free_block (mem st1) bs1 x).
  { rewrite Em1. intros C.
    destruct (free_shape_region _ _ _ _ _ _ _ _ Hshape C) as [C'|C']; [contradiction|lia]. }
  assert (F2 : bytes st2 x = bytes st1 x).
  { apply (myalloc_region _ _ _ _ _ _ _ I1 Hsz Ea Hnf1). }
  rewrite <- F1, <- F2.
  destruct (myalloc_spec st1 bs1 fl1 sz I1 Hsz)
    as [[Ea' _]|(pre2 & sp & post2 & l1 & l2 & st2' & Ebs & _ & Hle & Ea' & Em2 & _ & _ & Hc)].
  { rewrite Ea' in Ea. inversion Ea. congruence. }
  rewrite Ea' in Ea. inversion Ea. subst st2' q. clear Ea.
  subst bs1. pose proof (not_free_mid _ _ _ _ _ Hnf1) as Xc.
  rewrite <- Em2 in Xc |- *.
  destruct Hc as [[Hbig I2]|[Hsmall I2]].
  - apply (myrealloc_copy_other _ _ _ _ _ _ _ _ _ _ (inv_heap _ _ _ I2)). lia.
  - apply (myrealloc_copy_other _ _ _ _ _ _ _ _ _ _ (inv_heap _ _ _ I2)). lia.
Qed.

(** X23.  Whatever it returns, [myrealloc] writes only in the block it was given
    and in blocks that were free: every other block in use keeps its tags and
    its payload, and no byte outside the pool changes. *)
Theorem myrealloc_frame (st : state) (bs : list block) (fl : list Z) (p sz : Z)
        (st' : state) (q : Z) :
  Inv st bs fl -> In (p - 4) (used_addrs (mem st) bs) -> 0 < sz < 2 ^ 31 ->
  myrealloc st p sz = Some (st', q) ->
  (forall x, ~ in_free_block (mem st) bs x ->
     x < p - 4 \/ p - node_space st (p - 4) + 4 <= x ->
     bytes st' x = bytes st x) /\
  (forall y t, In (y, Used t) (layout (mem st) bs) -> y <> p - 4 ->
     forall x, y <= x < y + t + 8 -> bytes st' x = bytes st x) /\
  (forall x, x < mem st \/ mem st + MEMORY_SIZE st <= x -> bytes st' x = bytes st x).
Proof.
  intros I Hin Hsz E. pose proof (inv_heap _ _ _ I) as H.
  destruct (Held_block st [] bs p Hin) as (pre & s & post & -> & ->).
  replace (mem st + total pre + 4 - 4) with (mem st + total pre) by lia.
  rewrite (node_space_block _ _ _ _ _ H). cbn [tag].
  destruct (Heap_block _ _ _ _ _ H) as (_ & _ & Hs & Hp & Hq & Htot). cbn [size] in *.
  pose proof (heap_sizes _ _ _ H) as Hsizes.
  assert (Hz : 0 <= sz < 2 ^ 31) by lia.
  pose proof (fun x => myrealloc_region _ _ _ _ _ _ _ _ x I Hz E) as F.
  split; [intros x Hnf Hx; apply F; [exact Hnf|lia]|]. split.
  - intros y t Hy Hne x Hx. apply F.
    + apply (used_not_free _ _ _ _ _ Hsizes Hy Hx).
    + destruct (layout_sep _ _ _ _ _ _ Hsizes Hy (layout_mid (mem st) pre post (Used s)))
        as [[C _]|C]; [contradiction|].
      unfold extent, sizeof_int in C. cbn [size] in C. lia.
  - intros x Hx. apply F.
    + apply (outside_not_free _ _ _ Hsizes). rewrite (heap_total _ _ _ H). exact Hx.
    + lia.
Qed.

End Reallocation.

Section RunFrames.

Lemma exec_region (st : state) (live : list Z) (o : op) (st' : state) (live' : list Z)
      (bs : list block) (fl : list Z) (x : Z) :
  Inv st bs fl ->
  (forall p, In p live -> In (p - 4) (used_addrs (mem st) bs)) ->
  exec st live o = Done st' live' ->
  ~ in_free_block (mem st) bs x -> ~ writes st o x ->
  bytes st' x = bytes st x.
Proof.
  intros I Hl E Hnf Hw. pose proof (inv_heap _ _ _ I) as H.
  destruct o as [n|p|p n|p i v]; cbn [exec writes] in E, Hw.
  - destruct (is_size n) eqn:En; [|discriminate E].
    unfold is_size in En. apply andb_true_iff in En. destruct En as [E1 E2].
    apply Z.ltb_lt in E1, E2.
    destruct (myalloc st n) as [[st1 q]|] eqn:Ea; [|discriminate E].
    inversion E. subst st1.
    assert (Hr : 0 <= n < 2 ^ 31) by lia.
    apply (myalloc_region _ _ _ _ _ _ _ I Hr Ea Hnf).
  - destruct (holds p live) eqn:Eh; [|discriminate E]. apply holds_In in Eh.
    destruct (Held_block st live bs p (Hl p Eh)) as (pre & s & post & -> & ->).
    destruct (myfree st (mem st + total pre + 4)) as [st1|] eqn:Ef; [|discriminate E].
    inversion E. subst st1. rewrite (myfree_Some _ _ _ Ef).
    replace (mem st + total pre + 4 - 4) with (mem st + total pre) in Hw by lia.
    rewrite (node_space_block _ _ _ _ _ H) in Hw. cbn [tag] in Hw.
    rewrite Z.opp_involutive in Hw.
    destruct (Heap_block _ _ _ _ _ H) as (_ & _ & Hs & _). cbn [size] in Hs.
    apply (myfree_body_frame _ _ _ _ _ _ I Hnf). unfold off_meta. lia.
  - destruct (holds p live) eqn:Eh; [|discriminate E]. apply holds_In in Eh.
    destruct (is_size n) eqn:En; [|discriminate E]. cbn [andb] in E.
    unfold is_size in En. apply andb_true_iff in En. destruct En as [E1 E2].
    apply Z.ltb_lt in E1, E2.
    destruct (Held_block st live bs p (Hl p Eh)) as (pre & s & post & -> & ->).
    destruct (myrealloc st (mem st + total pre + 4) n) as [[st1 q]|] eqn:Er;
      [|discriminate E].
    inversion E. subst st1.
    replace (mem st + total pre + 4 - 4) with (mem st + total pre) in Hw by lia.
    rewrite (node_space_block _ _ _ _ _ H) in Hw. cbn [tag] in Hw.
    rewrite Z.opp_involutive in Hw.
    assert (Hr : 0 <= n < 2 ^ 31) by lia.
    apply (myrealloc_region _ _ _ _ _ _ _ _ _ I Hr Er Hnf). lia.
  - destruct (holds p live && (0 <=? i) && (i <? - node_space st (p - sizeof_int)));
      [|discriminate E].
    inversion E. unfold write_byte. st_goal. apply store_byte_other. exact Hw.
Qed.

Lemma run_outside (ops : list op) : forall (st : state) (live : list Z)
      (st' : state) (live' : list Z) (x : Z),
  Held st live -> run st live ops = Done st' live' ->
  x < mem st \/ mem st + MEMORY_SIZE st <= x ->
  bytes st' x = bytes st x.
Proof.
  induction ops as [|o ops IH]; intros st live st' live' x Hh E Hx.
  - cbn [run] in E. inversion E. reflexivity.
  - cbn [run] in E. pose proof (exec_Held st live o Hh) as Hstep.
    destruct (exec st live o) as [st1 live1| |] eqn:Ee; [|discriminate E|discriminate E].
    destruct Hstep as (Hh1 & Em & Es).
    rewrite (IH st1 live1 st' live' x Hh1 E) by (rewrite Em, Es; exact Hx).
    destruct Hh as (bs & fl & I & Hl). pose proof (inv_heap _ _ _ I) as H.
    apply (exec_region _ _ _ _ _ _ _ _ I Hl Ee).
    + apply (outside_not_free _ _ _ (heap_sizes _ _ _ H)).
      rewrite (heap_total _ _ _ H). exact Hx.
    + destruct o as [n|p|p n|p i v]; cbn [exec writes] in Ee |- *.
      * intros [].
      * destruct (holds p live) eqn:Eh; [|discriminate Ee]. apply holds_In in Eh.
        destruct (Held_block st live bs p (Hl p Eh)) as (pre & s & post & -> & ->).
        replace (mem st + total pre + 4 - 4) with (mem st + total pre) by lia.
        rewrite (node_space_block _ _ _ _ _ H). cbn [tag]. rewrite Z.opp_involutive.
        destruct (Heap_block _ _ _ _ _ H) as (_ & _ & Hs & Hp & Hq & Htot).
        cbn [size] in *. lia.
      * destruct (holds p live) eqn:Eh; [|discriminate Ee]. apply holds_In in Eh.
        destruct (Held_block st live bs p (Hl p Eh)) as (pre & s & post & -> & ->).
        replace (mem st + total pre + 4 - 4) with (mem st + total pre) by lia.
        rewrite (node_space_block _ _ _ _ _ H). cbn [tag]. rewrite Z.opp_involutive.
        destruct (Heap_block _ _ _ _ _ H) as (_ & _ & Hs & Hp & Hq & Htot).
        cbn [size] in *. lia.
      * destruct (holds p live) eqn:Eh; [|discriminate Ee]. apply holds_In in Eh.
        cbn [andb] in Ee.
        destruct (Z.leb_spec 0 i) as [Hi|_]; [|discriminate Ee]. cbn [andb] in Ee.
        destruct (Held_block st live bs p (Hl p Eh)) as (pre & s & post & -> & ->).
        unfold sizeof_int in Ee.
        replace (mem st + total pre + 4 - 4) with (mem st + total pre) in Ee by lia.
        rewrite (node_space_block _ _ _ _ _ H) in Ee. cbn [tag] in Ee.
        rewrite Z.opp_involutive in Ee.
        destruct (Z.ltb_spec i s) as [Hi'|_]; [|discriminate Ee].
        destruct (Heap_block _ _ _ _ _ H) as (_ & _ & Hs & Hp & Hq & Htot).
        cbn [size] in *. lia.
Qed.

(** X24.  A well-formed sequence of operations never writes outside the pool. *)
Theorem run_writes_inside_pool (n base : Z) (m0 : memory) (ops : list op)
        (st : state) (live : list Z) :
  28 <= n < 2 ^ 31 -> 0 < base -> base + n < 2 ^ 64 ->
  run (init_myalloc n base m0) [] ops = Done st live ->
  forall x, x < base \/ base + n <= x -> bytes st x = m0 x.
Proof.
  intros Hn Hb Ht E x Hx.
  assert (H0 : Held (init_myalloc n base m0) []).
  { exists [Free (n - 8)], [base]. split; [now apply Inv_init|]. intros p []. }
  rewrite (run_outside ops _ _ _ _ x H0 E) by exact Hx.
  unfold init_myalloc, addNode. st_goal. consts_goal.
  rewrite (to_int_id (n - 2 * 4)) by lia. cbn [Z.eqb]. st_goal.
  rewrite !Z.add_0_r. mem_simpl. reflexivity.
Qed.

Lemma block_of_live (st : state) (bs : list block) (fl : list Z) (p : Z) :
  Heap st bs fl -> In (p - 4) (used_addrs (mem st) bs) ->
  In (p - 4, Used (- node_space st (p - 4))) (layout (mem st) bs).
Proof.
  intros H Hin. apply used_addrs_layout in Hin. destruct Hin as [s Hin].
  rewrite (node_space_layout _ _ _ _ _ H Hin). cbn [tag]. rewrite Z.opp_involutive.
  exact Hin.
Qed.

Lemma exec_keeps (st : state) (live : list Z) (o : op) (st' : state) (live' : list Z)
      (p : Z) :
  Held st live -> In p live -> touches o p = false ->
  exec st live o = Done st' live' ->
  In p live' /\
  forall x, p - 4 <= x < p + - node_space st (p - 4) + 4 -> bytes st' x = bytes st x.
Proof.
  intros (bs & fl & I & Hl) Hp Ht E. pose proof (inv_heap _ _ _ I) as H.
  pose proof (heap_sizes _ _ _ H) as Hs.
  pose proof (block_of_live _ _ _ _ H (Hl p Hp)) as Bp.
  set (s := - node_space st (p - 4)) in *.
  split.
  - destruct o as [n|q|q n|q i v]; cbn [exec touches] in E, Ht.
    + destruct (is_size n); [|discriminate E].
      destruct (myalloc st n) as [[st1 q]|]; [|discriminate E]. inversion E.
      destruct (q =? NULL); [exact Hp|now right].
    + destruct (holds q live); [|discriminate E].
      destruct (myfree st q); [|discriminate E]. inversion E.
      apply in_in_remove; [|exact Hp]. apply Z.eqb_neq in Ht. congruence.
    + destruct (holds q live && is_size n); [|discriminate E].
      destruct (myrealloc st q n) as [[st1 r]|]; [|discriminate E]. inversion E.
      destruct (r =? NULL); [exact Hp|]. right.
      apply in_in_remove; [|exact Hp]. apply Z.eqb_neq in Ht. congruence.
    + destruct (holds q live && (0 <=? i) && (i <? - node_space st (q - sizeof_int)));
        [|discriminate E].
      inversion E. subst. exact Hp.
  - intros x Hx. apply (exec_region _ _ _ _ _ _ _ _ I Hl E).
    + apply (used_not_free _ _ (p - 4) s _ Hs Bp). lia.
    + assert (Hother : forall q, In q live -> q <> p ->
                ~ (q - 4 <= x < q + - node_space st (q - 4) + 4)).
      { intros q Hq Hne C.
        pose proof (block_of_live _ _ _ _ H (Hl q Hq)) as Bq.
        destruct (layout_sep _ _ _ _ _ _ Hs Bp Bq) as [[C1 _]|C1]; [lia|].
        unfold extent, sizeof_int in C1. cbn [size] in C1. fold s in C1. lia. }
      destruct o as [n|q|q n|q i v]; cbn [exec touches writes] in E, Ht |- *.
      * intros [].
      * destruct (holds q live) eqn:Eh; [|discriminate E]. apply holds_In in Eh.
        apply Z.eqb_neq in Ht. apply (Hother q Eh Ht).
      * destruct (holds q live) eqn:Eh; [|discriminate E]. apply holds_In in Eh.
        apply Z.eqb_neq in Ht. apply (Hother q Eh Ht).
      * destruct (holds q live) eqn:Eh; [|discriminate E]. apply holds_In in Eh.
        cbn [andb] in E.
        destruct (Z.leb_spec 0 i) as [Hi|_]; [|discriminate E]. cbn [andb] in E.
        destruct (Z.ltb_spec i (- node_space st (q - sizeof_int))) as [Hi'|_];
          [|discriminate E].
        apply Z.eqb_neq in Ht. unfold sizeof_int in Hi'.
        intros ->. apply (Hother q Eh Ht). lia.
Qed.

Lemma run_keeps (ops : list op) : forall (st : state) (live : list Z)
      (st' : state) (live' : list Z) (p : Z),
  Held st live -> In p live ->
  (forall o, In o ops -> touches o p = false) ->
  run st live ops = Done st' live' ->
  In p live' /\
  forall x, p - 4 <= x < p + - node_space st (p - 4) + 4 -> bytes st' x = bytes st x.
Proof.
  induction ops as [|o ops IH]; intros st live st' live' p Hh Hp Ht E.
  - cbn [run] in E. inversion E. subst. split; [exact Hp|reflexivity].
  - cbn [run] in E. pose proof (exec_Held st live o Hh) as Hstep.
    destruct (exec st live o) as [st1 live1| |] eqn:Ee; [|discriminate E|discriminate E].
    destruct Hstep as (Hh1 & Em & Es).
    destruct (exec_keeps _ _ _ _ _ p Hh Hp (Ht o (or_introl eq_refl)) Ee) as [Hp1 F1].
    assert (Esp : node_space st1 (p - 4) = node_space st (p - 4)).
    { unfold node_space, off_space. rewrite !Z.add_0_r. apply load_int_ext.
      intros x Hx. apply F1.
      destruct Hh as (bs & fl & I & Hl).
      pose proof (block_of_live _ _ _ _ (inv_heap _ _ _ I) (Hl p Hp)) as Bp.
      pose proof (layout_bounds _ _ _ _ (heap_sizes _ _ _ (inv_heap _ _ _ I)) Bp)
        as (_ & _ & B).
      unfold min_payload, sizeof_node, sizeof_int in B. cbn [size] in B. lia. }
    destruct (IH st1 live1 st' live' p Hh1 Hp1 (fun o' Ho => Ht o' (or_intror Ho)) E)
      as [Hp' F].
    split; [exact Hp'|]. intros x Hx. rewrite F by (rewrite Esp; exact Hx).
    apply F1. exact Hx.
Qed.

(** X25.  A block held keeps its size and its payload, byte for byte, through every
    later operation that is not a release, a reallocation or a store on it. *)
Theorem live_block_kept (n base : Z) (m0 : memory) (ops1 ops2 : list op)
        (st1 : state) (live1 : list Z) (st2 : state) (live2 : list Z) (p : Z) :
  28 <= n < 2 ^ 31 -> 0 < base -> base + n < 2 ^ 64 ->
  run (init_myalloc n base m0) [] ops1 = Done st1 live1 ->
  In p live1 ->
  (forall o, In o ops2 -> touches o p = false) ->
  run st1 live1 ops2 = Done st2 live2 ->
  In p live2 /\
  node_space st2 (p - 4) = node_space st1 (p - 4) /\
  forall i, 0 <= i < - node_space st1 (p - 4) -> bytes st2 (p + i) = bytes st1 (p + i).
Proof.
  intros Hn Hb Htop E1 Hp Ht E2.
  assert (H0 : Held (init_myalloc n base m0) []).
  { exists [Free (n - 8)], [base]. split; [now apply Inv_init|]. intros q []. }
  pose proof (run_Held ops1 _ _ H0) as Hh1. rewrite E1 in Hh1.
  destruct Hh1 as (Hh1 & _ & _).
  destruct (run_keeps ops2 _ _ _ _ p Hh1 Hp Ht E2) as [Hp2 F].
  destruct Hh1 as (bs & fl & I & Hl).
  pose proof (block_of_live _ _ _ _ (inv_heap _ _ _ I) (Hl p Hp)) as Bp.
  pose proof (layout_bounds _ _ _ _ (heap_sizes _ _ _ (inv_heap _ _ _ I)) Bp)
    as (_ & _ & B).
  unfold min_payload, sizeof_node, sizeof_int in B. cbn [size] in B.
  split; [exact Hp2|]. split.
  - unfold node_space, off_space. rewrite !Z.add_0_r. apply load_int_ext.
    intros x Hx. apply F. lia.
  - intros i Hi. apply F. lia.
Qed.

End RunFrames.

Section Moving.

(** X26.  When the block before the one given is not free, a successful
    [myrealloc] returns a pointer whose first [min(old payload, size)] bytes
    are those of the old payload. *)
Theorem myrealloc_moves_payload (st : state) (pre post : list block) (s : Z)
        (fl : list Z) (sz : Z) (st' : state) (q : Z) :
  Inv st (pre ++ Used s :: post) fl -> last_free pre = false ->
  0 < sz < 2 ^ 31 ->
  myrealloc st (mem st + total pre + 4) sz = Some (st', q) -> q <> NULL ->
  forall i, 0 <= i < Z.min s sz ->
    load_byte (bytes st') (q + i) = load_byte (bytes st) (mem st + total pre + 4 + i).
Proof.
  intros I Hl Hsz E Hq. pose proof (inv_heap _ _ _ I) as H.
  pose proof (heap_sizes _ _ _ H) as Hsizes.
  destruct (Heap_block _ _ _ _ _ H) as (_ & _ & Hs & Hp0 & _). cbn [size] in Hs.
  assert (Hz : 0 <= sz < 2 ^ 31) by lia.
  destruct (myrealloc_success_eq _ _ _ _ _ E Hq) as (st1 & st2 & Ef & Ea & ->).
  destruct (myfree_spec _ _ _ _ _ I)
    as (st1' & bs1 & fl1 & Ef' & I1 & Em1 & Es1 & _ & Hshape).
  rewrite Ef in Ef'. inversion Ef'. subst st1'. clear Ef'.
  pose proof (inv_heap _ _ _ I1) as H1.
  pose proof (heap_sizes _ _ _ H1) as Hsizes1.
  set (h := mem st + total pre) in *.
  (* the bytes of the old payload that the release leaves alone *)
  assert (K : forall j, 0 <= j < 4 \/ 20 <= j < s ->
            bytes st1 (h + 4 + j) = bytes st (h + 4 + j)).
  { intros j Hj. rewrite (myfree_Some _ _ _ Ef).
    apply (myfree_body_frame _ _ _ _ _ _ I).
    - apply (used_not_free _ _ h s _ Hsizes); [apply layout_mid|lia].
    - unfold off_meta. fold h. lia. }
  (* the block that holds them after the release *)
  assert (M : exists X, s <= X /\ In (h, Free X) (layout (mem st) bs1)).
  { destruct Hshape as [(_ & _ & -> & _)
                       |[(_ & pre' & sc & -> & _)
                       |[(_ & sd & post' & f1 & f2 & -> & _ & -> & _)
                       |(pre' & sc & _ & _ & _ & _ & -> & _)]]].
    - exists s. split; [lia|apply layout_mid].
    - rewrite last_free_snoc in Hl. discriminate Hl.
    - exists (s + sd + 8). split; [|apply layout_mid].
      pose proof (layout_bounds _ _ _ _ Hsizes
                    (layout_mid2 (mem st) pre post' (Used s) (Free sd))) as (_ & _ & B).
      unfold min_payload, sizeof_node, sizeof_int in B. cbn [size] in B. lia.
    - rewrite last_free_snoc in Hl. discriminate Hl. }
  destruct M as (X & HX & MX).
  destruct (myalloc_spec st1 bs1 fl1 sz I1 Hz)
    as [[Ea' _]|(pre2 & sp & post2 & l1 & l2 & st2' & Ebs & Efl & Hle & Ea' & Em2 & _ &
                 Hframe & Hc)].
  { rewrite Ea' in Ea. inversion Ea. congruence. }
  rewrite Ea' in Ea. inversion Ea as [[Est Eq]]. subst st2' q. clear Ea.
  rewrite Em1 in *. set (h2 := mem st + total pre2) in *.
  subst bs1 fl1.
  destruct (Heap_block _ _ _ _ _ H1) as (_ & _ & Hsp & _). cbn [size] in Hsp.
  pose proof (layout_mid (mem st) pre2 post2 (Free sp)) as M2. fold h2 in M2.
  (* where the new block lies *)
  assert (P : h2 = h \/ h2 + sp + 8 <= h \/ h + X + 8 <= h2).
  { destruct (layout_sep _ _ _ _ _ _ Hsizes1 M2 MX) as [[C _]|C]; [now left|right].
    unfold extent, sizeof_int in C. cbn [size] in C. lia. }
  (* the allocation leaves the same bytes alone *)
  assert (K2 : forall j, 0 <= j < 4 \/ 20 <= j < Z.min s sz ->
             bytes st2 (h + 4 + j) = bytes st1 (h + 4 + j)).
  { intros j Hj. destruct P as [P|P].
    - assert (E2 : st2 = myalloc_take st1 h2 sz).
      { rewrite (myalloc_Some_take _ _ _ _ Ea' Hq). f_equal. lia. }
      pose proof (myalloc_take_inner st1 pre2 post2 sp l1 l2 sz (h + 4 + j)) as T.
      rewrite Em1 in T. fold h2 in T.
      rewrite E2. apply T; [exact H1|lia|]. rewrite P. lia.
    - apply Hframe; [lia|].
      apply (not_relinked _ _ _ _ _ _ H1). intros g Hg.
      pose proof (heap_incl _ _ _ H1 _ Hg) as Hin. rewrite Em1 in Hin.
      apply free_addrs_layout in Hin. destruct Hin as [c Hin].
      pose proof (layout_bounds _ _ _ _ Hsizes1 Hin) as (_ & _ & B).
      unfold min_payload, sizeof_node, sizeof_int in B. cbn [size] in B.
      destruct (layout_sep _ _ _ _ _ _ Hsizes1 Hin MX) as [[C _]|C].
      + subst g. lia.
      + unfold extent, sizeof_int in C. cbn [size] in C. lia. }
  (* the block handed out *)
  assert (B2 : exists k2 post3 fl2, sz <= k2 /\ k2 <= sp /\
             Heap st2 (pre2 ++ Used k2 :: post3) fl2).
  { destruct Hc as [[Hbig I2]|[Hsmall I2]].
    - eexists _, _, _. split; [|split; [|apply (inv_heap _ _ _ I2)]]; lia.
    - eexists _, _, _. split; [|split; [|apply (inv_heap _ _ _ I2)]]; lia. }
  destruct B2 as (k2 & post3 & fl2 & Hk1 & Hk2 & H2).
  pose proof (node_space_block _ _ _ _ _ H2) as Hsp2. cbn [tag] in Hsp2.
  rewrite Em2 in Hsp2. fold h2 in Hsp2.
  intros i Hi.
  unfold node_space, off_space in Hsp2. rewrite Z.add_0_r in Hsp2.
  unfold myrealloc_copy. st_goal. consts_goal.
  replace (h2 + 4 - 4) with h2 by lia.
  replace (h + 4 - 4) with h by lia.
  rewrite !Z.add_0_r. rewrite Hsp2, Z.opp_involutive.
  replace (Z.min k2 sz) with sz by lia. change (24 - 4) with 20.
  assert (KK : forall j, 0 <= j < 4 \/ 20 <= j < Z.min s sz ->
             load_byte (bytes st2) (h + 4 + j) = load_byte (bytes st) (h + 4 + j)).
  { intros j Hj. unfold load_byte. rewrite K2 by exact Hj. rewrite K by lia.
    reflexivity. }
  assert (MM : forall v, (load_byte (bytes st) v) mod 256 = load_byte (bytes st) v).
  { intros v. unfold load_byte. apply Z.mod_mod. lia. }
  destruct (Z_lt_dec i 4) as [L4|L4].
  { unfold load_byte at 1. rewrite copy_loop_other by lia.
    rewrite !store_ptr_other by lia. rewrite store_int_load_int by lia.
    replace (h + 4 + (h2 + 4 + i - (h2 + 4))) with (h + 4 + i) by lia.
    rewrite KK by lia. apply MM. }
  destruct (Z_lt_dec i 12) as [L12|L12].
  { unfold load_byte at 1. rewrite copy_loop_other by lia.
    rewrite store_ptr_other by lia. rewrite store_ptr_load_ptr by lia.
    replace (h + 8 + (h2 + 4 + i - (h2 + 8))) with (h + 4 + i) by lia.
    apply MM. }
  destruct (Z_lt_dec i 20) as [L20|L20].
  { unfold load_byte at 1. rewrite copy_loop_other by lia.
    rewrite store_ptr_load_ptr by lia.
    replace (h + 16 + (h2 + 4 + i - (h2 + 16))) with (h + 4 + i) by lia.
    apply MM. }
  rewrite copy_loop_byte; [| rewrite Z2Nat.id by lia; lia | lia ].
  rewrite <- KK by lia. unfold load_byte.
  rewrite !store_ptr_other by lia. rewrite store_int_other by lia. reflexivity.
Qed.

End Moving.

Section Ownership.

Lemma NoDup_remove_elt (p : Z) (l : list Z) :
  NoDup l -> NoDup (remove Z.eq_dec p l).
Proof.
  induction 1 as [|x l Hx Hnd IH]; cbn [remove]; [constructor|].
  destruct (Z.eq_dec p x) as [_|_]; [exact IH|].
  constructor; [|exact IH]. intros C. apply in_remove in C. now apply Hx.
Qed.

Lemma used_addrs_bounds (bs : list block) (a u : Z) :
  sizes_ok bs -> In u (used_addrs a bs) -> a <= u /\ u + 28 <= a + total bs.
Proof.
  intros Hs Hin. apply used_addrs_layout in Hin. destruct Hin as [t Hin].
  pose proof (layout_bounds _ _ _ _ Hs Hin) as B.
  unfold extent, min_payload, sizeof_node, sizeof_int in B. cbn [size] in B. lia.
Qed.

Lemma used_parts (a : Z) (pre mid post : list block) (u : Z) :
  In u (used_addrs a (pre ++ mid ++ post)) <->
  In u (used_addrs a pre) \/ In u (used_addrs (a + total pre) mid) \/
  In u (used_addrs (a + total pre + total mid) post).
Proof. rewrite !used_addrs_app, !in_app_iff. tauto. Qed.

Lemma free_not_used (a : Z) (bs : list block) (y c : Z) :
  sizes_ok bs -> In (y, Free c) (layout a bs) -> ~ In y (used_addrs a bs).
Proof.
  intros Hs Hin Hu. apply used_addrs_layout in Hu. destruct Hu as [t Hu].
  destruct (layout_sep _ _ _ _ _ _ Hs Hin Hu) as [[_ C]|C]; [discriminate C|].
  pose proof (layout_bounds _ _ _ _ Hs Hin) as B1.
  pose proof (layout_bounds _ _ _ _ Hs Hu) as B2.
  unfold extent, min_payload, sizeof_node, sizeof_int in *. cbn [size] in *. lia.
Qed.

(** The blocks in use after a release are those in use before it, but for
    the block released. *)
Lemma used_mid_drop (a : Z) (pre mid mid' post : list block) (u : Z) :
  sizes_ok pre -> sizes_ok post -> total mid' = total mid ->
  used_addrs (a + total pre) mid' = [] ->
  In u (used_addrs a (pre ++ mid' ++ post)) ->
  In u (used_addrs a (pre ++ mid ++ post)) /\
  (u + 28 <= a + total pre \/ a + total pre + total mid <= u).
Proof.
  intros Hs1 Hs3 Ht He Hin. apply used_parts in Hin. rewrite He in Hin.
  destruct Hin as [Hin|[[]|Hin]].
  - split; [apply used_parts; now left|].
    pose proof (used_addrs_bounds _ _ _ Hs1 Hin). lia.
  - rewrite Ht in Hin. split; [apply used_parts; right; now right|].
    pose proof (used_addrs_bounds _ _ _ Hs3 Hin). lia.
Qed.

Lemma free_shape_used (a : Z) (pre post : list block) (s : Z) (fl : list Z)
      (bs' : list block) (fl' : list Z) (u : Z) :
  sizes_ok (pre ++ Used s :: post) ->
  free_shape a pre post s fl bs' fl' ->
  In u (used_addrs a bs') ->
  In u (used_addrs a (pre ++ Used s :: post)) /\ u <> a + total pre.
Proof.
  intros Hs Hshape Hin.
  destruct Hshape as [(Hl & Hh & -> & ->)
                     |[(Hh & pre' & sc & -> & -> & ->)
                     |[(Hl & sd & post' & f1 & f2 & -> & -> & -> & ->)
                     |(pre' & sc & sd & post' & f1 & f2 & -> & -> & -> & -> & ->)]]].
  - apply sizes_ok_app in Hs. destruct Hs as [Hs1 Hs]. apply sizes_ok_cons in Hs.
    destruct Hs as [Hb Hs3]. unfold min_payload, sizeof_node, sizeof_int in Hb.
    cbn [size] in Hb.
    destruct (used_mid_drop a pre [Used s] [Free s] post u Hs1 Hs3 eq_refl eq_refl Hin)
      as [U B].
    split; [exact U|]. cbn [total] in B. unfold extent, sizeof_int in B. cbn [size] in B.
    lia.
  - rewrite <- app_assoc in Hs |- *. cbn [app] in Hs |- *. rewrite total_snoc. cbn [size].
    apply sizes_ok_app in Hs. destruct Hs as [Hs1 Hs]. apply sizes_ok_cons in Hs.
    destruct Hs as [Hc Hs]. apply sizes_ok_cons in Hs. destruct Hs as [Hb Hs3].
    unfold min_payload, sizeof_node, sizeof_int in Hb, Hc. cbn [size] in Hb, Hc.
    destruct (used_mid_drop a pre' [Free sc; Used s] [Free (sc + s + 8)] post u Hs1 Hs3)
      as [U B]; try reflexivity; try exact Hin.
    + cbn [total]. unfold extent, sizeof_int. cbn [size]. lia.
    + split; [exact U|]. cbn [total] in B. unfold extent, sizeof_int in B.
      cbn [size] in B. lia.
  - apply sizes_ok_app in Hs. destruct Hs as [Hs1 Hs]. apply sizes_ok_cons in Hs.
    destruct Hs as [Hb Hs]. apply sizes_ok_cons in Hs. destruct Hs as [Hd Hs3].
    unfold min_payload, sizeof_node, sizeof_int in Hb, Hd. cbn [size] in Hb, Hd.
    destruct (used_mid_drop a pre [Used s; Free sd] [Free (s + sd + 8)] post' u Hs1 Hs3)
      as [U B]; try reflexivity; try exact Hin.
    + cbn [total]. unfold extent, sizeof_int. cbn [size]. lia.
    + split; [exact U|]. cbn [total] in B. unfold extent, sizeof_int in B.
      cbn [size] in B. lia.
  - rewrite <- app_assoc in Hs |- *. cbn [app] in Hs |- *. rewrite total_snoc. cbn [size].
    apply sizes_ok_app in Hs. destruct Hs as [Hs1 Hs]. apply sizes_ok_cons in Hs.
    destruct Hs as [Hc Hs]. apply sizes_ok_cons in Hs. destruct Hs as [Hb Hs].
    apply sizes_ok_cons in Hs. destruct Hs as [Hd Hs3].
    unfold min_payload, sizeof_node, sizeof_int in Hb, Hc, Hd. cbn [size] in Hb, Hc, Hd.
    destruct (used_mid_drop a pre' [Free sc; Used s; Free sd]
                [Free (sc + s + 8 + sd + 8)] post' u Hs1 Hs3)
      as [U B]; try reflexivity; try exact Hin.
    + cbn [total]. unfold extent, sizeof_int. cbn [size]. lia.
    + split; [exact U|]. cbn [total] in B. unfold extent, sizeof_int in B.
      cbn [size] in B. lia.
Qed.

Lemma myfree_used (st : state) (pre post : list block) (s : Z) (fl : list Z) :
  Inv st (pre ++ Used s :: post) fl ->
  exists st' bs' fl',
    myfree st (mem st + total pre + 4) = Some st' /\
    Inv st' bs' fl' /\ mem st' = mem st /\ MEMORY_SIZE st' = MEMORY_SIZE st /\
    forall u, In u (used_addrs (mem st) bs') <->
              In u (used_addrs (mem st) (pre ++ Used s :: post)) /\ u <> mem st + total pre.
Proof.
  intros I.
  destruct (myfree_spec _ _ _ _ _ I) as (st' & bs' & fl' & Ef & I' & Em & Es & Hu & Hshape).
  exists st', bs', fl'. split; [exact Ef|]. split; [exact I'|]. split; [exact Em|].
  split; [exact Es|]. intros u. split.
  - apply (free_shape_used _ _ _ _ _ _ _ _ (heap_sizes _ _ _ (inv_heap _ _ _ I)) Hshape).
  - intros [U Hne]. apply Hu; assumption.
Qed.

Lemma myalloc_used (st : state) (bs : list block) (fl : list Z) (n : Z)
      (st' : state) (p : Z) :
  Inv st bs fl -> 0 <= n < 2 ^ 31 ->
  myalloc st n = Some (st', p) -> p <> NULL ->
  exists bs' fl',
    Inv st' bs' fl' /\ mem st' = mem st /\ MEMORY_SIZE st' = MEMORY_SIZE st /\
    ~ In (p - 4) (used_addrs (mem st) bs) /\
    forall u, In u (used_addrs (mem st) bs') <->
              u = p - 4 \/ In u (used_addrs (mem st) bs).
Proof.
  intros I Hn Ea Hp. pose proof (inv_heap _ _ _ I) as H.
  destruct (myalloc_spec st bs fl n I Hn) as
    [[E _]|(pre & sp & post & l1 & l2 & st'' & Ebs & Efl & Hle & E & Em & Es & _ & Hc)].
  { rewrite E in Ea. inversion Ea. subst. contradiction. }
  rewrite E in Ea. inversion Ea. subst st'' p. clear Ea. subst bs.
  replace (mem st + total pre + 4 - 4) with (mem st + total pre) by lia.
  assert (Hnot : ~ In (mem st + total pre)
                   (used_addrs (mem st) (pre ++ Free sp :: post))).
  { apply (free_not_used _ _ _ sp (heap_sizes _ _ _ H)). apply layout_mid. }
  assert (Hiff : forall mid', total mid' = total [Free sp] ->
            (forall u, In u (used_addrs (mem st + total pre) mid') <->
                       u = mem st + total pre) ->
            forall u, In u (used_addrs (mem st) (pre ++ mid' ++ post)) <->
                      u = mem st + total pre \/
                      In u (used_addrs (mem st) (pre ++ [Free sp] ++ post))).
  { intros mid' Ht Hm u. rewrite !used_parts, Ht, Hm. cbn [used_addrs is_free app In].
    tauto. }
  destruct Hc as [[Hbig I']|[Hsmall I']].
  - eexists _, _. split; [exact I'|]. split; [exact Em|]. split; [exact Es|].
    split; [exact Hnot|].
    apply (Hiff [Used (Z.max n 20); Free (sp - Z.max n 20 - 8)]).
    + cbn [total]. unfold extent, sizeof_int. cbn [size]. lia.
    + intros u. cbn [used_addrs is_free app In]. intuition congruence.
  - eexists _, _. split; [exact I'|]. split; [exact Em|]. split; [exact Es|].
    split; [exact Hnot|].
    apply (Hiff [Used sp]).
    + reflexivity.
    + intros u. cbn [used_addrs is_free app In]. intuition congruence.
Qed.

Lemma myrealloc_used (st : state) (pre post : list block) (s : Z) (fl : list Z)
      (sz : Z) (st' : state) (q : Z) :
  Inv st (pre ++ Used s :: post) fl -> 0 <= sz < 2 ^ 31 ->
  myrealloc st (mem st + total pre + 4) sz = Some (st', q) -> q <> NULL ->
  exists bs' fl',
    Inv st' bs' fl' /\
    ~ (In (q - 4) (used_addrs (mem st) (pre ++ Used s :: post)) /\
       q - 4 <> mem st + total pre) /\
    forall u, In u (used_addrs (mem st) bs') <->
              u = q - 4 \/
              (In u (used_addrs (mem st) (pre ++ Used s :: post)) /\
               u <> mem st + total pre).
Proof.
  intros I Hsz E Hq.
  destruct (myrealloc_success_eq _ _ _ _ _ E Hq) as (st1 & st2 & Ef & Ea & ->).
  destruct (myfree_used _ _ _ _ _ I) as (st1' & bs1 & fl1 & Ef' & I1 & Em1 & Es1 & U1).
  rewrite Ef in Ef'. inversion Ef'. subst st1'. clear Ef'.
  destruct (myalloc_used _ _ _ _ _ _ I1 Hsz Ea Hq)
    as (bs2 & fl2 & I2 & Em2 & Es2 & Hnot & U2).
  rewrite Em1 in Hnot, U2.
  assert (Hin : In (q - 4) (used_addrs (mem st2) bs2)).
  { rewrite Em2, Em1. apply U2. now left. }
  destruct (Held_block st2 [] bs2 q Hin) as (pre2 & k & post3 & -> & ->).
  pose proof (Heap_copy st2 pre2 post3 k fl2 (mem st + total pre + 4) sz
                (node_next st (mem st + total pre + 4 - sizeof_int))
                (node_prev st (mem st + total pre + 4 - sizeof_int))
                (inv_heap _ _ _ I2)) as H3.
  eexists _, _. split.
  { apply (Inv_relist st2 _ _ fl2 fl2 I2 H3); [reflexivity|apply incl_refl]. }
  split.
  - intros C. apply Hnot. apply U1. exact C.
  - intros u. rewrite U2, U1. reflexivity.
Qed.

Lemma exec_Owned (st : state) (live : list Z) (o : op) :
  Owned st live ->
  match exec st live o with
  | Done st' live' => Owned st' live'
  | IllFormed => True
  | Aborted => False
  end.
Proof.
  intros (bs & fl & I & Hnd & Hl). pose proof (inv_heap _ _ _ I) as H.
  destruct o as [n|p|p n|p i v]; cbn [exec].
  - destruct (is_size n) eqn:En; [|exact Logic.I].
    unfold is_size in En. apply andb_true_iff in En. destruct En as [E1 E2].
    apply Z.ltb_lt in E1, E2.
    assert (Hn : 0 <= n < 2 ^ 31) by lia.
    destruct (myalloc_spec st bs fl n I Hn)
      as [[Ea _]|(pre & sp & post & l1 & l2 & st' & Ebs & _ & _ & Ea & _)].
    + rewrite Ea, Z.eqb_refl. exists bs, fl. split; [exact I|]. split; assumption.
    + rewrite Ea.
      assert (Hp : mem st + total pre + 4 <> NULL).
      { subst bs. destruct (Heap_block _ _ _ _ _ H) as (_ & _ & _ & Hp & _).
        pose proof (heap_base _ _ _ H). unfold NULL. lia. }
      destruct (Z.eqb_spec (mem st + total pre + 4) NULL) as [C|_]; [contradiction|].
      destruct (myalloc_used _ _ _ _ _ _ I Hn Ea Hp)
        as (bs' & fl' & I' & Em & _ & Hnot & U).
      exists bs', fl'. split; [exact I'|]. split.
      * constructor; [|exact Hnd]. intros C. apply Hnot. apply Hl. exact C.
      * intros q. rewrite Em, U. cbn [In]. rewrite Hl. split.
        -- intros [<-|C]; [now left|now right].
        -- intros [C|C]; [left; lia|now right].
  - destruct (holds p live) eqn:Eh; [|exact Logic.I]. apply holds_In in Eh.
    destruct (Held_block st live bs p (proj1 (Hl p) Eh)) as (pre & s & post & -> & ->).
    destruct (myfree_used _ _ _ _ _ I) as (st' & bs' & fl' & Ef & I' & Em & _ & U).
    rewrite Ef. exists bs', fl'. split; [exact I'|]. split.
    + apply NoDup_remove_elt. exact Hnd.
    + intros q. rewrite Em, U, <- Hl. split.
      * intros C. apply in_remove in C. destruct C as [C Hne]. split; [exact C|lia].
      * intros [C Hne]. apply in_in_remove; [lia|exact C].
  - destruct (holds p live) eqn:Eh; [|exact Logic.I]. apply holds_In in Eh.
    destruct (is_size n) eqn:En; [|exact Logic.I]. cbn [andb].
    unfold is_size in En. apply andb_true_iff in En. destruct En as [E1 E2].
    apply Z.ltb_lt in E1, E2.
    assert (Hn : 0 <= n < 2 ^ 31) by lia.
    destruct (Held_block st live bs p (proj1 (Hl p) Eh)) as (pre & s & post & -> & ->).
    destruct (myrealloc_spec _ _ _ _ _ n I Hn)
      as (st' & q & bs' & fl' & Er & I' & Em & _ & Hq').
    rewrite Er.
    destruct (Z.eqb_spec q NULL) as [->|Hq].
    + destruct Hq' as [[_ ->]|[C _]]; [|contradiction].
      eexists _, fl'. split; [exact I'|]. split; [exact Hnd|].
      intros u. rewrite Em. apply Hl.
    + destruct (myrealloc_used _ _ _ _ _ _ _ _ I Hn Er Hq) as (bs2 & fl2 & I2 & Hnot & U).
      exists bs2, fl2. split; [exact I2|]. split.
      * constructor; [|apply NoDup_remove_elt; exact Hnd].
        intros C. apply in_remove in C. destruct C as [C Hne].
        apply Hnot. split; [apply Hl; exact C|lia].
      * intros u. rewrite Em, U. cbn [In]. split.
        -- intros [<-|C]; [now left|right].
           apply in_remove in C. destruct C as [C Hne]. split; [apply Hl; exact C|lia].
        -- intros [C|[C Hne]]; [left; lia|right].
           apply in_in_remove; [lia|apply Hl; exact C].
  - destruct (holds p live) eqn:Eh; [|exact Logic.I]. cbn [andb].
    destruct (Z.leb_spec 0 i) as [Hi|_]; [|exact Logic.I]. cbn [andb].
    apply holds_In in Eh.
    destruct (Held_block st live bs p (proj1 (Hl p) Eh)) as (pre & s & post & -> & ->).
    unfold sizeof_int.
    replace (mem st + total pre + 4 - 4) with (mem st + total pre) by lia.
    rewrite (node_space_block _ _ _ _ _ H). cbn [tag]. rewrite Z.opp_involutive.
    destruct (Z.ltb_spec i s) as [Hi'|_]; [|exact Logic.I].
    exists (pre ++ Used s :: post), fl. split; [|split; [exact Hnd|exact Hl]].
    apply (Inv_relist st _ _ fl fl I); [|reflexivity|apply incl_refl].
    apply (Heap_payload st _ pre post s fl H); try reflexivity.
    intros x Hx. unfold write_byte. st_goal. apply store_byte_other. lia.
Qed.

Lemma run_Owned (ops : list op) : forall (st : state) (live : list Z)
      (st' : state) (live' : list Z),
  Owned st live -> run st live ops = Done st' live' -> Owned st' live'.
Proof.
  induction ops as [|o r IH]; intros st live st' live' Ho E; cbn [run] in E.
  - inversion E. subst. exact Ho.
  - pose proof (exec_Owned st live o Ho) as He.
    destruct (exec st live o) as [st1 live1| |]; try discriminate E.
    exact (IH _ _ _ _ He E).
Qed.

Lemma Owned_init (n base : Z) (m0 : memory) :
  28 <= n < 2 ^ 31 -> 0 < base -> base + n < 2 ^ 64 ->
  Owned (init_myalloc n base m0) [].
Proof.
  intros Hn Hb Ht. exists [Free (n - 8)], [base].
  split; [now apply Inv_init|]. split; [constructor|].
  intros p. cbn [used_addrs is_free In]. tauto.
Qed.

Lemma Owned_Held (st : state) (live : list Z) : Owned st live -> Held st live.
Proof.
  intros (bs & fl & I & _ & Hl). exists bs, fl. split; [exact I|].
  intros p Hp. apply Hl. exact Hp.
Qed.

Lemma no_used_all_free (bs : list block) : forall a,
  (forall u, ~ In u (used_addrs a bs)) -> forall b, In b bs -> is_free b = true.
Proof.
  induction bs as [|c r IH]; intros a Hno b Hb; [destruct Hb|].
  cbn [used_addrs] in Hno. destruct (is_free c) eqn:Ec.
  - destruct Hb as [<-|Hb]; [exact Ec|]. exact (IH _ Hno b Hb).
  - exfalso. apply (Hno a). now left.
Qed.

Lemma all_free_single (bs : list block) :
  (forall b, In b bs -> is_free b = true) -> no_adjacent_free bs ->
  bs = [] \/ exists s, bs = [Free s].
Proof.
  intros Hall Hadj. destruct bs as [|b [|c r]].
  - now left.
  - right. specialize (Hall b (or_introl eq_refl)).
    destruct b as [s|s]; [|discriminate Hall]. now exists s.
  - exfalso. cbn [no_adjacent_free] in Hadj. destruct Hadj as [C _].
    rewrite (Hall b), (Hall c) in C; [discriminate C|right; now left|now left].
Qed.

(** With no pointer held the pool is one free block, as after
    initialisation. *)
Lemma Owned_nil (st : state) :
  Owned st [] -> 0 < MEMORY_SIZE st ->
  Inv st [Free (MEMORY_SIZE st - 8)] [mem st].
Proof.
  intros (bs & fl & I & _ & Hl) Hpos. pose proof (inv_heap _ _ _ I) as H.
  assert (Hno : forall u, ~ In u (used_addrs (mem st) bs)).
  { intros u Hu. apply (proj2 (Hl (u + 4))). replace (u + 4 - 4) with u by lia. exact Hu. }
  destruct (all_free_single bs (no_used_all_free _ _ Hno) (inv_adj _ _ _ I))
    as [->|[s ->]].
  { pose proof (heap_total _ _ _ H) as T. cbn [total] in T. lia. }
  pose proof (heap_total _ _ _ H) as T. cbn [total] in T.
  unfold extent, sizeof_int in T. cbn [size] in T.
  replace (MEMORY_SIZE st - 8) with s by lia.
  assert (Efl : fl = [mem st]).
  { pose proof (heap_incl _ _ _ H) as Hi. pose proof (inv_all _ _ _ I) as Ha.
    pose proof (heap_nodup _ _ _ H) as Hnd.
    cbn [free_addrs is_free] in Hi, Ha.
    destruct fl as [|x [|y r]].
    - destruct (Ha (mem st) (or_introl eq_refl)).
    - destruct (Hi x (or_introl eq_refl)) as [<-|[]]. reflexivity.
    - exfalso. destruct (Hi x (or_introl eq_refl)) as [<-|[]].
      destruct (Hi y (or_intror (or_introl eq_refl))) as [<-|[]].
      inversion Hnd as [|? ? Hx _]. apply Hx. now left. }
  rewrite <- Efl. exact I.
Qed.

End Ownership.

Section Ownership_Statements.


(** X28.  Once every pointer obtained has been released the pool is one free block
    of [n - 8] bytes again, alone on the free list, as after [init_myalloc];
    any request of up to [n - 8] bytes is then served from the start of the
    pool. *)
Theorem all_released_one_block (n base : Z) (m0 : memory) (ops : list op)
        (st : state) :
  28 <= n < 2 ^ 31 -> 0 < base -> base + n < 2 ^ 64 ->
  run (init_myalloc n base m0) [] ops = Done st [] ->
  freeList st = base /\
  node_space st base = n - 8 /\ load_int (bytes st) (base + n - 4) = n - 8 /\
  node_next st base = NULL /\ node_prev st base = NULL /\
  forall k, 0 <= k <= n - 8 -> exists st', myalloc st k = Some (st', base + 4).
Proof.
  intros Hn Hb Ht E.
  pose proof (Owned_init n base m0 Hn Hb Ht) as H0.
  pose proof (run_Owned ops _ _ _ _ H0 E) as Ho.
  pose proof (run_Held ops _ _ (Owned_Held _ _ H0)) as Hh. rewrite E in Hh.
  destruct Hh as (_ & Em & Es).
  assert (Em' : mem st = base) by (rewrite Em; reflexivity).
  assert (Es' : MEMORY_SIZE st = n) by (rewrite Es; reflexivity).
  pose proof (Owned_nil st Ho ltac:(lia)) as I. rewrite Em', Es' in I.
  pose proof (inv_heap _ _ _ I) as H.
  pose proof (heap_dll _ _ _ H) as D. cbn [dll] in D.
  destruct D as (Ef & _ & Ep & En).
  pose proof (heap_tags _ _ _ H) as T. unfold tags_ok in T. rewrite Em' in T.
  cbn [layout] in T. inversion T as [|? ? [T1 T2] _]. cbn [fst snd tag size] in T1, T2.
  split; [exact Ef|]. split.
  { unfold node_space, off_space. rewrite Z.add_0_r. exact T1. }
  split.
  { unfold sizeof_int in T2. replace (base + n - 4) with (base + 4 + (n - 8)) by lia.
    exact T2. }
  split; [exact En|]. split; [exact Ep|].
  intros k Hk.
  destruct (myalloc_spec st _ _ k I ltac:(lia))
    as [[_ Hno]|(pre & sp & post & l1 & l2 & st' & Ebs & _ & _ & Ea & _)].
  - exfalso. specialize (Hno base (or_introl eq_refl)).
    unfold node_space, off_space in Hno. rewrite Z.add_0_r, T1 in Hno. lia.
  - exists st'. rewrite Ea. destruct pre as [|b pre].
    + cbn [total]. rewrite Em'. do 2 f_equal. lia.
    + exfalso. inversion Ebs as [[Eb Er]]. destruct pre; discriminate Er.
Qed.

End Ownership_Statements.

(* ------------------------------------------------------------------ *)
(** ** More concrete heaps *)

Section MoreExamples.

Lemma Inv_pool100_taken : Inv pool100_taken [Used 20; Free 64] [1028].
Proof.
  constructor; [constructor|..].
  - vm_compute. reflexivity.
  - vm_compute. reflexivity.
  - vm_compute. reflexivity.
  - vm_compute. reflexivity.
  - repeat constructor; vm_compute; discriminate.
  - unfold tags_ok. cbn [layout].
    repeat (apply Forall_cons; [split; vm_compute; reflexivity|]). apply Forall_nil.
  - cbn [dll]. split; [vm_compute; reflexivity|]. split; [discriminate|].
    split; [vm_compute; reflexivity|]. vm_compute. reflexivity.
  - repeat constructor. intros [].
  - intros g Hg. vm_compute in Hg |- *. exact Hg.
  - intros g Hg. vm_compute in Hg |- *. exact Hg.
  - vm_compute. split; [reflexivity|exact I].
Qed.

Lemma Inv_pool200_undone :
  Inv pool200_undone [Free 20; Used 20; Used 20; Used 20; Free 80] [1112; 1000].
Proof.
  constructor; [constructor|..].
  - vm_compute. reflexivity.
  - vm_compute. reflexivity.
  - vm_compute. reflexivity.
  - vm_compute. reflexivity.
  - repeat constructor; vm_compute; discriminate.
  - unfold tags_ok. cbn [layout].
    repeat (apply Forall_cons; [split; vm_compute; reflexivity|]). apply Forall_nil.
  - cbn [dll]. split; [vm_compute; reflexivity|]. split; [discriminate|].
    split; [vm_compute; reflexivity|].
    split; [vm_compute; reflexivity|]. split; [discriminate|].
    split; [vm_compute; reflexivity|]. vm_compute. reflexivity.
  - constructor; [intros [C|[]]; discriminate C|]. constructor; [intros []|constructor].
  - intros g Hg. vm_compute in Hg |- *. destruct Hg as [<-|[<-|[]]]; auto.
  - intros g Hg. vm_compute in Hg |- *. destruct Hg as [<-|[<-|[]]]; auto.
  - vm_compute. repeat split.
Qed.

Lemma Heap_pool200_cut :
  Heap pool200_cut [Free 20; Used 20; Used 20; Used 20; Free 20; Free 52] [1000; 1112].
Proof.
  apply (Heap_splitBlock pool200_four [Free 20; Used 20; Used 20; Used 20] [] 80 20
           [1000; 1112] (inv_heap _ _ _ Inv_pool200_four)); lia.
Qed.

Lemma Heap_pool200_three :
  Heap pool200_three [Free 20; Used 20; Used 20; Used 20; Free 20; Free 52]
       [1140; 1000; 1112].
Proof.
  apply (Heap_addNode pool200_cut _ [1000; 1112] 1140 Heap_pool200_cut).
  - vm_compute. right. right. left. reflexivity.
  - intros [C|[C|[]]]; discriminate C.
Qed.

Lemma Heap_pool100_split : Heap pool100_split [Free 20; Free 64] [1028; 1000].
Proof.
  constructor.
  - vm_compute. reflexivity.
  - vm_compute. reflexivity.
  - vm_compute. reflexivity.
  - vm_compute. reflexivity.
  - repeat constructor; vm_compute; discriminate.
  - unfold tags_ok. cbn [layout].
    repeat (apply Forall_cons; [split; vm_compute; reflexivity|]). apply Forall_nil.
  - cbn [dll]. split; [vm_compute; reflexivity|]. split; [discriminate|].
    split; [vm_compute; reflexivity|].
    split; [vm_compute; reflexivity|]. split; [discriminate|].
    split; [vm_compute; reflexivity|]. vm_compute. reflexivity.
  - constructor; [intros [C|[]]; discriminate C|]. constructor; [intros []|constructor].
  - intros g Hg. vm_compute in Hg |- *. destruct Hg as [<-|[<-|[]]]; auto.
Qed.

Lemma isValid_accepts_block_in_use_witness : isValid pool100_taken 1004 = 1.
Proof.
  apply (isValid_accepts_block_in_use pool100_taken [Used 20; Free 64] [1028] 1004).
  - exact (inv_heap _ _ _ Inv_pool100_taken).
  - vm_compute. left. reflexivity.
Defined.

Lemma myfree_aborts_on_free_block_witness : myfree pool100 1004 = None.
Proof.
  apply (myfree_aborts_on_free_block pool100 [Free 92] [1000] 1004).
  - exact (inv_heap _ _ _ Inv_pool100).
  - vm_compute. left. reflexivity.
Defined.

Lemma myalloc_null_iff_no_fit_witness :
  exists st' p, myalloc pool100 20 = Some (st', p) /\
    (p = NULL <-> forall y s, In (y, Free s) (layout (mem pool100) [Free 92]) -> s < 20) /\
    (p = NULL -> st' = pool100).
Proof.
  apply (myalloc_null_iff_no_fit pool100 [Free 92] [1000] 20); [exact Inv_pool100|lia].
Defined.

Lemma myalloc_returns_fresh_block_witness :
  exists bs' fl' k,
    Inv pool100_taken bs' fl' /\ mem pool100_taken = mem pool100 /\
    MEMORY_SIZE pool100_taken = MEMORY_SIZE pool100 /\
    In (1004 - 4, Used k) (layout (mem pool100) bs') /\
    20 <= k /\ 20 <= k /\
    mem pool100 + 4 <= 1004 /\ 1004 + k + 4 <= mem pool100 + MEMORY_SIZE pool100 /\
    (forall x, 1004 - 4 <= x < 1004 + k + 4 -> in_free_block (mem pool100) [Free 92] x) /\
    (forall y s, In (y, Used s) (layout (mem pool100) [Free 92]) ->
       In (y, Used s) (layout (mem pool100) bs') /\
       (y + s + 8 <= 1004 - 4 \/ 1004 + k + 4 <= y)).
Proof.
  apply (myalloc_returns_fresh_block pool100 [Free 92] [1000] 20 pool100_taken 1004);
    [exact Inv_pool100|lia|vm_compute; reflexivity|discriminate].
Defined.

Lemma myalloc_takes_smallest_fit_witness :
  exists sp,
    In (1004 - 4, Free sp)
       (layout (mem pool200_undone) [Free 20; Used 20; Used 20; Used 20; Free 80]) /\
    10 <= sp /\
    forall y s,
      In (y, Free s)
         (layout (mem pool200_undone) [Free 20; Used 20; Used 20; Used 20; Free 80]) ->
      10 <= s -> sp <= s.
Proof.
  apply (myalloc_takes_smallest_fit pool200_undone
           [Free 20; Used 20; Used 20; Used 20; Free 80] [1112; 1000] 10
           pool200_refit 1004);
    [exact Inv_pool200_undone|lia|vm_compute; reflexivity|discriminate].
Defined.

Lemma addNode_then_removeNode_witness :
  Heap (addNode pool200_cut 1140)
       [Free 20; Used 20; Used 20; Used 20; Free 20; Free 52] [1140; 1000; 1112] /\
  Heap (removeNode (addNode pool200_cut 1140) 1140)
       [Free 20; Used 20; Used 20; Used 20; Free 20; Free 52] [1000; 1112] /\
  freeList (removeNode (addNode pool200_cut 1140) 1140) = freeList pool200_cut.
Proof.
  apply (addNode_then_removeNode pool200_cut
           [Free 20; Used 20; Used 20; Used 20; Free 20; Free 52] [1000; 1112] 1140).
  - exact Heap_pool200_cut.
  - vm_compute. right. right. left. reflexivity.
  - intros [C|[C|[]]]; discriminate C.
Defined.

Lemma removeNode_unlinks_witness :
  Heap (removeNode pool200_three 1000)
       [Free 20; Used 20; Used 20; Used 20; Free 20; Free 52] ([1140] ++ [1112]) /\
  forall x, (forall g, In g ([1140] ++ [1112]) -> x < g + 8 \/ g + 24 <= x) ->
    bytes (removeNode pool200_three 1000) x = bytes pool200_three x.
Proof.
  apply (removeNode_unlinks pool200_three
           [Free 20; Used 20; Used 20; Used 20; Free 20; Free 52] [1140] [1112] 1000).
  exact Heap_pool200_three.
Defined.

Lemma splitBlock_then_coalesce_witness :
  Heap (coalesce (addNode (fst (splitBlock pool100 (mem pool100 + total []) 20))
                          (snd (splitBlock pool100 (mem pool100 + total []) 20)))
                 (mem pool100 + total [])
                 (snd (splitBlock pool100 (mem pool100 + total []) 20)))
       ([] ++ Free 92 :: []) [1000].
Proof.
  apply (splitBlock_then_coalesce pool100 [] [] 92 20 [1000]);
    [exact (inv_heap _ _ _ Inv_pool100)|lia|lia].
Defined.

Lemma splitBlock_splits_witness :
  Heap (fst (splitBlock pool100 (mem pool100 + total []) 20))
       ([] ++ Free 20 :: Free (92 - 20 - 8) :: []) [1000] /\
  snd (splitBlock pool100 (mem pool100 + total []) 20) = mem pool100 + total [] + 20 + 8 /\
  forall x,
    x < mem pool100 + total [] \/ mem pool100 + total [] + 4 <= x ->
    x < mem pool100 + total [] + 4 + 20 \/ mem pool100 + total [] + 12 + 20 <= x ->
    x < mem pool100 + total [] + 4 + 92 \/ mem pool100 + total [] + 8 + 92 <= x ->
    bytes (fst (splitBlock pool100 (mem pool100 + total []) 20)) x = bytes pool100 x.
Proof.
  apply (splitBlock_splits pool100 [] [] 92 20 [1000]);
    [exact (inv_heap _ _ _ Inv_pool100)|lia|lia].
Defined.

Lemma coalesce_merges_witness :
  Heap (coalesce pool100_split (mem pool100_split + total [])
                 (mem pool100_split + total [] + 20 + 8))
       ([] ++ Free (20 + 64 + 8) :: []) ([] ++ [1000]) /\
  forall x,
    x < mem pool100_split + total [] \/ mem pool100_split + total [] + 4 <= x ->
    x < mem pool100_split + total [] + 20 + 64 + 12 \/
    mem pool100_split + total [] + 20 + 64 + 16 <= x ->
    (forall g, In g ([] ++ [1000]) -> x < g + 8 \/ g + 24 <= x) ->
    bytes (coalesce pool100_split (mem pool100_split + total [])
                    (mem pool100_split + total [] + 20 + 8)) x =
    bytes pool100_split x.
Proof.
  apply (coalesce_merges pool100_split [] [] 20 64 [] [1000]).
  exact Heap_pool100_split.
Defined.

Lemma myalloc_then_myfree_witness :
  exists st2 l1 l2,
    myfree pool100_taken 1004 = Some st2 /\
    [1000] = l1 ++ (1004 - 4) :: l2 /\
    Inv st2 [Free 92] ((1004 - 4) :: l1 ++ l2).
Proof.
  apply (myalloc_then_myfree pool100 [Free 92] [1000] 20 pool100_taken 1004);
    [exact Inv_pool100|lia|vm_compute; reflexivity|discriminate].
Defined.

Lemma myfree_then_myalloc_same_size_witness :
  exists st1 st2,
    myfree pool200_four (mem pool200_four + total [Free 20; Used 20] + 4) = Some st1 /\
    myalloc st1 20 = Some (st2, mem pool200_four + total [Free 20; Used 20] + 4) /\
    Inv st2 ([Free 20; Used 20] ++ Used 20 :: [Used 20; Free 80]) [1000; 1112].
Proof.
  apply (myfree_then_myalloc_same_size pool200_four [Free 20; Used 20]
           [Used 20; Free 80] 20 [1000; 1112]);
    [exact Inv_pool200_four|reflexivity|reflexivity].
Defined.


Lemma live_blocks_disjoint_witness :
  (forall p, In p [1088; 1060; 1032] ->
     20 <= - node_space pool200_four (p - 4) /\
     1000 + 4 <= p /\ p + - node_space pool200_four (p - 4) + 4 <= 1000 + 200) /\
  (forall p q, In p [1088; 1060; 1032] -> In q [1088; 1060; 1032] -> p <> q ->
     p + - node_space pool200_four (p - 4) + 8 <= q \/
     q + - node_space pool200_four (q - 4) + 8 <= p).
Proof.
  apply (live_blocks_disjoint 200 1000 zeroes
           [Alloc 20; Alloc 20; Alloc 20; Alloc 20; Release 1004]
           pool200_four [1088; 1060; 1032]); [lia|lia|lia|].
  vm_compute. reflexivity.
Defined.

Lemma allocate_fills_block_witness :
  exists st1 st' p,
    myalloc pool100 20 = Some (st1, p) /\ allocate pool100 20 65 = Some (st', p) /\
    (p = NULL -> st' = pool100) /\
    (p <> NULL ->
     (forall i, 0 <= i < 20 -> bytes st' (p + i) = 65 mod 256) /\
     (forall x, x < p \/ p + 20 <= x -> bytes st' x = bytes st1 x) /\
     exists bs' fl', Inv st' bs' fl' /\ In (p - 4) (used_addrs (mem st') bs')).
Proof.
  apply (allocate_fills_block pool100 [Free 92] [1000] 20 65); [exact Inv_pool100|lia].
Defined.

Lemma copy_loop_copies_witness :
  load_byte (copy_loop 3 (fun a => a) 0 10 0) (0 + 1) = load_byte (fun a => a) (10 + 1).
Proof.
  apply (copy_loop_copies 0 10 3 (fun a => a) 0); [left; lia|lia].
Defined.

Lemma myfree_frame_witness :
  (forall x, ~ in_free_block (mem pool200_four)
                 [Free 20; Used 20; Used 20; Used 20; Free 80] x ->
     x < 1060 - 4 \/ 1060 - node_space pool200_four (1060 - 4) + 4 <= x ->
     bytes pool200_released x = bytes pool200_four x) /\
  (forall y t, In (y, Used t) (layout (mem pool200_four)
                                     [Free 20; Used 20; Used 20; Used 20; Free 80]) ->
     y <> 1060 - 4 ->
     forall x, y <= x < y + t + 8 -> bytes pool200_released x = bytes pool200_four x) /\
  (forall x, x < mem pool200_four \/ mem pool200_four + MEMORY_SIZE pool200_four <= x ->
     bytes pool200_released x = bytes pool200_four x).
Proof.
  apply (myfree_frame pool200_four [Free 20; Used 20; Used 20; Used 20; Free 80]
           [1000; 1112] 1060 pool200_released).
  - exact Inv_pool200_four.
  - vm_compute. right. left. reflexivity.
  - vm_compute. reflexivity.
Defined.

Lemma myfree_twice_aborts_witness :
  exists st', myfree pool200_four 1060 = Some st' /\ myfree st' 1060 = None.
Proof.
  apply (myfree_twice_aborts pool200_four [Free 20; Used 20; Used 20; Used 20; Free 80]
           [1000; 1112] 1060).
  - exact Inv_pool200_four.
  - vm_compute. right. left. reflexivity.
Defined.

Lemma myfree_merges_neighbours_witness :
  exists st' bs' fl',
    myfree pool200_four (mem pool200_four + total [Free 20; Used 20] + 4) = Some st' /\
    Inv st' bs' fl' /\
    free_shape (mem pool200_four) [Free 20; Used 20] [Used 20; Free 80] 20
               [1000; 1112] bs' fl'.
Proof.
  apply (myfree_merges_neighbours pool200_four [Free 20; Used 20] [Used 20; Free 80] 20
           [1000; 1112]).
  exact Inv_pool200_four.
Defined.

Lemma myrealloc_null_keeps_heap_witness :
  (exists fl', Inv pool200_undone [Free 20; Used 20; Used 20; Used 20; Free 80] fl' /\
               Permutation [1000; 1112] fl') /\
  (forall i, 0 <= i < - node_space pool200_four (1088 - 4) ->
     load_byte (bytes pool200_undone) (1088 + i) =
     load_byte (bytes pool200_four) (1088 + i)) /\
  (forall y t, In (y, Used t) (layout (mem pool200_four)
                                     [Free 20; Used 20; Used 20; Used 20; Free 80]) ->
     y <> 1088 - 4 ->
     forall x, y <= x < y + t + 8 -> bytes pool200_undone x = bytes pool200_four x) /\
  (forall x, x < mem pool200_four \/ mem pool200_four + MEMORY_SIZE pool200_four <= x ->
     bytes pool200_undone x = bytes pool200_four x).
Proof.
  apply (myrealloc_null_keeps_heap pool200_four
           [Free 20; Used 20; Used 20; Used 20; Free 80] [1000; 1112] 1088 1000
           pool200_undone).
  - exact Inv_pool200_four.
  - vm_compute. right. right. left. reflexivity.
  - lia.
  - vm_compute. reflexivity.
Defined.

Lemma myrealloc_frame_witness :
  (forall x, ~ in_free_block (mem pool200_four)
                 [Free 20; Used 20; Used 20; Used 20; Free 80] x ->
     x < 1060 - 4 \/ 1060 - node_space pool200_four (1060 - 4) + 4 <= x ->
     bytes pool200_moved x = bytes pool200_four x) /\
  (forall y t, In (y, Used t) (layout (mem pool200_four)
                                     [Free 20; Used 20; Used 20; Used 20; Free 80]) ->
     y <> 1060 - 4 ->
     forall x, y <= x < y + t + 8 -> bytes pool200_moved x = bytes pool200_four x) /\
  (forall x, x < mem pool200_four \/ mem pool200_four + MEMORY_SIZE pool200_four <= x ->
     bytes pool200_moved x = bytes pool200_four x).
Proof.
  apply (myrealloc_frame pool200_four [Free 20; Used 20; Used 20; Used 20; Free 80]
           [1000; 1112] 1060 30 pool200_moved 1116).
  - exact Inv_pool200_four.
  - vm_compute. right. left. reflexivity.
  - lia.
  - vm_compute. reflexivity.
Defined.

Lemma run_writes_inside_pool_witness :
  bytes pool200_four 1200 = zeroes 1200.
Proof.
  apply (run_writes_inside_pool 200 1000 zeroes
           [Alloc 20; Alloc 20; Alloc 20; Alloc 20; Release 1004]
           pool200_four [1088; 1060; 1032]); [lia|lia|lia| |right; lia].
  vm_compute. reflexivity.
Defined.

Lemma live_block_kept_witness :
  In 1060 [1116; 1088; 1060] /\
  node_space pool200_later (1060 - 4) = node_space pool200_four (1060 - 4) /\
  forall i, 0 <= i < - node_space pool200_four (1060 - 4) ->
    bytes pool200_later (1060 + i) = bytes pool200_four (1060 + i).
Proof.
  apply (live_block_kept 200 1000 zeroes
           [Alloc 20; Alloc 20; Alloc 20; Alloc 20; Release 1004]
           [Release 1032; Alloc 50; Store 1088 3 7]
           pool200_four [1088; 1060; 1032] pool200_later [1116; 1088; 1060] 1060).
  - lia.
  - lia.
  - lia.
  - vm_compute. reflexivity.
  - right. left. reflexivity.
  - intros o [<-|[<-|[<-|[]]]]; reflexivity.
  - vm_compute. reflexivity.
Defined.

Lemma myrealloc_moves_payload_witness :
  load_byte (bytes pool200_moved) (1116 + 5) =
  load_byte (bytes pool200_four) (mem pool200_four + total [Free 20; Used 20] + 4 + 5).
Proof.
  apply (myrealloc_moves_payload pool200_four [Free 20; Used 20] [Used 20; Free 80] 20
           [1000; 1112] 30 pool200_moved 1116).
  - exact Inv_pool200_four.
  - reflexivity.
  - lia.
  - vm_compute. reflexivity.
  - discriminate.
  - vm_compute. split; [discriminate|reflexivity].
Defined.


Lemma all_released_one_block_witness :
  freeList pool200_idle = 1000 /\
  node_space pool200_idle 1000 = 200 - 8 /\
  load_int (bytes pool200_idle) (1000 + 200 - 4) = 200 - 8 /\
  node_next pool200_idle 1000 = NULL /\ node_prev pool200_idle 1000 = NULL /\
  forall k, 0 <= k <= 200 - 8 -> exists st', myalloc pool200_idle k = Some (st', 1000 + 4).
Proof.
  apply (all_released_one_block 200 1000 zeroes
           [Alloc 20; Alloc 50; Release 1004; Release 1032] pool200_idle);
    [lia|lia|lia|].
  vm_compute. reflexivity.
Defined.

End MoreExamples.
